(* ===== verification/_CoqProject ===== *)
-Q . S2P
Prelude.v
Safe.v
Uint128.v
BlockId.v
Utf8.v
Asset.v
Raw.v
Authority.v
Objects.v
Reward.v
Balance.v
Supply.v
WitnessProps.v
Transfers.v
Comments.v
Market.v
MarketHistory.v
Vesting.v
PowerDown.v
Accounts.v
Voting.v
Operation.v
Invariant.v
OperationFrame.v
KeyLookup.v
Cashout.v
Content.v
Transaction.v
Totals.v
Block.v
Schedule.v
Chain.v
BlockInvariant.v
Head.v
Undo.v
ForkDb.v
BlockLog.v
Node.v
Generate.v
Demo.v
DemoChain.v
DemoNode.v
