(* ===== verification/Prelude.v ===== *)
(** * A verification of the Steem chain

    Steem is a blockchain for posts and votes.  A node (steemd) receives blocks,
    applies them to a database of objects, and offers the state through plugins.
    This library models the part that every node must compute alike, the chain
    itself: the arithmetic it is built on (src/src/base/fc), the protocol (assets,
    authorities, operations: src/src/core/protocol) and the state transitions
    (evaluators and block processing: src/src/core/chain).

    ** The program and its parts

    A transaction carries operations.  database::_apply_transaction validates it,
    checks its signatures, its expiration and that it is new, and gives each
    operation to its evaluator, which reads and modifies objects of the database.
    database::_apply_block does so for the transactions of a block and then runs
    the processing that belongs to the block: feeds, inflation, payouts, savings,
    withdrawals, expired orders, hardforks, irreversibility, the witness schedule.
    database::push_block puts a block into the fork database, applies it in an undo
    session or switches to a longer branch, writes irreversible blocks to the block
    log, and pushes the transactions that still wait.

    The files, in the order of their dependencies:

    - [Prelude]: results and their monad, bounded loops, record update, sums over
      finite maps, lexicographic orders, the hint databases.
    - [Safe] (fc/safe.hpp), [Uint128] (fc/uint128.hpp, uint128.cpp), [Utf8]
      (fc/utf8.cpp and the utf8 headers), [Raw] (fc/io/raw.hpp): the parts of fc
      the chain computes with.
    - [BlockId] (protocol/block_header.hpp, block.cpp): block ids, the number in an
      id, merkle roots.
    - [Asset] (protocol/asset_symbol.hpp, asset.hpp, asset.cpp): symbols, NAIs and
      their check digits, assets, prices and their serialization.
    - [Authority] (protocol/authority.cpp, sign_state.cpp, transaction_util.hpp):
      account names, authorities and the checking of signatures.
    - [Objects] (the object headers of src/src/core/chain): a record for each
      object class, the database with a map for each index, find, modify, create
      and remove.
    - [Reward] (chain/utils/reward.cpp): reward curves and shares.
    - [Balance] (database.cpp): the members that move value.
    - [Supply] (database::validate_invariants): the accounting equations and how
      the members of [Balance] move them.
    - [WitnessProps], [Transfers], [Comments], [Market], [Vesting], [Accounts]
      (steem_evaluator.cpp, database.cpp): the evaluators and the block processing
      of the same objects; [PowerDown]: a power down runs to its end; [Voting]: the
      proxies and votes of accounts.
    - [MarketHistory] (plugins/market_history): the statistics of trades.
    - [Operation] (protocol/steem_operations.hpp, steem_operations.cpp): the
      operation variant, validate, the required authorities and the dispatch.
    - [Invariant]: the ledger invariant and its preservation by each operation;
      [OperationFrame]: what operations leave alone.
    - [KeyLookup] (plugins/account_by_key): the index from keys to accounts.
    - [Cashout] (database::process_comment_cashout): the payout of comments;
      [Content]: the invariant of posts and votes that the payout relies on.
    - [Transaction] (database::_apply_transaction): transactions and replay.
    - [Totals]: validate_invariants computes the equations of [Supply].
    - [Block] (database.cpp): slots, headers, irreversibility, feeds, inflation,
      hardforks.
    - [Schedule] (witness_schedule.cpp): the election and the order of witnesses.
    - [Chain] (database::init_genesis, _apply_block, apply_block): genesis, every
      step of a block in the order of the code, checkpoints.
    - [BlockInvariant]: blocks preserve the ledger, from genesis on; [Head]: blocks
      extend the head, and transactions are not applied twice across blocks.
    - [Undo] (chainbase.hpp, chainbase.cpp): the undo stacks of the indices.
    - [ForkDb] (fork_database.cpp): the tree of blocks that are not irreversible.
    - [BlockLog] (block_log.cpp): the files of the irreversible blocks.
    - [Node] (database::push_block, pop_block, push_transaction, the second half of
      update_last_irreversible_block; db_with.hpp): a node that receives blocks and
      transactions; [Generate] (database::_generate_block): a node that makes one.
    - [Demo], [DemoChain], [DemoNode]: a small state, a chain from genesis and a node
      with two branches, on which the theorems are instantiated.

    ** How code becomes definitions

    A function that may throw returns a [result]; FC_ASSERT is [fc_assert], an
    exception of another class keeps its name.  A member function of database takes
    the database and returns the new one; a reference to an object is its key, and
    every read is a lookup in the current database, so that aliasing is kept.  An
    int64_t of share_type is a [Z] whose operators are those of [Safe], which
    throw on overflow; a uint128_t is a [Z] modulo 2^128, which [Uint128] proves to
    be what the two-word implementation computes; narrow unsigned integers are
    wrapped where the code wraps.  A multi_index is a finite map under its unique
    key; the order of a secondary index is a comparison, and begin() of it is
    [first_by].  A loop that removes or postpones the first element of an index is
    [while_next] with the size of the index as its bound; the termination theorems
    show that the bound is enough.  The other bounds are numbers that the loop
    lowers: the number of the head of the fork database for popping blocks and
    walking down branches, the length of the log file for rebuilding its index, the
    distance between the last irreversible block and the head of the log for writing
    it.  The theorems about these loops state their results, which a loop that runs
    out of its bound does not have.

    Layers are kept apart by what one promises to the next.  [Undo] shows that the
    stacks of changes implement copies of the state, and [Node] keeps copies;
    [BlockLog] shows that the files implement a list of blocks, and [Node] keeps the
    list; the packing of a block is the interface [LogBlock] there.

    Chain constants are those of the live network (config.hpp without IS_TEST_NET),
    and the code is that of the default build (CLEAR_VOTES on, IS_LOW_MEM off).

    ** What the theorems show

    - The ledger.  What validate_invariants checks (the supplies of STEEM, SBD and
      vesting shares are the sums of what accounts, orders, escrows, savings,
      reward funds and conversions hold, and the witness votes are the vesting
      shares in existence) holds at genesis (genesis_chain_ok) and is an invariant
      of every validated transaction (transaction_preserves_ledger), of the payout of
      comments (cashout_pays_from_fund) and of whole blocks (block_preserves_chain), so
      that it holds in every reachable state (reachable_balanced); the checker is sound
      for it (validate_invariants_sound).  The last three need amounts in range: for the
      payout [cashout_ready], for a block validation and [block_in_range], and reachable
      are the states after such blocks.  The essential condition is [ratio_ok]: a unit
      of STEEM buys at least one unit of vesting shares.  Where it buys none the code
      credits a reward twice (shareless_reward_counted_twice).
    - Blocks extend the head (block_extends_head) and transactions are applied once,
      also across blocks (no_replay), and only with the signatures of the authorities
      they need, active, owner, posting or explicit (verify_authority_sound); the merkle
      root binds the transactions (merkle_root_binds).
    - The node: extending the head happens completely or not at all, except for a block
      that makes itself irreversible and then fails (extend_head_atomic), and so does
      switching to a longer branch while no block above the common ancestor becomes
      irreversible (fork_switch_atomic); pending transactions follow the head
      (push_block_keeps_pending); a generated block fits and is valid where it is pushed
      if its key is the one in force there (generated_block_fits).  Below it, the undo
      stacks implement copies while modifications keep unique keys
      (undo_implements_copies), the fork database links blocks and finds the branches of
      two blocks (push_block_spec, fetch_branch_from_spec), and the log reads back what
      was appended and repairs its index (log_reads_back, open_restores_index).
    - Witnesses: the schedule elects those with the most votes and the runners whose
      turn it is (schedule_elects, schedule_keeps_queue), a hardfork needs a majority
      (hardfork_needs_majority), and once witnesses vote the last irreversible block is
      confirmed by a supermajority (irreversible_supermajority).
    - The market: an order that is applied leaves no crossing order on the book, and
      trades at the price of the book; the buckets of the history sum up the trades
      of their intervals (buckets_summarise).
    - Keys: the index of keys agrees with the authorities (key_lookup_in_sync), but for
      accounts created from claims (claimed_account_missed).
    - Vesting: delegations are accounted for, and a power down ends after the
      intervals it needs with exactly what was requested (power_down_completes).
    - Block processing terminates and leaves no due object behind.
    - fc: the word-level 128-bit arithmetic refines arithmetic modulo 2^128, checked
      integers refine exact arithmetic, the UTF-8 check accepts exactly what the
      encoder produces, and packed values unpack to themselves.
    - Errors: open_one_block_loses_index, median_feed_fails_without_sbd,
      claimed_account_missed and the examples next to other definitions show inputs on
      which the code does not do what it means to.

    ** Not modelled

    Code outside the chain: the network, the other plugins, APIs, the wallet and the programs
    are input and output around the state transitions.  The memory-mapped file of
    chainbase, opening the database and replaying the log into it.  Virtual operations
    and notifications report to plugins and have no effect on the state.  The packing
    of whole blocks and transactions by reflection: the log needs that it can be read
    back, which is a hypothesis, and the size of a packed block ([pack_size] of [Chain])
    takes that of a transaction as a parameter.  Cryptography, JSON and the patching of texts are parameters of the
    definitions that use them ([environment] of [Operation], the parameters of
    [Transaction], [Chain], [Node] and [Generate]); only merkle_root_binds (hashes
    without collisions) and generated_block_fits (a signature gives back the key of
    its signer, a transaction is packed in less than 2^32 bytes) rely on what they
    answer.  A block that makes itself irreversible and
    then fails is the outcome [Torn] of [Node], whose state is not described. *)
From stdpp Require Import base gmap strings list fin_maps sorting.
From Stdlib Require Import ZArith Lia.

(** ** Results of fallible code

    The C++ code reports every failure by throwing.  A function that may throw
    is modelled by a function into [result]; the constructors of [exn] are the
    exception classes the modelled code throws. *)

Inductive exn : Set :=
| assert_exception            (* FC_ASSERT, FC_THROW_EXCEPTION( assert_exception ) *)
| overflow_exception          (* fc::safe *)
| underflow_exception         (* fc::safe *)
| divide_by_zero_exception    (* fc::safe, boost::multiprecision *)
| domain_error                (* the long division of fc::uint128 *)
| out_of_range                (* chainbase::get on a key that is not present *)
| logic_error                 (* chainbase::emplace/modify violating uniqueness *)
| order_match_exception
| order_fill_exception
| unlinkable_block_exception
| parse_error_exception       (* fc::to_int64, boost::lexical_cast *)
| unknown_hardfork_exception
| tx_missing_active_auth
| tx_missing_owner_auth
| tx_missing_posting_auth
| tx_missing_other_auth
| tx_irrelevant_sig
| tx_duplicate_sig
| transaction_tapos_exception
| transaction_expiration_exception
| undo_database_exception
| pop_empty_chain.

#[export] Instance exn_eq_dec : EqDecision exn.
Proof. solve_decision. Defined.

Inductive result (A : Type) : Type :=
| Ok (a : A)
| Throw (e : exn).
Arguments Ok {A} _.
Arguments Throw {A} _.

#[export] Instance result_ret : MRet result := fun A a => Ok a.
#[export] Instance result_bind : MBind result := fun A B f m =>
  match m with Ok a => f a | Throw e => Throw e end.

Definition is_ok {A} (r : result A) : bool :=
  match r with Ok _ => true | Throw _ => false end.

(** FC_ASSERT( b ) *)
Definition fc_assert (b : bool) : result unit :=
  if b then Ok tt else Throw assert_exception.

(** A lookup that throws when the key is absent (chainbase [get]). *)
Definition get_or {A} (e : exn) (o : option A) : result A :=
  match o with Some a => Ok a | None => Throw e end.

Fixpoint foldM {A B} (f : A -> B -> result A) (a : A) (l : list B) : result A :=
  match l with
  | [] => Ok a
  | x :: l' => a' ← f a x; foldM f a' l'
  end.

(** A loop that takes the next element as long as there is one: [next] is the
    begin() of an index together with the loop condition.  [fuel] bounds the
    number of rounds; [while_next_done] says when it is enough. *)
Fixpoint while_next {S V} (fuel : nat) (next : S -> option V) (body : S -> V -> result S) (s : S) : result S :=
  match fuel with
  | O => Ok s
  | Datatypes.S fuel =>
      match next s with
      | None => Ok s
      | Some x => s ← body s x; while_next fuel next body s
      end
  end.

Section result_facts.
Context {A B : Type}.

Lemma bind_Ok (m : result A) (f : A -> result B) b :
  m ≫= f = Ok b <-> exists a, m = Ok a /\ f a = Ok b.
Proof. destruct m as [a|e]; simpl; split; [eauto|intros (?&?&?); congruence|discriminate|intros (?&?&?); congruence]. Qed.

Lemma bind_Ok_1 (m : result A) (f : A -> result B) b :
  m ≫= f = Ok b -> exists a, m = Ok a /\ f a = Ok b.
Proof. apply bind_Ok. Qed.

Lemma fc_assert_Ok b u : fc_assert b = Ok u <-> b = true.
Proof. destruct b, u; simpl; naive_solver. Qed.

Lemma get_or_Ok e (o : option A) a : get_or e o = Ok a <-> o = Some a.
Proof. destruct o; simpl; naive_solver. Qed.
End result_facts.

Lemma foldM_app {A B} (f : A -> B -> result A) a l l' : foldM f a (l ++ l') = (a ← foldM f a l; foldM f a l').
Proof. revert a. induction l as [|x l IH]; intros a; simpl; [done|]. destruct (f a x); simpl; [apply IH|done]. Qed.

(** A preorder that every step respects relates the ends of a fold. *)
Lemma foldM_preorder {A B} (R : A -> A -> Prop) `{!PreOrder R} (f : A -> B -> result A) l a a' :
  (forall a x a', f a x = Ok a' -> R a a') -> foldM f a l = Ok a' -> R a a'.
Proof.
  intros Hf. revert a. induction l as [|x l IH]; simpl; intros a.
  - by intros [= ->].
  - intros (a1 & H1 & H2)%bind_Ok. etrans; eauto.
Qed.

Section while_facts.
Context {S V : Type} (next : S -> option V) (body : S -> V -> result S).

Lemma while_next_preorder (R : S -> S -> Prop) `{!PreOrder R} fuel : forall s s',
  (forall s x s', next s = Some x -> body s x = Ok s' -> R s s') ->
  while_next fuel next body s = Ok s' -> R s s'.
Proof.
  induction fuel as [|fuel IH]; simpl; intros s s' Hb H; [by injection H as ->|].
  destruct (next s) as [x|] eqn:E; [|by injection H as ->].
  apply bind_Ok in H as (s1 & H1 & H2). etrans; eauto.
Qed.

(** an invariant of the body holds at the end *)
Lemma while_next_inv (I : S -> Prop) fuel : forall s s',
  (forall s x s', I s -> next s = Some x -> body s x = Ok s' -> I s') ->
  I s -> while_next fuel next body s = Ok s' -> I s'.
Proof.
  induction fuel as [|fuel IH]; simpl; intros s s' Hb Hs H; [by injection H as <-|].
  destruct (next s) as [x|] eqn:E; [|by injection H as <-].
  apply bind_Ok in H as (s1 & H1 & H2). eauto.
Qed.

(** The loop ends because nothing is left, not for lack of fuel, when every
    round decreases a measure the fuel covers. *)
Lemma while_next_done_inv (I : S -> Prop) (measure : S -> nat) fuel : forall s s',
  I s -> (forall s x s', I s -> next s = Some x -> body s x = Ok s' -> I s') ->
  (forall s x, I s -> next s = Some x -> (0 < measure s)%nat) ->
  (forall s x s', I s -> next s = Some x -> body s x = Ok s' -> (measure s' < measure s)%nat) ->
  (measure s <= fuel)%nat -> while_next fuel next body s = Ok s' -> next s' = None.
Proof.
  induction fuel as [|fuel IH]; simpl; intros s s' Hs Hinv Hpos Hdec Hle H.
  - injection H as <-. destruct (next s) as [x|] eqn:E; [|done]. apply Hpos in E; [lia|done].
  - destruct (next s) as [x|] eqn:E; [|by injection H as <-].
    apply bind_Ok in H as (s1 & H1 & H2). pose proof (Hdec _ _ _ Hs E H1).
    apply (IH s1); [by eapply Hinv|assumption|assumption|assumption|lia|assumption].
Qed.

(** ... and then more fuel changes nothing, also when the body throws. *)
Lemma while_next_enough (I : S -> Prop) (measure : S -> nat) :
  (forall s x s', I s -> next s = Some x -> body s x = Ok s' -> I s') ->
  (forall s x, I s -> next s = Some x -> (0 < measure s)%nat) ->
  (forall s x s', I s -> next s = Some x -> body s x = Ok s' -> (measure s' < measure s)%nat) ->
  forall f1 f2 s, I s -> (measure s <= f1)%nat -> (measure s <= f2)%nat ->
  while_next f1 next body s = while_next f2 next body s.
Proof.
  intros Hinv Hpos Hdec. induction f1 as [|f1 IH]; intros [|f2] s Hs H1 H2; simpl; [done|..].
  - destruct (next s) as [x|] eqn:E; [|done]. apply Hpos in E; [lia|done].
  - destruct (next s) as [x|] eqn:E; [|done]. apply Hpos in E; [lia|done].
  - destruct (next s) as [x|] eqn:E; [|done]. destruct (body s x) as [s1|e] eqn:Eb; [|done]. simpl.
    pose proof (Hdec _ _ _ Hs E Eb). apply IH; [by eapply Hinv|lia|lia].
Qed.

Lemma while_next_done (measure : S -> nat) fuel s s' :
  (forall s x, next s = Some x -> (0 < measure s)%nat) ->
  (forall s x s', next s = Some x -> body s x = Ok s' -> (measure s' < measure s)%nat) ->
  (measure s <= fuel)%nat -> while_next fuel next body s = Ok s' -> next s' = None.
Proof. intros ? ? ? ?. eapply (while_next_done_inv (fun _ => True) measure fuel s); eauto. Qed.
End while_facts.

(** Inversion of a successful run: decomposes every hypothesis of the form
    [m ≫= f = Ok b] into the successful runs of its parts. *)
Ltac result_step :=
  match goal with
  | H : Ok _ = Ok _ |- _ => injection H as H; try subst
  | H : Throw _ = Ok _ |- _ => discriminate H
  | H : Ok _ = Throw _ |- _ => discriminate H
  | H : mret _ = Ok _ |- _ => unfold mret, result_ret in H
  | H : (_ ≫= _) = Ok _ |- _ =>
      apply bind_Ok_1 in H; destruct H as (? & ? & H); cbv beta in H
  | H : fc_assert _ = Ok _ |- _ => apply fc_assert_Ok in H
  | H : get_or _ _ = Ok _ |- _ => apply get_or_Ok in H
  | H : (match ?x with _ => _ end) = Ok _ |- _ =>
      lazymatch type of x with prod _ _ => destruct x eqn:? end
  | H : unit |- _ => destruct H
  end.

Ltac result_inv := repeat result_step.

(** One bind of the run [H]: its value [x] and the run [Hx] that produced it. *)
Tactic Notation "bind" hyp(H) "as" simple_intropattern(x) ident(Hx) :=
  apply bind_Ok_1 in H; destruct H as (x & Hx & H); cbv beta iota in H.

(** The same, also splitting the [if]s and [match]es that head a run. *)
Ltac result_case :=
  repeat first
    [ result_step
    | match goal with
      | H : (if ?b then _ else _) = Ok _ |- _ => destruct b eqn:?
      | H : (match ?x with _ => _ end) = Ok _ |- _ => destruct x eqn:?
      end ].

(** ** Machine integers

    A w-bit C++ integer is a [Z]; the wrap-around of an unsigned type and of a
    conversion to a signed type is written out where the code can reach it. *)

Declare Scope fc_scope.
Delimit Scope fc_scope with fc.

Definition INT64_MAX : Z := 9223372036854775807.
Definition INT64_MIN : Z := -9223372036854775808.
Definition UINT64_MAX : Z := 18446744073709551615.
Definition UINT128_MAX : Z := 340282366920938463463374607431768211455.

Definition u8 (x : Z) : Z := x mod 2 ^ 8.
Definition u16 (x : Z) : Z := x mod 2 ^ 16.
Definition u32 (x : Z) : Z := x mod 2 ^ 32.
Definition u64 (x : Z) : Z := x mod 2 ^ 64.
Definition u128 (x : Z) : Z := x mod 2 ^ 128.
(** conversion of an integer to int64_t, two's complement *)
Definition i64 (x : Z) : Z := (x + 2 ^ 63) mod 2 ^ 64 - 2 ^ 63.

Definition in_i64 (x : Z) : bool := (INT64_MIN <=? x)%Z && (x <=? INT64_MAX)%Z.

(** a C++ bool converted to an integer *)
Definition b2z (b : bool) : Z := if b then 1 else 0.

Lemma in_i64_spec x : in_i64 x = true <-> (INT64_MIN <= x <= INT64_MAX)%Z.
Proof. unfold in_i64. rewrite andb_true_iff, !Z.leb_le. tauto. Qed.

Lemma i64_id x : (INT64_MIN <= x <= INT64_MAX)%Z -> i64 x = x.
Proof.
  unfold i64, INT64_MIN, INT64_MAX. intros.
  rewrite Z.mod_small; lia.
Qed.

Lemma i64_range x : (INT64_MIN <= i64 x <= INT64_MAX)%Z.
Proof.
  unfold i64, INT64_MIN, INT64_MAX.
  pose proof (Z.mod_pos_bound (x + 2 ^ 63) (2 ^ 64) ltac:(lia)). lia.
Qed.

Lemma u64_range x : (0 <= u64 x < 2 ^ 64)%Z.
Proof. apply Z.mod_pos_bound. lia. Qed.

Lemma u64_id x : (0 <= x < 2 ^ 64)%Z -> u64 x = x.
Proof. apply Z.mod_small. Qed.

Lemma u128_range x : (0 <= u128 x < 2 ^ 128)%Z.
Proof. apply Z.mod_pos_bound. lia. Qed.

Lemma u128_id x : (0 <= x < 2 ^ 128)%Z -> u128 x = x.
Proof. apply Z.mod_small. Qed.

Lemma u32_id x : (0 <= x < 2 ^ 32)%Z -> u32 x = x.
Proof. apply Z.mod_small. Qed.

Lemma u16_id x : (0 <= x < 2 ^ 16)%Z -> u16 x = x.
Proof. apply Z.mod_small. Qed.

(** Boolean tests on [Z] turned into the propositions they decide. *)
Ltac zbool :=
  repeat match goal with
  | H : (_ && _) = true |- _ => apply andb_true_iff in H as [? ?]
  | H : (_ || _) = false |- _ => apply orb_false_iff in H as [? ?]
  | H : negb _ = true |- _ => apply negb_true_iff in H
  | H : negb _ = false |- _ => apply negb_false_iff in H
  | H : (_ =? _)%Z = true |- _ => apply Z.eqb_eq in H
  | H : (_ =? _)%Z = false |- _ => apply Z.eqb_neq in H
  | H : (_ <=? _)%Z = true |- _ => apply Z.leb_le in H
  | H : (_ <=? _)%Z = false |- _ => apply Z.leb_gt in H
  | H : (_ <? _)%Z = true |- _ => apply Z.ltb_lt in H
  | H : (_ <? _)%Z = false |- _ => apply Z.ltb_ge in H
  end.

(** ** Record update

    [r <| f := v |>] is [r] with field [f] replaced.  A record type declares
    how it is rebuilt from its projections ([Rebuild]); the setter of one
    projection is derived from that when a definition is elaborated. *)

Class Rebuild (R : Type) := rebuild : R -> R.
Class Setter {R E : Type} (f : R -> E) := modify_field : (E -> E) -> R -> R.
Arguments modify_field {R E} f {_} _ _.

Ltac head_of t := lazymatch t with ?f _ => head_of f | _ => t end.
Ltac derive_setter :=
  lazymatch goal with
  | |- @Setter ?R ?E ?f =>
      let g := fresh "g" in let r := fresh "r" in
      refine (fun (g : E -> E) (r : R) => _);
      let t := constr:(@rebuild R _ r) in
      let t := eval lazy beta delta [rebuild] in t in
      let h := head_of t in
      let t := eval lazy beta delta [h] in t in
      let p := eval pattern (f r) in t in
      lazymatch p with
      | ?k _ => let b := eval cbv beta in (k (g (f r))) in
                lazymatch b with context [g] => exact b end
      end
  end.
#[export] Hint Extern 0 (Setter _) => derive_setter : typeclass_instances.

Notation "r <| f := v |>" := (modify_field f (fun _ => v) r)
  (at level 1, left associativity, format "r <| f  :=  v |>") : fc_scope.
Notation "r <| f ::= g |>" := (modify_field f g r)
  (at level 1, left associativity, format "r <| f  ::=  g |>") : fc_scope.

(** ** Hint databases

    [ranges] proves that wrapped integers are in range; [conserves] collects what
    the evaluators do to the ledger, so that a statement about every operation is
    proved by one [eauto]. *)
Create HintDb ranges.
Create HintDb conserves.
#[export] Hint Resolve u64_range u128_range i64_range : ranges.

(** ** Sums over finite maps *)

Section msum.
Context {K A : Type} `{Countable K}.
Local Open Scope Z_scope.

Definition msum (f : A -> Z) (m : gmap K A) : Z :=
  map_fold (fun _ x acc => f x + acc) 0 m.

Lemma msum_empty f : msum f ∅ = 0.
Proof. apply map_fold_empty. Qed.

Lemma msum_insert_new f m k x :
  m !! k = None -> msum f (<[k:=x]> m) = f x + msum f m.
Proof. intros. unfold msum. rewrite map_fold_insert_L; auto. intros; lia. Qed.

Lemma msum_delete f m k x :
  m !! k = Some x -> msum f (delete k m) = msum f m - f x.
Proof.
  intros Hk. rewrite <- (insert_delete_id m k x Hk) at 2.
  rewrite msum_insert_new by apply lookup_delete_eq. lia.
Qed.

Lemma msum_insert f m k x y :
  m !! k = Some y -> msum f (<[k:=x]> m) = msum f m - f y + f x.
Proof.
  intros Hk. rewrite <- insert_delete_eq, msum_insert_new by apply lookup_delete_eq.
  rewrite (msum_delete f m k y Hk). lia.
Qed.

Lemma msum_singleton f k x : msum f {[k := x]} = f x.
Proof. rewrite <- insert_empty, msum_insert_new by apply lookup_empty. rewrite msum_empty. lia. Qed.

Lemma msum_0 (m : gmap K A) : msum (fun _ => 0) m = 0.
Proof. induction m as [|k x m Hk IH] using map_ind; [done|]. rewrite msum_insert_new by done. lia. Qed.

Lemma msum_ext f g m :
  (forall k x, m !! k = Some x -> f x = g x) -> msum f m = msum g m.
Proof.
  induction m as [|k x m Hk IH] using map_ind; intros Hfg; [done|].
  rewrite !msum_insert_new by done. f_equal.
  - apply (Hfg k). by simplify_map_eq.
  - apply IH. intros k' y Hy. apply (Hfg k').
    rewrite lookup_insert_ne; [done|]. congruence.
Qed.

Lemma msum_le f g m : (forall k x, m !! k = Some x -> f x <= g x) -> msum f m <= msum g m.
Proof.
  induction m as [|k x m Hk IH] using map_ind; intros Hfg; [done|].
  rewrite !msum_insert_new by done.
  assert (f x <= g x) by (apply (Hfg k); by simplify_map_eq).
  enough (msum f m <= msum g m) by lia.
  apply IH. intros k' y Hy. apply (Hfg k').
  rewrite lookup_insert_ne; [done|]. congruence.
Qed.

Lemma msum_nonneg f m :
  (forall k x, m !! k = Some x -> 0 <= f x) -> 0 <= msum f m.
Proof.
  induction m as [|k x m Hk IH] using map_ind; intros Hf; [done|].
  rewrite msum_insert_new by done.
  assert (0 <= f x) by (apply (Hf k); by simplify_map_eq).
  enough (0 <= msum f m) by lia.
  apply IH. intros k' y Hy. apply (Hf k').
  rewrite lookup_insert_ne; [done|]. congruence.
Qed.
(** only the values of [f] count *)
Lemma msum_fmap f m : msum f m = map_fold (fun _ x acc => x + acc) 0 (f <$> m).
Proof.
  induction m as [|k x m Hk IH] using map_ind; [by rewrite fmap_empty|].
  rewrite msum_insert_new, fmap_insert, map_fold_insert_L, IH; [done|intros; lia|by rewrite lookup_fmap, Hk|done].
Qed.

Lemma msum_same f m m' : (forall k, f <$> m' !! k = f <$> m !! k) -> msum f m' = msum f m.
Proof. intros Hf. rewrite !msum_fmap. f_equal. apply map_eq. intros k. rewrite !lookup_fmap. apply Hf. Qed.

Lemma msum_filter f (P : A -> Prop) `{!forall x, Decision (P x)} m :
  msum f (filter (fun kx => P (snd kx)) m) = msum (fun x => if decide (P x) then f x else 0) m.
Proof.
  induction m as [|k x m Hk IH] using map_ind; [by rewrite map_filter_empty|].
  rewrite (msum_insert_new (fun x => if decide (P x) then f x else 0)) by done.
  destruct (decide (P x)) as [Hx|Hx].
  - rewrite map_filter_insert_True by done. rewrite msum_insert_new by (apply map_lookup_filter_None; by left). lia.
  - rewrite map_filter_insert_not'; [lia|done|intros y Hy; congruence].
Qed.

Lemma msum_list f m : msum f m = foldr (fun kx s => f (snd kx) + s) 0 (map_to_list m).
Proof. unfold msum. rewrite map_fold_foldr. induction (map_to_list m) as [|[k x] l IH]; [done|]. simpl. by rewrite IH. Qed.

(** a map whose entries all come from larger ones of another map *)
Lemma msum_rel_le f (m m' : gmap K A) :
  (forall x, 0 <= f x) ->
  (forall k x', m' !! k = Some x' -> exists x, m !! k = Some x /\ f x' <= f x) ->
  msum f m' <= msum f m.
Proof.
  revert m. induction m' as [|k x' m' Hk IH] using map_ind; intros m Hpos Hrel.
  - rewrite msum_empty. by apply msum_nonneg.
  - rewrite msum_insert_new by done.
    destruct (Hrel k x') as (x & Hx & Hle); [apply lookup_insert_eq|].
    rewrite <- (insert_delete_id m k x Hx), msum_insert_new by apply lookup_delete_eq.
    enough (msum f m' <= msum f (delete k m)) by lia. apply IH; [done|].
    intros j y Hy. assert (j <> k) by congruence. rewrite lookup_delete_ne by done.
    apply Hrel. by rewrite lookup_insert_ne.
Qed.
End msum.
