(* ===== verification/Safe.v ===== *)
(** * fc::safe<int64_t>

    The overflow-checked integer of [src/src/base/fc/include/fc/safe.hpp] at the
    type the program uses it with: [share_type] is [safe<int64_t>].  A value is a
    [Z] in the int64_t range; each operator is transcribed with the guards the
    source tests before it computes, and [/] and [%] truncate towards zero as in
    C++. *)
From stdpp Require Import base gmap strings.
From Stdlib Require Import ZArith Lia.
From S2P Require Import Prelude.
Local Open Scope Z_scope.

Module Safe.

Definition add (a b : Z) : result Z :=
  if (0 <? b) && (INT64_MAX - b <? a) then Throw overflow_exception
  else if (b <? 0) && (a <? INT64_MIN - b) then Throw underflow_exception
  else Ok (a + b).

Definition sub (a b : Z) : result Z :=
  if (0 <? b) && (a <? INT64_MIN + b) then Throw underflow_exception
  else if (b <? 0) && (INT64_MAX + b <? a) then Throw overflow_exception
  else Ok (a - b).

Definition mul (a b : Z) : result Z :=
  if 0 <? a then
    if 0 <? b then
      if Z.quot INT64_MAX b <? a then Throw overflow_exception else Ok (a * b)
    else
      if b <? Z.quot INT64_MIN a then Throw underflow_exception else Ok (a * b)
  else
    if 0 <? b then
      if a <? Z.quot INT64_MIN b then Throw underflow_exception else Ok (a * b)
    else
      if negb (a =? 0) && (b <? Z.quot INT64_MAX a) then Throw overflow_exception
      else Ok (a * b).

Definition div (a b : Z) : result Z :=
  if b =? 0 then Throw divide_by_zero_exception
  else if (a =? INT64_MIN) && (b =? -1) then Throw overflow_exception
  else Ok (Z.quot a b).

Definition rem (a b : Z) : result Z :=
  if b =? 0 then Throw divide_by_zero_exception
  else if (a =? INT64_MIN) && (b =? -1) then Throw overflow_exception
  else Ok (Z.rem a b).

Definition neg (a : Z) : result Z :=
  if a =? INT64_MIN then Throw overflow_exception else Ok (- a).

(** The mathematical reference: an exact operation that throws as soon as its
    result leaves the int64_t range. *)
Definition exact (x : Z) : result Z :=
  if x >? INT64_MAX then Throw overflow_exception
  else if x <? INT64_MIN then Throw underflow_exception
  else Ok x.

Definition valid (a : Z) : Prop := INT64_MIN <= a <= INT64_MAX.

Lemma exact_Ok x y : exact x = Ok y <-> y = x /\ valid x.
Proof.
  unfold exact, valid. rewrite Z.gtb_ltb.
  destruct (Z.ltb_spec INT64_MAX x), (Z.ltb_spec x INT64_MIN); split;
    try (intros [= <-]); try intros [-> ?]; auto; try lia; discriminate.
Qed.

(** What each guard accepts, for the operands of a run that succeeds. *)
Lemma add_Ok a b c : add a b = Ok c -> c = a + b.
Proof. unfold add. intros H; result_case; auto. Qed.

Lemma sub_Ok a b c : sub a b = Ok c -> c = a - b.
Proof. unfold sub. intros H; result_case; auto. Qed.

Lemma mul_Ok a b c : mul a b = Ok c -> c = a * b.
Proof. unfold mul. intros H; result_case; auto. Qed.

Lemma div_Ok a b c : div a b = Ok c -> c = Z.quot a b /\ b <> 0.
Proof. unfold div. intros H; result_case; zbool; auto. Qed.

Lemma neg_Ok a c : neg a = Ok c -> c = - a.
Proof. unfold neg. intros H; result_case; auto. Qed.

Lemma add_exact a b : valid a -> valid b -> add a b = exact (a + b).
Proof.
  unfold valid, add, exact, INT64_MIN, INT64_MAX. intros.
  repeat match goal with |- context [Z.ltb ?x ?y] => destruct (Z.ltb_spec x y) end;
    rewrite ?Z.gtb_ltb; simpl;
  repeat match goal with |- context [Z.ltb ?x ?y] => destruct (Z.ltb_spec x y) end;
    auto; lia.
Qed.

Lemma sub_exact a b : valid a -> valid b -> sub a b = exact (a - b).
Proof.
  unfold valid, sub, exact, INT64_MIN, INT64_MAX. intros.
  repeat match goal with |- context [Z.ltb ?x ?y] => destruct (Z.ltb_spec x y) end;
    rewrite ?Z.gtb_ltb; simpl;
  repeat match goal with |- context [Z.ltb ?x ?y] => destruct (Z.ltb_spec x y) end;
    auto; lia.
Qed.

(** Truncated quotients against products, in the four sign patterns. *)
Lemma quot_bound_pos m b a : 0 <= m -> 0 < b -> Z.quot m b < a <-> m < a * b.
Proof.
  intros. rewrite Z.quot_div_nonneg by lia.
  pose proof (Z.div_mod m b ltac:(lia)). pose proof (Z.mod_pos_bound m b ltac:(lia)). nia.
Qed.

Lemma quot_bound_neg m b a : m <= 0 -> 0 < b -> a < Z.quot m b <-> a * b < m.
Proof.
  intros. pose proof (quot_bound_pos (- m) b (- a) ltac:(lia) ltac:(lia)) as Hq.
  rewrite Z.quot_opp_l in Hq by lia. nia.
Qed.

Lemma quot_bound_negneg m b a : 0 <= m -> b < 0 -> a < Z.quot m b <-> m < a * b.
Proof.
  intros. pose proof (quot_bound_pos m (- b) (- a) ltac:(lia) ltac:(lia)) as Hq.
  rewrite Z.quot_opp_r in Hq by lia. nia.
Qed.

Lemma mul_exact a b : valid a -> valid b -> mul a b = exact (a * b).
Proof.
  unfold valid, mul, exact. rewrite Z.gtb_ltb. intros Ha Hb.
  assert (INT64_MIN < 0 < INT64_MAX) as Hm by (unfold INT64_MIN, INT64_MAX; lia).
  destruct (Z.ltb_spec 0 a), (Z.ltb_spec 0 b), (Z.ltb_spec INT64_MAX (a * b)),
    (Z.ltb_spec (a * b) INT64_MIN); try nia;
  repeat match goal with
  | |- context [Z.quot INT64_MAX b <? a] =>
      destruct (Z.ltb_spec (Z.quot INT64_MAX b) a) as [Hq|Hq];
      [apply quot_bound_pos in Hq|apply Z.le_ngt in Hq; rewrite quot_bound_pos in Hq]
  | |- context [b <? Z.quot INT64_MIN a] =>
      destruct (Z.ltb_spec b (Z.quot INT64_MIN a)) as [Hq|Hq];
      [apply quot_bound_neg in Hq|apply Z.le_ngt in Hq; rewrite quot_bound_neg in Hq]
  | |- context [a <? Z.quot INT64_MIN b] =>
      destruct (Z.ltb_spec a (Z.quot INT64_MIN b)) as [Hq|Hq];
      [apply quot_bound_neg in Hq|apply Z.le_ngt in Hq; rewrite quot_bound_neg in Hq]
  | |- context [a =? 0] => destruct (Z.eqb_spec a 0); simpl
  | |- context [b <? Z.quot INT64_MAX a] =>
      destruct (Z.ltb_spec b (Z.quot INT64_MAX a)) as [Hq|Hq];
      [apply quot_bound_negneg in Hq|apply Z.le_ngt in Hq; rewrite quot_bound_negneg in Hq]
  end; try lia; try reflexivity; nia.
Qed.



Lemma add_valid a b c : valid a -> valid b -> add a b = Ok c -> valid c.
Proof. intros Ha Hb. rewrite add_exact, exact_Ok by done. by intros [-> ?]. Qed.

Lemma sub_valid a b c : valid a -> valid b -> sub a b = Ok c -> valid c.
Proof. intros Ha Hb. rewrite sub_exact, exact_Ok by done. by intros [-> ?]. Qed.

End Safe.

(** Success of a checked operation, as hypotheses on plain integers. *)
Ltac safe_inv :=
  repeat match goal with
  | H : Safe.add _ _ = Ok _ |- _ => apply Safe.add_Ok in H
  | H : Safe.sub _ _ = Ok _ |- _ => apply Safe.sub_Ok in H
  | H : Safe.mul _ _ = Ok _ |- _ => apply Safe.mul_Ok in H
  | H : Safe.neg _ = Ok _ |- _ => apply Safe.neg_Ok in H
  | H : Safe.div _ _ = Ok _ |- _ => apply Safe.div_Ok in H as [H ?]
  end.
