(* ===== verification/Uint128.v ===== *)
(** * fc::uint128

    The two-word 128-bit integer of [src/src/base/fc/include/fc/uint128.hpp] and
    [src/src/base/fc/uint128.cpp]: a record of the words [hi] and [lo], every
    operator transcribed on the words, and the value function [val] that relates
    it to arithmetic modulo 2^128.  The refinement theorems below are what lets
    the other files write a [uint128_t] as a [Z] with its wrap-around. *)
From stdpp Require Import base gmap strings.
From Stdlib Require Import ZArith Lia.
From S2P Require Import Prelude.
Local Open Scope Z_scope.

Module Uint128.

Record uint128 := mk { hi : Z; lo : Z }.

Definition val (x : uint128) : Z := hi x * 2 ^ 64 + lo x.
Definition wf (x : uint128) : Prop := 0 <= hi x < 2 ^ 64 /\ 0 <= lo x < 2 ^ 64.

(** the words of an integer: the reading of [val] from right to left *)
Definition of_Z (z : Z) : uint128 := mk ((u128 z) / 2 ^ 64) ((u128 z) mod 2 ^ 64).

(** Constructors [uint128( uint64_t )] and [uint128( int64_t )]: the signed one
    sign-extends, [hi] being [-(l<0)] converted to uint64_t. *)
Definition of_uint64 (l : Z) : uint128 := mk 0 l.
Definition of_int64 (l : Z) : uint128 := mk (u64 (- b2z (l <? 0))) (u64 l).

Definition eqb (a b : uint128) : bool := (hi a =? hi b) && (lo a =? lo b).
Definition ltb (a b : uint128) : bool :=
  if hi a =? hi b then lo a <? lo b else hi a <? hi b.
Definition geb (a b : uint128) : bool := eqb a b || ltb b a.

Definition incr (x : uint128) : uint128 :=
  let lo' := u64 (lo x + 1) in mk (u64 (hi x + b2z (lo' =? 0))) lo'.
Definition lnot (x : uint128) : uint128 := mk (UINT64_MAX - hi x) (UINT64_MAX - lo x).
Definition opp (x : uint128) : uint128 := incr (lnot x).

Definition add (a u : uint128) : uint128 :=
  let old := lo a in
  let lo' := u64 (lo a + lo u) in
  mk (u64 (hi a + u64 (hi u + b2z (lo' <? old)))) lo'.
Definition sub (a u : uint128) : uint128 := add a (opp u).

Definition and_ (a u : uint128) : uint128 := mk (Z.land (hi a) (hi u)) (Z.land (lo a) (lo u)).
(** the member [operator |=] *)
Definition or_assign (a u : uint128) : uint128 := mk (Z.lor (hi a) (hi u)) (Z.lor (lo a) (lo u)).
(** the friend [operator |], whose body is [uint128(l)=(r)] *)
Definition or_ (l r : uint128) : uint128 := r.

(** the shifts, [n] being the value of the 128-bit right operand *)
Definition shl (x : uint128) (n : Z) : uint128 :=
  if 128 <=? n then mk 0 0
  else
    let '(n, h, l) := if 64 <=? n then (n - 64, lo x, 0) else (n, hi x, lo x) in
    if n =? 0 then mk h l
    else
      let mask := UINT64_MAX - Z.shiftr UINT64_MAX n in
      mk (Z.lor (u64 (Z.shiftl h n)) (Z.shiftr (Z.land l mask) (64 - n)))
         (u64 (Z.shiftl l n)).

Definition shr (x : uint128) (n : Z) : uint128 :=
  if 128 <=? n then mk 0 0
  else
    let '(n, h, l) := if 64 <=? n then (n - 64, 0, hi x) else (n, hi x, lo x) in
    if n =? 0 then mk h l
    else
      let mask := UINT64_MAX - u64 (Z.shiftl UINT64_MAX n) in
      mk (Z.shiftr h n)
         (Z.lor (Z.shiftr l n) (u64 (Z.shiftl (Z.land h mask) (64 - n)))).

(** [operator*=]: schoolbook multiplication on 32-bit limbs. *)
Definition mul (a b : uint128) : uint128 :=
  let a0 := u32 (lo a) in let a1 := u32 (Z.shiftr (lo a) 32) in
  let a2 := u32 (hi a) in let a3 := u32 (Z.shiftr (hi a) 32) in
  let b0 := u32 (lo b) in let b1 := u32 (Z.shiftr (lo b) 32) in
  let b2 := u32 (hi b) in let b3 := u32 (Z.shiftr (hi b) 32) in
  let p x y := of_uint64 (u64 (x * y)) in
  let r := mk 0 (u64 (a3 * b0)) in
  let r := add r (p a2 b1) in
  let r := add r (p a1 b2) in
  let r := add r (p a0 b3) in
  let r := shl r 32 in
  let r := add r (p a2 b0) in
  let r := add r (p a1 b1) in
  let r := add r (p a0 b2) in
  let r := shl r 32 in
  let r := add r (p a1 b0) in
  let r := add r (p a0 b1) in
  let r := shl r 32 in
  add r (p a0 b0).

(** [operator/=], through boost's 128-bit integer, which throws on zero. *)
Definition div (a b : uint128) : result uint128 :=
  let self := val a in let other := val b in
  if other =? 0 then Throw divide_by_zero_exception
  else let q := self / other in Ok (mk (Z.shiftr q 64) (Z.shiftr (u128 (Z.shiftl q 64)) 64)).

(** [divide]: the restoring shift-and-subtract division that [operator%=] and
    the conversion to a string use.  The loops run at most 128 rounds, the
    width of the type; [fuel] is that bound. *)
Fixpoint scale_up (fuel : nat) (n d x : uint128) : uint128 * uint128 :=
  match fuel with
  | O => (d, x)
  | S f =>
      if geb n d && eqb (and_ (shr d 127) (of_uint64 1)) (of_uint64 0)
      then scale_up f n (shl d 1) (shl x 1)
      else (d, x)
  end.

Fixpoint scale_down (fuel : nat) (n d x answer : uint128) : option (uint128 * uint128) :=
  if eqb x (of_uint64 0) then Some (answer, n)
  else
    match fuel with
    | O => None
    | S f =>
        let '(n, answer) := if geb n d then (sub n d, or_assign answer x) else (n, answer) in
        scale_down f n (shr d 1) (shr x 1) answer
    end.

Definition divide (numerator denominator : uint128) : result (option (uint128 * uint128)) :=
  if eqb denominator (of_uint64 0) then Throw domain_error
  else
    let '(d, x) := scale_up 128 numerator denominator (of_uint64 1) in
    Ok (scale_down 128 numerator d x (of_uint64 0)).

Definition to_uint64 (x : uint128) : result Z :=
  _ ← fc_assert (hi x =? 0); Ok (lo x).

(** [full_product]: the 256-bit product, as its high and low halves.  The four
    partial products are summed by words ([sum_partial]). *)
Definition sum_partial (s r q p : uint128) : uint128 * uint128 :=
  let acc := of_uint64 (hi s) in
  let acc := add acc (of_uint64 (lo q)) in
  let acc := add acc (of_uint64 (lo r)) in
  let y1 := lo acc in
  let acc := of_uint64 (hi acc) in
  let acc := add acc (of_uint64 (hi q)) in
  let acc := add acc (of_uint64 (hi r)) in
  let acc := add acc (of_uint64 (lo p)) in
  (mk (u64 (hi acc + hi p)) (lo acc), mk y1 (lo s)).

Definition full_product (a b : uint128) : uint128 * uint128 :=
  sum_partial (mul (of_uint64 (lo a)) (of_uint64 (lo b)))
              (mul (of_uint64 (hi a)) (of_uint64 (lo b)))
              (mul (of_uint64 (lo a)) (of_uint64 (hi b)))
              (mul (of_uint64 (hi a)) (of_uint64 (hi b))).
(** ** Refinement to arithmetic modulo 2^128 *)

Lemma val_range x : wf x -> 0 <= val x < 2 ^ 128.
Proof. unfold wf, val. lia. Qed.

Lemma val_inj x y : wf x -> wf y -> val x = val y -> x = y.
Proof. destruct x, y; unfold wf, val; simpl. intros. f_equal; lia. Qed.

Lemma of_Z_val x : wf x -> of_Z (val x) = x.
Proof.
  intros Hx. unfold of_Z. rewrite u128_id by (apply val_range; done).
  destruct x as [h l]; unfold wf, val in *; simpl in *. f_equal.
  - rewrite Z.div_add_l, Z.div_small by lia. lia.
  - rewrite Z.add_comm, Z_mod_plus_full. apply Z.mod_small; lia.
Qed.

Lemma wf_of_Z z : wf (of_Z z).
Proof.
  unfold wf, of_Z; simpl. pose proof (u128_range z).
  pose proof (Z.mod_pos_bound (u128 z) (2 ^ 64) ltac:(lia)).
  pose proof (Z.div_mod (u128 z) (2 ^ 64) ltac:(lia)). lia.
Qed.

Lemma val_of_Z z : val (of_Z z) = u128 z.
Proof. unfold val, of_Z; simpl. pose proof (Z.div_mod (u128 z) (2 ^ 64) ltac:(lia)). lia. Qed.

(** An operation on the words is right when its words are in range and their
    value is congruent to the mathematical one. *)
Lemma refines x z : wf x -> (exists k, val x = z + k * 2 ^ 128) -> x = of_Z z.
Proof.
  intros Hx [k Hk]. apply val_inj; [done|apply wf_of_Z|]. rewrite val_of_Z.
  rewrite <- (u128_id (val x)) by (apply val_range; done).
  rewrite Hk. unfold u128. apply Z_mod_plus_full.
Qed.

Ltac words := unfold u64, b2z in *; repeat match goal with
  | |- context [?a mod 2 ^ 64] =>
      pose proof (Z.mod_pos_bound a (2 ^ 64) ltac:(lia));
      pose proof (Z.div_mod a (2 ^ 64) ltac:(lia));
      generalize dependent (a mod 2 ^ 64); intros;
      generalize dependent (a / 2 ^ 64); intros
  end.

Lemma add_refines a b : wf a -> wf b -> add a b = of_Z (val a + val b).
Proof.
  unfold wf. destruct a as [ah al], b as [bh bl]; simpl; intros [? ?] [? ?].
  apply refines; unfold add, wf, val; simpl.
  - pose proof (u64_range (al + bl)). pose proof (u64_range (ah + u64 (bh + b2z (u64 (al + bl) <? al)))). lia.
  - unfold u64.
    pose proof (Z.div_mod (al + bl) (2 ^ 64) ltac:(lia)) as E1.
    pose proof (Z.mod_pos_bound (al + bl) (2 ^ 64) ltac:(lia)) as R1.
    set (c := b2z ((al + bl) mod 2 ^ 64 <? al)) in *.
    assert (c = (al + bl) / 2 ^ 64) as Ec.
    { subst c. unfold b2z. destruct (Z.ltb_spec ((al + bl) mod 2 ^ 64) al); nia. }
    pose proof (Z.div_mod (bh + c) (2 ^ 64) ltac:(lia)) as E2.
    pose proof (Z.div_mod (ah + (bh + c) mod 2 ^ 64) (2 ^ 64) ltac:(lia)) as E3.
    exists (- ((bh + c) / 2 ^ 64) - (ah + (bh + c) mod 2 ^ 64) / 2 ^ 64). lia.
Qed.

Lemma opp_refines a : wf a -> opp a = of_Z (- val a).
Proof.
  unfold wf. destruct a as [ah al]; simpl; intros [? ?].
  apply refines; unfold opp, incr, lnot, wf, val, UINT64_MAX; simpl.
  - pose proof (u64_range (18446744073709551615 - al + 1)).
    pose proof (u64_range (18446744073709551615 - ah + b2z (u64 (18446744073709551615 - al + 1) =? 0))). lia.
  - unfold u64, b2z.
    destruct (Z.eqb_spec ((18446744073709551615 - al + 1) mod 2 ^ 64) 0) as [E|E].
    + assert (al = 0).
      { destruct (Z.eq_dec al 0); [done|]. rewrite Z.mod_small in E; lia. }
      subst al. simpl (_ mod _). change (18446744073709551615 - 0 + 1) with (2 ^ 64).
      rewrite Z_mod_same_full.
      pose proof (Z.div_mod (18446744073709551615 - ah + 1) (2 ^ 64) ltac:(lia)).
      exists (1 - (18446744073709551615 - ah + 1) / 2 ^ 64). lia.
    + assert (al <> 0) by (intros ->; apply E; reflexivity).
      rewrite !Z.mod_small by lia. exists 1. lia.
Qed.

Lemma sub_refines a b : wf a -> wf b -> sub a b = of_Z (val a - val b).
Proof.
  intros Ha Hb. unfold sub. rewrite opp_refines, add_refines by (done || apply wf_of_Z).
  apply refines; [apply wf_of_Z|]. rewrite !val_of_Z. unfold u128.
  pose proof (Z.div_mod (val a + (- val b) mod 2 ^ 128) (2 ^ 128) ltac:(lia)).
  pose proof (Z.div_mod (- val b) (2 ^ 128) ltac:(lia)).
  exists (- ((- val b) / 2 ^ 128) - (val a + (- val b) mod 2 ^ 128) / 2 ^ 128). lia.
Qed.

Lemma eqb_val a b : wf a -> wf b -> eqb a b = (val a =? val b).
Proof.
  unfold wf, eqb, val. intros.
  destruct (Z.eqb_spec (hi a) (hi b)), (Z.eqb_spec (lo a) (lo b)); simpl; symmetry;
    first [apply Z.eqb_eq; lia | apply Z.eqb_neq; lia].
Qed.

Lemma ltb_val a b : wf a -> wf b -> ltb a b = (val a <? val b).
Proof.
  unfold wf, ltb, val. intros. symmetry.
  destruct (Z.eqb_spec (hi a) (hi b)).
  - destruct (Z.ltb_spec (lo a) (lo b)); [apply Z.ltb_lt|apply Z.ltb_ge]; lia.
  - destruct (Z.ltb_spec (hi a) (hi b)); [apply Z.ltb_lt|apply Z.ltb_ge]; lia.
Qed.

Lemma geb_val a b : wf a -> wf b -> geb a b = (val b <=? val a).
Proof.
  intros. unfold geb. rewrite eqb_val, ltb_val by done.
  destruct (Z.eqb_spec (val a) (val b)), (Z.ltb_spec (val b) (val a)); simpl; symmetry;
    first [apply Z.leb_le; lia | apply Z.leb_gt; lia].
Qed.


Lemma lor_disjoint a b n : 0 <= n -> 0 <= b < 2 ^ n -> Z.lor (a * 2 ^ n) b = a * 2 ^ n + b.
Proof.
  intros Hn Hb. rewrite <- (Z.shiftl_mul_pow2 a n) by lia.
  rewrite <- Z.add_lor_land. enough (Z.land (Z.shiftl a n) b = 0) by lia.
  apply Z.bits_inj'. intros i Hi. rewrite Z.land_spec, Z.bits_0.
  destruct (Z.ltb_spec i n).
  - by rewrite Z.shiftl_spec_low.
  - rewrite <- (Z.mod_small b (2 ^ n)) by lia. rewrite Z.mod_pow2_bits_high by lia.
    apply andb_false_r.
Qed.

Lemma u64_shiftl h n : 0 <= n <= 64 -> u64 (Z.shiftl h n) = (h mod 2 ^ (64 - n)) * 2 ^ n.
Proof.
  intros. unfold u64. rewrite Z.shiftl_mul_pow2 by lia.
  replace (2 ^ 64) with (2 ^ (64 - n) * 2 ^ n) by (rewrite <- Z.pow_add_r by lia; f_equal; lia).
  apply Z.mul_mod_distr_r; apply Z.pow_nonzero; lia.
Qed.

(** The bits of the low word that a left shift moves into the high word, and
    the bits of the high word that a right shift moves into the low one. *)
Lemma carry_left l n : 0 <= l < 2 ^ 64 -> 0 < n < 64 ->
  Z.shiftr (Z.land l (UINT64_MAX - Z.shiftr UINT64_MAX n)) (64 - n) = l / 2 ^ (64 - n).
Proof.
  intros Hl Hn. change UINT64_MAX with (Z.ones 64).
  rewrite (Z.shiftr_div_pow2 (Z.ones 64)), Z.ones_div_pow2 by lia.
  assert (0 < 2 ^ (64 - n)) by (apply Z.pow_pos_nonneg; lia).
  rewrite Z.sub_nocarry_ldiff.
  2:{ apply Z.ldiff_ones_r_low.
      - rewrite Z.ones_equiv. lia.
      - destruct (Z.eq_dec (Z.ones (64 - n)) 0) as [->|]; [simpl; lia|].
        apply Z.log2_lt_pow2; rewrite Z.ones_equiv in *; [lia|].
        pose proof (Z.pow_le_mono_r 2 (64 - n) 64 ltac:(lia) ltac:(lia)). lia. }
  rewrite Z.shiftr_land, Z.shiftr_ldiff.
  rewrite !(Z.shiftr_div_pow2 (Z.ones _)), !Z.ones_div_pow2 by lia.
  replace (64 - n - (64 - n)) with 0 by lia. change (Z.ones 0) with 0. rewrite Z.ldiff_0_r.
  rewrite Z.land_ones, Z.shiftr_div_pow2 by lia. apply Z.mod_small.
  split; [apply Z.div_pos; lia|]. apply Z.div_lt_upper_bound; [lia|].
  rewrite <- Z.pow_add_r by lia. replace (64 - n + (64 - (64 - n))) with 64 by lia. lia.
Qed.

Lemma carry_right h n : 0 <= h < 2 ^ 64 -> 0 < n < 64 ->
  Z.land h (UINT64_MAX - u64 (Z.shiftl UINT64_MAX n)) = h mod 2 ^ n.
Proof.
  intros Hh Hn. rewrite u64_shiftl by lia. change UINT64_MAX with (2 ^ 64 - 1).
  replace ((2 ^ 64 - 1) mod 2 ^ (64 - n)) with (2 ^ (64 - n) - 1).
  - rewrite Z.mul_sub_distr_r, <- Z.pow_add_r by lia.
    replace (64 - n + n) with 64 by lia.
    replace (2 ^ 64 - 1 - (2 ^ 64 - 1 * 2 ^ n)) with (Z.ones n) by (rewrite Z.ones_equiv; lia).
    apply Z.land_ones; lia.
  - apply Z.mod_unique with (2 ^ n - 1).
    + left. assert (0 < 2 ^ (64 - n)) by (apply Z.pow_pos_nonneg; lia). lia.
    + replace (2 ^ 64) with (2 ^ (64 - n) * 2 ^ n) by (rewrite <- Z.pow_add_r by lia; f_equal; lia).
      lia.
Qed.

Lemma pow64_split n : 0 <= n <= 64 -> 2 ^ 64 = 2 ^ (64 - n) * 2 ^ n.
Proof. intros. rewrite <- Z.pow_add_r by lia. f_equal; lia. Qed.

(** One shift of the word pair by less than a word. *)
Lemma shl_words h l n : 0 <= h < 2 ^ 64 -> 0 <= l < 2 ^ 64 -> 0 < n < 64 ->
  mk (Z.lor (u64 (Z.shiftl h n)) (Z.shiftr (Z.land l (UINT64_MAX - Z.shiftr UINT64_MAX n)) (64 - n)))
     (u64 (Z.shiftl l n)) = of_Z ((h * 2 ^ 64 + l) * 2 ^ n).
Proof.
  intros Hh Hl Hn. rewrite carry_left, !u64_shiftl by lia.
  assert (0 < 2 ^ n) by (apply Z.pow_pos_nonneg; lia).
  assert (0 < 2 ^ (64 - n)) by (apply Z.pow_pos_nonneg; lia).
  pose proof (pow64_split n ltac:(lia)) as Hp.
  pose proof (Z.div_mod l (2 ^ (64 - n)) ltac:(lia)) as El.
  pose proof (Z.mod_pos_bound l (2 ^ (64 - n)) ltac:(lia)).
  pose proof (Z.div_mod h (2 ^ (64 - n)) ltac:(lia)) as Eh.
  pose proof (Z.mod_pos_bound h (2 ^ (64 - n)) ltac:(lia)).
  assert (0 <= l / 2 ^ (64 - n) < 2 ^ n).
  { split; [apply Z.div_pos; lia|apply Z.div_lt_upper_bound; lia]. }
  rewrite lor_disjoint by lia.
  apply refines; unfold wf, val; simpl.
  - set (P := 2 ^ n) in *. set (Q := 2 ^ (64 - n)) in *. rewrite Hp. nia.
  - exists (- (h / 2 ^ (64 - n))).
    change (2 ^ 128) with (2 ^ 64 * 2 ^ 64).
    set (P := 2 ^ n) in *. set (Q := 2 ^ (64 - n)) in *.
    set (hq := h / Q) in *. set (hr := h mod Q) in *.
    set (lq := l / Q) in *. set (lr := l mod Q) in *.
    clearbody hq hr lq lr P Q. rewrite Eh, El, Hp. ring.
Qed.

Lemma shr_words h l n : 0 <= h < 2 ^ 64 -> 0 <= l < 2 ^ 64 -> 0 < n < 64 ->
  mk (Z.shiftr h n)
     (Z.lor (Z.shiftr l n) (u64 (Z.shiftl (Z.land h (UINT64_MAX - u64 (Z.shiftl UINT64_MAX n))) (64 - n))))
  = of_Z ((h * 2 ^ 64 + l) / 2 ^ n).
Proof.
  intros Hh Hl Hn. rewrite carry_right by lia.
  assert (0 < 2 ^ n) by (apply Z.pow_pos_nonneg; lia).
  assert (0 < 2 ^ (64 - n)) by (apply Z.pow_pos_nonneg; lia).
  pose proof (pow64_split n ltac:(lia)) as Hp.
  rewrite u64_shiftl by lia. replace (64 - (64 - n)) with n by lia.
  rewrite Z.mod_mod by lia. rewrite !Z.shiftr_div_pow2 by lia.
  pose proof (Z.div_mod l (2 ^ n) ltac:(lia)) as El.
  pose proof (Z.mod_pos_bound l (2 ^ n) ltac:(lia)).
  pose proof (Z.div_mod h (2 ^ n) ltac:(lia)) as Eh.
  pose proof (Z.mod_pos_bound h (2 ^ n) ltac:(lia)).
  assert (0 <= l / 2 ^ n < 2 ^ (64 - n)).
  { split; [apply Z.div_pos; lia|apply Z.div_lt_upper_bound; lia]. }
  assert (0 <= h / 2 ^ n < 2 ^ 64).
  { split; [apply Z.div_pos; lia|apply Z.div_lt_upper_bound; nia]. }
  rewrite Z.lor_comm, lor_disjoint by lia.
  apply refines; unfold wf, val; simpl.
  - set (P := 2 ^ n) in *. set (Q := 2 ^ (64 - n)) in *. rewrite Hp in *. nia.
  - exists 0. rewrite Z.mul_0_l, Z.add_0_r.
    set (P := 2 ^ n) in *. set (Q := 2 ^ (64 - n)) in *.
    set (hq := h / P) in *. set (hr := h mod P) in *.
    set (lq := l / P) in *. set (lr := l mod P) in *.
    apply Z.div_unique with lr; [lia|]. clearbody hq hr lq lr P Q. rewrite Eh, El, Hp. ring.
Qed.

Lemma shl_refines x n : wf x -> 0 <= n < 128 -> shl x n = of_Z (val x * 2 ^ n).
Proof.
  intros Hx Hn. unfold shl. destruct (Z.leb_spec 128 n); [lia|].
  destruct x as [h l]; unfold wf in Hx; simpl in Hx; unfold val; simpl hi; simpl lo.
  destruct (Z.leb_spec 64 n), (Z.eqb_spec (n - 64) 0), (Z.eqb_spec n 0); subst;
    try lia; rewrite ?shl_words by lia.
  - apply refines; unfold wf, val; simpl; [lia|]. exists (- h).
    replace n with 64 by lia. lia.
  - apply refines; [apply wf_of_Z|]. rewrite val_of_Z. unfold u128.
    pose proof (Z.div_mod ((l * 2 ^ 64 + 0) * 2 ^ (n - 64)) (2 ^ 128) ltac:(lia)).
    exists (- h * 2 ^ (n - 64) - ((l * 2 ^ 64 + 0) * 2 ^ (n - 64)) / 2 ^ 128).
    replace (2 ^ n) with (2 ^ 64 * 2 ^ (n - 64)) by (rewrite <- Z.pow_add_r by lia; f_equal; lia).
    lia.
  - apply refines; unfold wf, val; simpl; [lia|]. exists 0. lia.
  - done.
Qed.

Lemma shr_refines x n : wf x -> 0 <= n < 128 -> shr x n = of_Z (val x / 2 ^ n).
Proof.
  intros Hx Hn. unfold shr. destruct (Z.leb_spec 128 n); [lia|].
  destruct x as [h l]; unfold wf in Hx; simpl in Hx; unfold val; simpl hi; simpl lo.
  assert (64 <= n -> (h * 2 ^ 64 + l) / 2 ^ n = h / 2 ^ (n - 64)) as Hhigh.
  { intros. replace n with (64 + (n - 64)) at 1 by lia.
    rewrite Z.pow_add_r, <- Z.div_div by (try apply Z.pow_pos_nonneg; try apply Z.pow_nonzero; lia).
    rewrite Z.div_add_l, (Z.div_small l) by lia. by rewrite Z.add_0_r. }
  destruct (Z.leb_spec 64 n), (Z.eqb_spec (n - 64) 0), (Z.eqb_spec n 0); subst;
    try lia; rewrite ?shr_words by lia.
  - rewrite Hhigh by lia. replace (n - 64) with 0 by lia. rewrite Z.div_1_r.
    apply refines; unfold wf, val; simpl; [lia|]. exists 0. lia.
  - rewrite Hhigh by lia. reflexivity.
  - rewrite Z.div_1_r. apply refines; unfold wf, val; simpl; [lia|]. exists 0. lia.
  - done.
Qed.

Lemma wf_of_uint64 l : 0 <= l < 2 ^ 64 -> wf (of_uint64 l).
Proof. unfold wf, of_uint64; simpl; lia. Qed.

Lemma val_of_uint64 l : val (of_uint64 l) = l.
Proof. unfold val, of_uint64; simpl; lia. Qed.

(** Congruence modulo 2^128, to chain the steps of [mul]. *)
Definition repr (x : uint128) (z : Z) : Prop := x = of_Z z.

Lemma of_Z_mod a b : a mod 2 ^ 128 = b mod 2 ^ 128 -> of_Z a = of_Z b.
Proof. unfold of_Z, u128. by intros ->. Qed.

Lemma repr_add x a l : repr x a -> 0 <= l < 2 ^ 64 -> repr (add x (of_uint64 l)) (a + l).
Proof.
  unfold repr. intros -> Hl.
  rewrite add_refines, val_of_Z, val_of_uint64 by (apply wf_of_Z || by apply wf_of_uint64).
  apply of_Z_mod. unfold u128. apply Z.add_mod_idemp_l. lia.
Qed.

Lemma repr_shl x a n : repr x a -> 0 <= n < 128 -> repr (shl x n) (a * 2 ^ n).
Proof.
  unfold repr. intros -> Hn. rewrite shl_refines, val_of_Z by (apply wf_of_Z || done).
  apply of_Z_mod. unfold u128. apply Z.mul_mod_idemp_l. lia.
Qed.

Lemma repr_word l : 0 <= l < 2 ^ 64 -> repr (mk 0 l) l.
Proof. intros. apply refines; [by apply wf_of_uint64|]. exists 0. unfold val; simpl; lia. Qed.

Lemma limbs w : 0 <= w < 2 ^ 64 ->
  w = u32 (Z.shiftr w 32) * 2 ^ 32 + u32 w /\
  0 <= u32 (Z.shiftr w 32) < 2 ^ 32 /\ 0 <= u32 w < 2 ^ 32.
Proof.
  intros. rewrite Z.shiftr_div_pow2 by lia. unfold u32.
  pose proof (Z.div_mod w (2 ^ 32) ltac:(lia)).
  pose proof (Z.mod_pos_bound w (2 ^ 32) ltac:(lia)).
  rewrite (Z.mod_small (w / 2 ^ 32)) by lia. lia.
Qed.

Lemma limb_product x y : 0 <= x < 2 ^ 32 -> 0 <= y < 2 ^ 32 ->
  0 <= u64 (x * y) < 2 ^ 64 /\ u64 (x * y) = x * y.
Proof. intros. assert (0 <= x * y < 2 ^ 64) by nia. rewrite u64_id by done. done. Qed.

Lemma mul_refines a b : wf a -> wf b -> mul a b = of_Z (val a * val b).
Proof.
  intros [Hah Hal] [Hbh Hbl]. unfold mul.
  destruct (limbs _ Hah) as (Eah & ? & ?), (limbs _ Hal) as (Eal & ? & ?),
           (limbs _ Hbh) as (Ebh & ? & ?), (limbs _ Hbl) as (Ebl & ? & ?).
  unfold val. set (a0 := u32 (lo a)) in *. set (a1 := u32 (Z.shiftr (lo a) 32)) in *.
  set (a2 := u32 (hi a)) in *. set (a3 := u32 (Z.shiftr (hi a) 32)) in *.
  set (b0 := u32 (lo b)) in *. set (b1 := u32 (Z.shiftr (lo b) 32)) in *.
  set (b2 := u32 (hi b)) in *. set (b3 := u32 (Z.shiftr (hi b) 32)) in *.
  assert (forall x y z c, repr c z -> 0 <= x < 2 ^ 32 -> 0 <= y < 2 ^ 32 ->
    repr (add c (of_uint64 (u64 (x * y)))) (z + x * y)) as step.
  { intros x y z c Hc Hx Hy. destruct (limb_product x y Hx Hy) as [? E].
    rewrite <- E at 2. by apply repr_add. }
  assert (repr (mk 0 (u64 (a3 * b0))) (a3 * b0)) as base.
  { destruct (limb_product a3 b0) as [? E]; [done|done|]. rewrite <- E at 2. by apply repr_word. }
  eapply eq_trans.
  - apply step; [|done|done]. apply repr_shl; [|lia].
    apply step; [|done|done]. apply step; [|done|done]. apply repr_shl; [|lia].
    apply step; [|done|done]. apply step; [|done|done]. apply step; [|done|done].
    apply repr_shl; [|lia].
    apply step; [|done|done]. apply step; [|done|done]. apply step; [|done|done].
    exact base.
  - apply of_Z_mod. rewrite Eah, Eal, Ebh, Ebl.
    generalize a0 a1 a2 a3 b0 b1 b2 b3. intros x0 x1 x2 x3 y0 y1 y2 y3.
    symmetry. rewrite <- (Z_mod_plus_full _
      (- (x1 * y3 + x2 * y2 + x3 * y1 + (x2 * y3 + x3 * y2) * 2 ^ 32 + x3 * y3 * 2 ^ 64))).
    f_equal. ring.
Qed.

Lemma div_refines a b : wf a -> wf b -> val b <> 0 -> div a b = Ok (of_Z (val a / val b)).
Proof.
  intros Ha Hb Hz. unfold div. rewrite (proj2 (Z.eqb_neq _ _) Hz). f_equal.
  pose proof (val_range a Ha). pose proof (val_range b Hb).
  assert (0 <= val a / val b < 2 ^ 128) as Hq.
  { split; [apply Z.div_pos; lia|apply Z.div_lt_upper_bound; nia]. }
  unfold of_Z. rewrite (u128_id (val a / val b)) by done.
  rewrite !Z.shiftr_div_pow2, Z.shiftl_mul_pow2 by lia. f_equal. unfold u128.
  change (2 ^ 128) with (2 ^ 64 * 2 ^ 64). rewrite Z.mul_mod_distr_r by lia.
  apply Z.div_mul. lia.
Qed.

(** ** The shift-and-subtract division *)

Lemma top_bit_clear d : wf d ->
  eqb (and_ (shr d 127) (of_uint64 1)) (of_uint64 0) = (val d <? 2 ^ 127).
Proof.
  intros Hd. pose proof (val_range d Hd). rewrite shr_refines by (done || lia).
  destruct (Z.ltb_spec (val d) (2 ^ 127)).
  - rewrite Z.div_small by lia. reflexivity.
  - replace (val d / 2 ^ 127) with 1; [reflexivity|].
    apply Z.div_unique with (val d - 2 ^ 127); lia.
Qed.

Lemma scale_up_spec D N : 0 < D -> wf N -> forall fuel k d x,
  (128 <= k + fuel)%nat -> wf d -> wf x ->
  val d = D * 2 ^ Z.of_nat k -> val x = 2 ^ Z.of_nat k ->
  exists k' d' x', scale_up fuel N d x = (d', x') /\ wf d' /\ wf x' /\ (k' < 128)%nat /\
    val d' = D * 2 ^ Z.of_nat k' /\ val x' = 2 ^ Z.of_nat k' /\ val N < 2 * val d'.
Proof.
  intros HD HN. pose proof (val_range N HN).
  induction fuel as [|f IH]; intros k d x Hk Hd Hx Ed Ex.
  - exfalso. pose proof (val_range d Hd).
    assert (2 ^ 128 <= 2 ^ Z.of_nat k) by (apply Z.pow_le_mono_r; lia). nia.
  - simpl. rewrite geb_val, top_bit_clear by done.
    pose proof (val_range d Hd). pose proof (val_range x Hx).
    assert (2 ^ (Z.of_nat k) < 2 ^ 128) as Hk' by nia.
    apply Z.pow_lt_mono_r_iff in Hk'; [|lia|lia].
    destruct (Z.leb_spec (val d) (val N)), (Z.ltb_spec (val d) (2 ^ 127)); simpl;
      try solve [exists k, d, x; repeat split; try done; try lia; apply Hd || apply Hx].
    assert (shl d 1 = of_Z (val d * 2 ^ 1)) as Sd by (apply shl_refines; [done|lia]).
    assert (shl x 1 = of_Z (val x * 2 ^ 1)) as Sx by (apply shl_refines; [done|lia]).
    assert (val x <= val d) by nia.
    apply (IH (S k)); rewrite ?Sd, ?Sx; try apply wf_of_Z; [lia| |];
      rewrite val_of_Z, u128_id by lia; rewrite ?Ed, ?Ex, Nat2Z.inj_succ, Z.pow_succ_r by lia; lia.
Qed.

Lemma log2_word u : 0 <= u < 2 ^ 64 -> Z.log2 u < 64.
Proof. intros. destruct (Z.eq_dec u 0) as [->|]; [simpl; lia|apply Z.log2_lt_pow2; lia]. Qed.

Lemma lor_word u v : 0 <= u < 2 ^ 64 -> 0 <= v < 2 ^ 64 -> 0 <= Z.lor u v < 2 ^ 64.
Proof.
  intros Hu Hv. assert (0 <= Z.lor u v) by (apply Z.lor_nonneg; lia). split; [done|].
  destruct (Z.eq_dec (Z.lor u v) 0) as [->|]; [lia|].
  apply Z.log2_lt_pow2; [lia|]. rewrite Z.log2_lor by lia.
  apply Z.max_lub_lt; by apply log2_word.
Qed.

Lemma val_lor x : wf x -> val x = Z.lor (Z.shiftl (hi x) 64) (lo x).
Proof. intros [? ?]. rewrite Z.shiftl_mul_pow2, lor_disjoint by lia. reflexivity. Qed.

Lemma or_assign_val a b : wf a -> wf b ->
  wf (or_assign a b) /\ val (or_assign a b) = Z.lor (val a) (val b).
Proof.
  intros Ha Hb. assert (wf (or_assign a b)) as Hw.
  { destruct Ha, Hb. split; apply lor_word; done. }
  split; [done|]. rewrite !val_lor by done. unfold or_assign; simpl.
  rewrite Z.shiftl_lor. apply Z.bits_inj'. intros i Hi. rewrite !Z.lor_spec.
  repeat match goal with |- context [Z.testbit ?x i] => destruct (Z.testbit x i) end; reflexivity.
Qed.

Lemma or_assign_add a k : wf a -> 0 <= k < 128 -> (exists q, val a = q * 2 ^ (k + 1)) ->
  val a + 2 ^ k < 2 ^ 128 -> or_assign a (of_Z (2 ^ k)) = of_Z (val a + 2 ^ k).
Proof.
  intros Ha Hk [q Hq] Hlt. assert (0 < 2 ^ k) by (apply Z.pow_pos_nonneg; lia).
  pose proof (val_range a Ha).
  destruct (or_assign_val a (of_Z (2 ^ k))) as [? E]; [done|apply wf_of_Z|].
  apply refines; [done|]. exists 0. rewrite E, val_of_Z, u128_id by lia.
  rewrite Hq, lor_disjoint; [lia|lia|]. rewrite Z.pow_add_r by lia. lia.
Qed.

Lemma scale_down_spec D : 0 < D -> forall k fuel n d x ans,
  (k < fuel)%nat -> (k < 128)%nat -> wf n -> wf d -> wf x -> wf ans ->
  val x = 2 ^ Z.of_nat k -> val d = D * 2 ^ Z.of_nat k -> val n < 2 * val d ->
  (exists q, val ans = q * 2 ^ (Z.of_nat k + 1)) -> val ans * D + val n < 2 ^ 128 ->
  exists a r, scale_down fuel n d x ans = Some (a, r) /\ wf a /\ wf r /\
    val a * D + val r = val ans * D + val n /\ 0 <= val r < D.
Proof.
  intros HD. induction k as [|k IH]; intros fuel n d x ans Hf Hk Hn Hd Hx Ha Ex Ed Hlt [q Hq] Hs;
    (destruct fuel as [|fuel]; [lia|]); simpl scale_down;
    assert (eqb x (of_uint64 0) = false) as -> by
      (rewrite eqb_val by (done || (apply wf_of_uint64; lia)); rewrite val_of_uint64;
       apply Z.eqb_neq; rewrite Ex; apply Z.pow_nonzero; lia);
    rewrite geb_val by done; pose proof (val_range n Hn); pose proof (val_range d Hd);
    pose proof (val_range ans Ha);
    assert (x = of_Z (2 ^ Z.of_nat _)) as Hxz by (rewrite <- (of_Z_val x) by done; by rewrite Ex).
  - simpl in Ex, Ed. rewrite Z.mul_1_r in Ed.
    assert (shr x 1 = of_uint64 0) as -> by (rewrite shr_refines, Ex by (done || lia); reflexivity).
    assert (forall n' d' a', scale_down fuel n' d' (of_uint64 0) a' = Some (a', n')) as Hend.
    { intros. destruct fuel; reflexivity. }
    destruct (Z.leb_spec (val d) (val n)); rewrite Hend.
    + rewrite sub_refines by done. rewrite Hxz; change (Z.of_nat 0) with 0.
      rewrite or_assign_add by first [done | lia | by exists q | nia].
      eexists _, _. split; [done|]. rewrite !val_of_Z, !u128_id by nia.
      repeat split; try apply wf_of_Z; nia.
    + eexists _, _. split; [done|]. repeat split; try apply Ha; try apply Hn; nia.
  - rewrite Nat2Z.inj_succ, Z.pow_succ_r in Ex, Ed by lia.
    assert (0 < 2 ^ Z.of_nat k) by (apply Z.pow_pos_nonneg; lia).
    assert (shr x 1 = of_Z (2 ^ Z.of_nat k)) as Sx.
    { rewrite shr_refines, Ex by (done || lia). f_equal. symmetry. apply (Z.div_unique _ _ _ 0); lia. }
    assert (shr d 1 = of_Z (D * 2 ^ Z.of_nat k)) as Sd.
    { rewrite shr_refines, Ed by (done || lia). f_equal. symmetry. apply (Z.div_unique _ _ _ 0); lia. }
    assert (val (of_Z (2 ^ Z.of_nat k)) = 2 ^ Z.of_nat k) by (rewrite val_of_Z, u128_id; nia).
    assert (val (of_Z (D * 2 ^ Z.of_nat k)) = D * 2 ^ Z.of_nat k) by (rewrite val_of_Z, u128_id; nia).
    rewrite Sx, Sd. rewrite Nat2Z.inj_succ in Hq. unfold Z.succ in Hq.
    assert (2 ^ (Z.of_nat k + 1 + 1) = 2 * 2 ^ (Z.of_nat k + 1)) as P2
      by (rewrite (Z.pow_add_r 2 (Z.of_nat k + 1)) by lia; lia).
    assert (2 ^ (Z.of_nat k + 1) = 2 * 2 ^ Z.of_nat k) as P1 by (rewrite Z.pow_add_r by lia; lia).
    destruct (Z.leb_spec (val d) (val n)).
    + rewrite sub_refines by done. rewrite Hxz, Nat2Z.inj_succ.
      unfold Z.succ in *. rewrite or_assign_add by first [done | lia | by exists q | nia].
      assert (Va : val (of_Z (val ans + 2 ^ (Z.of_nat k + 1))) = val ans + 2 ^ (Z.of_nat k + 1)).
      { rewrite val_of_Z. apply u128_id. split; [lia|].
        assert (val ans + 2 ^ (Z.of_nat k + 1) <= (val ans + 2 ^ (Z.of_nat k + 1)) * D) by nia. lia. }
      assert (Vn : val (of_Z (val n - val d)) = val n - val d) by (rewrite val_of_Z; apply u128_id; lia).
      destruct (IH fuel (of_Z (val n - val d)) (of_Z (D * 2 ^ Z.of_nat k)) (of_Z (2 ^ Z.of_nat k))
        (of_Z (val ans + 2 ^ (Z.of_nat k + 1)))) as (a & r & E & Wa & Wr & E1 & E2);
        try apply wf_of_Z; try assumption; [lia|lia|lia|exists (2 * q + 1); lia|lia|].
      exists a, r. split; [done|]. split; [done|]. split; [done|]. lia.
    + destruct (IH fuel n (of_Z (D * 2 ^ Z.of_nat k)) (of_Z (2 ^ Z.of_nat k)) ans)
        as (a & r & E & Wa & Wr & E1 & E2);
        try apply wf_of_Z; try assumption; [lia|lia|lia|exists (2 * q); lia|].
      exists a, r. done.
Qed.

Lemma divide_spec a b : wf a -> wf b -> val b <> 0 ->
  divide a b = Ok (Some (of_Z (val a / val b), of_Z (val a mod val b))).
Proof.
  intros Ha Hb Hz. pose proof (val_range a Ha). pose proof (val_range b Hb).
  unfold divide. rewrite eqb_val, val_of_uint64 by (done || (apply wf_of_uint64; lia)).
  rewrite (proj2 (Z.eqb_neq _ _) Hz).
  destruct (scale_up_spec (val b) a ltac:(lia) Ha 128 0 b (of_uint64 1))
    as (k & d & x & E & Wd & Wx & Hk & Ed & Ex & Hn);
    try (done || lia || (apply wf_of_uint64; lia)).
  rewrite E.
  destruct (scale_down_spec (val b) ltac:(lia) k 128 a d x (of_uint64 0))
    as (q & r & E' & Wq & Wr & E1 & E2);
    try first [done | lia | (exists 0; reflexivity) | (rewrite val_of_uint64; lia)].
  rewrite E', val_of_uint64 in *. do 3 f_equal.
  - rewrite <- (of_Z_val q) by done. f_equal. apply Z.div_unique with (val r); lia.
  - rewrite <- (of_Z_val r) by done. f_equal. apply Z.mod_unique with (val q); lia.
Qed.

(** ** The 256-bit product *)

Lemma add_small u l : wf u -> 0 <= l < 2 ^ 64 -> val u + l < 2 ^ 128 ->
  wf (add u (of_uint64 l)) /\ val (add u (of_uint64 l)) = val u + l.
Proof.
  intros Hu Hl Hs. pose proof (val_range u Hu).
  rewrite add_refines, val_of_uint64 by (done || by apply wf_of_uint64).
  split; [apply wf_of_Z|]. rewrite val_of_Z. apply u128_id. lia.
Qed.

Lemma mul_words x y : 0 <= x < 2 ^ 64 -> 0 <= y < 2 ^ 64 ->
  wf (mul (of_uint64 x) (of_uint64 y)) /\ val (mul (of_uint64 x) (of_uint64 y)) = x * y.
Proof.
  intros Hx Hy. rewrite mul_refines, !val_of_uint64 by (by apply wf_of_uint64).
  split; [apply wf_of_Z|]. rewrite val_of_Z. apply u128_id. nia.
Qed.

Lemma sum_partial_spec s r q p :
  wf s -> wf r -> wf q -> wf p ->
  val p * 2 ^ 128 + (val q + val r) * 2 ^ 64 + val s < 2 ^ 256 ->
  let '(h, l) := sum_partial s r q p in
  wf h /\ wf l /\ val h * 2 ^ 128 + val l = val p * 2 ^ 128 + (val q + val r) * 2 ^ 64 + val s.
Proof.
  intros [Ws1 Ws2] [Wr1 Wr2] [Wq1 Wq2] [Wp1 Wp2] Hlt. unfold sum_partial.
  destruct (add_small (of_uint64 (hi s)) (lo q)) as [W1 V1];
    [by apply wf_of_uint64|done|rewrite val_of_uint64; lia|].
  destruct (add_small _ (lo r) W1) as [W2 V2]; [done|rewrite V1, val_of_uint64; lia|].
  rewrite V1, val_of_uint64 in V2.
  generalize dependent (add (add (of_uint64 (hi s)) (of_uint64 (lo q))) (of_uint64 (lo r))).
  intros acc [W2h W2l] V2. clear W1 V1.
  assert (hi acc <= 2) by (unfold val in V2; lia).
  destruct (add_small (of_uint64 (hi acc)) (hi q)) as [W3 V3];
    [by apply wf_of_uint64|done|rewrite val_of_uint64; lia|].
  destruct (add_small _ (hi r) W3) as [W4 V4]; [done|rewrite V3, val_of_uint64; lia|].
  destruct (add_small _ (lo p) W4) as [W5 V5]; [done|rewrite V4, V3, val_of_uint64; lia|].
  rewrite V4, V3, val_of_uint64 in V5. clear W3 V3 W4 V4.
  generalize dependent (add (add (add (of_uint64 (hi acc)) (of_uint64 (hi q))) (of_uint64 (hi r))) (of_uint64 (lo p))).
  intros acc' [W5h W5l] V5. unfold val in *.
  rewrite (u64_id (hi acc' + hi p)) by lia. unfold wf; simpl hi; simpl lo.
  split; [split; lia|]. split; [split; lia|]. lia.
Qed.

Lemma full_product_spec a b : wf a -> wf b ->
  let '(h, l) := full_product a b in
  wf h /\ wf l /\ val h * 2 ^ 128 + val l = val a * val b.
Proof.
  intros [Hah Hal] [Hbh Hbl]. unfold full_product.
  destruct (mul_words (lo a) (lo b)) as [Ws Vs]; [done|done|].
  destruct (mul_words (hi a) (lo b)) as [Wr Vr]; [done|done|].
  destruct (mul_words (lo a) (hi b)) as [Wq Vq]; [done|done|].
  destruct (mul_words (hi a) (hi b)) as [Wp Vp]; [done|done|].
  assert (val a * val b = (hi a * hi b) * 2 ^ 128 + (lo a * hi b + hi a * lo b) * 2 ^ 64 + lo a * lo b)
    as Hv by (unfold val; ring).
  assert (val a * val b < 2 ^ 256) as Hlt by (unfold val; nia).
  rewrite Hv. rewrite <- Vs, <- Vr, <- Vq, <- Vp in Hv |- *. rewrite Hv in Hlt.
  exact (sum_partial_spec _ _ _ _ Ws Wr Wq Wp Hlt).
Qed.

(** C37: The words of a [uint128] compute modulo 2^128. *)
Theorem uint128_refines_mod a b n :
  wf a -> wf b -> 0 <= n < 128 ->
  add a b = of_Z (val a + val b) /\ sub a b = of_Z (val a - val b) /\
  mul a b = of_Z (val a * val b) /\
  shl a n = of_Z (val a * 2 ^ n) /\ shr a n = of_Z (val a / 2 ^ n) /\
  ltb a b = (val a <? val b).
Proof.
  intros. repeat split;
    auto using add_refines, sub_refines, mul_refines, shl_refines, shr_refines, ltb_val.
Qed.

Lemma uint128_refines_mod_witness :
  wf (mk 1 2) /\ wf (mk 3 UINT64_MAX) /\ mul (mk 1 2) (mk 3 UINT64_MAX) = mk 6 18446744073709551614.
Proof.
  assert (wf (mk 1 2)) by (unfold wf; simpl; lia).
  assert (wf (mk 3 UINT64_MAX)) by (unfold wf, UINT64_MAX; simpl; lia).
  split; [done|]. split; [done|].
  destruct (uint128_refines_mod (mk 1 2) (mk 3 UINT64_MAX) 0) as (_ & _ & -> & _);
    [done|done|lia|reflexivity].
Defined.

(** the shift-and-subtract loop of [divide] ends with the quotient and the
    remainder of the values. *)
Theorem divide_correct a b :
  wf a -> wf b -> val b <> 0 ->
  divide a b = Ok (Some (of_Z (val a / val b), of_Z (val a mod val b))) /\
  div a b = Ok (of_Z (val a / val b)).
Proof. intros. auto using divide_spec, div_refines. Qed.

Lemma divide_correct_witness :
  wf (mk 5 7) /\ wf (mk 0 10) /\ div (mk 5 7) (mk 0 10) = Ok (of_Z ((5 * 2 ^ 64 + 7) / 10)).
Proof.
  assert (wf (mk 5 7)) by (unfold wf; simpl; lia).
  assert (wf (mk 0 10)) by (unfold wf; simpl; lia).
  split; [done|]. split; [done|].
  destruct (divide_correct (mk 5 7) (mk 0 10)) as [_ ->]; [done|done|discriminate|reflexivity].
Defined.

(** [full_product] returns the two halves of the 256-bit product. *)
Theorem full_product_correct a b :
  wf a -> wf b ->
  val (fst (full_product a b)) * 2 ^ 128 + val (snd (full_product a b)) = val a * val b /\
  wf (fst (full_product a b)) /\ wf (snd (full_product a b)).
Proof.
  intros Ha Hb. pose proof (full_product_spec a b Ha Hb) as H.
  destruct (full_product a b) as [h l]. destruct H as (? & ? & ?). auto.
Qed.

Lemma full_product_correct_witness :
  let m := mk UINT64_MAX UINT64_MAX in
  wf m /\ val (fst (full_product m m)) * 2 ^ 128 + val (snd (full_product m m)) = UINT128_MAX * UINT128_MAX.
Proof.
  intros m. assert (wf m) by (unfold m, wf, UINT64_MAX; simpl; lia).
  split; [assumption|].
  destruct (full_product_correct m m) as [E _]; [assumption|assumption|].
  rewrite E. reflexivity.
Defined.

(** The friend [operator |] drops its left operand: it differs from the bitwise
    or, which the member [operator |=] computes. *)
Theorem or_drops_left_operand :
  (forall l r, or_ l r = r) /\
  (forall l r, wf l -> wf r -> val (or_assign l r) = Z.lor (val l) (val r)) /\
  val (or_ (of_uint64 1) (of_uint64 2)) <> Z.lor 1 2.
Proof.
  split; [reflexivity|]. split; [intros; by apply or_assign_val|]. discriminate.
Qed.

(** ** popcount *)

(** the masks m[] of [_popcount_64] *)
Definition popcount_masks : list Z :=
  [0x5555555555555555; 0x3333333333333333; 0x0F0F0F0F0F0F0F0F; 0x00FF00FF00FF00FF; 0x0000FFFF0000FFFF;
   0x00000000FFFFFFFF].

Fixpoint popcount_loop (m : list Z) (w x : Z) : Z :=
  match m with
  | [] => x
  | mi :: m => popcount_loop m (w + w) (u64 (Z.land x mi + Z.land (Z.shiftr x w) mi))
  end.

Definition _popcount_64 (x : Z) : Z := u8 (popcount_loop popcount_masks 1 x).
Definition popcount (x : uint128) : Z := u8 (_popcount_64 (lo x) + _popcount_64 (hi x)).

(** the number of set bits among the lowest [n] *)
Fixpoint bit_count (n : nat) (x : Z) : Z :=
  match n with
  | O => 0
  | S n => b2z (Z.testbit x (Z.of_nat n)) + bit_count n x
  end.

Lemma bit_count_S n x : bit_count (S n) x = b2z (Z.testbit x (Z.of_nat n)) + bit_count n x.
Proof. reflexivity. Qed.
#[global] Arguments bit_count : simpl never.

Lemma bit_count_range n x : 0 <= bit_count n x <= Z.of_nat n.
Proof. induction n as [|n IH]; [unfold bit_count; lia|]. rewrite bit_count_S. destruct (Z.testbit x _); unfold b2z; lia. Qed.

Lemma bit_count_shift n : forall x (b : bool), bit_count (S n) (2 * x + b2z b) = bit_count n x + b2z b.
Proof.
  assert (forall x (b : bool), Z.testbit (2 * x + b2z b) 0 = b) as H0.
  { intros x []; unfold b2z; [rewrite (Z.testbit_odd_0 x)|rewrite Z.add_0_r, (Z.testbit_even_0 x)]; done. }
  assert (forall x (b : bool) k, 0 <= k -> Z.testbit (2 * x + b2z b) (Z.succ k) = Z.testbit x k) as HS.
  { intros x [] k Hk; unfold b2z; [rewrite (Z.testbit_odd_succ x k Hk)|rewrite Z.add_0_r, (Z.testbit_even_succ x k Hk)]; done. }
  induction n as [|n IH]; intros x b.
  { rewrite bit_count_S. change (Z.of_nat 0) with 0. rewrite H0. unfold bit_count. lia. }
  rewrite (bit_count_S (S n)), IH, Nat2Z.inj_succ, HS by lia. rewrite bit_count_S. lia.
Qed.

Lemma bit_count_mod n : forall m x, Z.of_nat n <= m -> bit_count n (x mod 2 ^ m) = bit_count n x.
Proof.
  induction n as [|n IH]; intros m x Hm; [done|].
  rewrite !bit_count_S. rewrite IH by lia. by rewrite Z.mod_pow2_bits_low by lia.
Qed.

Lemma bit_count_app n m x y : 0 <= y < 2 ^ Z.of_nat m ->
  bit_count (n + m) (x * 2 ^ Z.of_nat m + y) = bit_count n x + bit_count m y.
Proof.
  intros Hy. induction n as [|n IH].
  - simpl Nat.add. rewrite <- (bit_count_mod m (Z.of_nat m)) by lia.
    rewrite Z.add_comm, Z.mod_add by lia. rewrite Z.mod_small by done. unfold bit_count at 2. lia.
  - simpl Nat.add. rewrite !bit_count_S, IH. replace (Z.of_nat (n + m)) with (Z.of_nat n + Z.of_nat m) by lia.
    rewrite <- (Z.shiftr_spec (x * 2 ^ Z.of_nat m + y)) by lia. rewrite Z.shiftr_div_pow2 by lia.
    rewrite (Z.add_comm _ y), Z.div_add, (Z.div_small y), Z.add_0_l by lia. lia.
Qed.

(** numbers as little-endian digits of [w] bits *)
Fixpoint digits (w : Z) (ds : list Z) : Z := match ds with [] => 0 | d :: ds => d + 2 ^ w * digits w ds end.
Fixpoint pair_sums (ds : list Z) : list Z := match ds with a :: b :: ds => (a + b) :: pair_sums ds | _ => [] end.
Definition mask (w : Z) (n : nat) : Z := digits (2 * w) (repeat (2 ^ w - 1) n).
Definition digit_sum (ds : list Z) : Z := foldr Z.add 0 ds.

Lemma land_split k a b x y : 0 <= k -> 0 <= a < 2 ^ k -> 0 <= b < 2 ^ k ->
  Z.land (a + 2 ^ k * x) (b + 2 ^ k * y) = Z.land a b + 2 ^ k * Z.land x y.
Proof.
  intros Hk Ha Hb.
  assert (forall c z, 0 <= c < 2 ^ k -> forall i, 0 <= i ->
    Z.testbit (c + 2 ^ k * z) i = if i <? k then Z.testbit c i else Z.testbit z (i - k)) as E.
  { intros c z Hc i Hi. destruct (Z.ltb_spec i k).
    - rewrite <- (Z.mod_pow2_bits_low (c + _) k i) by lia. rewrite (Z.mul_comm _ z), Z.mod_add, Z.mod_small by lia. done.
    - replace i with (i - k + k) at 1 by lia. rewrite <- Z.shiftr_spec, Z.shiftr_div_pow2 by lia.
      rewrite (Z.mul_comm _ z), Z.div_add, Z.div_small by lia. done. }
  assert (0 <= Z.land a b < 2 ^ k) as Hab.
  { rewrite <- (Z.mod_small a (2 ^ k)) by done. rewrite <- Z.land_ones, <- Z.land_assoc, (Z.land_comm _ b), Z.land_assoc by done.
    rewrite Z.land_ones by done. apply Z.mod_pos_bound. lia. }
  apply Z.bits_inj'. intros i Hi. rewrite Z.land_spec, !E by done. destruct (i <? k); by rewrite Z.land_spec.
Qed.

Lemma land_low k a x : 0 <= k -> 0 <= a < 2 ^ k -> Z.land (a + 2 ^ k * x) (2 ^ k - 1) = a.
Proof.
  intros Hk Ha. replace (2 ^ k - 1) with (Z.ones k) by (rewrite Z.ones_equiv; lia).
  rewrite Z.land_ones, (Z.mul_comm _ x), Z.mod_add, Z.mod_small by lia. done.
Qed.

(** one round of the loop adds neighbouring digits *)
Lemma popcount_round w n : forall ds, 0 < w -> List.length ds = (2 * n)%nat -> Forall (fun d => 0 <= d < 2 ^ w) ds ->
  Z.land (digits w ds) (mask w n) + Z.land (Z.shiftr (digits w ds) w) (mask w n) = digits (2 * w) (pair_sums ds).
Proof.
  induction n as [|n IH]; intros ds Hw Hl Hd.
  { destruct ds; [|done]. unfold mask. simpl. by rewrite !Z.land_0_r. }
  destruct ds as [|a [|b ds]]; [simpl in Hl; lia..|]. apply Forall_cons in Hd as [Ha Hd]. apply Forall_cons in Hd as [Hb Hd].
  specialize (IH ds Hw ltac:(simpl in Hl; lia) Hd). rewrite Z.shiftr_div_pow2 in * by lia.
  assert (2 ^ (2 * w) = 2 ^ w * 2 ^ w) as E2 by (rewrite <- Z.pow_add_r by lia; f_equal; lia).
  change (mask w (S n)) with (2 ^ w - 1 + 2 ^ (2 * w) * mask w n). set (M := mask w n) in *. simpl digits. simpl pair_sums.
  set (D := digits w ds) in *. cbn [digits]. rewrite <- IH.
  pose proof (Z.div_mod D (2 ^ w) ltac:(lia)) as HD. pose proof (Z.mod_pos_bound D (2 ^ w) ltac:(lia)) as HDm.
  replace (a + 2 ^ w * (b + 2 ^ w * D)) with (a + 2 ^ w * b + 2 ^ (2 * w) * D) by (rewrite E2; ring).
  rewrite (land_split (2 * w) (a + 2 ^ w * b)) by (rewrite ?E2; nia). rewrite land_low by lia.
  replace ((a + 2 ^ w * b + 2 ^ (2 * w) * D) / 2 ^ w) with (b + 2 ^ w * (D mod 2 ^ w) + 2 ^ (2 * w) * (D / 2 ^ w)).
  2:{ apply (Z.div_unique _ _ _ a); [lia|]. rewrite E2. rewrite HD at 1. ring. }
  rewrite (land_split (2 * w) (b + 2 ^ w * (D mod 2 ^ w))) by (rewrite ?E2; nia). rewrite land_low by lia. ring.
Qed.

Lemma pair_sums_sum n : forall ds, List.length ds = (2 * n)%nat -> digit_sum (pair_sums ds) = digit_sum ds.
Proof.
  induction n as [|n IH]; intros [|a [|b ds]] Hl; simpl in Hl; try lia; [done|]. simpl. rewrite IH by lia. lia.
Qed.

Lemma pair_sums_length n : forall ds, List.length ds = (2 * n)%nat -> List.length (pair_sums ds) = n.
Proof. induction n as [|n IH]; intros [|a [|b ds]] Hl; simpl in Hl; try lia; [done|]. simpl. rewrite IH by lia. lia. Qed.

Lemma pair_sums_bound c n : forall ds, List.length ds = (2 * n)%nat -> Forall (fun d => 0 <= d <= c) ds ->
  Forall (fun d => 0 <= d <= 2 * c) (pair_sums ds).
Proof.
  induction n as [|n IH]; intros [|a [|b ds]] Hl Hd; simpl in Hl; try lia; [constructor|].
  apply Forall_cons in Hd as [Ha Hd]. apply Forall_cons in Hd as [Hb Hd].
  constructor; [lia|]. apply IH; [lia|done].
Qed.

Lemma digits_bound w ds : 0 < w -> Forall (fun d => 0 <= d < 2 ^ w) ds -> 0 <= digits w ds < 2 ^ (w * Z.of_nat (List.length ds)).
Proof.
  intros Hw. induction 1 as [|d ds Hd _ IH]; [simpl; rewrite Z.mul_0_r; simpl; lia|].
  cbn [digits List.length]. replace (w * Z.of_nat (S (List.length ds))) with (w + w * Z.of_nat (List.length ds)) by lia.
  rewrite Z.pow_add_r by lia. nia.
Qed.

(** the bits of a number as digits *)
Fixpoint bits (n : nat) (x : Z) : list Z := match n with O => [] | S n => x mod 2 :: bits n (x / 2) end.

Lemma bits_spec n : forall x, 0 <= x < 2 ^ Z.of_nat n ->
  digits 1 (bits n x) = x /\ digit_sum (bits n x) = bit_count n x /\ List.length (bits n x) = n /\
  Forall (fun d => 0 <= d <= 1) (bits n x).
Proof.
  induction n as [|n IH]; intros x Hx; [simpl in *; repeat split; [lia|constructor]|].
  rewrite Nat2Z.inj_succ, Z.pow_succ_r in Hx by lia.
  pose proof (Z.div_mod x 2 ltac:(lia)) as Hd. pose proof (Z.mod_pos_bound x 2 ltac:(lia)) as Hm.
  destruct (IH (x / 2)) as (E1 & E2 & E3 & E4); [lia|]. cbn [bits digits digit_sum foldr List.length].
  rewrite E1, E3. change (foldr Z.add 0 (bits n (x / 2))) with (digit_sum (bits n (x / 2))). rewrite E2.
  split; [lia|]. split; [|split; [done|constructor; [lia|done]]].
  assert (exists b, x mod 2 = b2z b) as [b Hb].
  { destruct (Z.eq_dec (x mod 2) 0) as [->|]; [by exists false|exists true; unfold b2z; lia]. }
  rewrite Hb in *. rewrite Hd at 2. rewrite bit_count_shift. lia.
Qed.

(** a round keeps the sum of the digits and doubles their width *)
Lemma popcount_loop_round m n w c ds :
  0 < w -> List.length ds = (2 * n)%nat -> Forall (fun d => 0 <= d <= c) ds -> c < 2 ^ w -> 2 * c < 2 ^ (2 * w) ->
  2 * w * Z.of_nat n = 64 ->
  popcount_loop (mask w n :: m) w (digits w ds) = popcount_loop m (w + w) (digits (w + w) (pair_sums ds)).
Proof.
  intros Hw Hl Hd Hc Hc2 H64. cbn [popcount_loop]. f_equal.
  rewrite popcount_round; [|done|done|eapply Forall_impl; [exact Hd|simpl; lia]].
  replace (w + w) with (2 * w) by lia. apply Z.mod_small. rewrite <- H64.
  rewrite <- (pair_sums_length n ds Hl). apply digits_bound; [lia|].
  eapply Forall_impl; [by apply (pair_sums_bound c n)|]. simpl. lia.
Qed.

Lemma popcount_64_spec x : 0 <= x < 2 ^ 64 -> _popcount_64 x = bit_count 64 x.
Proof.
  intros Hx. destruct (bits_spec 64 x Hx) as (E & Es & El & Eb). unfold _popcount_64. rewrite <- E at 1.
  set (d1 := bits 64 x) in *. clearbody d1.
  pose proof (pair_sums_length 32 d1 El) as L2. pose proof (pair_sums_sum 32 d1 El) as S2. pose proof (pair_sums_bound 1 32 d1 El Eb) as B2.
  set (d2 := pair_sums d1) in *.
  pose proof (pair_sums_length 16 d2 L2) as L3. pose proof (pair_sums_sum 16 d2 L2) as S3. pose proof (pair_sums_bound _ 16 d2 L2 B2) as B3.
  set (d3 := pair_sums d2) in *.
  pose proof (pair_sums_length 8 d3 L3) as L4. pose proof (pair_sums_sum 8 d3 L3) as S4. pose proof (pair_sums_bound _ 8 d3 L3 B3) as B4.
  set (d4 := pair_sums d3) in *.
  pose proof (pair_sums_length 4 d4 L4) as L5. pose proof (pair_sums_sum 4 d4 L4) as S5. pose proof (pair_sums_bound _ 4 d4 L4 B4) as B5.
  set (d5 := pair_sums d4) in *.
  pose proof (pair_sums_length 2 d5 L5) as L6. pose proof (pair_sums_sum 2 d5 L5) as S6. pose proof (pair_sums_bound _ 2 d5 L5 B5) as B6.
  set (d6 := pair_sums d5) in *.
  pose proof (pair_sums_length 1 d6 L6) as L7. pose proof (pair_sums_sum 1 d6 L6) as S7. pose proof (pair_sums_bound _ 1 d6 L6 B6) as B7.
  change popcount_masks with [mask 1 32; mask 2 16; mask 4 8; mask 8 4; mask 16 2; mask 32 1].
  rewrite (popcount_loop_round _ 32 1 1) by (done || lia). fold d2.
  rewrite (popcount_loop_round _ 16 (1 + 1) (2 * 1)) by (done || lia). fold d3.
  rewrite (popcount_loop_round _ 8 _ (2 * (2 * 1))) by (done || lia). fold d4.
  rewrite (popcount_loop_round _ 4 _ (2 * (2 * (2 * 1)))) by (done || lia). fold d5.
  rewrite (popcount_loop_round _ 2 _ (2 * (2 * (2 * (2 * 1))))) by (done || lia). fold d6.
  rewrite (popcount_loop_round _ 1 _ (2 * (2 * (2 * (2 * (2 * 1)))))) by (done || lia).
  destruct (pair_sums d6) as [|s [|]]; [done| |done]. cbn [popcount_loop digits digit_sum foldr] in *.
  inversion B7; subst. rewrite <- Es, <- S2, <- S3, <- S4, <- S5, <- S6, <- S7. rewrite Z.mul_0_r, !Z.add_0_r.
  apply Z.mod_small. lia.
Qed.

(** the parallel additions of popcount count the set bits. *)
Theorem popcount_correct x : wf x -> popcount x = bit_count 128 (val x).
Proof.
  intros [Hh Hl]. unfold popcount, val. rewrite !popcount_64_spec by done.
  change (2 ^ 64) with (2 ^ Z.of_nat 64). rewrite (bit_count_app 64 64) by done.
  pose proof (bit_count_range 64 (hi x)). pose proof (bit_count_range 64 (lo x)).
  unfold u8. rewrite Z.mod_small by lia. lia.
Qed.

Lemma popcount_correct_witness : popcount (mk 5 UINT64_MAX) = 66.
Proof.
  rewrite (popcount_correct (mk 5 UINT64_MAX)); [vm_compute; reflexivity|].
  unfold wf, UINT64_MAX. simpl. lia.
Defined.

End Uint128.
