(* ===== verification/BlockId.v ===== *)
(** BlockId: digests as numbers, the number in a block id, and the merkle root.

    From bitutil.hpp, hex.cpp, protocol/block.cpp and shared_db_merkle.hpp.  A digest
    is the integer whose little-endian bytes are those of its memory, so that word
    [i] of its array [_hash] is [hash_word i].  The hash functions themselves are
    parameters: sha224 of a header is a field of the block, the digest of a
    transaction and the hash of two digests are arguments of the merkle root. *)
From Stdlib Require Import ZArith Lia String Ascii.
From stdpp Require Import base gmap strings list.
From S2P Require Import Prelude.
From S2P Require Import Uint128.
Local Open Scope string_scope.
Local Open Scope Z_scope.
Local Open Scope fc_scope.

Definition endian_reverse_u32 (x : Z) : Z :=
  Z.lor (Z.lor (Z.lor (Z.land (Z.shiftr x 0x18) 0xFF)
                      (Z.shiftl (Z.land (Z.shiftr x 0x10) 0xFF) 0x08))
               (Z.shiftl (Z.land (Z.shiftr x 0x08) 0xFF) 0x10))
        (Z.shiftl (Z.land x 0xFF) 0x18).

(** ** Hexadecimal digests *)

Definition from_hex_char (c : ascii) : result Z :=
  let c := Z.of_nat (nat_of_ascii c) in
  if (48 <=? c) && (c <=? 57) then Ok (c - 48)
  else if (97 <=? c) && (c <=? 102) then Ok (c - 97 + 10)
  else if (65 <=? c) && (c <=? 70) then Ok (c - 65 + 10)
  else Throw assert_exception.

(** the bytes written, at most [len]; an odd digit at the end is a high half *)
Fixpoint from_hex (s : string) (len : nat) : result (list Z) :=
  match len, s with
  | O, _ | _, EmptyString => Ok []
  | S len, String c s =>
      hi ← from_hex_char c;
      match s with
      | EmptyString => Ok [u8 (Z.shiftl hi 4)]
      | String d s =>
          lo ← from_hex_char d;
          bytes ← from_hex s len;
          Ok (Z.lor (u8 (Z.shiftl hi 4)) lo :: bytes)
      end
  end.

Definition le_number (bytes : list Z) : Z := foldr (fun b n => b + 256 * n) 0 bytes.

(** checksum_type( hex ): the 20 bytes of a ripemd160 *)
Definition checksum (hex : string) : Z :=
  match from_hex hex 20 with Ok bytes => le_number bytes | Throw _ => 0 end.

Definition shared_db_merkle : gmap Z Z := list_to_map [
  (3705111, checksum "0a8f0fd5450c3706ec8b8cbad795cd0b3679bf35");
  (3705120, checksum "2027edb72b671f7011c8cc4c7a8b59c39b305093");
  (3713940, checksum "bf8a1d516927c506ebdbb7b38bef2e992435435f");
  (3714132, checksum "e8b77773d268b72c8d650337b8cce360bbe64779");
  (3714567, checksum "45af59a8c2d7d4a606151ef5dae03d2dfe13fbdd");
  (3714588, checksum "e64275443bdc82f104ac936486d367af8f6d1584");
  (4138790, checksum "f65a3a788a2ef52406d8ba5705d7288be228403f");
  (5435426, checksum "0b32538b2d22bd3146d54b6e3cb5ae8b9780e8a5")].

(** ** Block ids *)

Definition hash_word (i : Z) (h : Z) : Z := u32 (Z.shiftr h (32 * i)).

Definition num_from_id (id : Z) : Z := endian_reverse_u32 (hash_word 0 id).

(** signed_block_header::id, from the sha224 of the header and the block number:
    the first word is replaced, the first 160 bits are kept *)
Definition make_id (sha224 : Z) (num : Z) : Z :=
  (sha224 - hash_word 0 sha224 + endian_reverse_u32 num) mod 2 ^ 160.

(** ** The merkle root *)

(** one round: the digests are hashed in pairs, an odd one is carried over *)
Fixpoint merkle_round (hash_pair : Z -> Z -> Z) (ids : list Z) : list Z :=
  match ids with
  | x :: y :: ids => hash_pair x y :: merkle_round hash_pair ids
  | _ => ids
  end.

Fixpoint merkle_loop (hash_pair : Z -> Z -> Z) (fuel : nat) (ids : list Z) : list Z :=
  match fuel with
  | O => ids
  | S fuel => if (1 <? List.length ids)%nat then merkle_loop hash_pair fuel (merkle_round hash_pair ids) else ids
  end.

Definition calculate_merkle_root (hash_pair : Z -> Z -> Z) (hash : Z -> Z) (ids : list Z) : Z :=
  match merkle_loop hash_pair (List.length ids) ids with
  | [] => 0
  | x :: _ => hash x
  end.

(** ** Reversing bytes *)

Lemma land_byte x : Z.land x 0xFF = x mod 256.
Proof. change 0xFF with (Z.ones 8). by rewrite Z.land_ones by lia. Qed.

(** the four bytes in the other order *)
Lemma endian_reverse_bytes x :
  endian_reverse_u32 x =
    x mod 256 * 2 ^ 24 + (x / 2 ^ 8) mod 256 * 2 ^ 16 + (x / 2 ^ 16) mod 256 * 2 ^ 8 + (x / 2 ^ 24) mod 256.
Proof.
  unfold endian_reverse_u32. rewrite !land_byte, !Z.shiftr_div_pow2, !Z.shiftl_mul_pow2 by lia.
  pose proof (Z.mod_pos_bound x 256 ltac:(lia)). pose proof (Z.mod_pos_bound (x / 2 ^ 8) 256 ltac:(lia)).
  pose proof (Z.mod_pos_bound (x / 2 ^ 16) 256 ltac:(lia)). pose proof (Z.mod_pos_bound (x / 2 ^ 24) 256 ltac:(lia)).
  rewrite (Z.lor_comm ((x / 2 ^ 24) mod 256)), Uint128.lor_disjoint by lia.
  rewrite (Z.lor_comm (_ + _)), Uint128.lor_disjoint by lia.
  rewrite (Z.lor_comm (_ + _) (x mod 256 * _)), Uint128.lor_disjoint by lia. lia.
Qed.

Lemma endian_reverse_range x : 0 <= endian_reverse_u32 x < 2 ^ 32.
Proof.
  rewrite endian_reverse_bytes. pose proof (Z.mod_pos_bound x 256 ltac:(lia)). pose proof (Z.mod_pos_bound (x / 2 ^ 8) 256 ltac:(lia)).
  pose proof (Z.mod_pos_bound (x / 2 ^ 16) 256 ltac:(lia)). pose proof (Z.mod_pos_bound (x / 2 ^ 24) 256 ltac:(lia)). lia.
Qed.

Lemma endian_reverse_involutive x : 0 <= x < 2 ^ 32 -> endian_reverse_u32 (endian_reverse_u32 x) = x.
Proof.
  intros Hx. rewrite (endian_reverse_bytes (endian_reverse_u32 x)), (endian_reverse_bytes x).
  pose proof (Z.mod_pos_bound x 256 ltac:(lia)) as H0. pose proof (Z.mod_pos_bound (x / 2 ^ 8) 256 ltac:(lia)) as H1.
  pose proof (Z.mod_pos_bound (x / 2 ^ 16) 256 ltac:(lia)) as H2. pose proof (Z.mod_pos_bound (x / 2 ^ 24) 256 ltac:(lia)) as H3.
  assert (x = x mod 256 + (x / 2 ^ 8) mod 256 * 2 ^ 8 + (x / 2 ^ 16) mod 256 * 2 ^ 16 + (x / 2 ^ 24) mod 256 * 2 ^ 24) as E.
  { pose proof (Z.div_mod x 256 ltac:(lia)). pose proof (Z.div_mod (x / 2 ^ 8) 256 ltac:(lia)) as D1.
    pose proof (Z.div_mod (x / 2 ^ 16) 256 ltac:(lia)) as D2. rewrite Z.div_div in D1, D2 by lia.
    rewrite (Z.mod_small (x / 2 ^ 24)) by (split; [apply Z.div_pos|apply Z.div_lt_upper_bound]; lia).
    change (2 ^ 8 * 256) with (2 ^ 16) in D1. change (2 ^ 16 * 256) with (2 ^ 24) in D2. change (2 ^ 8) with 256 in *. lia. }
  set (a := x mod 256) in *. set (b := (x / 2 ^ 8) mod 256) in *. set (c := (x / 2 ^ 16) mod 256) in *. set (d := (x / 2 ^ 24) mod 256) in *.
  set (y := a * 2 ^ 24 + b * 2 ^ 16 + c * 2 ^ 8 + d).
  assert (forall q r, y = 256 * q + r -> 0 <= r < 256 -> y / 2 ^ 8 = q /\ y mod 256 = r) as D.
  { intros q r Eq Hr. split; symmetry; [apply (Z.div_unique_pos _ _ q r)|apply (Z.mod_unique_pos _ _ q r)]; lia. }
  destruct (D (a * 2 ^ 16 + b * 2 ^ 8 + c) d) as [D1 M1]; [unfold y; lia|done|].
  assert (y / 2 ^ 16 = a * 2 ^ 8 + b) as D2 by (symmetry; apply (Z.div_unique_pos _ _ _ (c * 2 ^ 8 + d)); unfold y; lia).
  assert (y / 2 ^ 24 = a) as D3 by (symmetry; apply (Z.div_unique_pos _ _ _ (b * 2 ^ 16 + c * 2 ^ 8 + d)); unfold y; lia).
  rewrite M1, D1, D2, D3. rewrite (Z.mod_small a) by lia.
  replace ((a * 2 ^ 16 + b * 2 ^ 8 + c) mod 256) with c by (apply (Z.mod_unique_pos _ _ (a * 2 ^ 8 + b)); lia).
  replace ((a * 2 ^ 8 + b) mod 256) with b by (apply (Z.mod_unique_pos _ _ a); lia).
  clearbody a b c d. lia.
Qed.

Lemma hash_word_first h n : 0 <= n < 2 ^ 32 -> hash_word 0 (make_id h n) = endian_reverse_u32 n.
Proof.
  intros Hn. unfold make_id, hash_word, u32. rewrite !Z.shiftr_0_r. pose proof (endian_reverse_range n).
  assert (forall x, (x mod 2 ^ 160) mod 2 ^ 32 = x mod 2 ^ 32) as ->.
  { intros x. apply Z.mod_mod_divide. by exists (2 ^ 128). }
  rewrite Z.add_mod, Zminus_mod_idemp_r, Z.sub_diag, Z.mod_0_l, Z.add_0_l, Z.mod_mod by lia. apply Z.mod_small. lia.
Qed.

(** the number stored in the id of a block is the number of the block *)
Lemma id_num h n : 0 <= n < 2 ^ 32 -> num_from_id (make_id h n) = n.
Proof. intros Hn. unfold num_from_id. rewrite hash_word_first by done. by apply endian_reverse_involutive. Qed.

(** ** The merkle root binds the transactions *)

Section merkle.
Context (hash_pair : Z -> Z -> Z).

(** induction over the pairs of a list *)
Lemma pairs_ind (P : list Z -> Prop) :
  P [] -> (forall x, P [x]) -> (forall x y l, P l -> P (x :: y :: l)) -> forall l, P l.
Proof.
  intros H0 H1 H2. enough (forall l, P l /\ forall x, P (x :: l)) as A by apply A.
  induction l as [|y l [IH1 IH2]]; [by split|]. split; [apply IH2|]. intros x. apply H2, IH1.
Qed.

Lemma merkle_round_length l : List.length (merkle_round hash_pair l) = (List.length l - List.length l / 2)%nat.
Proof.
  induction l as [|x|x y l IH] using pairs_ind; [done|done|]. cbn [merkle_round List.length]. rewrite IH.
  replace (S (S (List.length l))) with (List.length l + 1 * 2)%nat by lia. rewrite Nat.div_add by lia.
  pose proof (Nat.Div0.div_le_upper_bound (List.length l) 2 (List.length l) ltac:(lia)). lia.
Qed.

Lemma merkle_round_shrinks l : (1 < List.length l)%nat ->
  (0 < List.length (merkle_round hash_pair l) < List.length l)%nat.
Proof.
  intros L. rewrite merkle_round_length. pose proof (Nat.Div0.div_le_mono 2 (List.length l) 2 ltac:(lia)) as D.
  rewrite Nat.div_same in D by lia. pose proof (Nat.div_lt (List.length l) 2 ltac:(lia) ltac:(lia)). lia.
Qed.

(** the loop ends with one digest *)
Lemma merkle_loop_single fuel : forall l, l <> [] -> (List.length l <= fuel)%nat -> exists x, merkle_loop hash_pair fuel l = [x].
Proof.
  induction fuel as [|fuel IH]; intros l N L; [destruct l; [done|simpl in L; lia]|]. cbn [merkle_loop]. destruct (Nat.ltb_spec 1 (List.length l)) as [H|H].
  - pose proof (merkle_round_shrinks l H) as R. apply IH; [|lia]. intros E. rewrite E in R. simpl in R. lia.
  - destruct l as [|x [|y l]]; [done|by exists x|simpl in H; lia].
Qed.

Hypothesis hash_pair_inj : forall a b c d, hash_pair a b = hash_pair c d -> a = c /\ b = d.

Lemma merkle_round_inj l : forall l', List.length l = List.length l' -> merkle_round hash_pair l = merkle_round hash_pair l' -> l = l'.
Proof.
  induction l as [|x|x y l IH] using pairs_ind; intros [|x' [|y' l']] L E; try discriminate L; [done|done|].
  cbn [merkle_round] in E. injection E as E1 E2. apply hash_pair_inj in E1 as [-> ->]. rewrite (IH l'); [done|simpl in L; lia|done].
Qed.

Lemma merkle_loop_inj fuel : forall l l', List.length l = List.length l' ->
  merkle_loop hash_pair fuel l = merkle_loop hash_pair fuel l' -> l = l'.
Proof.
  induction fuel as [|fuel IH]; intros l l' L E; [done|]. cbn [merkle_loop] in E. rewrite <- L in E.
  destruct (1 <? List.length l)%nat; [|done]. apply IH in E; [by apply merkle_round_inj|by rewrite !merkle_round_length, L].
Qed.
End merkle.

(** C21: The merkle root of a block binds its transactions: with hash functions
    that have no collision, two lists of equally many transactions with the same
    root have the same digests in the same order; and the loop that computes it
    ends with one digest. *)
Theorem merkle_root_binds hash_pair hash ids ids' :
  (forall a b c d, hash_pair a b = hash_pair c d -> a = c /\ b = d) -> (forall a b, hash a = hash b -> a = b) ->
  List.length ids = List.length ids' ->
  calculate_merkle_root hash_pair hash ids = calculate_merkle_root hash_pair hash ids' -> ids = ids'.
Proof.
  intros Hp Hh L E. destruct ids as [|x ids], ids' as [|x' ids']; try discriminate L; [done|].
  destruct (merkle_loop_single hash_pair (List.length (x :: ids)) (x :: ids)) as [r R]; [done|lia|].
  destruct (merkle_loop_single hash_pair (List.length (x' :: ids')) (x' :: ids')) as [r' R']; [done|lia|].
  unfold calculate_merkle_root in E. rewrite R, R' in E. apply Hh in E as ->. rewrite <- R', <- L in R.
  by eapply merkle_loop_inj.
Qed.

Lemma merkle_root_binds_witness : exists hash_pair,
  (forall a b c d, hash_pair a b = hash_pair c d -> a = c /\ b = d) /\
  forall x, calculate_merkle_root hash_pair id [3; 5; x] = calculate_merkle_root hash_pair id [3; 5; 7] -> [3; 5; x] = [3; 5; 7].
Proof.
  pose (f := fun a b : Z => Zpos (encode (a, b))).
  assert (forall a b c d, f a b = f c d -> a = c /\ b = d) as Hf.
  { intros a b c d H. injection H as H. apply (inj encode) in H. by injection H as -> ->. }
  exists f. split; [exact Hf|]. intros x. apply (merkle_root_binds f id [3; 5; x] [3; 5; 7] Hf); [done|reflexivity].
Defined.
