(* ===== verification/Utf8.v ===== *)
(** Utf8: the UTF-8 check on the texts of operations.

    fc::is_utf8 and fc::prune_invalid_utf8 (utf8.cpp) with the decoder they call
    (utf8/core.h) and the encoder utf8::append (utf8/checked.h).  An octet is an
    integer of 0 .. 255, an iterator is the list of the octets from it to the end.
    The decoder is shown to accept exactly what the encoder produces. *)
From Stdlib Require Import ZArith Lia String Ascii.
From stdpp Require Import base list strings.
From S2P Require Import Prelude.
From S2P Require Import Uint128.
Local Open Scope Z_scope.

Definition LEAD_SURROGATE_MIN : Z := 0xd800.
Definition TRAIL_SURROGATE_MAX : Z := 0xdfff.
Definition CODE_POINT_MAX : Z := 0x10ffff.

Definition mask8 (oc : Z) : Z := Z.land 0xff oc.
Definition is_trail (oc : Z) : bool := Z.shiftr (mask8 oc) 6 =? 0x2.
Definition is_surrogate (cp : Z) : bool := (LEAD_SURROGATE_MIN <=? cp) && (cp <=? TRAIL_SURROGATE_MAX).
Definition is_code_point_valid (cp : Z) : bool := (cp <=? CODE_POINT_MAX) && negb (is_surrogate cp).

Definition sequence_length (lead : Z) : Z :=
  let lead := mask8 lead in
  if lead <? 0x80 then 1
  else if Z.shiftr lead 5 =? 0x6 then 2
  else if Z.shiftr lead 4 =? 0xe then 3
  else if Z.shiftr lead 3 =? 0x1e then 4
  else 0.

Definition is_overlong_sequence (cp length : Z) : bool :=
  if cp <? 0x80 then negb (length =? 1)
  else if cp <? 0x800 then negb (length =? 2)
  else if cp <? 0x10000 then negb (length =? 3)
  else false.

Inductive utf_error : Set :=
| NOT_ENOUGH_ROOM | INVALID_LEAD | INCOMPLETE_SEQUENCE | OVERLONG_SEQUENCE | INVALID_CODE_POINT.

(** ** The decoder

    A step returns an error or a value with the iterator it leaves; a get_sequence
    leaves the iterator on the last octet it read. *)

Abbreviation decoded A := (utf_error + A)%type.
Local Notation "'let_ok' x := m 'in' k" := (match m with inl e => inl e | inr x => k end)
  (at level 10, x pattern, m at level 100, k at level 200, only parsing).

Definition increase_safely (it : list Z) : decoded (Z * list Z) :=
  match it with
  | _ :: ((oc :: _) as it) => if is_trail oc then inr (oc, it) else inl INCOMPLETE_SEQUENCE
  | _ => inl NOT_ENOUGH_ROOM
  end.

Definition get_sequence_1 (it : list Z) : decoded (Z * list Z) :=
  match it with
  | [] => inl NOT_ENOUGH_ROOM
  | oc :: _ => inr (mask8 oc, it)
  end.

Definition get_sequence_2 (it : list Z) : decoded (Z * list Z) :=
  match it with
  | [] => inl NOT_ENOUGH_ROOM
  | oc :: _ =>
      let cp := mask8 oc in
      let_ok (oc, it) := increase_safely it in
      inr (Z.land (u32 (Z.shiftl cp 6)) 0x7ff + Z.land oc 0x3f, it)
  end.

Definition get_sequence_3 (it : list Z) : decoded (Z * list Z) :=
  match it with
  | [] => inl NOT_ENOUGH_ROOM
  | oc :: _ =>
      let cp := mask8 oc in
      let_ok (oc, it) := increase_safely it in
      let cp := Z.land (u32 (Z.shiftl cp 12)) 0xffff + Z.land (Z.shiftl (mask8 oc) 6) 0xfff in
      let_ok (oc, it) := increase_safely it in
      inr (cp + Z.land oc 0x3f, it)
  end.

Definition get_sequence_4 (it : list Z) : decoded (Z * list Z) :=
  match it with
  | [] => inl NOT_ENOUGH_ROOM
  | oc :: _ =>
      let cp := mask8 oc in
      let_ok (oc, it) := increase_safely it in
      let cp := Z.land (u32 (Z.shiftl cp 18)) 0x1fffff + Z.land (Z.shiftl (mask8 oc) 12) 0x3ffff in
      let_ok (oc, it) := increase_safely it in
      let cp := cp + Z.land (Z.shiftl (mask8 oc) 6) 0xfff in
      let_ok (oc, it) := increase_safely it in
      inr (cp + Z.land oc 0x3f, it)
  end.

(** Called with an iterator that is not at the end. *)
Definition validate_next (it : list Z) : decoded (Z * list Z) :=
  match it with
  | [] => inl NOT_ENOUGH_ROOM
  | lead :: _ =>
      let length := sequence_length lead in
      if length =? 0 then inl INVALID_LEAD
      else
        let_ok (cp, it) :=
          (if length =? 1 then get_sequence_1 it
           else if length =? 2 then get_sequence_2 it
           else if length =? 3 then get_sequence_3 it
           else get_sequence_4 it) in
        if is_code_point_valid cp then
          if is_overlong_sequence cp length then inl OVERLONG_SEQUENCE else inr (cp, tail it)
        else inl INVALID_CODE_POINT
  end.

(** the octets from the first invalid sequence on; every round reads at least one
    octet, so as many rounds as octets are enough ([find_from_fuel]) *)
Fixpoint find_from (fuel : nat) (it : list Z) : list Z :=
  match fuel, it with
  | S fuel, _ :: _ => match validate_next it with inl _ => it | inr (_, it) => find_from fuel it end
  | _, _ => it
  end.
Definition find_invalid (it : list Z) : list Z := find_from (List.length it) it.
Definition is_valid (it : list Z) : bool := match find_invalid it with [] => true | _ => false end.

Definition octets (s : string) : list Z := map (fun c => Z.of_nat (nat_of_ascii c)) (list_ascii_of_string s).

Definition is_utf8 (s : string) : bool := is_valid (octets s).

(** the octets of [l] before its suffix [r] *)
Definition before (l r : list Z) : list Z := take (List.length l - List.length r) l.

Fixpoint prune_from (fuel : nat) (it : list Z) : list Z :=
  match fuel, it with
  | S fuel, _ :: start => let it := find_invalid start in before start it ++ prune_from fuel it
  | _, _ => []
  end.
Definition prune_invalid_utf8 (str : list Z) : list Z :=
  match find_invalid str with
  | [] => str
  | itr => before str itr ++ prune_from (List.length itr) itr
  end.

(** ** The encoder *)

Definition append (cp : Z) : option (list Z) :=
  if negb (is_code_point_valid cp) then None
  else Some
    (if cp <? 0x80 then [cp]
     else if cp <? 0x800 then [Z.lor (Z.shiftr cp 6) 0xc0; Z.lor (Z.land cp 0x3f) 0x80]
     else if cp <? 0x10000 then
       [Z.lor (Z.shiftr cp 12) 0xe0; Z.lor (Z.land (Z.shiftr cp 6) 0x3f) 0x80; Z.lor (Z.land cp 0x3f) 0x80]
     else
       [Z.lor (Z.shiftr cp 18) 0xf0; Z.lor (Z.land (Z.shiftr cp 12) 0x3f) 0x80;
        Z.lor (Z.land (Z.shiftr cp 6) 0x3f) 0x80; Z.lor (Z.land cp 0x3f) 0x80]).

(** ** Bit operations as arithmetic *)

Lemma mask8_id b : 0 <= b < 256 -> mask8 b = b.
Proof. intros. unfold mask8. rewrite Z.land_comm. change 0xff with (Z.ones 8). rewrite Z.land_ones by lia. apply Z.mod_small. lia. Qed.

Lemma land_mask x n : 0 <= n -> Z.land x (2 ^ n - 1) = x mod 2 ^ n.
Proof. intros. replace (2 ^ n - 1) with (Z.ones n) by (rewrite Z.ones_equiv; lia). by apply Z.land_ones. Qed.

Lemma lor_prefix x k c : 0 <= k -> 0 <= x < 2 ^ k -> Z.lor x (c * 2 ^ k) = c * 2 ^ k + x.
Proof. intros Hk Hx. rewrite Z.lor_comm. by apply Uint128.lor_disjoint. Qed.

Lemma masks x : Z.land x 0x3f = x mod 64 /\ Z.land x 0x7ff = x mod 2048 /\ Z.land x 0xfff = x mod 4096 /\
  Z.land x 0xffff = x mod 65536 /\ Z.land x 0x3ffff = x mod 262144 /\ Z.land x 0x1fffff = x mod 2097152.
Proof.
  repeat split; [apply (land_mask x 6)|apply (land_mask x 11)|apply (land_mask x 12)|apply (land_mask x 16)|
    apply (land_mask x 18)|apply (land_mask x 21)]; lia.
Qed.
Lemma prefixes x : (0 <= x < 64 -> Z.lor x 0x80 = 128 + x) /\ (0 <= x < 32 -> Z.lor x 0xc0 = 192 + x) /\
  (0 <= x < 16 -> Z.lor x 0xe0 = 224 + x) /\ (0 <= x < 8 -> Z.lor x 0xf0 = 240 + x).
Proof.
  repeat split; intros; [apply (lor_prefix x 6 2)|apply (lor_prefix x 5 6)|apply (lor_prefix x 4 14)|apply (lor_prefix x 3 30)]; lia.
Qed.

(** turns the bit operations of the code into divisions and remainders *)
Ltac euclid := Z.to_euclidean_division_equations; lia.
Ltac arith_bits :=
  unfold is_trail, sequence_length, is_overlong_sequence, u32 in *; cbv zeta in *;
  repeat match goal with
  | |- context [Z.land ?x 0x3f] => rewrite (proj1 (masks x))
  | |- context [Z.land ?x 0x7ff] => rewrite (proj1 (proj2 (masks x)))
  | |- context [Z.land ?x 0xfff] => rewrite (proj1 (proj2 (proj2 (masks x))))
  | |- context [Z.land ?x 0xffff] => rewrite (proj1 (proj2 (proj2 (proj2 (masks x)))))
  | |- context [Z.land ?x 0x3ffff] => rewrite (proj1 (proj2 (proj2 (proj2 (proj2 (masks x))))))
  | |- context [Z.land ?x 0x1fffff] => rewrite (proj2 (proj2 (proj2 (proj2 (proj2 (masks x))))))
  | |- context [Z.lor ?x 0x80] => rewrite (proj1 (prefixes x)) by euclid
  | |- context [Z.lor ?x 0xc0] => rewrite (proj1 (proj2 (prefixes x))) by euclid
  | |- context [Z.lor ?x 0xe0] => rewrite (proj1 (proj2 (proj2 (prefixes x)))) by euclid
  | |- context [Z.lor ?x 0xf0] => rewrite (proj2 (proj2 (proj2 (prefixes x)))) by euclid
  | |- context [Z.shiftr ?x ?n] => rewrite (Z.shiftr_div_pow2 x n) by lia
  | |- context [Z.shiftl ?x ?n] => rewrite (Z.shiftl_mul_pow2 x n) by lia
  | |- context [mask8 ?x] => rewrite (mask8_id x) by euclid
  end.

Definition octet (b : Z) : Prop := 0 <= b < 256.

Lemma is_trail_spec b : octet b -> is_trail b = (128 <=? b) && (b <? 192).
Proof.
  unfold octet. intros Hb. arith_bits. change (2 ^ 6) with 64.
  destruct (Z.leb_spec 128 b), (Z.ltb_spec b 192); simpl; rewrite ?Z.eqb_eq, ?Z.eqb_neq; euclid.
Qed.

Lemma sequence_length_spec b : octet b ->
  sequence_length b = if b <? 128 then 1 else if b <? 192 then 0 else if b <? 224 then 2 else if b <? 240 then 3
                      else if b <? 248 then 4 else 0.
Proof.
  unfold octet. intros Hb. arith_bits. change (2 ^ 5) with 32. change (2 ^ 4) with 16. change (2 ^ 3) with 8.
  destruct (Z.ltb_spec b 128); [done|].
  destruct (Z.eqb_spec (b / 32) 6), (Z.eqb_spec (b / 16) 14), (Z.eqb_spec (b / 8) 30),
    (Z.ltb_spec b 192), (Z.ltb_spec b 224), (Z.ltb_spec b 240), (Z.ltb_spec b 248); try done; euclid.
Qed.

Definition encoding (cp : Z) : list Z :=
  if cp <? 0x80 then [cp]
  else if cp <? 0x800 then [192 + cp / 64; 128 + cp mod 64]
  else if cp <? 0x10000 then [224 + cp / 4096; 128 + cp / 64 mod 64; 128 + cp mod 64]
  else [240 + cp / 262144; 128 + cp / 4096 mod 64; 128 + cp / 64 mod 64; 128 + cp mod 64].

Lemma append_eq cp : 0 <= cp -> is_code_point_valid cp = true -> append cp = Some (encoding cp).
Proof.
  intros H0 Hv. unfold append. rewrite Hv. cbn [negb]. f_equal. unfold encoding.
  assert (cp <= CODE_POINT_MAX) as Hm by (unfold is_code_point_valid in Hv; zbool; done). unfold CODE_POINT_MAX in Hm.
  destruct (Z.ltb_spec cp 0x80); [done|]. destruct (Z.ltb_spec cp 0x800); [arith_bits; done|].
  destruct (Z.ltb_spec cp 0x10000); arith_bits; done.
Qed.

Ltac split_tests :=
  repeat match goal with
  | |- context [?x <? ?y] => destruct (Z.ltb_spec x y); try lia
  | |- context [?x <=? ?y] => destruct (Z.leb_spec x y); try lia
  end; cbn [andb orb negb].

(** what validate_next does with a sequence of each length *)
Definition checked (lo cp : Z) (rest : list Z) : decoded (Z * list Z) :=
  if is_code_point_valid cp then if cp <? lo then inl OVERLONG_SEQUENCE else inr (cp, rest) else inl INVALID_CODE_POINT.

Definition trail (b : Z) : Prop := 128 <= b < 192.

Lemma step_trail a b it : trail b -> increase_safely (a :: b :: it) = inr (b, b :: it).
Proof.
  unfold trail. intros Hb. unfold increase_safely. rewrite is_trail_spec by (unfold octet; lia). by split_tests.
Qed.

Lemma next_1 a rest : 0 <= a < 128 -> validate_next (a :: rest) = inr (a, rest).
Proof.
  intros Ha. cbn [validate_next]. rewrite sequence_length_spec by (unfold octet; lia). split_tests.
  unfold get_sequence_1. rewrite mask8_id by lia. cbv beta iota zeta delta [Z.eqb Pos.eqb].
  unfold is_code_point_valid, is_surrogate, CODE_POINT_MAX, LEAD_SURROGATE_MIN, is_overlong_sequence. by split_tests.
Qed.

Lemma next_2 a b rest : 192 <= a < 224 -> trail b ->
  validate_next (a :: b :: rest) = checked 0x80 ((a - 192) * 64 + (b - 128)) rest.
Proof.
  intros Ha Hb. cbn [validate_next]. rewrite sequence_length_spec by (unfold octet; lia). split_tests.
  unfold get_sequence_2. rewrite step_trail by done. cbv beta iota zeta delta [Z.eqb Pos.eqb tail]. unfold trail in Hb.
  match goal with |- context [is_code_point_valid ?c] =>
    replace c with ((a - 192) * 64 + (b - 128)) by (arith_bits; euclid) end.
  unfold checked, is_overlong_sequence. by split_tests.
Qed.

Lemma next_3 a b c rest : 224 <= a < 240 -> trail b -> trail c ->
  validate_next (a :: b :: c :: rest) = checked 0x800 ((a - 224) * 4096 + (b - 128) * 64 + (c - 128)) rest.
Proof.
  intros Ha Hb Hc. cbn [validate_next]. rewrite sequence_length_spec by (unfold octet; lia). split_tests.
  unfold get_sequence_3. rewrite step_trail by done. rewrite step_trail by done.
  cbv beta iota zeta delta [Z.eqb Pos.eqb tail]. unfold trail in Hb, Hc.
  match goal with |- context [is_code_point_valid ?x] =>
    replace x with ((a - 224) * 4096 + (b - 128) * 64 + (c - 128)) by (arith_bits; euclid) end.
  unfold checked, is_overlong_sequence. by split_tests.
Qed.

Lemma next_4 a b c d rest : 240 <= a < 248 -> trail b -> trail c -> trail d ->
  validate_next (a :: b :: c :: d :: rest) =
  checked 0x10000 ((a - 240) * 262144 + (b - 128) * 4096 + (c - 128) * 64 + (d - 128)) rest.
Proof.
  intros Ha Hb Hc Hd. cbn [validate_next]. rewrite sequence_length_spec by (unfold octet; lia). split_tests.
  unfold get_sequence_4. rewrite step_trail by done. rewrite step_trail by done. rewrite step_trail by done.
  cbv beta iota zeta delta [Z.eqb Pos.eqb tail]. unfold trail in Hb, Hc, Hd.
  match goal with |- context [is_code_point_valid ?x] =>
    replace x with ((a - 240) * 262144 + (b - 128) * 4096 + (c - 128) * 64 + (d - 128)) by (arith_bits; euclid) end.
  unfold checked, is_overlong_sequence. by split_tests.
Qed.

Lemma decode_encoding cp rest : 0 <= cp -> is_code_point_valid cp = true ->
  validate_next (encoding cp ++ rest) = inr (cp, rest).
Proof.
  intros H0 Hv. assert (cp <= CODE_POINT_MAX) as Hm by (unfold is_code_point_valid in Hv; zbool; done).
  unfold CODE_POINT_MAX in Hm. unfold encoding.
  destruct (Z.ltb_spec cp 0x80); [|destruct (Z.ltb_spec cp 0x800); [|destruct (Z.ltb_spec cp 0x10000)]]; cbn [app].
  - apply next_1; lia.
  - rewrite next_2 by (unfold trail; euclid). match goal with |- checked _ ?x _ = _ => replace x with cp by euclid end.
    unfold checked. rewrite Hv. by split_tests.
  - rewrite next_3 by (unfold trail; euclid). match goal with |- checked _ ?x _ = _ => replace x with cp by euclid end.
    unfold checked. rewrite Hv. by split_tests.
  - rewrite next_4 by (unfold trail; euclid). match goal with |- checked _ ?x _ = _ => replace x with cp by euclid end.
    unfold checked. rewrite Hv. by split_tests.
Qed.

Lemma increase_safely_inv a it oc it' : Forall octet it -> increase_safely (a :: it) = inr (oc, it') ->
  exists r, it = oc :: r /\ it' = oc :: r /\ trail oc /\ Forall octet r.
Proof.
  intros Ho H. destruct it as [|b r]; [done|]. apply Forall_cons in Ho as [Hb Hr]. cbn in H. rewrite is_trail_spec in H by done.
  destruct (Z.leb_spec 128 b), (Z.ltb_spec b 192); try done. injection H as <- <-. exists r. done.
Qed.

(** a sequence that starts with a lead octet of two, three or four octets and decodes has its trail octets *)
Lemma validate_next_shape a it r : octet a -> Forall octet it -> validate_next (a :: it) = inr r ->
  a < 128 \/
  (192 <= a < 224 /\ exists b t, it = b :: t /\ trail b) \/
  (224 <= a < 240 /\ exists b c t, it = b :: c :: t /\ trail b /\ trail c) \/
  (240 <= a < 248 /\ exists b c d t, it = b :: c :: d :: t /\ trail b /\ trail c /\ trail d).
Proof.
  intros Ha Hit H. cbn [validate_next] in H. rewrite sequence_length_spec in H by done. unfold octet in Ha.
  destruct (Z.ltb_spec a 128); [by left|right]. destruct (Z.ltb_spec a 192); [done|].
  destruct (Z.ltb_spec a 224); [left|right; destruct (Z.ltb_spec a 240); [left|right; destruct (Z.ltb_spec a 248); [|done]]];
    (split; [lia|]); cbv beta iota zeta delta [Z.eqb Pos.eqb] in H.
  - unfold get_sequence_2 in H. destruct (increase_safely (a :: it)) as [|[b i1]] eqn:E1; [done|].
    apply increase_safely_inv in E1 as (t & -> & _ & ? & _); [eauto|done].
  - unfold get_sequence_3 in H. destruct (increase_safely (a :: it)) as [|[b i1]] eqn:E1; [done|].
    apply increase_safely_inv in E1 as (t & -> & -> & ? & ?); [|done].
    destruct (increase_safely (b :: t)) as [|[c i2]] eqn:E2; [done|].
    apply increase_safely_inv in E2 as (t' & -> & _ & ? & _); [eauto 8|done].
  - unfold get_sequence_4 in H. destruct (increase_safely (a :: it)) as [|[b i1]] eqn:E1; [done|].
    apply increase_safely_inv in E1 as (t & -> & -> & ? & ?); [|done].
    destruct (increase_safely (b :: t)) as [|[c i2]] eqn:E2; [done|].
    apply increase_safely_inv in E2 as (t' & -> & -> & ? & ?); [|done].
    destruct (increase_safely (c :: t')) as [|[d i3]] eqn:E3; [done|].
    apply increase_safely_inv in E3 as (t'' & -> & _ & ? & _); [eauto 12|done].
Qed.

Lemma checked_inv lo x rest cp rest' : checked lo x rest = inr (cp, rest') ->
  cp = x /\ rest' = rest /\ is_code_point_valid cp = true /\ lo <= cp.
Proof. unfold checked. intros H. destruct (is_code_point_valid x) eqn:E; [|done]. destruct (Z.ltb_spec x lo); [done|]. by injection H as <- <-. Qed.

Lemma encoding_decode it cp rest : Forall octet it -> validate_next it = inr (cp, rest) ->
  0 <= cp /\ is_code_point_valid cp = true /\ it = encoding cp ++ rest.
Proof.
  intros Ho H. destruct it as [|a it]; [done|]. apply Forall_cons in Ho as [Ha Ho]. unfold octet in Ha.
  destruct (validate_next_shape a it _ Ha Ho H) as [L|[(L & b & t & -> & Hb)|[(L & b & c & t & -> & Hb & Hc)|
    (L & b & c & d & t & -> & Hb & Hc & Hd)]]].
  - rewrite next_1 in H by lia. injection H as <- <-. split; [lia|]. unfold encoding, is_code_point_valid, is_surrogate, CODE_POINT_MAX, LEAD_SURROGATE_MIN.
    by split_tests.
  - rewrite next_2 in H by done. apply checked_inv in H as (E & -> & Hv & Hl). unfold trail in *. split; [lia|]. split; [done|].
    unfold encoding. split_tests. cbn [app]. repeat f_equal; euclid.
  - rewrite next_3 in H by done. apply checked_inv in H as (E & -> & Hv & Hl). unfold trail in *. split; [lia|]. split; [done|].
    unfold encoding. split_tests. cbn [app]. repeat f_equal; euclid.
  - rewrite next_4 in H by done. apply checked_inv in H as (E & -> & Hv & Hl). unfold trail in *. split; [lia|]. split; [done|].
    unfold encoding. split_tests. cbn [app]. repeat f_equal; euclid.
Qed.

(** ** What is_utf8 accepts *)

(** the octets of a sequence of code points *)
Inductive encodes : list Z -> list Z -> Prop :=
| encodes_nil : encodes [] []
| encodes_cons cp cps bs rest : 0 <= cp -> append cp = Some bs -> encodes cps rest -> encodes (cp :: cps) (bs ++ rest).

Lemma append_inv cp bs : 0 <= cp -> append cp = Some bs -> is_code_point_valid cp = true /\ bs = encoding cp.
Proof.
  intros H0 H. destruct (is_code_point_valid cp) eqn:E; [|unfold append in H; by rewrite E in H].
  rewrite append_eq in H by done. by injection H as <-.
Qed.

Lemma encoding_nonempty cp : encoding cp <> [].
Proof. unfold encoding. by repeat destruct (_ <? _). Qed.

Lemma find_from_fuel n : forall m it, Forall octet it -> (List.length it <= n)%nat -> (List.length it <= m)%nat ->
  find_from n it = find_from m it.
Proof.
  induction n as [|n IH]; intros m it Ho Hn Hm.
  - destruct it; [by destruct m|simpl in Hn; lia].
  - destruct it as [|a it]; [by destruct m|]. destruct m as [|m]; [simpl in Hm; lia|]. cbn [find_from].
    destruct (validate_next (a :: it)) as [e|[cp rest]] eqn:E; [done|].
    apply encoding_decode in E as (_ & _ & E); [|done]. assert (Forall octet rest) by (rewrite E in Ho; apply Forall_app in Ho as [_ ?]; done).
    assert (List.length (a :: it) = List.length (encoding cp) + List.length rest)%nat as L by (rewrite E; apply length_app).
    pose proof (encoding_nonempty cp). destruct (encoding cp); [done|]. simpl in *. apply IH; [done|lia|lia].
Qed.

Lemma find_invalid_cons cp rest : 0 <= cp -> is_code_point_valid cp = true -> Forall octet (encoding cp ++ rest) ->
  find_invalid (encoding cp ++ rest) = find_invalid rest.
Proof.
  intros H0 Hv Ho. unfold find_invalid. pose proof (decode_encoding cp rest H0 Hv) as D. pose proof (encoding_nonempty cp).
  destruct (encoding cp) as [|a l]; [done|]. simpl app in *. cbn [List.length find_from]. rewrite D.
  apply find_from_fuel; [inversion Ho as [|? ? ? Ho']; apply Forall_app in Ho' as [_ ?]; done|rewrite length_app; lia|lia].
Qed.

(** what find_invalid passes over is encoded text, and it stops at the end or at an error *)
Lemma find_from_split n : forall it, Forall octet it ->
  exists cps pre, encodes cps pre /\ it = pre ++ find_from n it.
Proof.
  induction n as [|n IH]; intros it Ho; [exists [], []; split; [constructor|done]|].
  destruct it as [|a it]; [exists [], []; split; [constructor|done]|]. cbn [find_from].
  destruct (validate_next (a :: it)) as [e|[cp rest]] eqn:E; [exists [], []; split; [constructor|done]|].
  apply encoding_decode in E as (H0 & Hv & E); [|done]. assert (Forall octet rest) as Hr by (rewrite E in Ho; apply Forall_app in Ho as [_ ?]; done).
  destruct (IH rest Hr) as (cps & pre & He & Hp). exists (cp :: cps), (encoding cp ++ pre). split.
  - constructor; [done|by apply append_eq|done].
  - rewrite E. rewrite Hp at 1. by rewrite app_assoc.
Qed.

Lemma encoded_octets cps bs : encodes cps bs -> Forall octet bs.
Proof.
  induction 1 as [|cp cps bs rest H0 Ha _ IH]; [done|]. apply Forall_app. split; [|done].
  apply append_inv in Ha as [Hv ->]; [|done]. unfold is_code_point_valid, CODE_POINT_MAX in Hv. zbool. unfold encoding, octet.
  destruct (Z.ltb_spec cp 0x80); [|destruct (Z.ltb_spec cp 0x800); [|destruct (Z.ltb_spec cp 0x10000)]];
    repeat (apply Forall_cons; split; [euclid|]); done.
Qed.

Lemma encodes_valid cps bs : encodes cps bs -> find_invalid bs = [].
Proof.
  induction 1 as [|cp cps bs rest H0 Ha He IH]; [done|]. apply append_inv in Ha as [Hv ->]; [|done].
  rewrite find_invalid_cons; [done..|]. apply (encoded_octets (cp :: cps)). constructor; [done|by apply append_eq|done].
Qed.

Lemma is_valid_spec it : Forall octet it -> is_valid it = true <-> exists cps, encodes cps it.
Proof.
  intros Ho. unfold is_valid. split.
  - destruct (find_from_split (List.length it) it Ho) as (cps & pre & He & Hp). fold (find_invalid it) in Hp.
    destruct (find_invalid it); [|done]. rewrite app_nil_r in Hp. intros _. exists cps. by rewrite Hp.
  - intros [cps He]. by rewrite (encodes_valid cps).
Qed.

Lemma octets_ok s : Forall octet (octets s).
Proof.
  unfold octets. apply Forall_map. apply Forall_forall. intros c _. unfold octet.
  pose proof (nat_ascii_bounded c). lia.
Qed.

(** C39: A text is accepted when and only when its octets are what the encoder writes
    for some sequence of Unicode scalar values: no overlong form, no surrogate,
    nothing above U+10FFFF, no truncated sequence. *)
Theorem is_utf8_spec s : is_utf8 s = true <-> exists cps, encodes cps (octets s).
Proof. apply is_valid_spec, octets_ok. Qed.

Lemma encodes_app c1 b1 c2 b2 : encodes c1 b1 -> encodes c2 b2 -> encodes (c1 ++ c2) (b1 ++ b2).
Proof. induction 1; intros; [done|]. simpl. rewrite <- app_assoc. constructor; auto. Qed.

Lemma find_invalid_before it : Forall octet it ->
  it = before it (find_invalid it) ++ find_invalid it /\ (exists cps, encodes cps (before it (find_invalid it))).
Proof.
  intros Ho. destruct (find_from_split (List.length it) it Ho) as (cps & pre & He & Hp). fold (find_invalid it) in Hp.
  assert (before it (find_invalid it) = pre) as ->.
  { unfold before. set (r := find_invalid it) in *. clearbody r. subst it. apply take_app_length'. rewrite length_app. lia. }
  eauto.
Qed.

Lemma find_invalid_octets it : Forall octet it -> Forall octet (find_invalid it) /\ (List.length (find_invalid it) <= List.length it)%nat.
Proof.
  intros Ho. destruct (find_invalid_before it Ho) as [E _]. split; [rewrite E in Ho; by apply Forall_app in Ho as [_ ?]|].
  rewrite E at 2. rewrite length_app. lia.
Qed.

(** as many rounds as octets are enough *)
Lemma prune_from_fuel n : forall m it, Forall octet it -> (List.length it <= n)%nat -> (List.length it <= m)%nat ->
  prune_from n it = prune_from m it.
Proof.
  induction n as [|n IH]; intros [|m] [|a it] Ho Hn Hm; simpl in *; try done; try lia.
  apply Forall_cons in Ho as [_ Ho]. destruct (find_invalid_octets it Ho). f_equal. apply IH; [done|lia|lia].
Qed.

Lemma prune_from_valid n : forall it, Forall octet it -> exists cps, encodes cps (prune_from n it).
Proof.
  induction n as [|n IH]; intros [|a it] Ho; simpl; try (exists []; by constructor).
  apply Forall_cons in Ho as [_ Ho]. destruct (find_invalid_before it Ho) as [_ [c1 H1]].
  destruct (IH (find_invalid it)) as [c2 H2]; [by apply find_invalid_octets|]. exists (c1 ++ c2). by apply encodes_app.
Qed.

(** prune_invalid_utf8 returns valid UTF-8, and valid UTF-8 as it is. *)
Theorem prune_invalid_utf8_valid it : Forall octet it ->
  is_valid (prune_invalid_utf8 it) = true /\ (is_valid it = true -> prune_invalid_utf8 it = it).
Proof.
  intros Ho. destruct (find_invalid_before it Ho) as [E [cps He]]. unfold prune_invalid_utf8. split.
  - destruct (find_invalid it) as [|a r] eqn:F; [unfold is_valid; by rewrite F|].
    assert (Forall octet (a :: r)) as Hr by (rewrite <- F; by apply find_invalid_octets).
    destruct (prune_from_valid (List.length (a :: r)) (a :: r) Hr) as [c2 H2].
    pose proof (encodes_app _ _ _ _ He H2) as H. apply is_valid_spec; [|eauto]. by eapply encoded_octets.
  - unfold is_valid. by destruct (find_invalid it).
Qed.

Example utf8_samples :
  is_valid [0xe2; 0x82; 0xac] = true /\ is_valid [0xc0; 0x80] = false /\ is_valid [0xed; 0xa0; 0x80] = false /\
  is_valid [0xf4; 0x90; 0x80; 0x80] = false /\ is_valid [0xe2; 0x82] = false /\
  prune_invalid_utf8 [0x41; 0xff; 0x42; 0xc0; 0x80] = [0x41; 0x42].
Proof. by vm_compute. Qed.
