(* ===== verification/Asset.v ===== *)
(** * Assets, symbols and prices

    [src/src/core/protocol/include/steem/protocol/asset_symbol.hpp], [asset.hpp]
    and [src/src/core/protocol/asset.cpp].  A symbol is its 32-bit [asset_num];
    an asset is an amount (an int64_t of [safe<int64_t>]) and a symbol; a price is
    a pair of assets.  128-bit products are [Z] reduced modulo 2^128 ([u128]),
    which [Uint128] shows to be what fc::uint128 computes. *)
From stdpp Require Import base gmap strings list.
From Stdlib Require Import ZArith Lia Ascii.
From S2P Require Import Prelude Safe.
Local Open Scope Z_scope.
Local Open Scope fc_scope.

(** ** Constants of asset_symbol.hpp *)

Definition SMT_MAX_NAI : Z := 99999999.
Definition SMT_MIN_NAI : Z := 1.
Definition STEEM_ASSET_SYMBOL_PRECISION_BITS : Z := 4.
Definition STEEM_PRECISION_SBD : Z := 3.
Definition STEEM_PRECISION_STEEM : Z := 3.
Definition STEEM_PRECISION_VESTS : Z := 6.
Definition STEEM_NAI_SBD : Z := 1.
Definition STEEM_NAI_STEEM : Z := 2.
Definition STEEM_NAI_VESTS : Z := 3.
Definition STEEM_ASSET_MAX_DECIMALS : Z := 12.

Definition asset_num_of (nai precision : Z) : Z :=
  Z.lor (Z.shiftl (SMT_MAX_NAI + nai) STEEM_ASSET_SYMBOL_PRECISION_BITS) precision.

Definition STEEM_ASSET_NUM_SBD : Z :=
  Eval vm_compute in asset_num_of STEEM_NAI_SBD STEEM_PRECISION_SBD.
Definition STEEM_ASSET_NUM_STEEM : Z :=
  Eval vm_compute in asset_num_of STEEM_NAI_STEEM STEEM_PRECISION_STEEM.
Definition STEEM_ASSET_NUM_VESTS : Z :=
  Eval vm_compute in asset_num_of STEEM_NAI_VESTS STEEM_PRECISION_VESTS.

(** [asset_symbol_type]: the member [asset_num], compared as an integer. *)
Definition asset_symbol_type : Type := Z.
Definition SBD_SYMBOL : asset_symbol_type := STEEM_ASSET_NUM_SBD.
Definition STEEM_SYMBOL : asset_symbol_type := STEEM_ASSET_NUM_STEEM.
Definition VESTS_SYMBOL : asset_symbol_type := STEEM_ASSET_NUM_VESTS.
#[export] Instance asset_symbol_eq_dec : EqDecision asset_symbol_type := Z.eq_dec.

Definition STEEM_MAX_SATOSHIS : Z := 4611686018427387903.

Module Symbol.

Definition decimals (s : asset_symbol_type) : Z := Z.land s 15.

Definition validate (s : asset_symbol_type) : result unit :=
  if (s =? STEEM_ASSET_NUM_STEEM) || (s =? STEEM_ASSET_NUM_SBD) || (s =? STEEM_ASSET_NUM_VESTS)
  then Ok tt else Throw assert_exception.

Definition is_vesting (s : asset_symbol_type) : result bool :=
  if s =? STEEM_ASSET_NUM_STEEM then Ok false
  else if s =? STEEM_ASSET_NUM_SBD then Ok false
  else if s =? STEEM_ASSET_NUM_VESTS then Ok true
  else Throw assert_exception.

Definition get_paired_symbol (s : asset_symbol_type) : result asset_symbol_type :=
  if s =? STEEM_ASSET_NUM_STEEM then Ok STEEM_ASSET_NUM_VESTS
  else if s =? STEEM_ASSET_NUM_SBD then Ok s
  else if s =? STEEM_ASSET_NUM_VESTS then Ok STEEM_ASSET_NUM_STEEM
  else Throw assert_exception.

(** The Damm quasigroup table, with entries scaled by ten as in the source. *)
Definition damm_table : list Z := [
    0; 30; 10; 70; 50; 90; 80; 60; 40; 20;
   70;  0; 90; 20; 10; 50; 40; 80; 60; 30;
   40; 20;  0; 60; 80; 70; 10; 30; 50; 90;
   10; 70; 50;  0; 90; 80; 30; 40; 20; 60;
   60; 10; 20; 30;  0; 40; 50; 90; 70; 80;
   30; 60; 70; 40; 20;  0; 90; 50; 80; 10;
   50; 80; 60; 90; 70; 20;  0; 10; 30; 40;
   80; 90; 40; 50; 30; 60; 20;  0; 10; 70;
   90; 40; 30; 80; 60; 10; 70; 20;  0; 50;
   20; 50; 80; 10; 40; 30; 60; 70; 90; 0 ].

Definition t (i : Z) : Z := nth (Z.to_nat i) damm_table 0.

Definition damm_checksum_8digit (value : Z) : result Z :=
  _ ← fc_assert (value <? 100000000);
  let q0 := value / 10 in let d0 := value mod 10 in
  let q1 := q0 / 10 in let d1 := q0 mod 10 in
  let q2 := q1 / 10 in let d2 := q1 mod 10 in
  let q3 := q2 / 10 in let d3 := q2 mod 10 in
  let q4 := q3 / 10 in let d4 := q3 mod 10 in
  let q5 := q4 / 10 in let d5 := q4 mod 10 in
  let d6 := q5 mod 10 in
  let d7 := q5 / 10 in
  let x := t d7 in
  let x := t (x + d6) in
  let x := t (x + d5) in
  let x := t (x + d4) in
  let x := t (x + d3) in
  let x := t (x + d2) in
  let x := t (x + d1) in
  let x := t (x + d0) in
  Ok (x / 10).

Definition asset_num_from_nai (nai decimal_places : Z) : result Z :=
  let nai_check_digit := nai mod 10 in
  let nai_data_digits := nai / 10 in
  _ ← fc_assert ((SMT_MIN_NAI <=? nai_data_digits) && (nai_data_digits <=? SMT_MAX_NAI));
  c ← damm_checksum_8digit nai_data_digits;
  _ ← fc_assert (nai_check_digit =? c);
  if nai_data_digits =? STEEM_NAI_STEEM then
    _ ← fc_assert (decimal_places =? STEEM_PRECISION_STEEM); Ok STEEM_ASSET_NUM_STEEM
  else if nai_data_digits =? STEEM_NAI_SBD then
    _ ← fc_assert (decimal_places =? STEEM_PRECISION_SBD); Ok STEEM_ASSET_NUM_SBD
  else if nai_data_digits =? STEEM_NAI_VESTS then
    _ ← fc_assert (decimal_places =? STEEM_PRECISION_VESTS); Ok STEEM_ASSET_NUM_VESTS
  else
    _ ← fc_assert (decimal_places <=? STEEM_ASSET_MAX_DECIMALS);
    Ok (Z.lor (Z.lor (u32 (Z.shiftl nai_data_digits 5)) 16) decimal_places).

Definition to_nai (s : asset_symbol_type) : result Z :=
  nai_data_digits ←
    (if s =? STEEM_ASSET_NUM_STEEM then Ok STEEM_NAI_STEEM
     else if s =? STEEM_ASSET_NUM_SBD then Ok STEEM_NAI_SBD
     else if s =? STEEM_ASSET_NUM_VESTS then Ok STEEM_NAI_VESTS
     else Throw assert_exception);
  nai_check_digit ← damm_checksum_8digit nai_data_digits;
  Ok (u32 (nai_data_digits * 10 + nai_check_digit)).

(** *** NAI strings.  A C string is the list of its characters up to the
    terminating NUL. *)

Definition digit_char (d : Z) : ascii := ascii_of_nat (Z.to_nat (d + 48)).

(** buf[2..10], the low digits first; buf[2] is written without [% 10] *)
Fixpoint nai_digits (n : nat) (x : Z) (acc : list ascii) : list ascii :=
  match n with
  | O => digit_char x :: acc
  | S n' => nai_digits n' (x / 10) (digit_char (x mod 10) :: acc)
  end.

Definition to_nai_string (s : asset_symbol_type) : result (list ascii) :=
  x ← to_nai s; Ok ("@"%char :: "@"%char :: nai_digits 8 x []).

Definition is_space (c : ascii) : bool :=
  match nat_of_ascii c with 32%nat | 9%nat | 10%nat | 13%nat => true | _ => false end.

Fixpoint skip_space (p : list ascii) : list ascii :=
  match p with
  | c :: p' => if is_space c then skip_space p' else p
  | [] => []
  end.

Definition is_digit (c : ascii) : bool :=
  let n := nat_of_ascii c in (48 <=? n)%nat && (n <=? 57)%nat.

(** the digit loop: value, number of digits and the rest of the string *)
Fixpoint read_nai (p : list ascii) (nai digit_count : Z) : result (Z * Z * list ascii) :=
  match p with
  | c :: p' =>
      if is_digit c then
        let new_nai := u64 (nai * 10 + (Z.of_nat (nat_of_ascii c) - 48)) in
        _ ← fc_assert (nai <=? new_nai);
        _ ← fc_assert (new_nai <=? SMT_MAX_NAI);
        read_nai p' new_nai (digit_count + 1)
      else Ok (nai, digit_count, p)
  | [] => Ok (nai, digit_count, [])
  end.

Definition from_nai_string (p : list ascii) (decimal_places : Z) : result asset_symbol_type :=
  match skip_space p with
  | a :: p1 =>
      if decide (a = "@"%char) then
        match p1 with
        | b :: p2 =>
            _ ← fc_assert (bool_decide (b = "@"%char));
            '(nai, digit_count, rest) ← read_nai p2 0 0;
            _ ← fc_assert (digit_count =? 9);
            asset_num ← asset_num_from_nai (u32 nai) (u8 decimal_places);
            match skip_space rest with
            | [] => Ok asset_num
            | _ :: _ => Throw assert_exception
            end
        | [] => Throw assert_exception
        end
      else Throw assert_exception
  | [] => Throw assert_exception
  end.

End Symbol.

(** ** Wire format of a symbol: fc::raw::pack and unpack *)

Module SymbolSer.

(** the characters of a ticker, least significant byte first *)
Fixpoint symbol_u64 (s : list ascii) : Z :=
  match s with
  | [] => 0
  | c :: s' => Z.lor (Z.of_nat (nat_of_ascii c)) (Z.shiftl (symbol_u64 s') 8)
  end.

Definition VESTS_SYMBOL_U64 : Z := Eval vm_compute in symbol_u64 ["V"; "E"; "S"; "T"; "S"]%char.
Definition STEEM_SYMBOL_U64 : Z := Eval vm_compute in symbol_u64 ["S"; "T"; "E"; "E"; "M"]%char.
Definition SBD_SYMBOL_U64 : Z := Eval vm_compute in symbol_u64 ["S"; "B"; "D"]%char.

Definition VESTS_SYMBOL_SER : Z := Eval vm_compute in Z.lor 6 (Z.shiftl VESTS_SYMBOL_U64 8).
Definition STEEM_SYMBOL_SER : Z := Eval vm_compute in Z.lor 3 (Z.shiftl STEEM_SYMBOL_U64 8).
Definition SBD_SYMBOL_SER : Z := Eval vm_compute in Z.lor 3 (Z.shiftl SBD_SYMBOL_U64 8).

(** little-endian bytes of an integer, and back *)
Fixpoint le_bytes (n : nat) (x : Z) : list Z :=
  match n with O => [] | S n' => x mod 256 :: le_bytes n' (x / 256) end.
Fixpoint le_value (bs : list Z) : Z :=
  match bs with [] => 0 | b :: bs' => b + 256 * le_value bs' end.

(** [s.read( p, n )]: throws when the stream is shorter *)
Definition read (n : nat) (s : list Z) : result (list Z * list Z) :=
  if (length s <? n)%nat then Throw out_of_range else Ok (take n s, drop n s).

Definition pack (sym : asset_symbol_type) : result (list Z) :=
  if sym =? STEEM_ASSET_NUM_STEEM then Ok (le_bytes 8 STEEM_SYMBOL_SER)
  else if sym =? STEEM_ASSET_NUM_SBD then Ok (le_bytes 8 SBD_SYMBOL_SER)
  else if sym =? STEEM_ASSET_NUM_VESTS then Ok (le_bytes 8 VESTS_SYMBOL_SER)
  else Throw assert_exception.

Definition low32 (x : Z) : Z := Z.land x 4294967295.

Definition unpack (s : list Z) : result (asset_symbol_type * list Z) :=
  '(b4, s1) ← read 4 s;
  let ser := le_value b4 in
  '(sym, rest) ←
    (if ser =? low32 STEEM_SYMBOL_SER then
       '(b8, s2) ← read 4 s1;
       _ ← fc_assert (le_value (b4 ++ b8) =? STEEM_SYMBOL_SER); Ok (STEEM_ASSET_NUM_STEEM, s2)
     else if ser =? low32 SBD_SYMBOL_SER then
       '(b8, s2) ← read 4 s1;
       _ ← fc_assert (le_value (b4 ++ b8) =? SBD_SYMBOL_SER); Ok (STEEM_ASSET_NUM_SBD, s2)
     else if ser =? low32 VESTS_SYMBOL_SER then
       '(b8, s2) ← read 4 s1;
       _ ← fc_assert (le_value (b4 ++ b8) =? VESTS_SYMBOL_SER); Ok (STEEM_ASSET_NUM_VESTS, s2)
     else Ok (u32 ser, s1));
  _ ← Symbol.validate sym;
  Ok (sym, rest).

End SymbolSer.

(** ** Assets *)

Record asset := mk_asset { amount : Z; symbol : asset_symbol_type }.
#[export] Instance asset_rebuild : Rebuild asset := fun r => mk_asset (amount r) (symbol r).
#[export] Instance asset_eq_dec : EqDecision asset.
Proof. solve_decision. Defined.

Module Asset.

Definition validate (a : asset) : result unit :=
  _ ← Symbol.validate (symbol a);
  _ ← fc_assert (0 <=? amount a);
  fc_assert (amount a <=? STEEM_MAX_SATOSHIS).

Definition same_symbol (a b : asset) : result unit := fc_assert (symbol a =? symbol b).

Definition add (a b : asset) : result asset :=
  _ ← same_symbol a b; x ← Safe.add (amount a) (amount b); Ok (mk_asset x (symbol a)).
Definition sub (a b : asset) : result asset :=
  _ ← same_symbol a b; x ← Safe.sub (amount a) (amount b); Ok (mk_asset x (symbol a)).
Definition neg (a : asset) : result asset :=
  x ← Safe.neg (amount a); Ok (mk_asset x (symbol a)).

(** [==] compares symbol and amount and never throws; the others assert that
    the symbols agree. *)
Definition eqb (a b : asset) : bool := (symbol a =? symbol b) && (amount a =? amount b).
Definition ltb (a b : asset) : result bool := _ ← same_symbol a b; Ok (amount a <? amount b).
Definition leb (a b : asset) : result bool := _ ← same_symbol a b; Ok (amount a <=? amount b).
Definition neqb (a b : asset) : result bool := _ ← same_symbol a b; Ok (negb (amount a =? amount b)).
Definition gtb (a b : asset) : result bool := _ ← same_symbol a b; Ok (amount b <? amount a).
Definition geb (a b : asset) : result bool := _ ← same_symbol a b; Ok (amount b <=? amount a).

End Asset.

(** ** Prices *)

Record price := mk_price { base : asset; quote : asset }.
#[export] Instance price_rebuild : Rebuild price := fun r => mk_price (base r) (quote r).
#[export] Instance price_eq_dec : EqDecision price.
Proof. solve_decision. Defined.

Module Price.

(** [price()]: both members are [asset()], zero STEEM *)
Definition default : price := mk_price (mk_asset 0 STEEM_SYMBOL) (mk_asset 0 STEEM_SYMBOL).

Definition validate (p : price) : result unit :=
  _ ← fc_assert (0 <? amount (base p));
  _ ← fc_assert (0 <? amount (quote p));
  fc_assert (negb (symbol (base p) =? symbol (quote p))).

(** the two-argument constructor, which validates *)
Definition make (b q : asset) : result price :=
  let p := mk_price b q in _ ← validate p; Ok p.

Definition div (b q : asset) : result price :=
  _ ← fc_assert (negb (symbol b =? symbol q)); make b q.

(** [operator~] *)
Definition inv (p : price) : result price := make (quote p) (base p).

Definition max (b q : asset_symbol_type) : result price :=
  div (mk_asset STEEM_MAX_SATOSHIS b) (mk_asset 1 q).
Definition min (b q : asset_symbol_type) : result price :=
  div (mk_asset 1 b) (mk_asset STEEM_MAX_SATOSHIS q).

(** DEFINE_PRICE_COMPARISON_OPERATOR: the symbol pairs decide when they differ
    (in the lexicographic order of std::tie), the cross products otherwise. *)
Definition bq_compare (a b : price) : comparison :=
  match symbol (base a) ?= symbol (base b) with
  | Eq => symbol (quote a) ?= symbol (quote b)
  | c => c
  end.

Definition compare (a b : price) : comparison :=
  match bq_compare a b with
  | Eq =>
      let amult := u128 (u128 (amount (quote b)) * u128 (amount (base a))) in
      let bmult := u128 (u128 (amount (quote a)) * u128 (amount (base b))) in
      amult ?= bmult
  | c => c
  end.

Definition eqb (a b : price) : bool := match compare a b with Eq => true | _ => false end.
Definition ltb (a b : price) : bool := match compare a b with Lt => true | _ => false end.
Definition leb (a b : price) : bool := match compare a b with Gt => false | _ => true end.
Definition gtb (a b : price) : bool := match compare a b with Gt => true | _ => false end.
Definition geb (a b : price) : bool := match compare a b with Lt => false | _ => true end.

Definition is_null (p : price) : bool := eqb p default.

(** [operator * ( asset, price )] *)
Definition scale (a num den : Z) (s : asset_symbol_type) : result asset :=
  _ ← fc_assert (0 <? den);
  let r := u128 (u128 a * u128 num) / den in
  _ ← fc_assert (r <? 2 ^ 64);
  Ok (mk_asset (i64 r) s).

Definition mul (a : asset) (p : price) : result asset :=
  if symbol a =? symbol (base p) then
    scale (amount a) (amount (quote p)) (amount (base p)) (symbol (quote p))
  else if symbol a =? symbol (quote p) then
    scale (amount a) (amount (base p)) (amount (quote p)) (symbol (base p))
  else Throw assert_exception.

End Price.

(** ** What a successful asset operation returns *)

Module AssetFacts.

Lemma asset_add_Ok a b c : Asset.add a b = Ok c ->
  symbol a = symbol b /\ c = mk_asset (amount a + amount b) (symbol a).
Proof.
  unfold Asset.add, Asset.same_symbol. intros H. result_inv. zbool.
  match goal with H : Safe.add _ _ = Ok _ |- _ => apply Safe.add_Ok in H; subst end. auto.
Qed.

Lemma asset_sub_Ok a b c : Asset.sub a b = Ok c ->
  symbol a = symbol b /\ c = mk_asset (amount a - amount b) (symbol a).
Proof.
  unfold Asset.sub, Asset.same_symbol. intros H. result_inv. zbool.
  match goal with H : Safe.sub _ _ = Ok _ |- _ => apply Safe.sub_Ok in H; subst end. auto.
Qed.

Lemma asset_neg_Ok a c : Asset.neg a = Ok c -> c = mk_asset (- amount a) (symbol a).
Proof.
  unfold Asset.neg. intros H. result_inv.
  match goal with H : Safe.neg _ = Ok _ |- _ => apply Safe.neg_Ok in H; subst end. auto.
Qed.

Lemma eqb_eq a b : Asset.eqb a b = true <-> a = b.
Proof.
  unfold Asset.eqb. rewrite andb_true_iff, !Z.eqb_eq. destruct a, b; simpl.
  split; [intros [-> ->]; auto|intros [= -> ->]; auto].
Qed.

Lemma compare_Ok (f : asset -> asset -> result bool) g a b r :
  (forall a b, f a b = (_ ← Asset.same_symbol a b; Ok (g a b))) ->
  f a b = Ok r -> symbol a = symbol b /\ r = g a b.
Proof. intros Hf. rewrite Hf. unfold Asset.same_symbol. intros H. result_inv. zbool. auto. Qed.

(** The product with a price carries the other symbol of the price. *)
Lemma asset_mul_Ok a p c : Price.mul a p = Ok c ->
  (symbol a = symbol (base p) /\ symbol c = symbol (quote p)) \/
  (symbol a = symbol (quote p) /\ symbol c = symbol (base p)).
Proof.
  unfold Price.mul, Price.scale. intros H. result_case; zbool; subst; simpl; auto.
Qed.

End AssetFacts.

(** Turns successful [Asset] and [Safe] operations into equations. *)
Ltac asset_inv :=
  repeat match goal with
  | H : Asset.add _ _ = Ok _ |- _ => apply AssetFacts.asset_add_Ok in H; destruct H as [? H]; try subst
  | H : Asset.sub _ _ = Ok _ |- _ => apply AssetFacts.asset_sub_Ok in H; destruct H as [? H]; try subst
  | H : Asset.neg _ = Ok _ |- _ => apply AssetFacts.asset_neg_Ok in H; try subst
  | H : Asset.ltb _ _ = Ok _ |- _ =>
      apply (AssetFacts.compare_Ok _ (fun a b => (amount a <? amount b)%Z)) in H; [|done]; destruct H as [? H]; try subst
  | H : Asset.leb _ _ = Ok _ |- _ =>
      apply (AssetFacts.compare_Ok _ (fun a b => (amount a <=? amount b)%Z)) in H; [|done]; destruct H as [? H]; try subst
  | H : Asset.gtb _ _ = Ok _ |- _ =>
      apply (AssetFacts.compare_Ok _ (fun a b => (amount b <? amount a)%Z)) in H; [|done]; destruct H as [? H]; try subst
  | H : Asset.geb _ _ = Ok _ |- _ =>
      apply (AssetFacts.compare_Ok _ (fun a b => (amount b <=? amount a)%Z)) in H; [|done]; destruct H as [? H]; try subst
  | H : Asset.neqb _ _ = Ok _ |- _ =>
      apply (AssetFacts.compare_Ok _ (fun a b => negb (amount a =? amount b)%Z)) in H; [|done]; destruct H as [? H]; try subst
  | H : Safe.add _ _ = Ok _ |- _ => apply Safe.add_Ok in H; try subst
  | H : Safe.sub _ _ = Ok _ |- _ => apply Safe.sub_Ok in H; try subst
  | H : Safe.mul _ _ = Ok _ |- _ => apply Safe.mul_Ok in H; try subst
  | H : Safe.neg _ = Ok _ |- _ => apply Safe.neg_Ok in H; try subst
  | H : Safe.div _ _ = Ok _ |- _ => apply Safe.div_Ok in H; destruct H as [H ?]; try subst
  end.

(** ** NAI check digit and strings *)

Module SymbolFacts.
Import Symbol.

Definition digit (d : Z) : Prop := 0 <= d <= 9.
Definition scaled (x : Z) : Prop := exists k, 0 <= k <= 9 /\ x = 10 * k.

Definition ten : list Z := [0; 1; 2; 3; 4; 5; 6; 7; 8; 9].

Lemma digit_ten d : digit d -> d ∈ ten.
Proof. unfold digit, ten. intros. set_unfold. lia. Qed.

(** A property of all rows and digits of the table, checked by evaluation. *)
Lemma table_all (P : Z -> Z -> Z -> bool) :
  forallb (fun k => forallb (fun d => forallb (P k d) ten) ten) ten = true ->
  forall k d e, digit k -> digit d -> digit e -> P k d e = true.
Proof.
  intros H k d e Hk%digit_ten Hd%digit_ten He%digit_ten.
  rewrite list_elem_of_In in Hk, Hd, He.
  rewrite forallb_forall in H. specialize (H k Hk). cbv beta in H.
  rewrite forallb_forall in H. specialize (H d Hd). cbv beta in H.
  rewrite forallb_forall in H. exact (H e He).
Qed.

Lemma t_scaled x d : scaled x -> digit d -> scaled (t (x + d)).
Proof.
  intros (k & Hk & ->) Hd.
  assert ((t (10 * k + d) mod 10 =? 0) && (0 <=? t (10 * k + d)) && (t (10 * k + d) <=? 90) = true) as H.
  { apply (table_all (fun k d _ => (t (10 * k + d) mod 10 =? 0) && (0 <=? t (10 * k + d)) && (t (10 * k + d) <=? 90)))
      with (e := 0); [vm_compute; reflexivity|done|done|unfold digit; lia]. }
  zbool. exists (t (10 * k + d) / 10). pose proof (Z.div_mod (t (10 * k + d)) 10 ltac:(lia)). lia.
Qed.

(** rows and columns of the table are injective: it is a quasigroup *)
Lemma t_inj_digit x d e : scaled x -> digit d -> digit e -> t (x + d) = t (x + e) -> d = e.
Proof.
  intros (k & Hk & ->) Hd He E.
  pose proof (table_all (fun k d e => negb (t (10 * k + d) =? t (10 * k + e)) || (d =? e))
    ltac:(vm_compute; reflexivity) k d e Hk Hd He) as H.
  cbv beta in H. rewrite E, Z.eqb_refl in H. by apply Z.eqb_eq in H.
Qed.

Lemma t_inj_row x y d : scaled x -> scaled y -> digit d -> t (x + d) = t (y + d) -> x = y.
Proof.
  intros (k & Hk & ->) (l & Hl & ->) Hd E.
  pose proof (table_all (fun k l d => negb (t (10 * k + d) =? t (10 * l + d)) || (k =? l))
    ltac:(vm_compute; reflexivity) k l d Hk Hl Hd) as H.
  cbv beta in H. rewrite E, Z.eqb_refl in H. apply Z.eqb_eq in H. lia.
Qed.

(** the quasigroup is weakly totally anti-symmetric *)
Lemma t_antisym x d e : scaled x -> digit d -> digit e ->
  t (t (x + d) + e) = t (t (x + e) + d) -> d = e.
Proof.
  intros (k & Hk & ->) Hd He E.
  pose proof (table_all (fun k d e => negb (t (t (10 * k + d) + e) =? t (t (10 * k + e) + d)) || (d =? e))
    ltac:(vm_compute; reflexivity) k d e Hk Hd He) as H.
  cbv beta in H. rewrite E, Z.eqb_refl in H. by apply Z.eqb_eq in H.
Qed.

Definition damm (x : Z) (ds : list Z) : Z := fold_left (fun x d => t (x + d)) ds x.
(** the number a list of decimal digits denotes, most significant first *)
Definition value (ds : list Z) : Z := fold_left (fun v d => v * 10 + d) ds 0.

Lemma damm_scaled ds x : Forall digit ds -> scaled x -> scaled (damm x ds).
Proof.
  intros Hds. revert x. induction Hds as [|d ds Hd Hds IH]; intros x Hx; simpl; [done|].
  apply IH. by apply t_scaled.
Qed.

Lemma damm_inj ds x y : Forall digit ds -> scaled x -> scaled y ->
  damm x ds = damm y ds -> x = y.
Proof.
  intros Hds. revert x y. induction Hds as [|d ds Hd Hds IH]; intros x y Hx Hy; simpl; [done|].
  intros E. apply IH in E; [|by apply t_scaled..]. by eapply t_inj_row.
Qed.

Lemma damm_app x a b : damm x (a ++ b) = damm (damm x a) b.
Proof. apply fold_left_app. Qed.

Lemma scaled_0 : scaled 0.
Proof. exists 0. lia. Qed.

Lemma checksum_value ds : length ds = 8%nat -> Forall digit ds ->
  damm_checksum_8digit (value ds) = Ok (damm 0 ds / 10).
Proof.
  intros Hl Hd. do 9 (destruct ds as [|? ds]; try discriminate Hl).
  repeat (apply Forall_cons in Hd as [? Hd]). unfold digit in *.
  assert (forall v d, 0 <= d <= 9 -> (v * 10 + d) / 10 = v) as Hq.
  { intros. rewrite Z.div_add_l, Z.div_small by lia. lia. }
  assert (forall v d, 0 <= d <= 9 -> (v * 10 + d) mod 10 = d) as Hr.
  { intros. rewrite Z.add_comm, Z_mod_plus_full. apply Z.mod_small. lia. }
  unfold value, damm_checksum_8digit; simpl fold_left.
  match goal with |- context [fc_assert ?b] => assert (b = true) as -> by (apply Z.ltb_lt; lia) end.
  simpl mbind. rewrite !Hq, !Hr by lia. reflexivity.
Qed.

Lemma scaled_div_inj x y : scaled x -> scaled y -> x / 10 = y / 10 -> x = y.
Proof.
  intros (k & ? & ->) (l & ? & ->). rewrite !(Z.mul_comm 10), !Z.div_mul by lia. lia.
Qed.

Lemma checksum_split pre mid post :
  Forall digit pre -> Forall digit mid -> Forall digit post ->
  length (pre ++ mid ++ post) = 8%nat ->
  damm_checksum_8digit (value (pre ++ mid ++ post)) = Ok (damm (damm (damm 0 pre) mid) post / 10).
Proof.
  intros. rewrite checksum_value, !damm_app; [done|done|]. by rewrite !Forall_app.
Qed.

(** The NAI check digit detects every single wrong digit and every
    transposition of adjacent digits. *)
Theorem damm_detects_errors pre post d e :
  Forall digit pre -> Forall digit post -> digit d -> digit e -> d <> e ->
  (length (pre ++ [d] ++ post) = 8%nat ->
   damm_checksum_8digit (value (pre ++ [d] ++ post)) <> damm_checksum_8digit (value (pre ++ [e] ++ post))) /\
  (length (pre ++ [d; e] ++ post) = 8%nat ->
   damm_checksum_8digit (value (pre ++ [d; e] ++ post))
     <> damm_checksum_8digit (value (pre ++ [e; d] ++ post))).
Proof.
  intros Hpre Hpost Hd He Hne.
  pose proof (damm_scaled pre 0 Hpre scaled_0) as Hx.
  assert (Forall digit [d] /\ Forall digit [e] /\ Forall digit [d; e] /\ Forall digit [e; d])
    as (F1 & F2 & F3 & F4) by (rewrite !Forall_cons, !Forall_nil; tauto).
  split; intros Hlen; (rewrite !checksum_split; [|done|done|done|
    (rewrite !length_app in *; simpl in *; lia)|done|done|done|done]); simpl; intros [= E]; apply Hne;
    apply scaled_div_inj in E; try (apply damm_scaled; [done|]; eauto using t_scaled);
    apply damm_inj in E; eauto using t_scaled, t_inj_digit, t_antisym.
Qed.

Lemma damm_detects_errors_witness :
  damm_checksum_8digit 12345678 <> damm_checksum_8digit 12354678.
Proof.
  refine (proj2 (damm_detects_errors [1; 2; 3] [6; 7; 8] 4 5 _ _ _ _ _) eq_refl);
    repeat constructor; unfold digit; lia.
Defined.

Lemma validate_cases s : validate s = Ok tt ->
  s = STEEM_ASSET_NUM_STEEM \/ s = STEEM_ASSET_NUM_SBD \/ s = STEEM_ASSET_NUM_VESTS.
Proof.
  unfold validate.
  destruct (Z.eqb_spec s STEEM_ASSET_NUM_STEEM), (Z.eqb_spec s STEEM_ASSET_NUM_SBD),
    (Z.eqb_spec s STEEM_ASSET_NUM_VESTS); simpl; auto; discriminate.
Qed.

Lemma skip_space_app p q : forallb is_space p = true -> skip_space (p ++ q) = skip_space q.
Proof. induction p as [|c p IH]; simpl; [done|]. by destruct (is_space c). Qed.

Lemma is_space_not_digit c : is_space c = true -> is_digit c = false.
Proof.
  destruct c as [[] [] [] [] [] [] [] []]; vm_compute; congruence.
Qed.

Lemma read_nai_app ds q : forall n k n' k',
  read_nai ds n k = Ok (n', k', []) -> read_nai (ds ++ q) n k = read_nai q n' k'.
Proof.
  induction ds as [|c ds IH]; simpl; intros n k n' k' H; [by injection H as -> ->|].
  destruct (is_digit c); [|discriminate].
  destruct (fc_assert (n <=? _)); [|discriminate]. simpl in *.
  destruct (fc_assert (_ <=? SMT_MAX_NAI)); [|discriminate]. simpl in *. by apply IH.
Qed.

(** The NAI string of a known symbol parses back to it, with any white space
    around it. *)
Theorem nai_string_roundtrip s pre post :
  validate s = Ok tt -> forallb is_space pre = true -> forallb is_space post = true ->
  exists str, to_nai_string s = Ok str /\ length str = 11%nat /\
    from_nai_string (pre ++ str ++ post) (decimals s) = Ok s.
Proof.
  intros Hs Hpre Hpost.
  assert (skip_space post = []) as Hend by (rewrite <- (app_nil_r post), skip_space_app by done; done).
  assert (forall n k, read_nai post n k = Ok (n, k, post)) as Hstop.
  { intros n k. destruct post as [|c p]; [done|]. apply andb_true_iff in Hpost as [Hc _].
    simpl. by rewrite is_space_not_digit. }
  assert (forall ds n, read_nai ds 0 0 = Ok (n, 9, []) ->
    asset_num_from_nai (u32 n) (u8 (decimals s)) = Ok s ->
    from_nai_string (pre ++ ("@"%char :: "@"%char :: ds) ++ post) (decimals s) = Ok s) as Hparse.
  { intros ds n Hds Hn. unfold from_nai_string. rewrite skip_space_app by done. simpl.
    rewrite (read_nai_app _ _ _ _ _ _ Hds), Hstop. simpl. rewrite Hn. simpl. by rewrite Hend. }
  destruct (validate_cases s Hs) as [E | [E | E]]; subst s;
    (eexists; split; [vm_compute; reflexivity|split; [reflexivity|]]);
    [apply (Hparse _ 21)|apply (Hparse _ 13)|apply (Hparse _ 37)]; reflexivity.
Qed.

Lemma nai_string_roundtrip_witness : exists str,
  to_nai_string STEEM_SYMBOL = Ok str /\ from_nai_string ([" "%char] ++ str ++ []) 3 = Ok STEEM_SYMBOL.
Proof.
  destruct (nai_string_roundtrip STEEM_SYMBOL [" "%char] []) as (str & E & _ & H);
    [reflexivity|reflexivity|reflexivity|]. exists str. split; [exact E|exact H].
Defined.

(** Two NAIs share one asset number: data digits 50000000 with three decimals
    map to the number that stands for STEEM. *)
Theorem nai_asset_num_collision :
  exists nai, nai / 10 = 50000000 /\
    asset_num_from_nai nai 3 = Ok STEEM_ASSET_NUM_STEEM /\
    asset_num_from_nai 21 3 = Ok STEEM_ASSET_NUM_STEEM.
Proof. exists 500000007. split; [|split]; vm_compute; reflexivity. Qed.
End SymbolFacts.

(** ** Wire format *)

Module SymbolSerFacts.
Import SymbolSer.

Lemma pack_unpack s bs rest :
  pack s = Ok bs -> unpack (bs ++ rest) = Ok (s, rest) /\ length bs = 8%nat.
Proof.
  unfold pack.
  destruct (Z.eqb_spec s STEEM_ASSET_NUM_STEEM); [subst|
    destruct (Z.eqb_spec s STEEM_ASSET_NUM_SBD); [subst|
      destruct (Z.eqb_spec s STEEM_ASSET_NUM_VESTS); [subst|discriminate]]];
    intros [= <-]; split; reflexivity.
Qed.

(** what [pack] writes for a symbol, [unpack] reads back, eight bytes long, leaving
    the rest of the stream. *)
Theorem symbol_pack_unpack s bs rest :
  pack s = Ok bs -> unpack (bs ++ rest) = Ok (s, rest) /\ length bs = 8%nat.
Proof. apply pack_unpack. Qed.

Lemma symbol_pack_unpack_witness :
  exists bs, pack VESTS_SYMBOL = Ok bs /\ unpack (bs ++ [7]) = Ok (VESTS_SYMBOL, [7]).
Proof.
  eexists. split; [reflexivity|]. apply (symbol_pack_unpack VESTS_SYMBOL _ [7]). reflexivity.
Defined.

(** C38: Decoding never yields an unknown symbol. *)
Theorem unpack_validates bytes s rest :
  unpack bytes = Ok (s, rest) ->
  (s = STEEM_SYMBOL \/ s = SBD_SYMBOL \/ s = VESTS_SYMBOL) /\ (length rest <= length bytes - 4)%nat.
Proof.
  unfold unpack. intros H. apply bind_Ok_1 in H as ([b4 s1] & Hr & H).
  assert (forall n x a b, read n x = Ok (a, b) -> b = drop n x) as Hread.
  { unfold read. intros n x a b. destruct (length x <? n)%nat; [discriminate|]. by intros [= <- <-]. }
  apply Hread in Hr as ->. apply bind_Ok_1 in H as ([s' r'] & Hs & H).
  apply bind_Ok_1 in H as ([] & Hv & [= -> ->]). split.
  - by apply SymbolFacts.validate_cases.
  - assert (rest = drop 4 bytes \/ rest = drop 4 (drop 4 bytes)) as [-> | ->].
    { repeat (destruct (Z.eqb _ _) in Hs);
        first [apply bind_Ok_1 in Hs as ([b8 s2] & Hr & Hs); apply Hread in Hr as ->;
               apply bind_Ok_1 in Hs as (? & _ & [= _ <-]); by right
              | injection Hs as _ <-; by left]. }
    + rewrite length_drop. lia.
    + rewrite !length_drop. lia.
Qed.

Lemma unpack_validates_witness :
  unpack [3; 83; 66; 68; 0; 0; 0; 0] = Ok (SBD_SYMBOL, []) /\ (length ([] : list Z) <= 8 - 4)%nat.
Proof.
  split; [reflexivity|].
  exact (proj2 (unpack_validates [3; 83; 66; 68; 0; 0; 0; 0] SBD_SYMBOL [] eq_refl)).
Defined.

End SymbolSerFacts.

(** ** Prices *)

Module PriceFacts.
Import Price.

(** An amount a valid price holds: a positive int64_t. *)
Definition pos_amount (z : Z) : Prop := 0 < z <= INT64_MAX.
Definition valid (p : price) : Prop :=
  pos_amount (amount (base p)) /\ pos_amount (amount (quote p)) /\
  symbol (base p) <> symbol (quote p).
Definition same_pair (a b : price) : Prop :=
  symbol (base a) = symbol (base b) /\ symbol (quote a) = symbol (quote b).

Lemma validate_valid p :
  amount (base p) <= INT64_MAX -> amount (quote p) <= INT64_MAX ->
  (validate p = Ok tt <-> valid p).
Proof.
  unfold validate, valid, pos_amount. intros. split.
  - intros E; result_inv. zbool. tauto.
  - intros (? & ? & ?). rewrite !(proj2 (Z.ltb_lt _ _)) by lia. simpl.
    by rewrite (proj2 (Z.eqb_neq _ _)).
Qed.

Lemma u128_amount z : 0 <= z <= INT64_MAX -> u128 z = z.
Proof. unfold INT64_MAX. intros. apply u128_id. lia. Qed.

Lemma u128_product x y : 0 <= x <= INT64_MAX -> 0 <= y <= INT64_MAX -> u128 (u128 x * u128 y) = x * y.
Proof.
  intros. rewrite !(u128_amount x), !(u128_amount y) by done. unfold INT64_MAX in *.
  apply u128_id. nia.
Qed.

(** on one pair of symbols the order is the order of the rationals base/quote *)
Lemma compare_ratio a b : valid a -> valid b -> same_pair a b ->
  compare a b = (amount (quote b) * amount (base a) ?= amount (quote a) * amount (base b)).
Proof.
  intros (? & ? & _) (? & ? & _) [Eb Eq]. unfold pos_amount in *.
  unfold compare, bq_compare. rewrite Eb, Eq, !Z.compare_refl, !u128_product by lia. done.
Qed.

(** [<] unfolded: symbol pairs first, then the cross products. *)
Lemma ltb_iff a b : valid a -> valid b ->
  ltb a b = true <->
    symbol (base a) < symbol (base b) \/
    (symbol (base a) = symbol (base b) /\ symbol (quote a) < symbol (quote b)) \/
    (same_pair a b /\ amount (quote b) * amount (base a) < amount (quote a) * amount (base b)).
Proof.
  intros (? & ? & _) (? & ? & _). unfold ltb, compare, bq_compare, same_pair, pos_amount in *.
  rewrite !u128_product by lia.
  destruct (Z.compare_spec (symbol (base a)) (symbol (base b)));
    [destruct (Z.compare_spec (symbol (quote a)) (symbol (quote b)));
      [destruct (Z.compare_spec (amount (quote b) * amount (base a)) (amount (quote a) * amount (base b)))|..]|..];
    split; intros; try discriminate; try reflexivity; try lia; auto.
Qed.

(** the transitivity step on the cross products of positive rationals *)
Lemma ratio_trans ab aq bb bq cb cq :
  0 < ab -> 0 < aq -> 0 < bb -> 0 < bq -> 0 < cb -> 0 < cq ->
  bq * ab < aq * bb -> cq * bb < bq * cb -> cq * ab < aq * cb.
Proof.
  intros. apply (Z.mul_lt_mono_pos_l bq); [done|].
  assert (bq * ab * cq < aq * bb * cq) by (apply Z.mul_lt_mono_pos_r; done).
  assert (aq * (cq * bb) < aq * (bq * cb)) by (apply Z.mul_lt_mono_pos_l; done). lia.
Qed.

Lemma compare_opp a b : compare b a = CompOpp (compare a b).
Proof.
  unfold compare, bq_compare.
  rewrite (Z.compare_antisym (symbol (base a))), (Z.compare_antisym (symbol (quote a))).
  destruct (symbol (base a) ?= symbol (base b)); try done.
  destruct (symbol (quote a) ?= symbol (quote b)); try done.
  simpl. by rewrite <- Z.compare_antisym.
Qed.

(** On valid prices [<] is a strict order, exactly one of [<], [==] and [>]
    holds, and within one market [<] is the order of the ratios base/quote. *)
Theorem price_strict_order a b c :
  valid a -> valid b -> valid c ->
  ltb a a = false /\
  (ltb a b = true -> ltb b c = true -> ltb a c = true) /\
  (ltb a b = negb (geb a b) /\ gtb a b = ltb b a /\ leb a b = ltb a b || eqb a b) /\
  (same_pair a b ->
   (ltb a b = true <-> amount (quote b) * amount (base a) < amount (quote a) * amount (base b))).
Proof.
  intros Ha Hb Hc. split; [|split; [|split]].
  - unfold ltb, compare, bq_compare. by rewrite !Z.compare_refl.
  - rewrite !ltb_iff by done. unfold same_pair.
    intros [?|[[? ?]|[[? ?] ?]]] [?|[[? ?]|[[? ?] ?]]]; try lia. right. right. split; [lia|].
    destruct Ha as ([? ?] & [? ?] & _), Hb as ([? ?] & [? ?] & _), Hc as ([? ?] & [? ?] & _).
    by eapply ratio_trans with (bb := amount (base b)) (bq := amount (quote b)).
  - unfold ltb, geb, gtb, leb, eqb. rewrite (compare_opp a b).
    by destruct (compare a b).
  - intros [? ?]. rewrite ltb_iff by done. unfold same_pair. intuition lia.
Qed.

Lemma price_strict_order_witness :
  let p n := mk_price (mk_asset n SBD_SYMBOL) (mk_asset 1000 STEEM_SYMBOL) in
  ltb (p 250) (p 300) = true /\ ltb (p 250) (p 400) = true.
Proof.
  intros p. split; [reflexivity|].
  assert (forall n, 0 < n <= INT64_MAX -> valid (p n)) as Hv
    by (unfold valid, pos_amount, p, INT64_MAX; simpl; intros; repeat split; lia || discriminate).
  destruct (price_strict_order (p 250) (p 300) (p 400)) as (_ & Htrans & _);
    try (apply Hv; unfold INT64_MAX; lia). apply Htrans; reflexivity.
Defined.

(** *** asset * price *)

Lemma scale_floor a num den s : 0 <= a <= INT64_MAX -> 0 <= num <= INT64_MAX -> 0 < den ->
  scale a num den s =
    if a * num / den <? 2 ^ 64 then Ok (mk_asset (i64 (a * num / den)) s) else Throw assert_exception.
Proof.
  intros. unfold scale. rewrite (proj2 (Z.ltb_lt 0 den)) by done. simpl.
  rewrite u128_product by done. by destruct (_ <? _).
Qed.

Lemma i64_nonneg y : 0 <= y < 2 ^ 64 -> 0 <= i64 y -> i64 y = y.
Proof.
  intros Hy Hp. unfold i64 in *. destruct (Z.lt_ge_cases y (2 ^ 63)); [rewrite Z.mod_small in *; lia|].
  rewrite <- (Z_mod_plus_full _ (-1)), Z.mod_small in Hp by lia. lia.
Qed.

Lemma scale_nonneg x n d s r : 0 <= x <= INT64_MAX -> 0 < n <= INT64_MAX -> 0 < d ->
  scale x n d s = Ok r -> 0 <= amount r -> symbol r = s /\ amount r = x * n / d.
Proof.
  intros Hx Hn Hd. rewrite scale_floor by lia.
  destruct (Z.ltb_spec (x * n / d) (2 ^ 64)); [|discriminate]. intros [= <-]; simpl; intros Hp.
  split; [done|]. apply i64_nonneg; [|done]. split; [apply Z.div_pos; nia|done].
Qed.

Lemma mul_max a p r : mul a p = Ok r -> amount r <= INT64_MAX.
Proof. unfold mul, scale. intros E; result_case; simpl; apply i64_range. Qed.

Lemma mul_floor a p b :
  valid p -> 0 <= amount a <= INT64_MAX -> mul a p = Ok b -> 0 <= amount b ->
  symbol a = symbol (base p) /\ symbol b = symbol (quote p) /\
    amount b = amount a * amount (quote p) / amount (base p) \/
  symbol a = symbol (quote p) /\ symbol b = symbol (base p) /\
    amount b = amount a * amount (base p) / amount (quote p).
Proof.
  intros ((? & ?) & (? & ?) & Hne) Ha Hm Hb. unfold mul in Hm.
  destruct (Z.eqb_spec (symbol a) (symbol (base p))) as [Es|Es];
    [|destruct (Z.eqb_spec (symbol a) (symbol (quote p))) as [Es'|]; [|discriminate]];
    apply scale_nonneg in Hm as [Sb Ab]; try lia; tauto.
Qed.

Lemma floor_back x n d : 0 <= x -> 0 < n -> 0 < d -> (x * n / d) * d / n <= x.
Proof.
  intros. apply Z.div_le_upper_bound; [done|]. pose proof (Z.mul_div_le (x * n) d ltac:(done)). lia.
Qed.

(** Multiplying by a price rounds down, in either direction of the price, and
    converting back never yields more than was converted. *)
Theorem asset_mul_price_floor a p b :
  valid p -> 0 <= amount a <= INT64_MAX -> mul a p = Ok b -> 0 <= amount b ->
  (symbol a = symbol (base p) /\ symbol b = symbol (quote p) /\
     amount b = amount a * amount (quote p) / amount (base p) \/
   symbol a = symbol (quote p) /\ symbol b = symbol (base p) /\
     amount b = amount a * amount (base p) / amount (quote p)) /\
  (forall c, mul b p = Ok c -> 0 <= amount c -> symbol c = symbol a /\ amount c <= amount a).
Proof.
  intros Hp Ha Hm Hb. pose proof (mul_floor a p b Hp Ha Hm Hb) as F. split; [done|]. intros c Hc Hcp.
  pose proof (mul_floor b p c Hp (conj Hb (mul_max a p b Hm)) Hc Hcp) as G.
  destruct Hp as ((? & ?) & (? & ?) & Hne).
  destruct F as [(Sa & Sb & Eb)|(Sa & Sb & Eb)], G as [(Sb' & Sc & Ec)|(Sb' & Sc & Ec)]; try congruence;
    (split; [congruence|]); rewrite Ec, Eb; apply floor_back; lia.
Qed.

Lemma asset_mul_price_floor_witness :
  let p := mk_price (mk_asset 3 SBD_SYMBOL) (mk_asset 10 STEEM_SYMBOL) in
  mul (mk_asset 100 SBD_SYMBOL) p = Ok (mk_asset 333 STEEM_SYMBOL) /\
  mul (mk_asset 333 STEEM_SYMBOL) p = Ok (mk_asset 99 SBD_SYMBOL) /\ 99 <= 100.
Proof.
  intros p. split; [reflexivity|]. split; [reflexivity|].
  refine (proj2 (proj2 (asset_mul_price_floor (mk_asset 100 SBD_SYMBOL) p (mk_asset 333 STEEM_SYMBOL) _ _ _ _)
     (mk_asset 99 SBD_SYMBOL) _ _)); try reflexivity; simpl; try (unfold INT64_MAX; lia).
  unfold valid, pos_amount, INT64_MAX, p; simpl. repeat split; lia || discriminate.
Defined.

(** The guard of [operator *] is on 64 unsigned bits and the result is stored in
    a signed 64-bit amount: a product between 2^63 and 2^64 comes out negative. *)
Theorem asset_mul_price_wraps :
  exists a p b, Asset.validate a = Ok tt /\ valid p /\ mul a p = Ok b /\ amount b < 0.
Proof.
  exists (mk_asset STEEM_MAX_SATOSHIS SBD_SYMBOL),
    (mk_price (mk_asset 1 SBD_SYMBOL) (mk_asset 3 STEEM_SYMBOL)),
    (mk_asset (-4611686018427387907) STEEM_SYMBOL).
  split; [reflexivity|]. split; [|split; reflexivity].
  unfold valid, pos_amount, INT64_MAX; simpl. repeat split; lia || discriminate.
Qed.

End PriceFacts.
