(* ===== verification/Raw.v ===== *)
(** Raw: the binary serialization of fc (io/raw.hpp) that operations carry.

    A stream is the list of the bytes still to be read, each an integer of
    0 .. 255; packing returns the bytes written, unpacking the value with the rest
    of the stream, and throws when the stream is too short.  Modelled are the
    types that occur in the values of witness_set_properties_operation, the
    variable-length integers and strings they are built from, and signed_int. *)
From Stdlib Require Import ZArith Lia String Ascii.
From stdpp Require Import base list strings.
From S2P Require Import Prelude.
From S2P Require Import Uint128.
From S2P Require Import Asset.
From S2P Require Import Utf8.
Local Open Scope Z_scope.

Definition MAX_ARRAY_ALLOC_SIZE : Z := 1024 * 1024 * 10.

Definition stream : Type := list Z.
Definition unpacker (A : Type) : Type := stream -> result (A * stream).

(** ** Variable-length integers *)

(** The loop of pack: seven bits a round, the top bit set on every byte but the
    last.  The value loses seven bits a round, so five rounds cover 32 bits. *)
Fixpoint pack_varint (fuel : nat) (val : Z) : list Z :=
  match fuel with
  | O => []
  | S fuel =>
      let b := Z.land (u8 val) 0x7f in
      let val := Z.shiftr val 7 in
      let b := Z.lor b (Z.shiftl (b2z (0 <? val)) 7) in
      b :: (if val =? 0 then [] else pack_varint fuel val)
  end.

(** The loop of unpack, from a position [by_] and the bits [v] read so far; each
    round reads one byte of the stream.  A shift of 32 or more, which C++ leaves
    undefined, takes its count modulo 32. *)
Fixpoint unpack_varint (wrap : Z -> Z) (v by_ : Z) (s : stream) : result (Z * stream) :=
  match s with
  | [] => Throw out_of_range
  | b :: s =>
      let v := wrap (Z.lor v (u32 (Z.shiftl (Z.land b 0x7f) (by_ mod 32)))) in
      if Z.land b 0x80 =? 0 then Ok (v, s) else unpack_varint wrap v (u8 (by_ + 7)) s
  end.

Definition pack_unsigned_int (v : Z) : list Z := pack_varint 5 v.
Definition unpack_unsigned_int : unpacker Z := fun s =>
  '(v, s) ← unpack_varint u64 0 0 s; Ok (u32 v, s).

(** two's complement: int32_t from an unsigned 32-bit value *)
Definition i32 (x : Z) : Z := (x + 2 ^ 31) mod 2 ^ 32 - 2 ^ 31.

Definition pack_signed_int (v : Z) : list Z :=
  pack_varint 5 (u32 (Z.lxor (Z.shiftl v 1) (Z.shiftr v 31))).
Definition unpack_signed_int : unpacker Z := fun s =>
  '(v, s) ← unpack_varint u32 0 0 s;
  let value := i32 (Z.lxor (Z.shiftr v 1) (Z.shiftr v 31) + Z.land v 0x01) in
  let value := if negb (Z.land v 0x01 =? 0) then value else i32 (- value) in
  Ok (i32 (- value), s).

(** ** Fixed-width integers, strings and the protocol's types *)

Definition pack_uint (n : nat) (v : Z) : list Z := SymbolSer.le_bytes n v.
Definition unpack_uint (n : nat) : unpacker Z := fun s =>
  '(bs, s) ← SymbolSer.read n s; Ok (SymbolSer.le_value bs, s).
Definition unpack_uint16 : unpacker Z := unpack_uint 2.
Definition unpack_uint32 : unpacker Z := unpack_uint 4.
Definition pack_int64 (v : Z) : list Z := pack_uint 8 (u64 v).
Definition unpack_int64 : unpacker Z := fun s => '(v, s) ← unpack_uint 8 s; Ok (i64 v, s).

Definition pack_vector (value : list Z) : list Z :=
  pack_unsigned_int (u32 (Z.of_nat (List.length value))) ++ value.
Definition unpack_vector : unpacker (list Z) := fun s =>
  '(size, s) ← unpack_unsigned_int s;
  _ ← fc_assert (size <? MAX_ARRAY_ALLOC_SIZE);
  SymbolSer.read (Z.to_nat size) s.

Definition of_octets (l : list Z) : string := string_of_list_ascii (map (fun b => ascii_of_nat (Z.to_nat b)) l).
Definition pack_string (v : string) : list Z := pack_vector (octets v).
Definition unpack_string : unpacker string := fun s => '(v, s) ← unpack_vector s; Ok (of_octets v, s).

(** the 33 bytes of a public key *)
Definition unpack_public_key : unpacker Z := unpack_uint 33.

Definition pack_asset (a : asset) : result (list Z) :=
  s ← SymbolSer.pack (symbol a); Ok (pack_int64 (amount a) ++ s).
Definition unpack_asset : unpacker asset := fun s =>
  '(x, s) ← unpack_int64 s;
  '(sym, s) ← SymbolSer.unpack s;
  Ok (mk_asset x sym, s).

Definition pack_price (p : price) : result (list Z) :=
  b ← pack_asset (base p); q ← pack_asset (quote p); Ok (b ++ q).
Definition unpack_price : unpacker price := fun s =>
  '(b, s) ← unpack_asset s; '(q, s) ← unpack_asset s; Ok (mk_price b q, s).

(** unpack_from_vector: an empty vector leaves the variable as it was *)
Definition unpack_from_vector {A} (unpack : unpacker A) (tmp : A) (s : list Z) : result A :=
  match s with
  | [] => Ok tmp
  | _ => '(v, _) ← unpack s; Ok v
  end.

(** ** Round trips *)

Lemma pack_byte val : 0 <= val ->
  let b := Z.lor (Z.land (u8 val) 0x7f) (Z.shiftl (b2z (0 <? Z.shiftr val 7)) 7) in
  b = val mod 128 + (if val <? 128 then 0 else 128) /\ Z.land b 0x7f = val mod 128 /\
  (Z.land b 0x80 =? 0) = (val <? 128).
Proof.
  intros Hv b. assert (Z.land (u8 val) 0x7f = val mod 128) as E1.
  { change 0x7f with (2 ^ 7 - 1). rewrite land_mask by lia. unfold u8. change (2 ^ 7) with 128. euclid. }
  assert ((0 <? Z.shiftr val 7) = negb (val <? 128)) as E2.
  { rewrite Z.shiftr_div_pow2 by lia. change (2 ^ 7) with 128. destruct (Z.ltb_spec val 128), (Z.ltb_spec 0 (val / 128)); try done; euclid. }
  assert (b = val mod 128 + (if val <? 128 then 0 else 128)) as E.
  { unfold b. rewrite E1, E2. pose proof (Z.mod_pos_bound val 128 ltac:(lia)).
    destruct (val <? 128); cbn [negb b2z]; [by rewrite Z.lor_0_r, Z.add_0_r|].
    rewrite Z.shiftl_mul_pow2 by lia. rewrite (lor_prefix (val mod 128) 7 1) by lia. lia. }
  split; [done|]. rewrite E. split.
  - change 0x7f with (2 ^ 7 - 1). rewrite land_mask by lia. change (2 ^ 7) with 128. destruct (val <? 128); euclid.
  - destruct (Z.ltb_spec val 128).
    + rewrite Z.add_0_r, Z.mod_small by lia. apply Z.eqb_eq. apply Z.bits_inj'. intros n Hn. rewrite Z.land_spec, Z.bits_0.
      change 0x80 with (2 ^ 7). rewrite Z.pow2_bits_eqb by lia. destruct (Z.eqb_spec 7 n) as [<-|]; [|apply andb_false_r].
      assert (Z.testbit val 7 = false) as ->; [|done]. apply Z.testbit_false; [lia|]. rewrite Z.div_small; [done|lia].
    + apply Z.eqb_neq. intros E0. apply (f_equal (fun z => Z.testbit z 7)) in E0. rewrite Z.land_spec, Z.bits_0 in E0.
      change 0x80 with (2 ^ 7) in E0. rewrite Z.pow2_bits_eqb in E0 by lia. rewrite Z.eqb_refl, andb_true_r in E0.
      apply Z.testbit_false in E0; [|lia]. change (2 ^ 7) with 128 in E0. euclid.
Qed.

Lemma varint_roundtrip wrap rest (Hwrap : forall x, 0 <= x < 2 ^ 32 -> wrap x = x) n : forall val v by_,
  0 <= val < 2 ^ (7 * Z.of_nat n) -> (0 < n)%nat -> 0 <= by_ < 32 -> 0 <= v < 2 ^ by_ -> v + val * 2 ^ by_ < 2 ^ 32 ->
  unpack_varint wrap v by_ (pack_varint n val ++ rest) = Ok (v + val * 2 ^ by_, rest).
Proof.
  induction n as [|n IH]; intros val v b Hval Hn Hb Hv Hsum; [lia|]. cbn [pack_varint app unpack_varint].
  destruct (pack_byte val ltac:(lia)) as (_ & -> & ->). rewrite (Z.mod_small b) by lia.
  assert (0 < 2 ^ b) by (apply Z.pow_pos_nonneg; lia). pose proof (Z.mod_pos_bound val 128 ltac:(lia)).
  pose proof (Z.mod_le val 128 ltac:(lia) ltac:(lia)).
  rewrite Z.shiftl_mul_pow2 by lia. rewrite (u32_id (val mod 128 * 2 ^ b)) by nia.
  rewrite lor_prefix by lia. rewrite Hwrap by nia. rewrite Z.shiftr_div_pow2 by lia. change (2 ^ 7) with 128.
  destruct (Z.ltb_spec val 128) as [L|L].
  - rewrite (Z.div_small val 128), (Z.mod_small val 128) by lia. cbn. f_equal. f_equal. lia.
  - assert (b < 25) by (apply Z.nle_gt; intros ?; pose proof (Z.pow_le_mono_r 2 25 b ltac:(lia) ltac:(lia)); nia).
    destruct (Z.eqb_spec (val / 128) 0); [euclid|]. unfold u8. rewrite (Z.mod_small (b + 7)) by lia.
    assert (2 ^ (b + 7) = 2 ^ b * 128) as E by (rewrite Z.pow_add_r by lia; done).
    assert (v + val * 2 ^ b = val mod 128 * 2 ^ b + v + val / 128 * 2 ^ (b + 7)) as ->
      by (rewrite E; pose proof (Z.div_mod val 128 ltac:(lia)); nia).
    assert (2 ^ (7 * Z.of_nat (S n)) = 2 ^ (7 * Z.of_nat n) * 128) as E' by
      (replace (7 * Z.of_nat (S n)) with (7 * Z.of_nat n + 7) by lia; rewrite Z.pow_add_r by lia; done).
    assert (0 <= val / 128 < 2 ^ (7 * Z.of_nat n)) by euclid.
    apply IH; [done| |lia|nia|rewrite E; pose proof (Z.div_mod val 128 ltac:(lia)); nia].
    destruct n; [simpl in *; euclid|lia].
Qed.

Lemma unsigned_int_roundtrip v rest : 0 <= v < 2 ^ 32 ->
  unpack_unsigned_int (pack_unsigned_int v ++ rest) = Ok (v, rest).
Proof.
  intros Hv. unfold unpack_unsigned_int, pack_unsigned_int.
  rewrite varint_roundtrip; [|intros; apply u64_id; lia|lia..]. simpl. f_equal. f_equal. rewrite Z.mul_1_r. apply u32_id. lia.
Qed.

(** a signed_int survives while its absolute value is below 2^30 *)
Lemma signed_int_roundtrip v rest : - 2 ^ 30 <= v < 2 ^ 30 ->
  unpack_signed_int (pack_signed_int v ++ rest) = Ok (v, rest).
Proof.
  intros Hv. unfold unpack_signed_int, pack_signed_int.
  set (z := u32 (Z.lxor (Z.shiftl v 1) (Z.shiftr v 31))).
  assert (z = if v <? 0 then - 2 * v - 1 else 2 * v) as Ez.
  { unfold z. rewrite Z.shiftl_mul_pow2, Z.shiftr_div_pow2 by lia. destruct (Z.ltb_spec v 0).
    - replace (v / 2 ^ 31) with (-1) by euclid. rewrite Z.lxor_m1_r. rewrite <- Z.opp_lnot || idtac.
      unfold Z.lnot. rewrite u32_id by lia. lia.
    - replace (v / 2 ^ 31) with 0 by euclid. rewrite Z.lxor_0_r. rewrite u32_id by lia. lia. }
  assert (0 <= z < 2 ^ 31) by (destruct (Z.ltb_spec v 0); lia). clearbody z.
  rewrite varint_roundtrip; [|intros; apply u32_id; lia|lia..]. simpl mbind. cbn [mbind result_bind].
  rewrite Z.mul_1_r, Z.add_0_l. rewrite (Z.shiftr_div_pow2 z 31), (Z.div_small z) by lia. rewrite Z.lxor_0_r.
  rewrite Z.shiftr_div_pow2 by lia. change 0x01 with (2 ^ 1 - 1). rewrite land_mask by lia. change (2 ^ 1) with 2.
  unfold i32. do 2 f_equal. destruct (Z.eqb_spec (z mod 2) 0) as [E|E]; cbn [negb]; destruct (Z.ltb_spec v 0); euclid.
Qed.

(** signed_int does not round-trip at 2^30: the top bit of the packed value is
    taken into the result as well. *)
Theorem signed_int_top_bit : unpack_signed_int (pack_signed_int (2 ^ 30)) = Ok (2 ^ 30 + 1, []).
Proof. by vm_compute. Qed.

Lemma le_roundtrip n : forall v, 0 <= v < 2 ^ (8 * Z.of_nat n) -> SymbolSer.le_value (SymbolSer.le_bytes n v) = v.
Proof.
  induction n as [|n IH]; intros v Hv; [change (2 ^ (8 * Z.of_nat 0)) with 1 in Hv; cbn; lia|]. cbn [SymbolSer.le_bytes SymbolSer.le_value].
  replace (8 * Z.of_nat (S n)) with (8 * Z.of_nat n + 8) in Hv by lia. rewrite Z.pow_add_r in Hv by lia. change (2 ^ 8) with 256 in Hv.
  rewrite IH by euclid. euclid.
Qed.
Lemma le_bytes_length n : forall v, List.length (SymbolSer.le_bytes n v) = n.
Proof. induction n; intros v; simpl; [done|f_equal; auto]. Qed.

Lemma read_app bs rest : SymbolSer.read (List.length bs) (bs ++ rest) = Ok (bs, rest).
Proof.
  unfold SymbolSer.read. rewrite (proj2 (Nat.ltb_ge _ _)) by (rewrite length_app; lia).
  by rewrite take_app_length, drop_app_length.
Qed.

Lemma uint_roundtrip n v rest : 0 <= v < 2 ^ (8 * Z.of_nat n) -> unpack_uint n (pack_uint n v ++ rest) = Ok (v, rest).
Proof.
  intros Hv. unfold unpack_uint, pack_uint. rewrite <- (le_bytes_length n v) at 1. rewrite read_app. simpl. by rewrite le_roundtrip.
Qed.

Lemma int64_roundtrip v rest : INT64_MIN <= v <= INT64_MAX -> unpack_int64 (pack_int64 v ++ rest) = Ok (v, rest).
Proof.
  intros Hv. unfold unpack_int64, pack_int64. rewrite uint_roundtrip by apply u64_range. cbn [mbind result_bind].
  do 2 f_equal. unfold i64, u64, INT64_MIN, INT64_MAX in *. euclid.
Qed.

Lemma octets_of_octets l : Forall octet l -> octets (of_octets l) = l.
Proof.
  intros Ho. unfold octets, of_octets. rewrite list_ascii_of_string_of_list_ascii, map_map.
  induction Ho as [|b l Hb _ IH]; [done|]. simpl. rewrite IH. f_equal. unfold octet in Hb.
  rewrite nat_ascii_embedding by lia. lia.
Qed.
Lemma of_octets_octets s : of_octets (octets s) = s.
Proof.
  unfold octets, of_octets. rewrite map_map. rewrite <- (string_of_list_ascii_of_string s) at 2. f_equal.
  induction (list_ascii_of_string s) as [|c l IH]; [done|]. simpl. rewrite IH, Nat2Z.id, ascii_nat_embedding. done.
Qed.

Lemma string_unpacks v rest : Z.of_nat (String.length v) < MAX_ARRAY_ALLOC_SIZE ->
  unpack_string (pack_string v ++ rest) = Ok (v, rest).
Proof.
  unfold MAX_ARRAY_ALLOC_SIZE. intros Hv. assert (List.length (octets v) = String.length v) as L.
  { unfold octets. rewrite length_map. clear. induction v; simpl; congruence. }
  unfold unpack_string, unpack_vector, pack_string, pack_vector. rewrite <- app_assoc, L, (u32_id (Z.of_nat _)) by lia.
  rewrite unsigned_int_roundtrip by lia. cbn [mbind result_bind].
  rewrite (proj2 (Z.ltb_lt _ _)) by (unfold MAX_ARRAY_ALLOC_SIZE; lia). cbn [fc_assert mbind result_bind].
  rewrite Nat2Z.id, <- L, read_app. cbn [mbind result_bind]. by rewrite of_octets_octets.
Qed.

(** C40: A string that is not too long survives packing, whatever follows it. *)
Theorem string_roundtrip v rest : Z.of_nat (String.length v) < MAX_ARRAY_ALLOC_SIZE ->
  unpack_string (pack_string v ++ rest) = Ok (v, rest).
Proof. apply string_unpacks. Qed.

Lemma string_roundtrip_witness : unpack_string (pack_string "https://steem.io" ++ [7]) = Ok ("https://steem.io"%string, [7]).
Proof. apply (string_roundtrip "https://steem.io" [7]). by vm_compute. Defined.

Lemma asset_roundtrip a bs rest : INT64_MIN <= amount a <= INT64_MAX -> pack_asset a = Ok bs -> unpack_asset (bs ++ rest) = Ok (a, rest).
Proof.
  intros Ha H. unfold pack_asset in H. bind H as sb Hs.
  assert (bs = pack_int64 (amount a) ++ sb) as -> by congruence. unfold unpack_asset. rewrite <- app_assoc, int64_roundtrip by done. cbn [mbind result_bind].
  rewrite (proj1 (SymbolSerFacts.pack_unpack _ _ rest Hs)). by destruct a.
Qed.

(** A price survives packing, whatever follows it. *)
Theorem price_roundtrip p bs rest :
  INT64_MIN <= amount (base p) <= INT64_MAX -> INT64_MIN <= amount (quote p) <= INT64_MAX ->
  pack_price p = Ok bs -> unpack_price (bs ++ rest) = Ok (p, rest).
Proof.
  intros Hb Hq H. unfold pack_price in H. bind H as b1 H1. bind H as b2 H2. injection H as <-. unfold unpack_price.
  rewrite <- app_assoc, (asset_roundtrip (base p) b1) by done. cbn [mbind result_bind].
  rewrite (asset_roundtrip (quote p) b2) by done. by destruct p.
Qed.

Lemma price_roundtrip_witness :
  unpack_price (default [] (match pack_price (mk_price (mk_asset 1000 SBD_SYMBOL) (mk_asset 500 STEEM_SYMBOL)) with Ok b => Some b | _ => None end) ++ [9])
  = Ok (mk_price (mk_asset 1000 SBD_SYMBOL) (mk_asset 500 STEEM_SYMBOL), [9]).
Proof. apply price_roundtrip; [by vm_compute|by vm_compute|by vm_compute]. Defined.
