(* ===== verification/Authority.v ===== *)
(** * Account names, authorities and signature checking

    [src/src/core/protocol/authority.cpp] ([is_valid_account_name], [authority]),
    [src/src/core/protocol/sign_state.cpp] ([sign_state]) and the template
    [verify_authority] of [transaction_util.hpp].  The flat_map and flat_set
    members are association lists and lists in key order, which is the order in
    which the code walks them; public keys are opaque identities. *)
From Stdlib Require Import ZArith Lia Ascii String.
From stdpp Require Import base gmap strings list.
From S2P Require Import Prelude.
Local Open Scope Z_scope.
Local Open Scope fc_scope.

Abbreviation account_name_type := string (only parsing).
Abbreviation public_key_type := Z (only parsing).

(** ** Account names *)

Module Name.

Definition STEEM_MIN_ACCOUNT_NAME_LENGTH : nat := 3.
Definition STEEM_MAX_ACCOUNT_NAME_LENGTH : nat := 16.

Definition code (c : ascii) : nat := nat_of_ascii c.
Definition is_letter (c : ascii) : bool := (97 <=? code c)%nat && (code c <=? 122)%nat.
Definition is_digit (c : ascii) : bool := (48 <=? code c)%nat && (code c <=? 57)%nat.
Definition is_let_dig (c : ascii) : bool := is_letter c || is_digit c.
Definition is_ldh (c : ascii) : bool := is_let_dig c || (code c =? 45)%nat.
Definition is_dot (c : ascii) : bool := (code c =? 46)%nat.

(** name[begin..end) up to the next dot, and what follows the dot *)
Fixpoint cut (s : list ascii) : list ascii * option (list ascii) :=
  match s with
  | [] => ([], None)
  | c :: s' =>
      if is_dot c then ([], Some s')
      else let '(l, r) := cut s' in (c :: l, r)
  end.

(** the checks of one round of the loop on the label [begin, end) *)
Definition label_ok (l : list ascii) : bool :=
  if (length l <? 3)%nat then false
  else
    match l with
    | [] => false
    | c :: l' =>
        if negb (is_letter c) then false
        else
          match last l with
          | None => false
          | Some e => if negb (is_let_dig e) then false else forallb is_ldh (removelast l')
          end
    end.

(** the loop over the labels; the name shrinks in every round, [fuel] is its length *)
Fixpoint labels_ok (fuel : nat) (s : list ascii) : bool :=
  let '(l, r) := cut s in
  if negb (label_ok l) then false
  else
    match r with
    | None => true
    | Some s' => match fuel with O => false | S f => labels_ok f s' end
    end.

Definition is_valid_account_name (name : account_name_type) : bool :=
  let s := list_ascii_of_string name in
  let len := length s in
  if (len <? STEEM_MIN_ACCOUNT_NAME_LENGTH)%nat then false
  else if (STEEM_MAX_ACCOUNT_NAME_LENGTH <? len)%nat then false
  else labels_ok len s.

(** The documented grammar (RFC 1035 restricted to lower case and to labels of
    three characters or more). *)
Inductive label : list ascii -> Prop :=
| label_intro c mid e :
    is_letter c = true -> mid <> [] -> Forall (fun x => is_ldh x = true) mid ->
    is_let_dig e = true -> label (c :: mid ++ [e]).

Inductive subdomain : list ascii -> Prop :=
| sub_label l : label l -> subdomain l
| sub_dot l s : label l -> subdomain s -> subdomain (l ++ "."%char :: s).

Lemma dot_not_ldh c : is_dot c = true -> is_ldh c = false.
Proof. destruct c as [[] [] [] [] [] [] [] []]; vm_compute; congruence. Qed.

Lemma letter_ldh c : is_letter c = true -> is_ldh c = true.
Proof. unfold is_ldh, is_let_dig. by intros ->. Qed.

Lemma let_dig_ldh c : is_let_dig c = true -> is_ldh c = true.
Proof. unfold is_ldh. by intros ->. Qed.

Lemma label_ok_iff l : label_ok l = true <-> label l.
Proof.
  split.
  - unfold label_ok. destruct (Nat.ltb_spec (length l) 3) as [|Hlen]; [discriminate|].
    destruct l as [|c l']; [discriminate|].
    destruct (is_letter c) eqn:Hc; [|discriminate]. simpl negb. cbv iota.
    destruct l' as [|d l'] using rev_ind; [simpl in Hlen; lia|clear IHl'].
    rewrite app_comm_cons, last_snoc.
    destruct (is_let_dig d) eqn:Hd; [|discriminate]. simpl negb. cbv iota.
    rewrite removelast_last. intros Hm. apply label_intro; auto.
    + intros ->. simpl in Hlen. lia.
    + apply Forall_forall. intros x Hx. rewrite forallb_forall in Hm.
      apply Hm. by apply list_elem_of_In.
  - intros [c mid e Hc Hm Hmid He]. unfold label_ok.
    destruct (Nat.ltb_spec (length (c :: mid ++ [e])) 3) as [Hlen|].
    { destruct mid; [done|]. simpl in Hlen. rewrite length_app in Hlen. simpl in Hlen. lia. }
    rewrite Hc. simpl negb. cbv iota. rewrite app_comm_cons, last_snoc, He. simpl negb. cbv iota.
    rewrite removelast_last. apply forallb_forall. intros x Hx.
    rewrite Forall_forall in Hmid. apply Hmid. by apply list_elem_of_In.
Qed.

Lemma label_no_dot l : label l -> Forall (fun c => is_dot c = false) l.
Proof.
  intros [c mid e Hc _ Hmid He].
  assert (forall x, is_ldh x = true -> is_dot x = false) as Hx.
  { intros x Hx. destruct (is_dot x) eqn:E; [|done]. apply dot_not_ldh in E. congruence. }
  apply Forall_cons. split; [by apply Hx, letter_ldh|]. apply Forall_app. split.
  - eapply Forall_impl; [exact Hmid|]. auto.
  - apply Forall_singleton, Hx, let_dig_ldh, He.
Qed.

Lemma cut_no_dot l : Forall (fun c => is_dot c = false) l -> cut l = (l, None).
Proof. induction 1 as [|c l Hc _ IH]; simpl; [done|]. by rewrite Hc, IH. Qed.

Lemma cut_dot l s : Forall (fun c => is_dot c = false) l -> cut (l ++ "."%char :: s) = (l, Some s).
Proof. induction 1 as [|c l Hc _ IH]; simpl; [done|]. by rewrite Hc, IH. Qed.

Lemma cut_spec s : match cut s with
  | (l, None) => s = l
  | (l, Some r) => s = l ++ "."%char :: r
  end.
Proof.
  induction s as [|c s IH]; simpl; [done|]. destruct (is_dot c) eqn:Hc.
  - f_equal. revert Hc. destruct c as [[] [] [] [] [] [] [] []]; vm_compute; congruence.
  - destruct (cut s) as [l [r|]]; simpl; by rewrite <- IH.
Qed.

Lemma labels_ok_iff fuel s : (length s <= fuel)%nat -> labels_ok fuel s = true <-> subdomain s.
Proof.
  revert s. induction fuel as [|f IH]; intros s Hf.
  - destruct s; [|simpl in Hf; lia]. simpl. split; [discriminate|].
    inversion 1 as [l Hl|l s' Hl Hs' E]; [inversion Hl|]. by destruct l.
  - simpl. pose proof (cut_spec s) as Hcut. destruct (cut s) as [l r] eqn:E.
    destruct (label_ok l) eqn:Hl; simpl.
    + apply label_ok_iff in Hl. destruct r as [s'|]; [|subst; by split; auto using subdomain].
      rewrite IH by (subst s; rewrite length_app in Hf; simpl in Hf; lia). split.
      * intros Hs'. subst s. by apply sub_dot.
      * intros Hs. destruct Hs as [l0 Hl0|l0 s0 Hl0 Hs0].
        -- by rewrite (cut_no_dot _ (label_no_dot _ Hl0)) in E.
        -- rewrite (cut_dot _ _ (label_no_dot _ Hl0)) in E. by injection E as -> ->.
    + split; [discriminate|]. intros Hs. exfalso.
      assert (label l) as Hl'; [|apply label_ok_iff in Hl'; congruence].
      destruct Hs as [l0 Hl0|l0 s0 Hl0 Hs0].
      * rewrite (cut_no_dot _ (label_no_dot _ Hl0)) in E. by injection E as ->.
      * rewrite (cut_dot _ _ (label_no_dot _ Hl0)) in E. by injection E as -> _.
Qed.

(** C35: The hand-written scanner accepts exactly the documented language. *)
Theorem is_valid_account_name_grammar name :
  let s := list_ascii_of_string name in
  is_valid_account_name name = true <-> (3 <= length s <= 16)%nat /\ subdomain s.
Proof.
  intros s. unfold is_valid_account_name, STEEM_MIN_ACCOUNT_NAME_LENGTH, STEEM_MAX_ACCOUNT_NAME_LENGTH.
  fold s. destruct (Nat.ltb_spec (length s) 3), (Nat.ltb_spec 16 (length s));
    try (split; [discriminate|lia]).
  rewrite labels_ok_iff by done. intuition lia.
Qed.

End Name.

(** ** Authorities *)

Record authority := mk_authority {
  weight_threshold : Z;                                (* uint32_t *)
  account_auths : list (account_name_type * Z);        (* weights are uint16_t *)
  key_auths : list (public_key_type * Z) }.
#[export] Instance authority_eq_dec : EqDecision authority.
Proof. solve_decision. Defined.

Definition empty_authority : authority := mk_authority 0 [] [].

Module Auth.

Definition sum_weights {A} (l : list (A * Z)) : Z := foldr (fun p acc => snd p + acc) 0 l.

(** [auth_weights] is a uint64_t *)
Definition is_impossible (a : authority) : bool :=
  u64 (sum_weights (account_auths a) + sum_weights (key_auths a)) <? weight_threshold a.

Definition num_auths (a : authority) : Z :=
  u32 (Z.of_nat (length (account_auths a)) + Z.of_nat (length (key_auths a))).

Definition validate (a : authority) : result unit :=
  fc_assert (forallb (fun p => Name.is_valid_account_name (fst p)) (account_auths a)).

End Auth.

(** ** sign_state *)

Module SignState.

Record sign_state := mk_state {
  provided_signatures : gmap public_key_type bool;
  approved_by : gset account_name_type }.

Section check.
Context (get_active : account_name_type -> result authority)
        (available_keys : gset public_key_type)
        (max_membership max_account_auths : Z).

Definition init (sigs : list public_key_type) : sign_state :=
  mk_state (foldr (fun k m => <[k := false]> m) ∅ sigs) {["temp"%string]}.

Definition signed_by (k : public_key_type) (s : sign_state) : bool * sign_state :=
  match provided_signatures s !! k with
  | Some _ => (true, mk_state (<[k := true]> (provided_signatures s)) (approved_by s))
  | None =>
      if decide (k ∈ available_keys)
      then (true, mk_state (<[k := true]> (provided_signatures s)) (approved_by s))
      else (false, s)
  end.

Definition over_membership (membership : Z) : bool :=
  (0 <? max_membership) && (max_membership <=? membership).

(** the loop over [key_auths]: [inl b] is an early return, [inr] carries
    [total_weight] and [membership] on *)
Fixpoint key_loop (threshold : Z) (ks : list (public_key_type * Z)) (total membership : Z)
    (s : sign_state) : (bool + Z * Z) * sign_state :=
  match ks with
  | [] => (inr (total, membership), s)
  | (k, w) :: ks' =>
      let '(b, s) := signed_by k s in
      let total := if b then u32 (total + w) else total in
      if b && (threshold <=? total) then (inl true, s)
      else
        let membership := membership + 1 in
        if over_membership membership then (inl false, s)
        else key_loop threshold ks' total membership s
  end.

Definition check_result : Type := result (bool * Z * sign_state).

(** the loop over [account_auths]; [rec] is the recursive call one level
    deeper, absent at [max_recursion] *)
Fixpoint account_loop (rec : option (authority -> Z -> sign_state -> check_result))
    (threshold : Z) (accs : list (account_name_type * Z)) (total membership count : Z)
    (s : sign_state) : check_result :=
  match accs with
  | [] => Ok (threshold <=? total, count, s)
  | (a, w) :: accs' =>
      let next total membership count s :=
        let membership := membership + 1 in
        if over_membership membership then Ok (false, count, s)
        else account_loop rec threshold accs' total membership count s in
      if decide (a ∈ approved_by s) then
        let total := u32 (total + w) in
        if threshold <=? total then Ok (true, count, s) else next total membership count s
      else
        match rec with
        | None => account_loop rec threshold accs' total membership count s
        | Some check =>
            if (0 <? max_account_auths) && (max_account_auths <=? count) then Ok (false, count, s)
            else
              auth' ← get_active a;
              '(b, count, s) ← check auth' (u32 (count + 1)) s;
              if (b : bool) then
                let s := mk_state (provided_signatures s) ({[a]} ∪ approved_by s) in
                let total := u32 (total + w) in
                if threshold <=? total then Ok (true, count, s) else next total membership count s
              else next total membership count s
        end
  end.

(** [check_authority_impl]; [levels] is [max_recursion - depth] *)
Fixpoint check_authority_impl (levels : nat) (auth : authority) (count : Z) (s : sign_state)
    {struct levels} : check_result :=
  match key_loop (weight_threshold auth) (key_auths auth) 0 0 s with
  | (inl b, s) => Ok (b, count, s)
  | (inr (total, membership), s) =>
      account_loop (match levels with O => None | S l => Some (check_authority_impl l) end)
        (weight_threshold auth) (account_auths auth) total membership count s
  end.

Definition check_authority (max_recursion : nat) (id : account_name_type) (s : sign_state)
    : result (bool * sign_state) :=
  if decide (id ∈ approved_by s) then Ok (true, s)
  else
    auth ← get_active id;
    '(b, _, s) ← check_authority_impl max_recursion auth 1 s;
    Ok (b, s).

Definition check_authority_of (max_recursion : nat) (auth : authority) (s : sign_state)
    : result (bool * sign_state) :=
  '(b, _, s) ← check_authority_impl max_recursion auth 0 s;
  Ok (b, s).

Definition remove_unused_signatures (s : sign_state) : bool * sign_state :=
  let unused := filter (fun p => snd p = false) (provided_signatures s) in
  (negb (bool_decide (unused = ∅)),
   mk_state (filter (fun p => snd p = true) (provided_signatures s)) (approved_by s)).
End check.

(** ** What a positive answer means *)

Section soundness.
Context (get_active : account_name_type -> result authority)
        (available_keys : gset public_key_type)
        (max_membership max_account_auths : Z)
        (sigs : gset public_key_type) (approved0 : gset account_name_type).

(** An authority is satisfied by the keys in [sigs] when enough of its weight
    comes from such keys, from accounts approved beforehand, and from accounts
    whose own authority is satisfied. *)
Inductive satisfied : authority -> Prop :=
| satisfied_intro auth ks accs :
    ks `sublist_of` key_auths auth -> accs `sublist_of` account_auths auth ->
    (forall k w, (k, w) ∈ ks -> k ∈ sigs ∪ available_keys) ->
    (forall a w, (a, w) ∈ accs -> approvable a) ->
    weight_threshold auth <= Auth.sum_weights ks + Auth.sum_weights accs ->
    satisfied auth
with approvable : account_name_type -> Prop :=
| approved_before a : a ∈ approved0 -> approvable a
| approved_by_authority a auth : get_active a = Ok auth -> satisfied auth -> approvable a.

Definition weights_ok {A} (l : list (A * Z)) : Prop := Forall (fun p => 0 <= snd p) l.
Definition auth_ok (a : authority) : Prop :=
  weights_ok (key_auths a) /\ weights_ok (account_auths a).

Definition state_ok (s : sign_state) : Prop :=
  (forall k b, provided_signatures s !! k = Some b -> k ∈ sigs ∪ available_keys) /\
  (forall a, a ∈ approved_by s -> approvable a).

Hypothesis getter_ok : forall a auth, get_active a = Ok auth -> auth_ok auth.

Lemma u32_le x : 0 <= x -> 0 <= u32 x <= x.
Proof. intros. unfold u32. split; [apply Z.mod_pos_bound; lia|apply Z.mod_le; lia]. Qed.

Lemma signed_by_ok k s b s' : state_ok s -> signed_by available_keys k s = (b, s') ->
  state_ok s' /\ (b = true -> k ∈ sigs ∪ available_keys).
Proof.
  intros [Hk Ha]. unfold signed_by.
  destruct (provided_signatures s !! k) eqn:E; [|destruct (decide _)]; intros [= <- <-];
    try (split; [split; assumption|discriminate]).
  - split; [split; simpl; [|assumption]|eauto].
    intros k' b'. destruct (decide (k = k')) as [->|]; [eauto|].
    rewrite lookup_insert_ne by done. eauto.
  - split; [split; simpl; [|assumption]|set_solver].
    intros k' b'. destruct (decide (k = k')) as [->|]; [set_solver|].
    rewrite lookup_insert_ne by done. eauto.
Qed.

Lemma key_loop_ok thr ks : weights_ok ks -> forall total mem s o s',
  0 <= total -> state_ok s ->
  key_loop available_keys max_membership thr ks total mem s = (o, s') ->
  state_ok s' /\
  match o with
  | inl false => True
  | inl true => exists ks', ks' `sublist_of` ks /\
      (forall k w, (k, w) ∈ ks' -> k ∈ sigs ∪ available_keys) /\ thr <= total + Auth.sum_weights ks'
  | inr (total', _) => 0 <= total' /\ exists ks', ks' `sublist_of` ks /\
      (forall k w, (k, w) ∈ ks' -> k ∈ sigs ∪ available_keys) /\ total' <= total + Auth.sum_weights ks'
  end.
Proof.
  induction 1 as [|[k w] ks Hw _ IH]; intros total mem s o s' Ht Hs E; simpl in E.
  - injection E as <- <-. split; [done|]. split; [done|].
    exists []. simpl. split; [constructor|]. split; [intros ? ? H; inversion H|lia].
  - destruct (signed_by available_keys k s) as [b s1] eqn:Eb.
    destruct (signed_by_ok _ _ _ _ Hs Eb) as [Hs1 Hk]. simpl in Hw.
    pose proof (u32_le (total + w) ltac:(lia)) as Hu.
    destruct b; simpl in E.
    + destruct (Z.leb_spec thr (u32 (total + w))); [|destruct (over_membership _ _)].
      * injection E as <- <-. split; [done|]. exists [(k, w)]. split; [apply sublist_skip, sublist_nil_l|].
        split; [|simpl; lia]. intros k' w' [= -> ->]%list_elem_of_singleton. auto.
      * injection E as <- <-. done.
      * apply IH in E as [Hs' Ho]; [|lia|done]. split; [done|].
        destruct o as [[]|[t' m']]; [|done|].
        -- destruct Ho as (ks' & ? & Hin & ?). exists ((k, w) :: ks').
           split; [by apply sublist_skip|]. split; [|simpl; lia].
           intros k' w' [[= -> ->]|]%elem_of_cons; eauto.
        -- destruct Ho as (? & ks' & ? & Hin & ?). split; [done|]. exists ((k, w) :: ks').
           split; [by apply sublist_skip|]. split; [|simpl; lia].
           intros k' w' [[= -> ->]|]%elem_of_cons; eauto.
    + destruct (over_membership _ _); [by injection E as <- <-|].
      apply IH in E as [Hs' Ho]; [|done|done]. split; [done|].
      destruct o as [[]|[t' m']]; [|done|].
      * destruct Ho as (ks' & ? & ?). exists ks'. split; [by apply sublist_cons|done].
      * destruct Ho as (? & ks' & ? & ?). split; [done|]. exists ks'. split; [by apply sublist_cons|done].
Qed.

Definition sound_check (check : authority -> Z -> sign_state -> check_result) : Prop :=
  forall auth c s b c' s', auth_ok auth -> state_ok s -> check auth c s = Ok (b, c', s') ->
    state_ok s' /\ (b = true -> satisfied auth).

Lemma state_ok_approve a auth s : get_active a = Ok auth -> satisfied auth -> state_ok s ->
  state_ok (mk_state (provided_signatures s) ({[a]} ∪ approved_by s)).
Proof.
  intros Ha Hsat [Hk Hap]. split; [exact Hk|]. simpl. intros a'.
  rewrite elem_of_union, elem_of_singleton. intros [->|]; [by eapply approved_by_authority|eauto].
Qed.

Lemma account_loop_ok rec thr accs :
  (forall check, rec = Some check -> sound_check check) -> weights_ok accs ->
  forall total mem count s b count' s', 0 <= total -> state_ok s ->
  account_loop get_active max_membership max_account_auths rec thr accs total mem count s
    = Ok (b, count', s') ->
  state_ok s' /\ (b = true -> exists accs', accs' `sublist_of` accs /\
    (forall a w, (a, w) ∈ accs' -> approvable a) /\ thr <= total + Auth.sum_weights accs').
Proof.
  intros Hrec. induction 1 as [|[a w] accs Hw _ IH]; intros total mem count s b count' s' Ht Hs E; simpl in E.
  - injection E as <- <- <-. split; [done|]. intros Hb%Z.leb_le. exists [].
    split; [constructor|]. split; [intros ? ? H; inversion H|simpl; lia].
  - simpl in Hw. pose proof (u32_le (total + w) ltac:(lia)) as Hu.
    (* the account counts towards the total *)
    assert (forall s1, state_ok s1 -> approvable a -> forall mem1 count1,
      (if thr <=? u32 (total + w) then Ok (true, count1, s1)
       else if over_membership max_membership (mem1 + 1) then Ok (false, count1, s1)
       else account_loop get_active max_membership max_account_auths rec thr accs (u32 (total + w)) (mem1 + 1) count1 s1)
      = Ok (b, count', s') ->
      state_ok s' /\ (b = true -> exists accs', accs' `sublist_of` (a, w) :: accs /\
        (forall a' w', (a', w') ∈ accs' -> approvable a') /\ thr <= total + Auth.sum_weights accs')) as Hcount.
    { intros s1 Hs1 Hap mem1 count1 E1.
      destruct (Z.leb_spec thr (u32 (total + w)));
        [|destruct (over_membership max_membership (mem1 + 1)) eqn:?].
      - injection E1 as <- <- <-. split; [done|]. intros _. exists [(a, w)].
        split; [apply sublist_skip, sublist_nil_l|]. split; [|simpl; lia].
        intros ? ? [= -> ->]%list_elem_of_singleton. done.
      - injection E1 as <- <- <-. done.
      - apply IH in E1 as [Hs' Hb]; [|lia|done]. split; [done|]. intros Hbt.
        destruct (Hb Hbt) as (accs' & ? & ? & ?). exists ((a, w) :: accs').
        split; [by apply sublist_skip|]. split; [|simpl; lia].
        intros ? ? [[= -> ->]|]%elem_of_cons; eauto. }
    (* the account is skipped *)
    assert (forall s1, state_ok s1 -> forall mem1 count1,
      account_loop get_active max_membership max_account_auths rec thr accs total mem1 count1 s1
        = Ok (b, count', s') ->
      state_ok s' /\ (b = true -> exists accs', accs' `sublist_of` (a, w) :: accs /\
        (forall a' w', (a', w') ∈ accs' -> approvable a') /\ thr <= total + Auth.sum_weights accs')) as Hskip.
    { intros s1 Hs1 mem1 count1 E1. apply IH in E1 as [Hs' Hb]; [|lia|done]. split; [done|].
      intros Hbt. destruct (Hb Hbt) as (accs' & ? & ?). exists accs'. split; [by apply sublist_cons|done]. }
    destruct (decide (a ∈ approved_by s)) as [Hin|]; [by eapply Hcount, E; [|apply Hs]|].
    destruct rec as [check|]; [|by eapply Hskip].
    destruct (_ && _); [by injection E as <- <- <-|].
    apply bind_Ok_1 in E as (auth' & Hget & E).
    apply bind_Ok_1 in E as ([[b1 c1] s1] & Hchk & E).
    destruct (Hrec check eq_refl _ _ _ _ _ _ (getter_ok _ _ Hget) Hs Hchk) as [Hs1 Hb1].
    destruct b1.
    + eapply Hcount, E; [by eapply state_ok_approve; eauto|eapply approved_by_authority; eauto].
    + destruct (over_membership _ _); [by injection E as <- <- <-|]. by eapply Hskip.
Qed.

Lemma check_impl_sound levels :
  sound_check (check_authority_impl get_active available_keys max_membership max_account_auths levels).
Proof.
  induction levels as [|l IH]; intros auth c s b c' s' [Hkw Haw] Hs E; simpl in E;
    destruct (key_loop _ _ _ _ _ _ _) as [[b1|[t m]] s1] eqn:Ek;
    apply key_loop_ok in Ek as [Hs1 Ho]; try done;
    try (injection E as <- <- <-; split; [done|]; intros ->;
         destruct Ho as (ks & Hsub & Hin & Hthr);
         exists ks []; [done|apply sublist_nil_l|done|intros ? ? H; inversion H|simpl; lia]);
    destruct Ho as (Ht & ks & Hsub & Hin & Hthr);
    (eapply account_loop_ok in E as [Hs' Hb]; [|by intros check [= <-]|done|done|done]);
    (split; [done|]); intros Hbt; destruct (Hb Hbt) as (accs & ? & ? & ?);
    exists ks accs; try done; lia.
Qed.

Lemma check_authority_sound n id s b s' : state_ok s ->
  check_authority get_active available_keys max_membership max_account_auths n id s = Ok (b, s') ->
  state_ok s' /\ (b = true -> approvable id).
Proof.
  intros Hs. unfold check_authority. destruct (decide (id ∈ approved_by s)) as [Hin|].
  - intros [= <- <-]. split; [done|]. intros _. by apply Hs.
  - intros E. apply bind_Ok_1 in E as (auth & Hget & E).
    apply bind_Ok_1 in E as ([[b1 c1] s1] & Hchk & [= <- <-]).
    destruct (check_impl_sound _ _ _ _ _ _ _ (getter_ok _ _ Hget) Hs Hchk) as [? Hb].
    split; [done|]. intros ->. eapply approved_by_authority; eauto.
Qed.

Lemma check_authority_of_sound n auth s b s' : auth_ok auth -> state_ok s ->
  check_authority_of get_active available_keys max_membership max_account_auths n auth s = Ok (b, s') ->
  state_ok s' /\ (b = true -> satisfied auth).
Proof.
  intros Ha Hs E. unfold check_authority_of in E.
  apply bind_Ok_1 in E as ([[b1 c1] s1] & Hchk & [= <- <-]). by eapply check_impl_sound.
Qed.
End soundness.

(** ** verify_authority *)

Section verify.
Context (get_active get_owner get_posting : account_name_type -> result authority)
        (max_recursion : nat) (max_membership max_account_auths : Z).

Let chk getter := check_authority getter ∅ max_membership max_account_auths max_recursion.
Let chk_of getter := check_authority_of getter ∅ max_membership max_account_auths max_recursion.

(** [a || b], evaluating [b] only when [a] is false *)
Definition or_else (a : bool * sign_state) (b : sign_state -> result (bool * sign_state))
    : result (bool * sign_state) :=
  if fst a then Ok a else b (snd a).

Definition require (e : exn) (r : bool * sign_state) : result sign_state :=
  if fst r then Ok (snd r) else Throw e.

Definition no_unused (s : sign_state) : result unit :=
  if fst (remove_unused_signatures s) then Throw tx_irrelevant_sig else Ok tt.

(** The sets the operations require are collected by the caller's visitor; the
    [_approvals] parameters are empty in every call of the program. *)
Definition verify_authority (required_active required_owner required_posting : list account_name_type)
    (other : list authority) (sigs : list public_key_type) : result unit :=
  if negb (bool_decide (required_posting = [])) then
    _ ← fc_assert (bool_decide (required_active = []));
    _ ← fc_assert (bool_decide (required_owner = []));
    _ ← fc_assert (bool_decide (other = []));
    s ← foldM (fun s id =>
          r ← chk get_posting id s;
          r ← or_else r (fun s => auth ← get_active id; chk_of get_posting auth s);
          r ← or_else r (fun s => auth ← get_owner id; chk_of get_posting auth s);
          require tx_missing_posting_auth r) (init sigs) required_posting;
    no_unused s
  else
    s ← foldM (fun s auth =>
          r ← chk_of get_active auth s; require tx_missing_other_auth r) (init sigs) other;
    s ← foldM (fun s id =>
          r ← chk get_active id s;
          r ← or_else r (fun s => auth ← get_owner id; chk_of get_active auth s);
          require tx_missing_active_auth r) s required_active;
    s ← foldM (fun s id =>
          auth ← get_owner id;
          r ← chk_of get_active auth s;
          require tx_missing_owner_auth r) s required_owner;
    no_unused s.
End verify.

(** [get_signature_keys], the recovered keys being given *)
Definition get_signature_keys (recovered : list public_key_type) : result (list public_key_type) :=
  foldM (fun acc k => if decide (k ∈ acc) then Throw tx_duplicate_sig else Ok (acc ++ [k])) [] recovered.

(** A fold that keeps an invariant and establishes a fact of each element. *)
Lemma foldM_inv {A B} (I : A -> Prop) (P : B -> Prop) (f : A -> B -> result A) l : forall a a',
  (forall a b a', b ∈ l -> I a -> f a b = Ok a' -> I a' /\ P b) ->
  I a -> foldM f a l = Ok a' -> I a' /\ Forall P l.
Proof.
  induction l as [|x l IH]; simpl; intros a a' Hf Ha E; [injection E as ->; auto|].
  apply bind_Ok_1 in E as (a1 & E1 & E2).
  destruct (Hf _ _ _ ltac:(constructor) Ha E1) as [Ha1 Hx].
  destruct (IH a1 a') as [? ?]; auto. intros a2 b a3 Hb. apply Hf. by constructor.
Qed.

Lemma require_Ok e r s : require e r = Ok s -> r = (true, s).
Proof. destruct r as [[] s0]; unfold require; simpl; [by intros [= ->]|discriminate]. Qed.

Lemma init_provided sigs k b :
  provided_signatures (init sigs) !! k = Some b -> k ∈ (list_to_set sigs : gset public_key_type) /\ b = false.
Proof.
  unfold init; simpl. induction sigs as [|k' sigs IH]; simpl; [done|].
  destruct (decide (k' = k)) as [->|]; simplify_map_eq; [set_solver|]. intros H. apply IH in H. set_solver.
Qed.

Lemma init_ok getter sigs :
  state_ok getter ∅ (list_to_set sigs) {["temp"%string]} (init sigs).
Proof.
  split.
  - intros k b H%init_provided. set_solver.
  - intros a H. by apply approved_before.
Qed.

(** what a check that falls back on another authority of the account establishes *)
Lemma or_else_sound getter (get : account_name_type -> result authority) mm ma n keys ap id (P : Prop) r r' :
  (forall a auth, getter a = Ok auth -> auth_ok auth) -> (forall a auth, get a = Ok auth -> auth_ok auth) ->
  state_ok getter ∅ keys ap (snd r) -> (fst r = true -> P) ->
  or_else r (fun s => auth ← get id; check_authority_of getter ∅ mm ma n auth s) = Ok r' ->
  state_ok getter ∅ keys ap (snd r') /\
  (fst r' = true -> P \/ exists auth, get id = Ok auth /\ satisfied getter ∅ keys ap auth).
Proof.
  intros Hg Hget Hs HP E. unfold or_else in E. destruct r as [[] s0]; simpl in *.
  - injection E as <-. split; [done|]. left. by apply HP.
  - apply bind_Ok_1 in E as (auth & Ha & E). destruct r' as [b s1].
    eapply check_authority_of_sound in E as [? Hb]; [|eauto..]. split; [done|]. right. exists auth. split; [done|by apply Hb].
Qed.

(** the loop over the accounts whose posting authority is required *)
Lemma verify_posting_sound get_active get_owner get_posting n mm ma posting sigs s :
  (forall a auth, get_active a = Ok auth -> auth_ok auth) ->
  (forall a auth, get_owner a = Ok auth -> auth_ok auth) ->
  (forall a auth, get_posting a = Ok auth -> auth_ok auth) ->
  foldM (fun s id =>
      r ← check_authority get_posting ∅ mm ma n id s;
      r ← or_else r (fun s => auth ← get_active id; check_authority_of get_posting ∅ mm ma n auth s);
      r ← or_else r (fun s => auth ← get_owner id; check_authority_of get_posting ∅ mm ma n auth s);
      require tx_missing_posting_auth r) (init sigs) posting = Ok s ->
  let sat := satisfied get_posting ∅ (list_to_set sigs) {["temp"%string]} in
  Forall (fun id => (approvable get_posting ∅ (list_to_set sigs) {["temp"%string]} id \/
                     exists auth, get_active id = Ok auth /\ sat auth) \/ exists auth, get_owner id = Ok auth /\ sat auth) posting.
Proof.
  intros Hga Hgo Hgp E sat. eapply (foldM_inv (state_ok get_posting ∅ (list_to_set sigs) {["temp"%string]}) _ _ posting) in E;
    [by apply E| |by apply init_ok].
  intros s0 id s' _ Hs H. apply bind_Ok_1 in H as ([b s1] & Hc & H). eapply check_authority_sound in Hc as [Hs1 Hb]; [|done|done].
  apply bind_Ok_1 in H as (r2 & H2 & H). apply bind_Ok_1 in H as (r3 & H3 & H). apply require_Ok in H as ->.
  eapply (or_else_sound _ _ _ _ _ _ _ _ _ (b, s1)) in H2 as [Hs2 Hb2]; [|done|done|exact Hs1|exact Hb].
  eapply or_else_sound in H3 as [Hs3 Hb3]; [|done|done|exact Hs2|exact Hb2]. split; [exact Hs3|by apply Hb3].
Qed.

(** C34: Signature checking is sound.  verify_authority accepts the keys of the signatures
    only if they satisfy everything that is required: for each account of the active list
    its active or its owner authority, for each account of the owner list its owner
    authority, each explicitly given authority, and for each account of the posting list
    its posting, active or owner authority.  A posting authority is never accepted
    together with one of the other kinds. *)
Theorem verify_authority_sound get_active get_owner get_posting n mm ma active owner posting other sigs :
  (forall a auth, get_active a = Ok auth -> auth_ok auth) ->
  (forall a auth, get_owner a = Ok auth -> auth_ok auth) ->
  (forall a auth, get_posting a = Ok auth -> auth_ok auth) ->
  Forall auth_ok other ->
  verify_authority get_active get_owner get_posting n mm ma active owner posting other sigs = Ok tt ->
  let sat getter := satisfied getter ∅ (list_to_set sigs) {["temp"%string]} in
  let apr getter := approvable getter ∅ (list_to_set sigs) {["temp"%string]} in
  Forall (sat get_active) other /\
  Forall (fun id => apr get_active id \/ exists auth, get_owner id = Ok auth /\ sat get_active auth) active /\
  Forall (fun id => exists auth, get_owner id = Ok auth /\ sat get_active auth) owner /\
  Forall (fun id => (apr get_posting id \/ exists auth, get_active id = Ok auth /\ sat get_posting auth) \/
                    exists auth, get_owner id = Ok auth /\ sat get_posting auth) posting /\
  (posting <> [] -> active = [] /\ owner = [] /\ other = []).
Proof.
  intros Hga Hgo Hgp Hother E sat apr. unfold verify_authority in E.
  destruct (bool_decide (posting = [])) eqn:Ep; cbn [negb] in E.
  2:{ apply bind_Ok_1 in E as (u1 & U1 & E). apply bind_Ok_1 in E as (u2 & U2 & E). apply bind_Ok_1 in E as (u3 & U3 & E).
      apply fc_assert_Ok, bool_decide_eq_true in U1, U2, U3. subst active owner other. apply bind_Ok_1 in E as (s & E & _).
      eapply verify_posting_sound in E; [|done..]. by repeat split. }
  apply bool_decide_eq_true in Ep as ->.
  apply bind_Ok_1 in E as (s1 & E1 & E). apply bind_Ok_1 in E as (s2 & E2 & E).
  apply bind_Ok_1 in E as (s3 & E3 & _).
  set (ok := state_ok get_active ∅ (list_to_set sigs) {["temp"%string]}).
  rewrite Forall_forall in Hother.
  apply (foldM_inv ok (sat get_active)) in E1 as [Hs1 Hf1]; [|intros s auth s' Hin Hs H|by apply init_ok].
  2:{ apply bind_Ok_1 in H as (r & Hc & ->%require_Ok).
      eapply check_authority_of_sound in Hc as [? Hb]; [|eauto..]. split; [assumption|by apply Hb]. }
  apply (foldM_inv ok (fun id => apr get_active id \/ exists auth, get_owner id = Ok auth /\ sat get_active auth))
    in E2 as [Hs2 Hf2]; [|intros s id s' Hin Hs H|done].
  2:{ apply bind_Ok_1 in H as ([b s0] & Hc & H). apply bind_Ok_1 in H as (r & Hor & ->%require_Ok).
      eapply check_authority_sound in Hc as [Hs0 Hb]; [|done|done].
      eapply (or_else_sound _ _ _ _ _ _ _ _ _ (b, s0)) in Hor as [? Hb']; [|done|done|exact Hs0|exact Hb].
      split; [assumption|by apply Hb']. }
  apply (foldM_inv ok (fun id => exists auth, get_owner id = Ok auth /\ sat get_active auth))
    in E3 as [Hs3 Hf3]; [by repeat split|intros s id s' Hin Hs H|done].
  apply bind_Ok_1 in H as (auth & Hget & H). apply bind_Ok_1 in H as (r & Hc & ->%require_Ok).
  eapply check_authority_of_sound in Hc as [? Hb']; [|eauto..].
  split; [assumption|exists auth; split; [done|by apply Hb']].
Qed.

(** one account whose authorities are one key, required for posting *)
Lemma verify_authority_sound_witness :
  let auth := mk_authority 1 [] [(42, 1)] in
  let getter (a : account_name_type) :=
    if decide (a = "alice"%string) then Ok auth else Throw out_of_range in
  let sat := satisfied getter ∅ (list_to_set [42]) {["temp"%string]} in
  verify_authority getter getter getter 2 40 125 ["alice"%string] [] [] [] [42] = Ok tt /\
  verify_authority getter getter getter 2 40 125 [] [] ["alice"%string] [] [42] = Ok tt /\
  Forall (fun id => (approvable getter ∅ (list_to_set [42]) {["temp"%string]} id \/
     exists a, getter id = Ok a /\ sat a) \/ exists a, getter id = Ok a /\ sat a) ["alice"%string].
Proof.
  intros auth getter sat. split; [vm_compute; reflexivity|]. split; [vm_compute; reflexivity|].
  assert (forall a au, getter a = Ok au -> auth_ok au) as Hg.
  { intros a au. unfold getter. case_decide; [|discriminate]. intros [= <-].
    split; repeat constructor; simpl; lia. }
  refine (proj1 (proj2 (proj2 (proj2
    (verify_authority_sound getter getter getter 2 40 125 [] [] ["alice"%string] [] [42] Hg Hg Hg _ _))))).
  - constructor.
  - vm_compute; reflexivity.
Defined.

End SignState.
