(* ===== verification/Objects.v ===== *)
(** Objects: the state of the chain database.

    One record per chainbase object class (account_object.hpp, steem_objects.hpp,
    witness_objects.hpp, global_property_object.hpp, comment_object.hpp,
    hardfork_property_object.hpp), each in a module of its own so that the fields
    keep their C++ names, with [default] the C++ default member initialisers; the
    [database] that holds one map per index; the lookups, [modify], [create] and
    [remove] operations the evaluators use, and the iteration orders of the
    indices the block processing walks.

    A time_point_sec is the [Z] of its uint32 seconds, a share_type the [Z] of
    its int64, an fc::uint128 the [Z] it denotes.  Fields that only plugins read
    (node-local identifiers of work and digests) are left out. *)
From Stdlib Require Import ZArith Lia String Ascii.
From stdpp Require Import base gmap strings list sorting.
From S2P Require Import Prelude.
From S2P Require Import Safe.
From S2P Require Import Asset.
From S2P Require Import Authority.
Local Open Scope string_scope.
Local Open Scope Z_scope.
Local Open Scope fc_scope.

(** ** Constants of config.hpp (live network) *)
Definition STEEM_GENESIS_TIME : Z := 1458835200.
Definition STEEM_BLOCK_INTERVAL : Z := 3.
Definition STEEM_BLOCKS_PER_YEAR : Z := 365 * 24 * 60 * 60 / STEEM_BLOCK_INTERVAL.
Definition STEEM_BLOCKS_PER_DAY : Z := 24 * 60 * 60 / STEEM_BLOCK_INTERVAL.
Definition STEEM_START_WITNESS_VOTING_BLOCK : Z := STEEM_BLOCKS_PER_DAY * 7.
Definition STEEM_MAX_WITNESSES : Z := 21.
Definition STEEM_MAX_VOTED_WITNESSES : Z := 20.
Definition STEEM_MAX_RUNNER_WITNESSES : Z := 1.
Definition STEEM_HARDFORK_REQUIRED_WITNESSES : Z := 17.
Definition STEEM_MAX_PROXY_RECURSION_DEPTH : Z := 4.
Definition STEEM_VESTING_WITHDRAW_INTERVALS : Z := 13.
Definition STEEM_VESTING_WITHDRAW_INTERVAL_SECONDS : Z := 60 * 60 * 24 * 7.
Definition STEEM_MAX_WITHDRAW_ROUTES : Z := 10.
Definition STEEM_SAVINGS_WITHDRAW_TIME : Z := 3 * 24 * 60 * 60.
Definition STEEM_SAVINGS_WITHDRAW_REQUEST_LIMIT : Z := 100.
Definition STEEM_VOTE_REGENERATION_SECONDS : Z := 5 * 60 * 60 * 24.
Definition STEEM_MAX_ACCOUNT_WITNESS_VOTES : Z := 30.
Definition STEEM_100_PERCENT : Z := 10000.
Definition STEEM_1_PERCENT : Z := STEEM_100_PERCENT / 100.
Definition STEEM_DEFAULT_SBD_INTEREST_RATE : Z := 10 * STEEM_1_PERCENT.
Definition STEEM_INFLATION_RATE_START_PERCENT : Z := 978.
Definition STEEM_INFLATION_RATE_STOP_PERCENT : Z := 95.
Definition STEEM_INFLATION_NARROWING_PERIOD : Z := 250000.
Definition STEEM_CONTENT_REWARD_PERCENT : Z := 75 * STEEM_1_PERCENT.
Definition STEEM_VESTING_FUND_PERCENT : Z := 15 * STEEM_1_PERCENT.
Definition STEEM_MIN_REWARD_VESTING_SHARES : Z := 1000000000000.
Definition STEEM_BOOTSTRAP_FIXED_BLOCK_REWARD : Z := 10000.
Definition STEEM_BOOTSTRAP_SUPPLY_THRESHOLD : Z := 100000000000.
Definition STEEM_MIN_ACCOUNT_CREATION_FEE : Z := 1.
Definition STEEM_MIN_BLOCK_SIZE_LIMIT : Z := 1024 * 64.
Definition STEEM_CREATE_ACCOUNT_WITH_STEEM_MODIFIER : Z := 30.
Definition STEEM_CREATE_ACCOUNT_DELEGATION_RATIO : Z := 5.
Definition STEEM_CREATE_ACCOUNT_DELEGATION_TIME : Z := 30 * 24 * 60 * 60.
Definition STEEM_OWNER_AUTH_RECOVERY_PERIOD : Z := 30 * 24 * 60 * 60.
Definition STEEM_ACCOUNT_RECOVERY_REQUEST_EXPIRATION_PERIOD : Z := 24 * 60 * 60.
Definition STEEM_OWNER_UPDATE_LIMIT : Z := 60 * 60.
Definition STEEM_OWNER_AUTH_HISTORY_TRACKING_START_BLOCK_NUM : Z := 3186477.
Definition STEEM_SECONDS_PER_YEAR : Z := 60 * 60 * 24 * 365.
Definition STEEM_SBD_INTEREST_COMPOUND_INTERVAL_SEC : Z := 60 * 60 * 24 * 30.
Definition STEEM_FEED_INTERVAL_BLOCKS : Z := 60 * 60 / STEEM_BLOCK_INTERVAL.
Definition STEEM_FEED_HISTORY_WINDOW : Z := 12 * 7.
Definition STEEM_MAX_FEED_AGE_SECONDS : Z := 60 * 60 * 24 * 7.
Definition STEEM_MIN_FEEDS : Z := STEEM_MAX_WITNESSES / 3.
Definition STEEM_CONVERSION_DELAY : Z := STEEM_FEED_HISTORY_WINDOW * 60 * 60.
Definition STEEM_IRREVERSIBLE_THRESHOLD : Z := 75 * STEEM_1_PERCENT.
Definition STEEM_VIRTUAL_SCHEDULE_LAP_LENGTH2 : Z := UINT128_MAX.
Definition STEEM_INITIAL_VOTE_POWER_RATE : Z := 40.
Definition STEEM_MAX_LIMIT_ORDER_EXPIRATION : Z := 60 * 60 * 24 * 28.
Definition STEEM_DELEGATION_RETURN_PERIOD : Z := STEEM_VOTE_REGENERATION_SECONDS * 2.
Definition STEEM_SBD_STOP_PERCENT : Z := 5 * STEEM_1_PERCENT.
Definition STEEM_SBD_START_PERCENT : Z := 2 * STEEM_1_PERCENT.
Definition STEEM_NULL_ACCOUNT : account_name_type := "null".
Definition STEEM_TEMP_ACCOUNT : account_name_type := "temp".
Definition STEEM_PROXY_TO_SELF_ACCOUNT : account_name_type := "".
Definition STEEM_POST_REWARD_FUND_NAME : string := "post".
Definition time_maximum : Z := 4294967295.

Inductive curve_id : Set := quadratic | quadratic_curation | linear | square_root.
Inductive witness_schedule_type : Set := top20 | timeshare | none.

(** ** Object classes *)

(** account_object.hpp *)
Module Account.
Record account_object : Type := mk {
  id : Z; name : account_name_type; memo_key : public_key_type; json_metadata : string;
  proxy : account_name_type; last_account_update : Z; created : Z; mined : bool;
  recovery_account : account_name_type; reset_account : account_name_type;
  last_account_recovery : Z; comment_count : Z; lifetime_vote_count : Z; post_count : Z;
  can_vote : bool; voting_power : Z; last_vote_time : Z; balance : asset;
  savings_balance : asset; sbd_balance : asset; sbd_seconds : Z; sbd_seconds_last_update : Z;
  sbd_last_interest_payment : Z; savings_sbd_balance : asset; savings_sbd_seconds : Z;
  savings_sbd_seconds_last_update : Z; savings_sbd_last_interest_payment : Z;
  savings_withdraw_requests : Z; reward_sbd_balance : asset; reward_steem_balance : asset;
  reward_vesting_balance : asset; reward_vesting_steem : asset; curation_rewards : Z;
  posting_rewards : Z; vesting_shares : asset; delegated_vesting_shares : asset;
  received_vesting_shares : asset; vesting_withdraw_rate : asset; next_vesting_withdrawal : Z;
  withdrawn : Z; to_withdraw : Z; withdraw_routes : Z; proxied_vsf_votes : list Z;
  witnesses_voted_for : Z; last_post : Z; last_root_post : Z; post_bandwidth : Z;
  pending_claimed_accounts : Z
}.
#[export] Instance account_object_rebuild : Rebuild account_object := fun r => mk (id r)
    (name r) (memo_key r) (json_metadata r) (proxy r) (last_account_update r) (created r)
    (mined r) (recovery_account r) (reset_account r) (last_account_recovery r)
    (comment_count r) (lifetime_vote_count r) (post_count r) (can_vote r) (voting_power r)
    (last_vote_time r) (balance r) (savings_balance r) (sbd_balance r) (sbd_seconds r)
    (sbd_seconds_last_update r) (sbd_last_interest_payment r) (savings_sbd_balance r)
    (savings_sbd_seconds r) (savings_sbd_seconds_last_update r)
    (savings_sbd_last_interest_payment r) (savings_withdraw_requests r) (reward_sbd_balance r)
    (reward_steem_balance r) (reward_vesting_balance r) (reward_vesting_steem r)
    (curation_rewards r) (posting_rewards r) (vesting_shares r) (delegated_vesting_shares r)
    (received_vesting_shares r) (vesting_withdraw_rate r) (next_vesting_withdrawal r)
    (withdrawn r) (to_withdraw r) (withdraw_routes r) (proxied_vsf_votes r)
    (witnesses_voted_for r) (last_post r) (last_root_post r) (post_bandwidth r)
    (pending_claimed_accounts r).
Definition default : account_object := mk 0 "" 0 "" "" 0 0 true "" STEEM_NULL_ACCOUNT 0 0 0 0
    true STEEM_100_PERCENT 0 (mk_asset 0 STEEM_SYMBOL) (mk_asset 0 STEEM_SYMBOL)
    (mk_asset 0 SBD_SYMBOL) 0 0 0 (mk_asset 0 SBD_SYMBOL) 0 0 0 0 (mk_asset 0 SBD_SYMBOL)
    (mk_asset 0 STEEM_SYMBOL) (mk_asset 0 VESTS_SYMBOL) (mk_asset 0 STEEM_SYMBOL) 0 0
    (mk_asset 0 VESTS_SYMBOL) (mk_asset 0 VESTS_SYMBOL) (mk_asset 0 VESTS_SYMBOL)
    (mk_asset 0 VESTS_SYMBOL) time_maximum 0 0 0 [0; 0; 0; 0] 0 0 0 0 0.
End Account.
Export (hints) Account.
Abbreviation account_object := Account.account_object.

(** account_object.hpp *)
Module AccountAuthority.
Record account_authority_object : Type := mk {
  id : Z; account : account_name_type; owner : authority; active : authority;
  posting : authority; last_owner_update : Z
}.
#[export] Instance account_authority_object_rebuild : Rebuild account_authority_object := fun r => mk
    (id r) (account r) (owner r) (active r) (posting r) (last_owner_update r).
Definition default : account_authority_object := mk 0 "" empty_authority empty_authority
    empty_authority 0.
End AccountAuthority.
Export (hints) AccountAuthority.
Abbreviation account_authority_object := AccountAuthority.account_authority_object.

(** account_object.hpp *)
Module VestingDelegation.
Record vesting_delegation_object : Type := mk {
  id : Z; delegator : account_name_type; delegatee : account_name_type; vesting_shares : asset;
  min_delegation_time : Z
}.
#[export] Instance vesting_delegation_object_rebuild : Rebuild vesting_delegation_object := fun r => mk
    (id r) (delegator r) (delegatee r) (vesting_shares r) (min_delegation_time r).
Definition default : vesting_delegation_object := mk 0 "" "" (mk_asset 0 STEEM_SYMBOL) 0.
End VestingDelegation.
Export (hints) VestingDelegation.
Abbreviation vesting_delegation_object := VestingDelegation.vesting_delegation_object.

(** account_object.hpp *)
Module VestingDelegationExpiration.
Record vesting_delegation_expiration_object : Type := mk {
  id : Z; delegator : account_name_type; vesting_shares : asset; expiration : Z
}.
#[export] Instance vesting_delegation_expiration_object_rebuild : Rebuild vesting_delegation_expiration_object := fun r => mk
    (id r) (delegator r) (vesting_shares r) (expiration r).
Definition default : vesting_delegation_expiration_object := mk 0 "" (mk_asset 0 STEEM_SYMBOL)
    0.
End VestingDelegationExpiration.
Export (hints) VestingDelegationExpiration.
Abbreviation vesting_delegation_expiration_object := VestingDelegationExpiration.vesting_delegation_expiration_object.

(** account_object.hpp *)
Module OwnerAuthorityHistory.
Record owner_authority_history_object : Type := mk {
  id : Z; account : account_name_type; previous_owner_authority : authority; last_valid_time : Z
}.
#[export] Instance owner_authority_history_object_rebuild : Rebuild owner_authority_history_object := fun r => mk
    (id r) (account r) (previous_owner_authority r) (last_valid_time r).
Definition default : owner_authority_history_object := mk 0 "" empty_authority 0.
End OwnerAuthorityHistory.
Export (hints) OwnerAuthorityHistory.
Abbreviation owner_authority_history_object := OwnerAuthorityHistory.owner_authority_history_object.

(** account_object.hpp *)
Module AccountRecoveryRequest.
Record account_recovery_request_object : Type := mk {
  id : Z; account_to_recover : account_name_type; new_owner_authority : authority; expires : Z
}.
#[export] Instance account_recovery_request_object_rebuild : Rebuild account_recovery_request_object := fun r => mk
    (id r) (account_to_recover r) (new_owner_authority r) (expires r).
Definition default : account_recovery_request_object := mk 0 "" empty_authority 0.
End AccountRecoveryRequest.
Export (hints) AccountRecoveryRequest.
Abbreviation account_recovery_request_object := AccountRecoveryRequest.account_recovery_request_object.

(** account_object.hpp *)
Module ChangeRecoveryAccountRequest.
Record change_recovery_account_request_object : Type := mk {
  id : Z; account_to_recover : account_name_type; recovery_account : account_name_type;
  effective_on : Z
}.
#[export] Instance change_recovery_account_request_object_rebuild : Rebuild change_recovery_account_request_object := fun r => mk
    (id r) (account_to_recover r) (recovery_account r) (effective_on r).
Definition default : change_recovery_account_request_object := mk 0 "" "" 0.
End ChangeRecoveryAccountRequest.
Export (hints) ChangeRecoveryAccountRequest.
Abbreviation change_recovery_account_request_object := ChangeRecoveryAccountRequest.change_recovery_account_request_object.

(** steem_objects.hpp; the field amount is written amount_ *)
Module ConvertRequest.
Record convert_request_object : Type := mk {
  id : Z; owner : account_name_type; requestid : Z; amount_ : asset; conversion_date : Z
}.
#[export] Instance convert_request_object_rebuild : Rebuild convert_request_object := fun r => mk
    (id r) (owner r) (requestid r) (amount_ r) (conversion_date r).
Definition default : convert_request_object := mk 0 "" 0 (mk_asset 0 STEEM_SYMBOL) 0.
End ConvertRequest.
Export (hints) ConvertRequest.
Abbreviation convert_request_object := ConvertRequest.convert_request_object.

(** steem_objects.hpp *)
Module Escrow.
Record escrow_object : Type := mk {
  id : Z; escrow_id : Z; from : account_name_type; to : account_name_type;
  agent : account_name_type; ratification_deadline : Z; escrow_expiration : Z;
  sbd_balance : asset; steem_balance : asset; pending_fee : asset; to_approved : bool;
  agent_approved : bool; disputed : bool
}.
#[export] Instance escrow_object_rebuild : Rebuild escrow_object := fun r => mk (id r)
    (escrow_id r) (from r) (to r) (agent r) (ratification_deadline r) (escrow_expiration r)
    (sbd_balance r) (steem_balance r) (pending_fee r) (to_approved r) (agent_approved r)
    (disputed r).
Definition default : escrow_object := mk 0 20 "" "" "" 0 0 (mk_asset 0 STEEM_SYMBOL)
    (mk_asset 0 STEEM_SYMBOL) (mk_asset 0 STEEM_SYMBOL) false false false.
End Escrow.
Export (hints) Escrow.
Abbreviation escrow_object := Escrow.escrow_object.

(** steem_objects.hpp *)
Module SavingsWithdraw.
Record savings_withdraw_object : Type := mk {
  id : Z; from : account_name_type; to : account_name_type; memo : string; request_id : Z;
  amount_ : asset; complete : Z
}.
#[export] Instance savings_withdraw_object_rebuild : Rebuild savings_withdraw_object := fun r => mk
    (id r) (from r) (to r) (memo r) (request_id r) (amount_ r) (complete r).
Definition default : savings_withdraw_object := mk 0 "" "" "" 0 (mk_asset 0 STEEM_SYMBOL) 0.
End SavingsWithdraw.
Export (hints) SavingsWithdraw.
Abbreviation savings_withdraw_object := SavingsWithdraw.savings_withdraw_object.

(** steem_objects.hpp; a singleton *)
Module FeedHistory.
Record feed_history_object : Type := mk {
  current_median_history : price; price_history : list price
}.
#[export] Instance feed_history_object_rebuild : Rebuild feed_history_object := fun r => mk
    (current_median_history r) (price_history r).
Definition default : feed_history_object := mk Price.default [].
End FeedHistory.
Export (hints) FeedHistory.
Abbreviation feed_history_object := FeedHistory.feed_history_object.

(** steem_objects.hpp *)
Module LimitOrder.
Record limit_order_object : Type := mk {
  id : Z; created : Z; expiration : Z; seller : account_name_type; orderid : Z; for_sale : Z;
  sell_price : price
}.
#[export] Instance limit_order_object_rebuild : Rebuild limit_order_object := fun r => mk
    (id r) (created r) (expiration r) (seller r) (orderid r) (for_sale r) (sell_price r).
Definition default : limit_order_object := mk 0 0 0 "" 0 0 Price.default.
End LimitOrder.
Export (hints) LimitOrder.
Abbreviation limit_order_object := LimitOrder.limit_order_object.

(** steem_objects.hpp *)
Module WithdrawVestingRoute.
Record withdraw_vesting_route_object : Type := mk {
  id : Z; from_account : account_name_type; to_account : account_name_type; percent : Z;
  auto_vest : bool
}.
#[export] Instance withdraw_vesting_route_object_rebuild : Rebuild withdraw_vesting_route_object := fun r => mk
    (id r) (from_account r) (to_account r) (percent r) (auto_vest r).
Definition default : withdraw_vesting_route_object := mk 0 "" "" 0 false.
End WithdrawVestingRoute.
Export (hints) WithdrawVestingRoute.
Abbreviation withdraw_vesting_route_object := WithdrawVestingRoute.withdraw_vesting_route_object.

(** steem_objects.hpp *)
Module DeclineVotingRightsRequest.
Record decline_voting_rights_request_object : Type := mk {
  id : Z; account : account_name_type; effective_date : Z
}.
#[export] Instance decline_voting_rights_request_object_rebuild : Rebuild decline_voting_rights_request_object := fun r => mk
    (id r) (account r) (effective_date r).
Definition default : decline_voting_rights_request_object := mk 0 "" 0.
End DeclineVotingRightsRequest.
Export (hints) DeclineVotingRightsRequest.
Abbreviation decline_voting_rights_request_object := DeclineVotingRightsRequest.decline_voting_rights_request_object.

(** steem_objects.hpp *)
Module RewardFund.
Record reward_fund_object : Type := mk {
  id : Z; name : string; reward_balance : asset; recent_claims : Z; last_update : Z;
  content_constant : Z; percent_curation_rewards : Z; percent_content_rewards : Z;
  author_reward_curve : curve_id; curation_reward_curve : curve_id
}.
#[export] Instance reward_fund_object_rebuild : Rebuild reward_fund_object := fun r => mk
    (id r) (name r) (reward_balance r) (recent_claims r) (last_update r) (content_constant r)
    (percent_curation_rewards r) (percent_content_rewards r) (author_reward_curve r)
    (curation_reward_curve r).
Definition default : reward_fund_object := mk 0 "" (mk_asset 0 STEEM_SYMBOL) 0 0 0 0 0
    quadratic quadratic.
End RewardFund.
Export (hints) RewardFund.
Abbreviation reward_fund_object := RewardFund.reward_fund_object.

(** witness_objects.hpp *)
Module ChainProperties.
Record chain_properties : Type := mk {
  account_creation_fee : asset; maximum_block_size : Z; sbd_interest_rate : Z;
  account_subsidy_limit : Z
}.
#[export] Instance chain_properties_rebuild : Rebuild chain_properties := fun r => mk
    (account_creation_fee r) (maximum_block_size r) (sbd_interest_rate r)
    (account_subsidy_limit r).
Definition default : chain_properties := mk
    (mk_asset STEEM_MIN_ACCOUNT_CREATION_FEE STEEM_SYMBOL) (STEEM_MIN_BLOCK_SIZE_LIMIT * 2)
    STEEM_DEFAULT_SBD_INTEREST_RATE 0.
End ChainProperties.
Export (hints) ChainProperties.
Abbreviation chain_properties := ChainProperties.chain_properties.

(** witness_objects.hpp *)
Module Witness.
Record witness_object : Type := mk {
  id : Z; owner : account_name_type; created : Z; url : string; total_missed : Z;
  last_aslot : Z; last_confirmed_block_num : Z; signing_key : public_key_type;
  props : chain_properties; sbd_exchange_rate : price; last_sbd_exchange_update : Z; votes : Z;
  schedule : witness_schedule_type; virtual_last_update : Z; virtual_position : Z;
  virtual_scheduled_time : Z; running_version : Z; hardfork_version_vote : Z;
  hardfork_time_vote : Z
}.
#[export] Instance witness_object_rebuild : Rebuild witness_object := fun r => mk (id r)
    (owner r) (created r) (url r) (total_missed r) (last_aslot r) (last_confirmed_block_num r)
    (signing_key r) (props r) (sbd_exchange_rate r) (last_sbd_exchange_update r) (votes r)
    (schedule r) (virtual_last_update r) (virtual_position r) (virtual_scheduled_time r)
    (running_version r) (hardfork_version_vote r) (hardfork_time_vote r).
Definition default : witness_object := mk 0 "" 0 "" 0 0 0 0 ChainProperties.default
    Price.default 0 0 none 0 0 UINT128_MAX 0 0 STEEM_GENESIS_TIME.
End Witness.
Export (hints) Witness.
Abbreviation witness_object := Witness.witness_object.

(** witness_objects.hpp; a singleton *)
Module WitnessSchedule.
Record witness_schedule_object : Type := mk {
  current_virtual_time : Z; next_shuffle_block_num : Z;
  current_shuffled_witnesses : list account_name_type; num_scheduled_witnesses : Z;
  top20_weight : Z; timeshare_weight : Z; witness_pay_normalization_factor : Z;
  median_props : chain_properties; majority_version : Z; max_voted_witnesses : Z;
  max_runner_witnesses : Z; hardfork_required_witnesses : Z
}.
#[export] Instance witness_schedule_object_rebuild : Rebuild witness_schedule_object := fun r => mk
    (current_virtual_time r) (next_shuffle_block_num r) (current_shuffled_witnesses r)
    (num_scheduled_witnesses r) (top20_weight r) (timeshare_weight r)
    (witness_pay_normalization_factor r) (median_props r) (majority_version r)
    (max_voted_witnesses r) (max_runner_witnesses r) (hardfork_required_witnesses r).
Definition default : witness_schedule_object := mk 0 1 (replicate 21 "") 1 1 5 25
    ChainProperties.default 0 STEEM_MAX_VOTED_WITNESSES STEEM_MAX_RUNNER_WITNESSES
    STEEM_HARDFORK_REQUIRED_WITNESSES.
End WitnessSchedule.
Export (hints) WitnessSchedule.
Abbreviation witness_schedule_object := WitnessSchedule.witness_schedule_object.

(** global_property_object.hpp; a singleton *)
Module Gpo.
Record dynamic_global_property_object : Type := mk {
  head_block_number : Z; head_block_id : Z; time : Z; current_witness : account_name_type;
  virtual_supply : asset; current_supply : asset; confidential_supply : asset;
  current_sbd_supply : asset; confidential_sbd_supply : asset; total_vesting_fund_steem : asset;
  total_vesting_shares : asset; total_reward_fund_steem : asset; total_reward_shares2 : Z;
  pending_rewarded_vesting_shares : asset; pending_rewarded_vesting_steem : asset;
  sbd_interest_rate : Z; sbd_print_rate : Z; maximum_block_size : Z; current_aslot : Z;
  recent_slots_filled : Z; participation_count : Z; last_irreversible_block_num : Z;
  vote_power_reserve_rate : Z; delegation_return_period : Z
}.
#[export] Instance dynamic_global_property_object_rebuild : Rebuild dynamic_global_property_object := fun r => mk
    (head_block_number r) (head_block_id r) (time r) (current_witness r) (virtual_supply r)
    (current_supply r) (confidential_supply r) (current_sbd_supply r)
    (confidential_sbd_supply r) (total_vesting_fund_steem r) (total_vesting_shares r)
    (total_reward_fund_steem r) (total_reward_shares2 r) (pending_rewarded_vesting_shares r)
    (pending_rewarded_vesting_steem r) (sbd_interest_rate r) (sbd_print_rate r)
    (maximum_block_size r) (current_aslot r) (recent_slots_filled r) (participation_count r)
    (last_irreversible_block_num r) (vote_power_reserve_rate r) (delegation_return_period r).
Definition default : dynamic_global_property_object := mk 0 0 0 "" (mk_asset 0 STEEM_SYMBOL)
    (mk_asset 0 STEEM_SYMBOL) (mk_asset 0 STEEM_SYMBOL) (mk_asset 0 SBD_SYMBOL)
    (mk_asset 0 SBD_SYMBOL) (mk_asset 0 STEEM_SYMBOL) (mk_asset 0 VESTS_SYMBOL)
    (mk_asset 0 STEEM_SYMBOL) 0 (mk_asset 0 VESTS_SYMBOL) (mk_asset 0 STEEM_SYMBOL) 0
    STEEM_100_PERCENT 0 0 0 0 0 STEEM_INITIAL_VOTE_POWER_RATE STEEM_DELEGATION_RETURN_PERIOD.
End Gpo.
Export (hints) Gpo.
Abbreviation dynamic_global_property_object := Gpo.dynamic_global_property_object.

(** hardfork_property_object.hpp; a singleton *)
Module HardforkProperty.
Record hardfork_property_object : Type := mk {
  processed_hardforks : list Z; last_hardfork : Z; current_hardfork_version : Z;
  next_hardfork : Z; next_hardfork_time : Z
}.
#[export] Instance hardfork_property_object_rebuild : Rebuild hardfork_property_object := fun r => mk
    (processed_hardforks r) (last_hardfork r) (current_hardfork_version r) (next_hardfork r)
    (next_hardfork_time r).
Definition default : hardfork_property_object := mk [] 0 0 0 0.
End HardforkProperty.
Export (hints) HardforkProperty.
Abbreviation hardfork_property_object := HardforkProperty.hardfork_property_object.

(** comment_object.hpp *)
Module Comment.
Record comment_object : Type := mk {
  id : Z; category : string; parent_author : account_name_type; parent_permlink : string;
  author : account_name_type; permlink : string; last_update : Z; created : Z; active : Z;
  last_payout : Z; depth : Z; children : Z; net_rshares : Z; abs_rshares : Z; vote_rshares : Z;
  children_abs_rshares : Z; cashout_time : Z; max_cashout_time : Z; total_vote_weight : Z;
  reward_weight : Z; total_payout_value : asset; curator_payout_value : asset;
  beneficiary_payout_value : asset; author_rewards : Z; net_votes : Z; root_comment : Z;
  max_accepted_payout : asset; percent_steem_dollars : Z; allow_replies : bool;
  allow_votes : bool; allow_curation_rewards : bool;
  beneficiaries : list (account_name_type * Z)
}.
#[export] Instance comment_object_rebuild : Rebuild comment_object := fun r => mk (id r)
    (category r) (parent_author r) (parent_permlink r) (author r) (permlink r) (last_update r)
    (created r) (active r) (last_payout r) (depth r) (children r) (net_rshares r)
    (abs_rshares r) (vote_rshares r) (children_abs_rshares r) (cashout_time r)
    (max_cashout_time r) (total_vote_weight r) (reward_weight r) (total_payout_value r)
    (curator_payout_value r) (beneficiary_payout_value r) (author_rewards r) (net_votes r)
    (root_comment r) (max_accepted_payout r) (percent_steem_dollars r) (allow_replies r)
    (allow_votes r) (allow_curation_rewards r) (beneficiaries r).
Definition default : comment_object := mk 0 "" "" "" "" "" 0 0 0 0 0 0 0 0 0 0 0 0 0 0
    (mk_asset 0 SBD_SYMBOL) (mk_asset 0 SBD_SYMBOL) (mk_asset 0 SBD_SYMBOL) 0 0 0
    (mk_asset 1000000000 SBD_SYMBOL) STEEM_100_PERCENT true true true [].
End Comment.
Export (hints) Comment.
Abbreviation comment_object := Comment.comment_object.

(** comment_object.hpp *)
Module CommentContent.
Record comment_content_object : Type := mk {
  id : Z; comment : Z; title : string; body : string; json_metadata : string
}.
#[export] Instance comment_content_object_rebuild : Rebuild comment_content_object := fun r => mk
    (id r) (comment r) (title r) (body r) (json_metadata r).
Definition default : comment_content_object := mk 0 0 "" "" "".
End CommentContent.
Export (hints) CommentContent.
Abbreviation comment_content_object := CommentContent.comment_content_object.

(** comment_object.hpp *)
Module CommentVote.
Record comment_vote_object : Type := mk {
  id : Z; voter : Z; comment : Z; weight : Z; rshares : Z; vote_percent : Z; last_update : Z;
  num_changes : Z
}.
#[export] Instance comment_vote_object_rebuild : Rebuild comment_vote_object := fun r => mk
    (id r) (voter r) (comment r) (weight r) (rshares r) (vote_percent r) (last_update r)
    (num_changes r).
Definition default : comment_vote_object := mk 0 0 0 0 0 0 0 0.
End CommentVote.
Export (hints) CommentVote.
Abbreviation comment_vote_object := CommentVote.comment_vote_object.

(** ** The database

    One field per chainbase index: a map from the key of a unique index of the
    container (or its object id, where objects have no other key) to the object.
    [witness_votes] holds the pairs (account, witness).  [next_id] is the id the
    next object of an index receives (generic_index::_next_id). *)
Inductive index_type : Set :=
| account_index | account_authority_index | witness_index | limit_order_index
| convert_request_index | escrow_index | savings_withdraw_index
| withdraw_vesting_route_index | decline_voting_rights_request_index
| vesting_delegation_index | vesting_delegation_expiration_index
| owner_authority_history_index | account_recovery_request_index
| change_recovery_account_request_index | reward_fund_index
| comment_index | comment_vote_index | comment_content_index.

#[export] Instance index_type_eq_dec : EqDecision index_type.
Proof. solve_decision. Defined.

Module Db.
Record database : Type := mk {
  accounts : gmap account_name_type account_object;
  account_authorities : gmap account_name_type account_authority_object;
  witnesses : gmap account_name_type witness_object;
  witness_votes : gset (account_name_type * account_name_type);
  limit_orders : gmap (account_name_type * Z) limit_order_object;
  convert_requests : gmap (account_name_type * Z) convert_request_object;
  escrows : gmap (account_name_type * Z) escrow_object;
  savings_withdraws : gmap (account_name_type * Z) savings_withdraw_object;
  withdraw_vesting_routes : gmap (account_name_type * account_name_type) withdraw_vesting_route_object;
  decline_voting_rights_requests : gmap account_name_type decline_voting_rights_request_object;
  vesting_delegations : gmap (account_name_type * account_name_type) vesting_delegation_object;
  vesting_delegation_expirations : gmap Z vesting_delegation_expiration_object;
  owner_authority_histories : gmap Z owner_authority_history_object;
  account_recovery_requests : gmap account_name_type account_recovery_request_object;
  change_recovery_account_requests : gmap account_name_type change_recovery_account_request_object;
  reward_funds : gmap string reward_fund_object;
  comments : gmap (account_name_type * string) comment_object;
  comment_votes : gmap (Z * Z) comment_vote_object;
  comment_contents : gmap Z comment_content_object;
  gpo : dynamic_global_property_object;
  feed_history : feed_history_object;
  wso : witness_schedule_object;
  hardfork_property : hardfork_property_object;
  next_id : index_type -> Z
}.
#[export] Instance database_rebuild : Rebuild database := fun r => mk (accounts r)
    (account_authorities r) (witnesses r) (witness_votes r) (limit_orders r)
    (convert_requests r) (escrows r) (savings_withdraws r) (withdraw_vesting_routes r)
    (decline_voting_rights_requests r) (vesting_delegations r)
    (vesting_delegation_expirations r) (owner_authority_histories r)
    (account_recovery_requests r) (change_recovery_account_requests r) (reward_funds r)
    (comments r) (comment_votes r) (comment_contents r) (gpo r) (feed_history r) (wso r)
    (hardfork_property r) (next_id r).
Definition empty : database := mk ∅ ∅ ∅ ∅ ∅ ∅ ∅ ∅ ∅ ∅ ∅ ∅ ∅ ∅ ∅ ∅ ∅ ∅ ∅ Gpo.default FeedHistory.default WitnessSchedule.default HardforkProperty.default (fun _ => 0).
End Db.
Export (hints) Db.
Abbreviation database := Db.database.

(** ** Lookups: get< T > throws when the key is absent, find< T > does not *)

Definition find_account (db : database) (n : account_name_type) : option account_object := Db.accounts db !! n.
Definition get_account (db : database) (n : account_name_type) : result account_object :=
  get_or out_of_range (find_account db n).
Definition find_witness (db : database) (n : account_name_type) : option witness_object := Db.witnesses db !! n.
Definition get_witness (db : database) (n : account_name_type) : result witness_object :=
  get_or out_of_range (find_witness db n).
Definition find_limit_order (db : database) (n : account_name_type) (i : Z) : option limit_order_object :=
  Db.limit_orders db !! (n, i).
Definition get_limit_order (db : database) (n : account_name_type) (i : Z) : result limit_order_object :=
  get_or out_of_range (find_limit_order db n i).
Definition find_escrow (db : database) (n : account_name_type) (i : Z) : option escrow_object :=
  Db.escrows db !! (n, i).
Definition get_escrow (db : database) (n : account_name_type) (i : Z) : result escrow_object :=
  get_or out_of_range (find_escrow db n i).
Definition find_savings_withdraw (db : database) (n : account_name_type) (i : Z) : option savings_withdraw_object :=
  Db.savings_withdraws db !! (n, i).
Definition get_savings_withdraw (db : database) (n : account_name_type) (i : Z) : result savings_withdraw_object :=
  get_or out_of_range (find_savings_withdraw db n i).
Definition head_block_time (db : database) : Z := Gpo.time (Db.gpo db).
Definition head_block_num (db : database) : Z := Gpo.head_block_number (Db.gpo db).

(** ** modify: the object, which must exist, is updated in place *)

Definition modify_account (db : database) (n : account_name_type)
    (f : account_object -> result account_object) : result database :=
  a ← get_account db n;
  a' ← f a;
  Ok (db <| Db.accounts ::= <[n := a']> |>).

Definition modify_gpo (db : database)
    (f : dynamic_global_property_object -> result dynamic_global_property_object) : result database :=
  g ← f (Db.gpo db);
  Ok (db <| Db.gpo := g |>).

Definition modify_witness (db : database) (n : account_name_type)
    (f : witness_object -> result witness_object) : result database :=
  w ← get_witness db n;
  w' ← f w;
  Ok (db <| Db.witnesses ::= <[n := w']> |>).

(** generic_index::emplace: the new object receives the next id and must not
    collide with a present one. *)
Definition create {K V} `{Countable K} (idx : index_type) (field : database -> gmap K V)
    `{!Setter field} (key : K) (c : Z -> V) (db : database) : result database :=
  match field db !! key with
  | Some _ => Throw logic_error
  | None =>
      let i := Db.next_id db idx in
      Ok (db <| Db.next_id := fun j => if decide (j = idx) then i + 1 else Db.next_id db j |>
             <| field ::= <[key := c i]> |>)
  end.

(** modify and remove on any other index *)
Definition modify_obj {K V} `{Countable K} (field : database -> gmap K V) `{!Setter field}
    (key : K) (f : V -> result V) (db : database) : result database :=
  v ← get_or out_of_range (field db !! key);
  v ← f v;
  Ok (db <| field ::= <[key := v]> |>).

Definition remove {K V} `{Countable K} (field : database -> gmap K V) `{!Setter field}
    (key : K) (db : database) : database :=
  db <| field ::= delete key |>.

(** ** Iteration in index order

    [first_by lt m] is the key and the object an ordered index with comparison [lt] over
    the objects of [m] has at its begin(). *)
Definition min_by {K V} (lt : V -> V -> bool) (o : option (K * V)) (x : K * V) : option (K * V) :=
  match o with
  | None => Some x
  | Some y => if lt (snd x) (snd y) then Some x else Some y
  end.

Definition first_by {K V} `{Countable K} (lt : V -> V -> bool) (m : gmap K V) : option (K * V) :=
  fold_left (min_by lt) (map_to_list m) None.

(** lexicographic order of a composite_key *)
Definition lex (c d : comparison) : comparison := match c with Eq => d | _ => c end.
Definition lt_of (c : comparison) : bool := match c with Lt => true | _ => false end.
Definition name_compare (a b : account_name_type) : comparison := String.compare a b.
Definition name_le (a b : account_name_type) : Prop := lt_of (name_compare b a) = false.
#[export] Instance name_le_dec : RelDecision name_le.
Proof. unfold name_le. intros a b. apply _. Defined.

(** ** Member functions of the objects *)

(** asset amount_for_sale()const *)
Definition amount_for_sale (o : limit_order_object) : asset :=
  mk_asset (LimitOrder.for_sale o) (symbol (base (LimitOrder.sell_price o))).
Definition amount_to_receive (o : limit_order_object) : result asset :=
  Price.mul (amount_for_sale o) (LimitOrder.sell_price o).

Definition is_approved (e : escrow_object) : bool := Escrow.to_approved e && Escrow.agent_approved e.

Definition witness_vote_weight (a : account_object) : result Z :=
  foldM Safe.add (amount (Account.vesting_shares a)) (Account.proxied_vsf_votes a).
Definition proxied_vsf_votes_total (a : account_object) : result Z :=
  foldM Safe.add 0 (Account.proxied_vsf_votes a).

Definition get_vesting_share_price (g : dynamic_global_property_object) : result price :=
  if (amount (Gpo.total_vesting_fund_steem g) =? 0) || (amount (Gpo.total_vesting_shares g) =? 0)
  then Price.make (mk_asset 1000 STEEM_SYMBOL) (mk_asset 1000000 VESTS_SYMBOL)
  else Price.make (Gpo.total_vesting_shares g) (Gpo.total_vesting_fund_steem g).

Definition get_reward_vesting_share_price (g : dynamic_global_property_object) : result price :=
  b ← Asset.add (Gpo.total_vesting_shares g) (Gpo.pending_rewarded_vesting_shares g);
  q ← Asset.add (Gpo.total_vesting_fund_steem g) (Gpo.pending_rewarded_vesting_steem g);
  Price.make b q.

(** utils/asset.hpp *)
Definition to_sbd (p : price) (steem : asset) : result asset :=
  _ ← fc_assert (symbol steem =? STEEM_SYMBOL);
  if Price.is_null p then Ok (mk_asset 0 SBD_SYMBOL) else Price.mul steem p.
Definition to_steem (p : price) (sbd : asset) : result asset :=
  _ ← fc_assert (symbol sbd =? SBD_SYMBOL);
  if Price.is_null p then Ok (mk_asset 0 STEEM_SYMBOL) else Price.mul sbd p.

(** ** Facts about the first element of an index *)

Section first_by_facts.
Context {K V : Type} `{Countable K} (lt : V -> V -> bool).

Lemma fold_min_by_in (l : list (K * V)) : forall o,
  match fold_left (min_by lt) l o with
  | Some x => x ∈ l \/ o = Some x
  | None => l = [] /\ o = None
  end.
Proof.
  induction l as [|x l IH]; intros o; simpl.
  - destruct o; auto.
  - specialize (IH (min_by lt o x)). destruct (fold_left _ l _) as [y|].
    + destruct IH as [?|IH]; [left; set_solver|].
      destruct o as [z|]; simpl in IH; [destruct (lt _ _)|]; simplify_eq; (left; set_solver) || auto.
    + destruct IH as [_ IH]. destruct o; simpl in IH; [destruct (lt _ _)|]; discriminate.
Qed.

Lemma first_by_Some (m : gmap K V) k v : first_by lt m = Some (k, v) -> m !! k = Some v.
Proof.
  unfold first_by. pose proof (fold_min_by_in (map_to_list m) None) as Hin. intros E. rewrite E in Hin.
  destruct Hin as [Hin|?]; [|done]. by apply elem_of_map_to_list.
Qed.

Lemma first_by_None (m : gmap K V) : first_by lt m = None -> m = ∅.
Proof.
  unfold first_by. pose proof (fold_min_by_in (map_to_list m) None) as Hin. intros E. rewrite E in Hin.
  destruct Hin as [Hin _]. by apply map_to_list_empty_iff.
Qed.

(** [lt] compares a key through a total preorder [le] *)
Context (le : V -> V -> Prop) (le_trans : forall x y z, le x y -> le y z -> le x z)
  (lt_le : forall x y, lt x y = true -> le x y) (nlt_le : forall x y, lt x y = false -> le y x).

Lemma fold_min_by_le (l : list (K * V)) : forall o y,
  fold_left (min_by lt) l o = Some y ->
  (forall x, x ∈ l -> le (snd y) (snd x)) /\ (forall z, o = Some z -> le (snd y) (snd z)).
Proof.
  assert (forall x, le x x) as le_refl.
  { intros x. destruct (lt x x) eqn:E; [by apply lt_le|by apply nlt_le]. }
  induction l as [|x l IH]; intros o y E; simpl in E.
  - subst. split; [set_solver|]. intros z [= ->]. apply le_refl.
  - apply IH in E as [E1 E2].
    assert (le (snd y) (snd x) /\ (forall z, o = Some z -> le (snd y) (snd z))) as [E3 E4].
    { destruct o as [z|]; simpl in E2; [destruct (lt (snd x) (snd z)) eqn:L|]; specialize (E2 _ eq_refl).
      - split; [done|]. intros z' [= <-]. eauto.
      - split; [eauto|]. by intros z' [= <-].
      - by split. }
    split; [|done]. intros x' [->|?]%elem_of_cons; auto.
Qed.

Lemma first_by_least (m : gmap K V) k v k' v' :
  first_by lt m = Some (k, v) -> m !! k' = Some v' -> le v v'.
Proof.
  intros E Hk. apply fold_min_by_le in E as [E _].
  apply (E (k', v')). by apply elem_of_map_to_list.
Qed.
End first_by_facts.

(** an index whose first component is an integer key *)
Lemma first_by_key {K V} `{Countable K} (key : V -> Z) (rest : V -> V -> comparison) (m : gmap K V) k v k' v' :
  first_by (fun x y => lt_of (lex (key x ?= key y) (rest x y))) m = Some (k, v) ->
  m !! k' = Some v' -> key v <= key v'.
Proof.
  intros E Hk. eapply (first_by_least _ (fun x y => key x <= key y)); [..|exact E|exact Hk].
  - intros. lia.
  - intros x y. unfold lex, lt_of. destruct (Z.compare_spec (key x) (key y)); try done; lia.
  - intros x y. unfold lex, lt_of. destruct (Z.compare_spec (key x) (key y)); try done; lia.
Qed.

(** removing a present object makes an index smaller *)
Lemma size_present {K V} `{Countable K} (m : gmap K V) k v : m !! k = Some v -> (0 < size m)%nat.
Proof. intros Hk. apply Nat.neq_0_lt_0. intros E%map_size_empty_inv. by rewrite E, lookup_empty in Hk. Qed.
Lemma size_delete_lt {K V} `{Countable K} (m : gmap K V) k v : m !! k = Some v -> (size (delete k m) < size m)%nat.
Proof. intros Hk. rewrite map_size_delete, Hk. apply size_present in Hk. lia. Qed.
