(* ===== verification/Reward.v ===== *)
(** Reward: the reward curves and the share of a comment in its reward fund.

    utils/reward.cpp with the inline functions of utils/reward.hpp.  A uint128_t
    is an integer with its wrap-around written out, as Uint128 justifies; the 256-bit
    integers of get_rshare_reward are integers modulo 2^256. *)
From Stdlib Require Import ZArith Lia String.
From stdpp Require Import base gmap strings list.
From S2P Require Import Prelude.
From S2P Require Import Safe.
From S2P Require Import Uint128.
From S2P Require Import Asset.
From S2P Require Import Objects.
Local Open Scope Z_scope.
Local Open Scope fc_scope.

Definition STEEM_CONTENT_CONSTANT : Z := 2000000000000.
Definition STEEM_MIN_PAYOUT_SBD : asset := mk_asset 20 SBD_SYMBOL.

Definition u256 (x : Z) : Z := x mod 2 ^ 256.

(** operator / and to_uint64 of uint128 *)
Definition div128 (a b : Z) : result Z := if b =? 0 then Throw divide_by_zero_exception else Ok (a / b).
Definition to_uint64 (x : Z) : result Z := _ ← fc_assert (x <? 2 ^ 64); Ok x.

Definition find_msb (u : Z) : Z :=
  let lo := u64 u in
  let hi := u / 2 ^ 64 in
  let x := if negb (lo =? 0) then lo else 1 in
  let places := if negb (hi =? 0) then 64 else 0 in
  let x := if negb (hi =? 0) then hi else x in
  u8 (Z.log2 x + places).

Definition approx_sqrt (x : Z) : Z :=
  if x =? 0 then 0
  else
    let msb_x := find_msb x in
    let msb_z := Z.shiftr msb_x 1 in
    let msb_x_bit := u128 (Z.shiftl 1 msb_x) in
    let msb_z_bit := u64 (Z.shiftl 1 msb_z) in
    let mantissa_mask := u128 (msb_x_bit - 1) in
    let mantissa_x := Z.land x mantissa_mask in
    let mantissa_z_hi := if negb (Z.land msb_x 1 =? 0) then msb_z_bit else 0 in
    let mantissa_z_lo := u64 (Z.shiftr mantissa_x (msb_x - msb_z)) in
    let mantissa_z := Z.shiftr (Z.lor mantissa_z_hi mantissa_z_lo) 1 in
    Z.lor msb_z_bit mantissa_z.

Definition evaluate_reward_curve (rshares : Z) (curve : curve_id) (content_constant : Z) : result Z :=
  match curve with
  | quadratic =>
      let rshares_plus_s := u128 (rshares + content_constant) in
      Ok (u128 (u128 (rshares_plus_s * rshares_plus_s) - u128 (content_constant * content_constant)))
  | quadratic_curation =>
      let two_alpha := u128 (content_constant * 2) in
      div128 (u64 rshares * 2 ^ 64) (u128 (two_alpha + rshares))
  | linear => Ok rshares
  | square_root => Ok (approx_sqrt rshares)
  end.

Record comment_reward_context : Type := mk_context {
  ctx_rshares : Z;
  ctx_reward_weight : Z;
  ctx_max_sbd : asset;
  ctx_total_reward_shares2 : Z;
  ctx_total_reward_fund_steem : asset;
  ctx_current_steem_price : price;
  ctx_reward_curve : curve_id;
  ctx_content_constant : Z
}.

Definition is_comment_payout_dust (p : price) (steem_payout : Z) : result bool :=
  s ← to_sbd p (mk_asset (i64 steem_payout) STEEM_SYMBOL);
  Asset.ltb s STEEM_MIN_PAYOUT_SBD.

Definition get_rshare_reward (ctx : comment_reward_context) : result Z :=
  _ ← fc_assert (0 <? ctx_rshares ctx);
  _ ← fc_assert (0 <? ctx_total_reward_shares2 ctx);
  let rf := u256 (amount (ctx_total_reward_fund_steem ctx)) in
  let total_claims := ctx_total_reward_shares2 ctx in
  c ← evaluate_reward_curve (u128 (ctx_rshares ctx)) (ctx_reward_curve ctx) (ctx_content_constant ctx);
  let claim := u256 (c * ctx_reward_weight ctx) / STEEM_100_PERCENT in
  let payout_u256 := u256 (rf * claim) / total_claims in
  _ ← fc_assert (payout_u256 <=? INT64_MAX);
  let payout := u64 payout_u256 in
  dust ← is_comment_payout_dust (ctx_current_steem_price ctx) payout;
  let payout := if dust : bool then 0 else payout in
  max_steem ← to_steem (ctx_current_steem_price ctx) (ctx_max_sbd ctx);
  Ok (Z.min payout (u64 (amount max_steem))).

(** ** The approximate square root *)

Lemma find_msb_log2 x : 0 < x < 2 ^ 128 -> find_msb x = Z.log2 x.
Proof.
  intros Hx. unfold find_msb, u64.
  assert (0 <= Z.log2 x < 128) as Hl by (split; [apply Z.log2_nonneg|apply Z.log2_lt_pow2; lia]).
  pose proof (Z.div_mod x (2 ^ 64) ltac:(lia)) as Hd. pose proof (Z.mod_pos_bound x (2 ^ 64) ltac:(lia)) as Hm.
  destruct (Z.eqb_spec (x / 2 ^ 64) 0) as [E|E]; cbn [negb].
  - rewrite E in Hd. assert (x mod 2 ^ 64 = x) as -> by lia.
    destruct (Z.eqb_spec x 0); [lia|]. cbn [negb]. rewrite Z.add_0_r. apply Z.mod_small. lia.
  - assert (0 < x / 2 ^ 64) by (pose proof (Z.div_pos x (2 ^ 64) ltac:(lia) ltac:(lia)); lia).
    assert (Z.log2 (x / 2 ^ 64) = Z.log2 x - 64) as ->.
    { rewrite <- Z.shiftr_div_pow2 by lia. rewrite Z.log2_shiftr by lia.
      assert (64 <= Z.log2 x) by (apply Z.log2_le_pow2; [lia|]; nia). lia. }
    rewrite Z.sub_add. apply Z.mod_small. lia.
Qed.

Lemma lor_top k y : 0 <= k -> 0 <= y < 2 ^ k -> Z.lor (2 ^ k) y = 2 ^ k + y.
Proof. intros Hk Hy. pose proof (Uint128.lor_disjoint 1 y k Hk Hy) as H. by rewrite Z.mul_1_l in H. Qed.

(** what the shifts compute: the leading bit halved, and the mantissa halved *)
Lemma approx_sqrt_eq x : 0 < x < 2 ^ 128 ->
  let k := Z.log2 x / 2 in
  let m := x - 2 ^ Z.log2 x in
  approx_sqrt x = 2 ^ k + ((if Z.odd (Z.log2 x) then 2 ^ k else 0) + m / 2 ^ (Z.log2 x - k)) / 2.
Proof.
  intros Hx k m. unfold approx_sqrt. rewrite (proj2 (Z.eqb_neq x 0)) by lia. rewrite find_msb_log2 by done.
  set (e := Z.log2 x) in *.
  assert (0 <= e < 128) as He by (split; [apply Z.log2_nonneg|apply Z.log2_lt_pow2; lia]).
  assert (2 ^ e <= x < 2 ^ (e + 1)) as Hxe by (apply Z.log2_spec; lia).
  assert (2 ^ (e + 1) = 2 * 2 ^ e) as E1 by (rewrite Z.pow_add_r by lia; lia).
  rewrite (Z.shiftr_div_pow2 e 1) by lia. change (2 ^ 1) with 2. fold k.
  assert (0 <= k < 64 /\ k <= e - k /\ e - k <= k + 1) as (Hk & Hk2 & Hk3)
    by (unfold k; pose proof (Z.div_mod e 2 ltac:(lia)); pose proof (Z.mod_pos_bound e 2 ltac:(lia)); lia).
  rewrite !Z.shiftl_1_l. rewrite (u64_id (2 ^ k)) by (split; [lia|apply Z.pow_lt_mono_r; lia]).
  rewrite (u128_id (2 ^ e)) by (split; [lia|apply Z.pow_lt_mono_r; lia]).
  assert (2 ^ e < 2 ^ 128) by (apply Z.pow_lt_mono_r; lia).
  rewrite u128_id by lia. replace (2 ^ e - 1) with (Z.ones e) by (rewrite Z.ones_equiv; lia).
  rewrite Z.land_ones by lia.
  assert (x mod 2 ^ e = m) as -> by (symmetry; apply (Z.mod_unique _ _ 1); [left; unfold m; lia|unfold m; lia]).
  rewrite (Z.shiftr_div_pow2 m) by lia.
  assert (2 ^ e = 2 ^ k * 2 ^ (e - k)) as E2 by (rewrite <- Z.pow_add_r by lia; f_equal; lia).
  assert (0 <= m / 2 ^ (e - k) < 2 ^ k) as Hq.
  { split; [apply Z.div_pos; unfold m; lia|]. apply Z.div_lt_upper_bound; [lia|]. unfold m. lia. }
  assert (2 ^ k < 2 ^ 64) by (apply Z.pow_lt_mono_r; lia).
  rewrite u64_id by lia.
  assert (Z.land e 1 = if Z.odd e then 1 else 0) as ->.
  { change 1 with (Z.ones 1) at 1. rewrite Z.land_ones by lia. apply Zmod_odd. }
  set (h := if Z.odd e then 2 ^ k else 0).
  assert (Z.lor (if negb ((if Z.odd e then 1 else 0) =? 0) then 2 ^ k else 0) (m / 2 ^ (e - k)) = h + m / 2 ^ (e - k)) as ->.
  { unfold h. destruct (Z.odd e); cbn [negb Z.eqb]; [apply lor_top; lia|done]. }
  rewrite Z.shiftr_div_pow2 by lia. change (2 ^ 1) with 2. apply lor_top; [lia|].
  unfold h. split; [apply Z.div_pos; destruct (Z.odd e); lia|apply Z.div_lt_upper_bound; destruct (Z.odd e); lia].
Qed.

Lemma approx_sqrt_near x : 0 < x < 2 ^ 128 ->
  x < (approx_sqrt x + 1) ^ 2 /\ 8 * approx_sqrt x ^ 2 <= 9 * x.
Proof.
  intros Hx. rewrite approx_sqrt_eq by done. cbv zeta. set (e := Z.log2 x).
  assert (0 <= e) as He by apply Z.log2_nonneg.
  assert (2 ^ e <= x < 2 ^ (e + 1)) as Hxe by (apply Z.log2_spec; lia).
  rewrite Z.pow_add_r in Hxe by lia.
  pose proof (Z.div_mod e 2 ltac:(lia)) as Hd. rewrite Zmod_odd in Hd. set (k := e / 2) in *.
  assert (0 <= k) as Hk by (apply Z.div_pos; lia). rewrite !Z.pow_2_r.
  set (P := 2 ^ k). assert (0 < P) by (apply Z.pow_pos_nonneg; lia).
  destruct (Z.odd e).
  - assert (2 ^ e = 2 * P * P) as E by (unfold P; rewrite Hd, !Z.pow_add_r, Z.mul_comm by lia; replace (2 * k) with (k + k) by lia;
      rewrite Z.pow_add_r by lia; ring).
    replace (e - k) with (k + 1) by lia. rewrite Z.pow_add_r by lia. fold P. rewrite E in *. change (2 ^ 1) with 2 in *.
    set (m := x - 2 * P * P). pose proof (Z.div_mod m (P * 2) ltac:(lia)) as Hm.
    pose proof (Z.mod_pos_bound m (P * 2) ltac:(lia)). set (t := m / (P * 2)) in *.
    assert (0 <= t < P) by (split; [apply Z.div_pos; unfold m; lia|apply Z.div_lt_upper_bound; unfold m; lia]).
    pose proof (Z.div_mod (P + t) 2 ltac:(lia)) as Hs. pose proof (Z.mod_pos_bound (P + t) 2 ltac:(lia)).
    set (s := (P + t) / 2) in *. assert (x = 2 * P * P + m) by (unfold m; lia). clearbody m t s P. subst x. clear Hx Hxe E. split; nia.
  - assert (2 ^ e = P * P) as E by (unfold P; rewrite Hd, Z.add_0_r; replace (2 * k) with (k + k) by lia; rewrite Z.pow_add_r by lia; ring).
    replace (e - k) with k by lia. fold P. rewrite E in *. change (2 ^ 1) with 2 in *. rewrite Z.add_0_l.
    set (m := x - P * P). rewrite Z.div_div by lia. pose proof (Z.div_mod m (P * 2) ltac:(lia)) as Hm.
    pose proof (Z.mod_pos_bound m (P * 2) ltac:(lia)). set (t := m / (P * 2)) in *.
    assert (0 <= t) by (apply Z.div_pos; unfold m; lia).
    assert (m < P * P) by (unfold m; lia). assert (x = P * P + m) by (unfold m; lia). clearbody m t P. subst x. clear Hx Hxe E. split; nia.
Qed.

(** approx_sqrt is never more than a unit below the square root and never more
    than a sixteenth above it: its square is at most nine eighths of the number. *)
Theorem approx_sqrt_bounds x : 0 < x < 2 ^ 128 ->
  x < (approx_sqrt x + 1) ^ 2 /\ 8 * approx_sqrt x ^ 2 <= 9 * x.
Proof. apply approx_sqrt_near. Qed.

Lemma approx_sqrt_bounds_witness : 7 < (approx_sqrt 7 + 1) ^ 2 /\ 8 * approx_sqrt 7 ^ 2 <= 9 * 7.
Proof. apply (approx_sqrt_bounds 7). lia. Defined.

(** the value at a power of two *)
Definition sqrt_floor (e : Z) : Z := 2 ^ (e / 2) + (if Z.odd e then 2 ^ (e / 2) else 0) / 2.

Lemma approx_sqrt_range x : 0 < x < 2 ^ 128 -> sqrt_floor (Z.log2 x) <= approx_sqrt x <= sqrt_floor (Z.log2 x + 1).
Proof.
  intros Hx. rewrite approx_sqrt_eq by done. cbv zeta. set (e := Z.log2 x).
  assert (0 <= e) as He by apply Z.log2_nonneg.
  assert (2 ^ e <= x < 2 ^ (e + 1)) as Hxe by (apply Z.log2_spec; lia).
  rewrite Z.pow_add_r in Hxe by lia. unfold sqrt_floor.
  pose proof (Z.div_mod e 2 ltac:(lia)) as Hd. rewrite Zmod_odd in Hd. rewrite Z.add_1_r, Z.odd_succ, <- Z.negb_odd.
  set (k := e / 2) in *. assert (0 <= k) as Hk by (apply Z.div_pos; lia).
  assert (0 <= e - k) as Hek by (destruct (Z.odd e); lia).
  set (m := x - 2 ^ e). assert (2 ^ e = 2 ^ k * 2 ^ (e - k)) as E2 by (rewrite <- Z.pow_add_r by lia; f_equal; lia).
  assert (0 < 2 ^ (e - k)) by (apply Z.pow_pos_nonneg; lia).
  assert (0 <= m / 2 ^ (e - k) < 2 ^ k) as Hq.
  { split; [apply Z.div_pos; unfold m; lia|]. apply Z.div_lt_upper_bound; [lia|]. unfold m. lia. }
  set (q := m / 2 ^ (e - k)) in *. destruct (Z.odd e); cbn [negb].
  - replace (Z.succ e / 2) with (k + 1) by (apply (Z.div_unique _ _ _ 0); [left; lia|lia]).
    rewrite Z.pow_add_r by lia. change (2 ^ 1) with 2.
    pose proof (Z.div_le_mono (2 ^ k) (2 ^ k + q) 2 ltac:(lia) ltac:(lia)).
    pose proof (Z.div_lt_upper_bound (2 ^ k + q) 2 (2 ^ k) ltac:(lia) ltac:(lia)). rewrite Z.div_0_l by lia. lia.
  - replace (Z.succ e / 2) with k by (apply (Z.div_unique _ _ _ 1); [left; lia|lia]).
    pose proof (Z.div_le_mono (0 + q) (2 ^ k) 2 ltac:(lia) ltac:(lia)).
    pose proof (Z.div_pos (0 + q) 2 ltac:(lia) ltac:(lia)). rewrite Z.div_0_l by lia. lia.
Qed.

Lemma sqrt_floor_step e : 0 <= e -> sqrt_floor e <= sqrt_floor (e + 1).
Proof.
  intros He. unfold sqrt_floor. rewrite Z.add_1_r, Z.odd_succ, <- Z.negb_odd.
  pose proof (Z.div_mod e 2 ltac:(lia)) as Hd. rewrite Zmod_odd in Hd.
  set (k := e / 2) in *. assert (0 <= k) as Hk by (apply Z.div_pos; lia).
  assert (0 < 2 ^ k) by (apply Z.pow_pos_nonneg; lia). pose proof (Z.div_pos (2 ^ k) 2 ltac:(lia) ltac:(lia)).
  pose proof (Z.div_le_upper_bound (2 ^ k) 2 (2 ^ k) ltac:(lia) ltac:(lia)).
  destruct (Z.odd e); cbn [negb]; rewrite Z.div_0_l by lia.
  - replace (Z.succ e / 2) with (k + 1) by (apply (Z.div_unique _ _ _ 0); [left; lia|lia]).
    rewrite Z.pow_add_r by lia. change (2 ^ 1) with 2. lia.
  - replace (Z.succ e / 2) with k by (apply (Z.div_unique _ _ _ 1); [left; lia|lia]). lia.
Qed.

Lemma sqrt_floor_mono n : forall e, 0 <= e -> sqrt_floor e <= sqrt_floor (e + Z.of_nat n).
Proof.
  induction n as [|n IH]; intros e He; [rewrite Z.add_0_r; lia|].
  pose proof (IH e He). pose proof (sqrt_floor_step (e + Z.of_nat n) ltac:(lia)).
  replace (e + Z.of_nat (S n)) with (e + Z.of_nat n + 1) by lia. lia.
Qed.

Lemma approx_sqrt_mono a b : 0 <= a <= b -> b < 2 ^ 128 -> approx_sqrt a <= approx_sqrt b.
Proof.
  intros Hab Hb. destruct (Z.eq_dec a 0) as [->|Ha].
  { change (approx_sqrt 0) with 0. destruct (Z.eq_dec b 0) as [->|]; [done|].
    pose proof (approx_sqrt_range b ltac:(lia)). pose proof (sqrt_floor_mono (Z.to_nat (Z.log2 b)) 0 ltac:(lia)) as Hm.
    rewrite Z2Nat.id in Hm by apply Z.log2_nonneg. rewrite Z.add_0_l in Hm. change (sqrt_floor 0) with 1 in Hm. lia. }
  pose proof (Z.log2_le_mono a b ltac:(lia)) as Hl. destruct (Z.eq_dec (Z.log2 a) (Z.log2 b)) as [E|E].
  - rewrite !approx_sqrt_eq by lia. cbv zeta. rewrite E. apply Z.add_le_mono_l. apply Z.div_le_mono; [lia|].
    apply Z.add_le_mono_l. assert (0 <= Z.log2 b / 2 <= Z.log2 b) as Hk.
    { pose proof (Z.log2_nonneg b). split; [apply Z.div_pos; lia|apply Z.div_le_upper_bound; lia]. }
    apply Z.div_le_mono; [apply Z.pow_pos_nonneg; lia|lia].
  - pose proof (approx_sqrt_range a ltac:(lia)). pose proof (approx_sqrt_range b ltac:(lia)).
    pose proof (sqrt_floor_mono (Z.to_nat (Z.log2 b - (Z.log2 a + 1))) (Z.log2 a + 1) ltac:(pose proof (Z.log2_nonneg a); lia)) as Hm.
    rewrite Z2Nat.id in Hm by lia. replace (Z.log2 a + 1 + (Z.log2 b - (Z.log2 a + 1))) with (Z.log2 b) in Hm by lia. lia.
Qed.

(** ** The curves *)

(** every curve grows with the rshares, as far as the 128 bits reach *)
Lemma curve_mono curve c a b wa wb :
  0 <= c < 2 ^ 60 -> 0 <= a <= b -> b < 2 ^ 63 ->
  evaluate_reward_curve a curve c = Ok wa -> evaluate_reward_curve b curve c = Ok wb -> 0 <= wa <= wb.
Proof.
  intros Hc Hab Hb Ea Eb. destruct curve; simpl in Ea, Eb.
  - injection Ea as <-. injection Eb as <-. rewrite !(u128_id (_ + c)) by lia.
    rewrite !u128_id; rewrite ?u128_id; nia.
  - unfold div128 in *. rewrite !u64_id, !(u128_id (c * 2)) in * by lia. rewrite !(u128_id (_ + _)) in * by lia.
    destruct (Z.eqb_spec (c * 2 + a) 0); [done|]. destruct (Z.eqb_spec (c * 2 + b) 0); [done|].
    injection Ea as <-. injection Eb as <-. split; [apply Z.div_pos; lia|].
    apply Z.div_le_lower_bound; [lia|].
    pose proof (Z.mul_div_le (a * 2 ^ 64) (c * 2 + a) ltac:(lia)). set (q := a * 2 ^ 64 / (c * 2 + a)) in *.
    assert (0 <= q <= 2 ^ 64) by (split; [apply Z.div_pos; lia|apply Z.div_le_upper_bound; lia]). nia.
  - injection Ea as <-. injection Eb as <-. lia.
  - injection Ea as <-. injection Eb as <-. split; [|apply approx_sqrt_mono; lia].
    change 0 with (approx_sqrt 0). apply approx_sqrt_mono; lia.
Qed.

Lemma curve_range x curve c w : 0 <= x < 2 ^ 128 -> evaluate_reward_curve x curve c = Ok w -> 0 <= w < 2 ^ 128.
Proof.
  intros Hx H. destruct curve; simpl in H.
  - injection H as <-. apply u128_range.
  - unfold div128 in H. destruct (Z.eqb_spec (u128 (u128 (c * 2) + x)) 0) as [|Hne]; [done|]. injection H as <-.
    pose proof (u64_range x). pose proof (u128_range (u128 (c * 2) + x)).
    split; [apply Z.div_pos; lia|apply Z.div_lt_upper_bound; [lia|]]. change (2 ^ 128) with (2 ^ 64 * 2 ^ 64). nia.
  - by injection H as <-.
  - injection H as <-. destruct (Z.eq_dec x 0) as [->|]; [done|]. destruct (approx_sqrt_near x ltac:(lia)) as [? ?].
    split; [change 0 with (approx_sqrt 0); apply approx_sqrt_mono; lia|]. rewrite !Z.pow_2_r in *. nia.
Qed.

(** ** The payout *)

Lemma to_sbd_steem_symbols p x y : to_steem p x = Ok y -> symbol x = SBD_SYMBOL.
Proof. unfold to_steem. intros H. result_inv. by apply Z.eqb_eq. Qed.

(** a comment is paid at most its part of the fund, in proportion to its
    claim, and at most what it accepts; a payout of dust is none. *)
Lemma rshare_reward_share ctx r c :
  get_rshare_reward ctx = Ok r ->
  evaluate_reward_curve (u128 (ctx_rshares ctx)) (ctx_reward_curve ctx) (ctx_content_constant ctx) = Ok c ->
  0 <= c < 2 ^ 128 -> 0 <= amount (ctx_total_reward_fund_steem ctx) <= INT64_MAX ->
  0 <= ctx_reward_weight ctx <= STEEM_100_PERCENT ->
  0 <= r <= INT64_MAX /\ r * ctx_total_reward_shares2 ctx <= amount (ctx_total_reward_fund_steem ctx) * c.
Proof.
  unfold INT64_MAX, STEEM_100_PERCENT. intros H Hc Hr Hf Hw. unfold get_rshare_reward in H. bind H as u1 U1. bind H as u2 U2.
  rewrite Hc in H. simpl in H. bind H as u3 U3. bind H as dust D. bind H as ms M. injection H as <-.
  apply fc_assert_Ok, Z.ltb_lt in U1, U2. apply fc_assert_Ok, Z.leb_le in U3. unfold INT64_MAX in U3.
  set (f := amount (ctx_total_reward_fund_steem ctx)) in *. set (T := ctx_total_reward_shares2 ctx) in *.
  set (w := ctx_reward_weight ctx) in *. unfold STEEM_100_PERCENT in *.
  assert (2 ^ 256 = 2 ^ 128 * 2 ^ 128) as E by reflexivity.
  assert (u256 (c * w) = c * w) as E1 by (apply Z.mod_small; nia). rewrite E1 in *.
  assert (0 <= c * w / 10000 <= c) as Hcl by (split; [apply Z.div_pos; nia|apply Z.div_le_upper_bound; nia]).
  set (cl := c * w / 10000) in *.
  assert (u256 f = f) as E2 by (apply Z.mod_small; lia). rewrite E2 in *.
  assert (u256 (f * cl) = f * cl) as E3 by (apply Z.mod_small; nia). rewrite E3 in *.
  assert (0 <= f * cl / T) by (apply Z.div_pos; nia). pose proof (Z.mul_div_le (f * cl) T ltac:(lia)).
  rewrite u64_id by lia. pose proof (u64_range (amount ms)). destruct dust; [nia|]. nia.
Qed.
