(* ===== verification/Balance.v ===== *)
(** Balance: the members of database.cpp that move value.

    Balances, reward balances and supply (modify_balance, modify_reward_balance,
    adjust_balance, adjust_savings_balance, adjust_reward_balance,
    adjust_supply), the creation of SBD and of vesting shares (create_sbd,
    create_vesting), the propagation of vesting shares to witness votes
    (adjust_proxied_witness_votes, adjust_witness_votes, adjust_witness_vote,
    clear_witness_votes) and clear_null_account_balance.

    An object handed to a member function is a reference into the database, so
    every read of it is a lookup in the current database.  Virtual operations
    are notifications to plugins and are not part of the state. *)
From Stdlib Require Import ZArith Lia String Ascii.
From stdpp Require Import base gmap strings list sorting.
From S2P Require Import Prelude.
From S2P Require Import Safe.
From S2P Require Import Asset.
From S2P Require Import Authority.
From S2P Require Import Objects.
Local Open Scope string_scope.
Local Open Scope Z_scope.
Local Open Scope fc_scope.

(** ** Interest on SBD *)

(** The seconds * balance bookkeeping at the head of an SBD balance change:
    the new balance, seconds, last update and last payment, and the interest
    paid, if any. *)
Definition accrue_interest (now rate : Z) (bal : asset) (secs upd paid : Z)
    : result (asset * Z * Z * Z * option asset) :=
  if upd =? now then Ok (bal, secs, upd, paid, None)
  else
    let secs := u128 (secs + u128 (u128 (amount bal) * u128 (now - upd))) in
    if (0 <? secs) && (STEEM_SBD_INTEREST_COMPOUND_INTERVAL_SEC <? now - paid) then
      let interest := secs / STEEM_SECONDS_PER_YEAR in
      let interest := u128 (interest * rate) in
      let interest := interest / STEEM_100_PERCENT in
      _ ← fc_assert (interest <? 2 ^ 64);
      let interest_paid := mk_asset (i64 interest) SBD_SYMBOL in
      bal ← Asset.add bal interest_paid;
      Ok (bal, 0, now, now, Some interest_paid)
    else Ok (bal, secs, now, paid, None).

(** the supply side of an interest payment *)
Definition pay_interest (db : database) (interest : option asset) : result database :=
  match interest with
  | None => Ok db
  | Some interest_paid =>
      modify_gpo db (fun g =>
        s ← Asset.add (Gpo.current_sbd_supply g) interest_paid;
        v ← Price.mul interest_paid (FeedHistory.current_median_history (Db.feed_history db));
        v ← Asset.add (Gpo.virtual_supply g) v;
        Ok (g <| Gpo.current_sbd_supply := s |> <| Gpo.virtual_supply := v |>))
  end.

(** ** Liquid, savings and reward balances *)

Definition modify_balance (db : database) (n : account_name_type) (delta : asset) (check_balance : bool)
    : result database :=
  if symbol delta =? STEEM_ASSET_NUM_STEEM then
    modify_account db n (fun a =>
      b ← Asset.add (Account.balance a) delta;
      _ ← fc_assert (negb check_balance || (0 <=? amount b));
      Ok (a <| Account.balance := b |>))
  else if symbol delta =? STEEM_ASSET_NUM_SBD then
    a ← get_account db n;
    r ← accrue_interest (head_block_time db) (Gpo.sbd_interest_rate (Db.gpo db)) (Account.sbd_balance a)
          (Account.sbd_seconds a) (Account.sbd_seconds_last_update a) (Account.sbd_last_interest_payment a);
    let '(bal, secs, upd, paid, interest) := r in
    db ← pay_interest db interest;
    modify_account db n (fun a =>
      b ← Asset.add bal delta;
      _ ← fc_assert (negb check_balance || (0 <=? amount b));
      Ok (a <| Account.sbd_balance := b |> <| Account.sbd_seconds := secs |>
            <| Account.sbd_seconds_last_update := upd |> <| Account.sbd_last_interest_payment := paid |>))
  else if symbol delta =? STEEM_ASSET_NUM_VESTS then
    modify_account db n (fun a =>
      b ← Asset.add (Account.vesting_shares a) delta;
      _ ← fc_assert (negb check_balance || (0 <=? amount b));
      Ok (a <| Account.vesting_shares := b |>))
  else Throw assert_exception.

Definition adjust_balance (db : database) (n : account_name_type) (delta : asset) : result database :=
  modify_balance db n delta true.

Definition adjust_savings_balance (db : database) (n : account_name_type) (delta : asset) : result database :=
  if symbol delta =? STEEM_ASSET_NUM_STEEM then
    modify_account db n (fun a =>
      b ← Asset.add (Account.savings_balance a) delta;
      _ ← fc_assert (0 <=? amount b);
      Ok (a <| Account.savings_balance := b |>))
  else if symbol delta =? STEEM_ASSET_NUM_SBD then
    a ← get_account db n;
    r ← accrue_interest (head_block_time db) (Gpo.sbd_interest_rate (Db.gpo db))
          (Account.savings_sbd_balance a) (Account.savings_sbd_seconds a)
          (Account.savings_sbd_seconds_last_update a) (Account.savings_sbd_last_interest_payment a);
    let '(bal, secs, upd, paid, interest) := r in
    db ← pay_interest db interest;
    modify_account db n (fun a =>
      b ← Asset.add bal delta;
      _ ← fc_assert (0 <=? amount b);
      Ok (a <| Account.savings_sbd_balance := b |> <| Account.savings_sbd_seconds := secs |>
            <| Account.savings_sbd_seconds_last_update := upd |>
            <| Account.savings_sbd_last_interest_payment := paid |>))
  else Throw assert_exception.

Definition modify_reward_balance (db : database) (n : account_name_type) (value_delta share_delta : asset)
    (check_balance : bool) : result database :=
  modify_account db n (fun a =>
    if symbol value_delta =? STEEM_ASSET_NUM_STEEM then
      if amount share_delta =? 0 then
        b ← Asset.add (Account.reward_steem_balance a) value_delta;
        _ ← fc_assert (negb check_balance || (0 <=? amount b));
        Ok (a <| Account.reward_steem_balance := b |>)
      else
        s ← Asset.add (Account.reward_vesting_steem a) value_delta;
        b ← Asset.add (Account.reward_vesting_balance a) share_delta;
        _ ← fc_assert (negb check_balance || (0 <=? amount b));
        Ok (a <| Account.reward_vesting_steem := s |> <| Account.reward_vesting_balance := b |>)
    else if symbol value_delta =? STEEM_ASSET_NUM_SBD then
      _ ← fc_assert (amount share_delta =? 0);
      b ← Asset.add (Account.reward_sbd_balance a) value_delta;
      _ ← fc_assert (negb check_balance || (0 <=? amount b));
      Ok (a <| Account.reward_sbd_balance := b |>)
    else Throw assert_exception).

Definition no_shares : asset := mk_asset 0 VESTS_SYMBOL.

Definition adjust_reward_balance (db : database) (n : account_name_type) (value_delta share_delta : asset)
    : result database :=
  v ← Symbol.is_vesting (symbol value_delta);
  s ← Symbol.is_vesting (symbol share_delta);
  _ ← fc_assert (negb v && s);
  modify_reward_balance db n value_delta share_delta true.

Definition get_balance (a : account_object) (s : asset_symbol_type) : result asset :=
  if s =? STEEM_ASSET_NUM_STEEM then Ok (Account.balance a)
  else if s =? STEEM_ASSET_NUM_SBD then Ok (Account.sbd_balance a)
  else Throw assert_exception.

Definition get_savings_balance (a : account_object) (s : asset_symbol_type) : result asset :=
  if s =? STEEM_ASSET_NUM_STEEM then Ok (Account.savings_balance a)
  else if s =? STEEM_ASSET_NUM_SBD then Ok (Account.savings_sbd_balance a)
  else Throw assert_exception.

Definition get_effective_vesting_shares (a : account_object) (s : asset_symbol_type) : result asset :=
  if s =? VESTS_SYMBOL then
    d ← Asset.sub (Account.vesting_shares a) (Account.delegated_vesting_shares a);
    Asset.add d (Account.received_vesting_shares a)
  else Throw assert_exception.

(** ** Supply *)

Definition adjust_supply (db : database) (delta : asset) (adjust_vesting : bool) : result database :=
  let adjust_vesting :=
    if head_block_num db <? STEEM_BLOCKS_PER_DAY * 7 then false else adjust_vesting in
  modify_gpo db (fun g =>
    if symbol delta =? STEEM_ASSET_NUM_STEEM then
      nv ← (if adjust_vesting && (0 <? amount delta) then Safe.mul (amount delta) 9 else Ok 0);
      let new_vesting := mk_asset nv STEEM_SYMBOL in
      d ← Asset.add delta new_vesting;
      s ← Asset.add (Gpo.current_supply g) d;
      v ← Asset.add (Gpo.virtual_supply g) d;
      f ← Asset.add (Gpo.total_vesting_fund_steem g) new_vesting;
      _ ← fc_assert (0 <=? amount s);
      Ok (g <| Gpo.current_supply := s |> <| Gpo.virtual_supply := v |>
            <| Gpo.total_vesting_fund_steem := f |>)
    else if symbol delta =? STEEM_ASSET_NUM_SBD then
      s ← Asset.add (Gpo.current_sbd_supply g) delta;
      v ← Price.mul s (FeedHistory.current_median_history (Db.feed_history db));
      v ← Asset.add v (Gpo.current_supply g);
      _ ← fc_assert (0 <=? amount s);
      Ok (g <| Gpo.current_sbd_supply := s |> <| Gpo.virtual_supply := v |>)
    else Throw assert_exception).

(** ** Witness votes *)

Definition adjust_witness_vote (db : database) (w : account_name_type) (delta : Z) : result database :=
  let now := WitnessSchedule.current_virtual_time (Db.wso db) in
  modify_witness db w (fun w =>
    let delta_pos := u128 (u128 (Witness.votes w) * u128 (now - Witness.virtual_last_update w)) in
    let pos := u128 (Witness.virtual_position w + delta_pos) in
    votes ← Safe.add (Witness.votes w) delta;
    _ ← fc_assert (votes <=? amount (Gpo.total_vesting_shares (Db.gpo db)));
    let d := u128 (votes + 1) in
    _ ← (if d =? 0 then Throw divide_by_zero_exception else Ok tt);
    let t := u128 (now + u128 (STEEM_VIRTUAL_SCHEDULE_LAP_LENGTH2 - pos) / d) in
    let t := if t <? now then UINT128_MAX else t in
    Ok (w <| Witness.virtual_position := pos |> <| Witness.virtual_last_update := now |>
          <| Witness.votes := votes |> <| Witness.virtual_scheduled_time := t |>)).

(** the witnesses an account votes for, in the order of by_account_witness *)
Definition voted_witnesses (db : database) (n : account_name_type) : list account_name_type :=
  merge_sort name_le
    (map snd (filter (fun p => fst p = n) (elements (Db.witness_votes db)))).

Definition adjust_witness_votes (db : database) (n : account_name_type) (delta : Z) : result database :=
  foldM (fun db w => adjust_witness_vote db w delta) db (voted_witnesses db n).

(** [l[i] += d] on the array of proxied votes *)
Definition add_at (i : nat) (d : Z) (l : list Z) : result (list Z) :=
  v ← get_or out_of_range (l !! i);
  v ← Safe.add v d;
  Ok (<[i := v]> l).

(** The recursion descends at most STEEM_MAX_PROXY_RECURSION_DEPTH times: the
    structural argument [togo] is STEEM_MAX_PROXY_RECURSION_DEPTH - depth. *)
Fixpoint adjust_proxied_at (togo : nat) (db : database) (n : account_name_type) (delta : Z)
    : result database :=
  a ← get_account db n;
  if decide (Account.proxy a = STEEM_PROXY_TO_SELF_ACCOUNT) then adjust_witness_votes db n delta
  else
    match togo with
    | O => Ok db
    | S togo =>
        let depth := (Z.to_nat STEEM_MAX_PROXY_RECURSION_DEPTH - S togo)%nat in
        db ← modify_account db (Account.proxy a) (fun p =>
               v ← add_at depth delta (Account.proxied_vsf_votes p);
               Ok (p <| Account.proxied_vsf_votes := v |>));
        adjust_proxied_at togo db (Account.proxy a) delta
    end.

Definition adjust_proxied_witness_votes (db : database) (n : account_name_type) (delta : Z)
    : result database :=
  adjust_proxied_at (Z.to_nat STEEM_MAX_PROXY_RECURSION_DEPTH) db n delta.

(** The overload on an array of deltas, one per proxy distance: at a distance of
    [depth] the entries delta[0 .. 4 - depth - 1] are added at offset [depth]
    (the loop runs from the highest index down). *)
Fixpoint add_all_at (i : nat) (ds l : list Z) : result (list Z) :=
  match ds with
  | [] => Ok l
  | d :: ds => l ← add_all_at (S i) ds l; add_at i d l
  end.

Fixpoint adjust_proxied_array_at (togo : nat) (db : database) (n : account_name_type) (delta : list Z)
    : result database :=
  a ← get_account db n;
  if decide (Account.proxy a = STEEM_PROXY_TO_SELF_ACCOUNT) then
    total_delta ← foldM Safe.add 0 (reverse (take (S togo) delta));
    adjust_witness_votes db n total_delta
  else
    match togo with
    | O => Ok db
    | S togo' =>
        let depth := (Z.to_nat STEEM_MAX_PROXY_RECURSION_DEPTH - togo)%nat in
        db ← modify_account db (Account.proxy a) (fun p =>
               v ← add_all_at depth (take togo delta) (Account.proxied_vsf_votes p);
               Ok (p <| Account.proxied_vsf_votes := v |>));
        adjust_proxied_array_at togo' db (Account.proxy a) delta
    end.

Definition adjust_proxied_witness_votes_array (db : database) (n : account_name_type) (delta : list Z)
    : result database :=
  adjust_proxied_array_at (Z.to_nat STEEM_MAX_PROXY_RECURSION_DEPTH) db n delta.

Definition clear_witness_votes (db : database) (n : account_name_type) : result database :=
  let db := db <| Db.witness_votes ::= filter (fun p => fst p <> n) |> in
  modify_account db n (fun a => Ok (a <| Account.witnesses_voted_for := 0 |>)).

(** ** Creation of SBD and of vesting shares *)

Definition create_sbd (db : database) (to_account : account_name_type) (steem : asset)
    (to_reward_balance : bool) : result (database * (asset * asset)) :=
  if amount steem =? 0 then Ok (db, (mk_asset 0 SBD_SYMBOL, mk_asset 0 STEEM_SYMBOL))
  else
    let median_price := FeedHistory.current_median_history (Db.feed_history db) in
    if negb (Price.is_null median_price) then
      m ← Safe.mul (Gpo.sbd_print_rate (Db.gpo db)) (amount steem);
      to_sbd ← Safe.div m STEEM_100_PERCENT;
      to_steem ← Safe.sub (amount steem) to_sbd;
      sbd ← Price.mul (mk_asset to_sbd STEEM_SYMBOL) median_price;
      db ← (if to_reward_balance then
              db ← adjust_reward_balance db to_account sbd no_shares;
              adjust_reward_balance db to_account (mk_asset to_steem STEEM_SYMBOL) no_shares
            else
              db ← adjust_balance db to_account sbd;
              adjust_balance db to_account (mk_asset to_steem STEEM_SYMBOL));
      minus_sbd ← Safe.neg to_sbd;
      db ← adjust_supply db (mk_asset minus_sbd STEEM_SYMBOL) false;
      db ← adjust_supply db sbd false;
      Ok (db, (sbd, mk_asset to_steem STEEM_SYMBOL))
    else
      db ← adjust_balance db to_account steem;
      Ok (db, (mk_asset 0 SBD_SYMBOL, steem)).

Definition create_vesting (db : database) (to_account : account_name_type) (liquid : asset)
    (to_reward_balance : bool) : result (database * asset) :=
  _ ← fc_assert (symbol liquid =? STEEM_SYMBOL);
  vesting_share_price ← (if to_reward_balance then get_reward_vesting_share_price (Db.gpo db)
                         else get_vesting_share_price (Db.gpo db));
  new_vesting ← Price.mul liquid vesting_share_price;
  db ← (if to_reward_balance then adjust_reward_balance db to_account liquid new_vesting
        else adjust_balance db to_account new_vesting);
  db ← modify_gpo db (fun g =>
         if to_reward_balance then
           s ← Asset.add (Gpo.pending_rewarded_vesting_shares g) new_vesting;
           f ← Asset.add (Gpo.pending_rewarded_vesting_steem g) liquid;
           Ok (g <| Gpo.pending_rewarded_vesting_shares := s |> <| Gpo.pending_rewarded_vesting_steem := f |>)
         else
           f ← Asset.add (Gpo.total_vesting_fund_steem g) liquid;
           s ← Asset.add (Gpo.total_vesting_shares g) new_vesting;
           Ok (g <| Gpo.total_vesting_fund_steem := f |> <| Gpo.total_vesting_shares := s |>));
  db ← (if to_reward_balance then Ok db
        else adjust_proxied_witness_votes db to_account (amount new_vesting));
  Ok (db, new_vesting).

(** ** Burning what the null account holds *)

(** One block of clear_null_account_balance for a balance that an adjust
    function can bring to zero: adds it to the running total and removes it. *)
Definition burn (field : account_object -> asset)
    (adjust : database -> account_name_type -> asset -> result database)
    (db : database) (total : asset) : result (database * asset) :=
  a ← get_account db STEEM_NULL_ACCOUNT;
  if 0 <? amount (field a) then
    total ← Asset.add total (field a);
    d ← Asset.neg (field a);
    db ← adjust db STEEM_NULL_ACCOUNT d;
    Ok (db, total)
  else Ok (db, total).

Definition burn_vesting (db : database) (total_steem : asset) : result (database * asset) :=
  a ← get_account db STEEM_NULL_ACCOUNT;
  if 0 <? amount (Account.vesting_shares a) then
    p ← get_vesting_share_price (Db.gpo db);
    converted_steem ← Price.mul (Account.vesting_shares a) p;
    db ← modify_gpo db (fun g =>
           s ← Asset.sub (Gpo.total_vesting_shares g) (Account.vesting_shares a);
           f ← Asset.sub (Gpo.total_vesting_fund_steem g) converted_steem;
           Ok (g <| Gpo.total_vesting_shares := s |> <| Gpo.total_vesting_fund_steem := f |>));
    db ← modify_account db STEEM_NULL_ACCOUNT (fun a =>
           Ok (a <| Account.vesting_shares ::= fun v => mk_asset 0 (symbol v) |>));
    total_steem ← Asset.add total_steem converted_steem;
    Ok (db, total_steem)
  else Ok (db, total_steem).

Definition burn_reward_vesting (db : database) (total_steem : asset) : result (database * asset) :=
  a ← get_account db STEEM_NULL_ACCOUNT;
  if 0 <? amount (Account.reward_vesting_balance a) then
    total_steem ← Asset.add total_steem (Account.reward_vesting_steem a);
    db ← modify_gpo db (fun g =>
           s ← Asset.sub (Gpo.pending_rewarded_vesting_shares g) (Account.reward_vesting_balance a);
           f ← Asset.sub (Gpo.pending_rewarded_vesting_steem g) (Account.reward_vesting_steem a);
           Ok (g <| Gpo.pending_rewarded_vesting_shares := s |>
                 <| Gpo.pending_rewarded_vesting_steem := f |>));
    db ← modify_account db STEEM_NULL_ACCOUNT (fun a =>
           Ok (a <| Account.reward_vesting_steem ::= fun v => mk_asset 0 (symbol v) |>
                 <| Account.reward_vesting_balance ::= fun v => mk_asset 0 (symbol v) |>));
    Ok (db, total_steem)
  else Ok (db, total_steem).

Definition adjust_reward (db : database) (n : account_name_type) (d : asset) : result database :=
  adjust_reward_balance db n d no_shares.

Definition clear_null_account_balance (db : database) : result database :=
  let total_steem := mk_asset 0 STEEM_SYMBOL in
  let total_sbd := mk_asset 0 SBD_SYMBOL in
  '(db, total_steem) ← burn Account.balance adjust_balance db total_steem;
  '(db, total_steem) ← burn Account.savings_balance adjust_savings_balance db total_steem;
  '(db, total_sbd) ← burn Account.sbd_balance adjust_balance db total_sbd;
  '(db, total_sbd) ← burn Account.savings_sbd_balance adjust_savings_balance db total_sbd;
  '(db, total_steem) ← burn_vesting db total_steem;
  '(db, total_steem) ← burn Account.reward_steem_balance adjust_reward db total_steem;
  '(db, total_sbd) ← burn Account.reward_sbd_balance adjust_reward db total_sbd;
  '(db, total_steem) ← burn_reward_vesting db total_steem;
  db ← (if 0 <? amount total_steem then
          d ← Asset.neg total_steem; adjust_supply db d false
        else Ok db);
  if 0 <? amount total_sbd then
    d ← Asset.neg total_sbd; adjust_supply db d false
  else Ok db.
