(* ===== verification/Supply.v ===== *)
(** Supply: the accounting invariant of the chain and the effect of the balance
    operations on it.

    [validate_invariants] is the checker of database.cpp.  [supply_ok] states the
    same equations as integers: each is a "gap" between a recorded total and the
    sum over the objects that hold the asset.  [moves] says how a piece of code
    changes every gap; an operation conserves value when it moves nothing.  [wf]
    is the type invariant: every asset field carries its symbol. *)
From Stdlib Require Import ZArith Lia String Ascii.
From stdpp Require Import base gmap strings list sorting.
From S2P Require Import Prelude.
From S2P Require Import Safe.
From S2P Require Import Asset.
From S2P Require Import Authority.
From S2P Require Import Objects.
From S2P Require Import Balance.
Local Open Scope string_scope.
Local Open Scope Z_scope.
Local Open Scope fc_scope.

(** ** database::validate_invariants *)

Record totals : Type := mk_totals {
  total_supply : asset;
  total_sbd : asset;
  total_vesting : asset;
  pending_vesting_steem : asset;
  total_vsf_votes : Z
}.
#[export] Instance totals_rebuild : Rebuild totals := fun r =>
  mk_totals (total_supply r) (total_sbd r) (total_vesting r) (pending_vesting_steem r) (total_vsf_votes r).

Definition no_totals : totals :=
  mk_totals (mk_asset 0 STEEM_SYMBOL) (mk_asset 0 SBD_SYMBOL) (mk_asset 0 VESTS_SYMBOL)
    (mk_asset 0 STEEM_SYMBOL) 0.

Definition add_to_supply (x : asset) (t : totals) : result totals :=
  s ← Asset.add (total_supply t) x; Ok (t <| total_supply := s |>).
Definition add_to_sbd (x : asset) (t : totals) : result totals :=
  s ← Asset.add (total_sbd t) x; Ok (t <| total_sbd := s |>).

(** what an account contributes to total_vsf_votes *)
Definition vsf_votes (a : account_object) : result Z :=
  if decide (Account.proxy a = STEEM_PROXY_TO_SELF_ACCOUNT) then witness_vote_weight a
  else get_or out_of_range
         (Account.proxied_vsf_votes a !! Z.to_nat (STEEM_MAX_PROXY_RECURSION_DEPTH - 1)).

Definition count_account (t : totals) (a : account_object) : result totals :=
  t ← add_to_supply (Account.balance a) t;
  t ← add_to_supply (Account.savings_balance a) t;
  t ← add_to_supply (Account.reward_steem_balance a) t;
  t ← add_to_sbd (Account.sbd_balance a) t;
  t ← add_to_sbd (Account.savings_sbd_balance a) t;
  t ← add_to_sbd (Account.reward_sbd_balance a) t;
  v ← Asset.add (total_vesting t) (Account.vesting_shares a);
  v ← Asset.add v (Account.reward_vesting_balance a);
  p ← Asset.add (pending_vesting_steem t) (Account.reward_vesting_steem a);
  w ← vsf_votes a;
  w ← Safe.add (total_vsf_votes t) w;
  Ok (t <| total_vesting := v |> <| pending_vesting_steem := p |> <| total_vsf_votes := w |>).

(** an amount that must be STEEM or SBD *)
Definition count_liquid (x : asset) (t : totals) : result totals :=
  if symbol x =? STEEM_SYMBOL then add_to_supply x t
  else if symbol x =? SBD_SYMBOL then add_to_sbd x t
  else Throw assert_exception.

Definition count_order (t : totals) (o : limit_order_object) : result totals :=
  if symbol (base (LimitOrder.sell_price o)) =? STEEM_SYMBOL then
    add_to_supply (mk_asset (LimitOrder.for_sale o) STEEM_SYMBOL) t
  else if symbol (base (LimitOrder.sell_price o)) =? SBD_SYMBOL then
    add_to_sbd (mk_asset (LimitOrder.for_sale o) SBD_SYMBOL) t
  else Ok t.

Definition count_escrow (t : totals) (e : escrow_object) : result totals :=
  t ← add_to_supply (Escrow.steem_balance e) t;
  t ← add_to_sbd (Escrow.sbd_balance e) t;
  count_liquid (Escrow.pending_fee e) t.

Definition values {K V} `{Countable K} (m : gmap K V) : list V := map snd (map_to_list m).

(** The sums do not depend on the order in which an index is walked unless an
    intermediate sum leaves int64; the model walks the maps in their own order. *)
Definition validate_invariants (db : database) : result unit :=
  let g := Db.gpo db in
  _ ← foldM (fun _ w => fc_assert (Witness.votes w <=? amount (Gpo.total_vesting_shares g)))
        tt (values (Db.witnesses db));
  t ← foldM count_account no_totals (values (Db.accounts db));
  t ← foldM (fun t c => count_liquid (ConvertRequest.amount_ c) t) t (values (Db.convert_requests db));
  t ← foldM count_order t (values (Db.limit_orders db));
  t ← foldM count_escrow t (values (Db.escrows db));
  t ← foldM (fun t s => count_liquid (SavingsWithdraw.amount_ s) t) t (values (Db.savings_withdraws db));
  t ← foldM (fun t r => add_to_supply (RewardFund.reward_balance r) t) t (values (Db.reward_funds db));
  x ← Asset.add (Gpo.total_vesting_fund_steem g) (Gpo.total_reward_fund_steem g);
  x ← Asset.add x (Gpo.pending_rewarded_vesting_steem g);
  t ← add_to_supply x t;
  _ ← fc_assert (Asset.eqb (Gpo.current_supply g) (total_supply t));
  _ ← fc_assert (Asset.eqb (Gpo.current_sbd_supply g) (total_sbd t));
  v ← Asset.add (Gpo.total_vesting_shares g) (Gpo.pending_rewarded_vesting_shares g);
  _ ← fc_assert (Asset.eqb v (total_vesting t));
  _ ← fc_assert (amount (Gpo.total_vesting_shares g) =? total_vsf_votes t);
  _ ← fc_assert (Asset.eqb (Gpo.pending_rewarded_vesting_steem g) (pending_vesting_steem t));
  b ← Asset.geb (Gpo.virtual_supply g) (Gpo.current_supply g);
  _ ← fc_assert b;
  let median := FeedHistory.current_median_history (Db.feed_history db) in
  if Price.is_null median then Ok tt
  else
    s ← Price.mul (Gpo.current_sbd_supply g) median;
    s ← Asset.add s (Gpo.current_supply g);
    fc_assert (Asset.eqb s (Gpo.virtual_supply g)).

(** ** The invariant as equations between integers *)

(** the amount of [x] in the asset [s] *)
Definition val (s : asset_symbol_type) (x : asset) : Z := if symbol x =? s then amount x else 0.

Definition acc_steem (a : account_object) : Z :=
  amount (Account.balance a) + amount (Account.savings_balance a) + amount (Account.reward_steem_balance a).
Definition acc_sbd (a : account_object) : Z :=
  amount (Account.sbd_balance a) + amount (Account.savings_sbd_balance a) + amount (Account.reward_sbd_balance a).
Definition acc_vests (a : account_object) : Z :=
  amount (Account.vesting_shares a) + amount (Account.reward_vesting_balance a).
Definition acc_pending (a : account_object) : Z := amount (Account.reward_vesting_steem a).
Definition zsum (l : list Z) : Z := foldr Z.add 0 l.
Definition self_proxied (a : account_object) : bool :=
  bool_decide (Account.proxy a = STEEM_PROXY_TO_SELF_ACCOUNT).
Definition acc_vsf (a : account_object) : Z :=
  if self_proxied a then amount (Account.vesting_shares a) + zsum (Account.proxied_vsf_votes a)
  else Account.proxied_vsf_votes a !!! 3%nat.
Definition order_held (s : asset_symbol_type) (o : limit_order_object) : Z := val s (amount_for_sale o).
Definition escrow_steem (e : escrow_object) : Z :=
  amount (Escrow.steem_balance e) + val STEEM_SYMBOL (Escrow.pending_fee e).
Definition escrow_sbd (e : escrow_object) : Z :=
  amount (Escrow.sbd_balance e) + val SBD_SYMBOL (Escrow.pending_fee e).

Definition steem_gap (db : database) : Z :=
  amount (Gpo.current_supply (Db.gpo db))
  - (msum acc_steem (Db.accounts db)
     + msum (fun c => val STEEM_SYMBOL (ConvertRequest.amount_ c)) (Db.convert_requests db)
     + msum (order_held STEEM_SYMBOL) (Db.limit_orders db)
     + msum escrow_steem (Db.escrows db)
     + msum (fun s => val STEEM_SYMBOL (SavingsWithdraw.amount_ s)) (Db.savings_withdraws db)
     + msum (fun r => amount (RewardFund.reward_balance r)) (Db.reward_funds db)
     + amount (Gpo.total_vesting_fund_steem (Db.gpo db))
     + amount (Gpo.total_reward_fund_steem (Db.gpo db))
     + amount (Gpo.pending_rewarded_vesting_steem (Db.gpo db))).

Definition sbd_gap (db : database) : Z :=
  amount (Gpo.current_sbd_supply (Db.gpo db))
  - (msum acc_sbd (Db.accounts db)
     + msum (fun c => val SBD_SYMBOL (ConvertRequest.amount_ c)) (Db.convert_requests db)
     + msum (order_held SBD_SYMBOL) (Db.limit_orders db)
     + msum escrow_sbd (Db.escrows db)
     + msum (fun s => val SBD_SYMBOL (SavingsWithdraw.amount_ s)) (Db.savings_withdraws db)).

Definition vests_gap (db : database) : Z :=
  amount (Gpo.total_vesting_shares (Db.gpo db)) + amount (Gpo.pending_rewarded_vesting_shares (Db.gpo db))
  - msum acc_vests (Db.accounts db).

Definition pending_gap (db : database) : Z :=
  amount (Gpo.pending_rewarded_vesting_steem (Db.gpo db)) - msum acc_pending (Db.accounts db).

Definition vsf_gap (db : database) : Z :=
  amount (Gpo.total_vesting_shares (Db.gpo db)) - msum acc_vsf (Db.accounts db).

Definition supply_ok (db : database) : Prop :=
  steem_gap db = 0 /\ sbd_gap db = 0 /\ vests_gap db = 0 /\ pending_gap db = 0 /\ vsf_gap db = 0.

(** ** The type invariant: the symbol every asset field carries *)

Definition account_wf (a : account_object) : Prop :=
  symbol (Account.balance a) = STEEM_SYMBOL /\ symbol (Account.savings_balance a) = STEEM_SYMBOL /\
  symbol (Account.sbd_balance a) = SBD_SYMBOL /\ symbol (Account.savings_sbd_balance a) = SBD_SYMBOL /\
  symbol (Account.reward_sbd_balance a) = SBD_SYMBOL /\
  symbol (Account.reward_steem_balance a) = STEEM_SYMBOL /\
  symbol (Account.reward_vesting_balance a) = VESTS_SYMBOL /\
  symbol (Account.reward_vesting_steem a) = STEEM_SYMBOL /\
  symbol (Account.vesting_shares a) = VESTS_SYMBOL /\
  symbol (Account.delegated_vesting_shares a) = VESTS_SYMBOL /\
  symbol (Account.received_vesting_shares a) = VESTS_SYMBOL /\
  symbol (Account.vesting_withdraw_rate a) = VESTS_SYMBOL /\
  List.length (Account.proxied_vsf_votes a) = 4%nat.

Definition liquid_symbol (s : asset_symbol_type) : Prop := s = STEEM_SYMBOL \/ s = SBD_SYMBOL.

Definition escrow_wf (e : escrow_object) : Prop :=
  symbol (Escrow.steem_balance e) = STEEM_SYMBOL /\ symbol (Escrow.sbd_balance e) = SBD_SYMBOL /\
  liquid_symbol (symbol (Escrow.pending_fee e)).
Definition order_wf (o : limit_order_object) : Prop :=
  liquid_symbol (symbol (base (LimitOrder.sell_price o))) /\
  liquid_symbol (symbol (quote (LimitOrder.sell_price o))).

Definition gpo_wf (g : dynamic_global_property_object) : Prop :=
  symbol (Gpo.virtual_supply g) = STEEM_SYMBOL /\ symbol (Gpo.current_supply g) = STEEM_SYMBOL /\
  symbol (Gpo.current_sbd_supply g) = SBD_SYMBOL /\
  symbol (Gpo.total_vesting_fund_steem g) = STEEM_SYMBOL /\
  symbol (Gpo.total_vesting_shares g) = VESTS_SYMBOL /\
  symbol (Gpo.total_reward_fund_steem g) = STEEM_SYMBOL /\
  symbol (Gpo.pending_rewarded_vesting_shares g) = VESTS_SYMBOL /\
  symbol (Gpo.pending_rewarded_vesting_steem g) = STEEM_SYMBOL.

Record wf (db : database) : Prop := mk_wf {
  wf_accounts : map_Forall (fun _ a => account_wf a) (Db.accounts db);
  wf_escrows : map_Forall (fun _ e => escrow_wf e) (Db.escrows db);
  wf_orders : map_Forall (fun _ o => order_wf o) (Db.limit_orders db);
  wf_converts : map_Forall (fun _ c => symbol (ConvertRequest.amount_ c) = SBD_SYMBOL) (Db.convert_requests db);
  wf_savings : map_Forall (fun _ s => liquid_symbol (symbol (SavingsWithdraw.amount_ s))) (Db.savings_withdraws db);
  wf_funds : map_Forall (fun _ r => symbol (RewardFund.reward_balance r) = STEEM_SYMBOL) (Db.reward_funds db);
  wf_delegations : map_Forall (fun _ d => symbol (VestingDelegation.vesting_shares d) = VESTS_SYMBOL)
                     (Db.vesting_delegations db);
  wf_expirations : map_Forall (fun _ d => symbol (VestingDelegationExpiration.vesting_shares d) = VESTS_SYMBOL)
                     (Db.vesting_delegation_expirations db);
  wf_gpo : gpo_wf (Db.gpo db)
}.

(** ** Moves *)

(** [db'] is well-formed and its gaps are those of [db] plus the given amounts. *)
Record moves (db db' : database) (steem sbd vests pending vsf : Z) : Prop := mk_moves {
  mv_wf : wf db';
  mv_steem : steem_gap db' = steem_gap db + steem;
  mv_sbd : sbd_gap db' = sbd_gap db + sbd;
  mv_vests : vests_gap db' = vests_gap db + vests;
  mv_pending : pending_gap db' = pending_gap db + pending;
  mv_vsf : vsf_gap db' = vsf_gap db + vsf
}.

(** an operation that conserves every asset *)
Definition conserves (db db' : database) : Prop := moves db db' 0 0 0 0 0.

Lemma conserves_supply db db' : conserves db db' -> supply_ok db -> supply_ok db'.
Proof. intros [] (?&?&?&?&?). repeat split; lia. Qed.

Lemma moves_refl db : wf db -> conserves db db.
Proof. intros. split; [done|lia..]. Qed.

Lemma moves_trans db1 db2 db3 s d v p w s' d' v' p' w' :
  moves db1 db2 s d v p w -> moves db2 db3 s' d' v' p' w' ->
  moves db1 db3 (s + s') (d + d') (v + v') (p + p') (w + w').
Proof. intros [] []. split; [done|lia..]. Qed.

Lemma conserves_trans db1 db2 db3 : conserves db1 db2 -> conserves db2 db3 -> conserves db1 db3.
Proof. intros [] []. split; [done|lia..]. Qed.

Lemma moves_eq db db' s d v p w s' d' v' p' w' :
  moves db db' s d v p w -> s = s' -> d = d' -> v = v' -> p = p' -> w = w' ->
  moves db db' s' d' v' p' w'.
Proof. by intros ? -> -> -> -> ->. Qed.

(** ** Updates of one part of the database *)

Definition gpo_steem (g : dynamic_global_property_object) : Z :=
  amount (Gpo.current_supply g) - amount (Gpo.total_vesting_fund_steem g)
  - amount (Gpo.total_reward_fund_steem g) - amount (Gpo.pending_rewarded_vesting_steem g).
Definition gpo_sbd (g : dynamic_global_property_object) : Z := amount (Gpo.current_sbd_supply g).
Definition gpo_vests (g : dynamic_global_property_object) : Z :=
  amount (Gpo.total_vesting_shares g) + amount (Gpo.pending_rewarded_vesting_shares g).
Definition gpo_pending (g : dynamic_global_property_object) : Z :=
  amount (Gpo.pending_rewarded_vesting_steem g).
Definition gpo_vsf (g : dynamic_global_property_object) : Z := amount (Gpo.total_vesting_shares g).

Ltac gaps := unfold steem_gap, sbd_gap, vests_gap, pending_gap, vsf_gap; simpl.

Lemma wf_account db n a : wf db -> Db.accounts db !! n = Some a -> account_wf a.
Proof. intros Hwf. apply (wf_accounts db Hwf). Qed.

Lemma account_moves db n a a' :
  wf db -> Db.accounts db !! n = Some a -> account_wf a' ->
  moves db (db <| Db.accounts ::= <[n := a']> |>)
    (acc_steem a - acc_steem a') (acc_sbd a - acc_sbd a') (acc_vests a - acc_vests a')
    (acc_pending a - acc_pending a') (acc_vsf a - acc_vsf a').
Proof.
  intros [] Ha Ha'. split; [split; simpl; auto|..].
  - by apply map_Forall_insert_2.
  - gaps. rewrite (msum_insert _ _ _ _ _ Ha). lia.
  - gaps. rewrite (msum_insert _ _ _ _ _ Ha). lia.
  - gaps. rewrite (msum_insert _ _ _ _ _ Ha). lia.
  - gaps. rewrite (msum_insert _ _ _ _ _ Ha). lia.
  - gaps. rewrite (msum_insert _ _ _ _ _ Ha). lia.
Qed.

Lemma gpo_moves db g :
  wf db -> gpo_wf g ->
  moves db (db <| Db.gpo := g |>)
    (gpo_steem g - gpo_steem (Db.gpo db)) (gpo_sbd g - gpo_sbd (Db.gpo db))
    (gpo_vests g - gpo_vests (Db.gpo db)) (gpo_pending g - gpo_pending (Db.gpo db))
    (gpo_vsf g - gpo_vsf (Db.gpo db)).
Proof.
  intros [] Hg. split; [split; simpl; auto|gaps; unfold gpo_steem, gpo_sbd, gpo_vests, gpo_pending, gpo_vsf; lia..].
Qed.

Lemma orders_moves db m :
  wf db -> map_Forall (fun _ o => order_wf o) m ->
  moves db (db <| Db.limit_orders := m |>)
    (msum (order_held STEEM_SYMBOL) (Db.limit_orders db) - msum (order_held STEEM_SYMBOL) m)
    (msum (order_held SBD_SYMBOL) (Db.limit_orders db) - msum (order_held SBD_SYMBOL) m) 0 0 0.
Proof. intros [] Hm. split; [split; simpl; auto|gaps; lia..]. Qed.

Lemma escrows_moves db m :
  wf db -> map_Forall (fun _ o => escrow_wf o) m ->
  moves db (db <| Db.escrows := m |>)
    (msum escrow_steem (Db.escrows db) - msum escrow_steem m)
    (msum escrow_sbd (Db.escrows db) - msum escrow_sbd m) 0 0 0.
Proof. intros [] Hm. split; [split; simpl; auto|gaps; lia..]. Qed.

Definition convert_held (s : asset_symbol_type) (c : convert_request_object) : Z := val s (ConvertRequest.amount_ c).
Definition savings_held (s : asset_symbol_type) (c : savings_withdraw_object) : Z := val s (SavingsWithdraw.amount_ c).
Definition fund_held (r : reward_fund_object) : Z := amount (RewardFund.reward_balance r).

Lemma converts_moves db m :
  wf db -> map_Forall (fun _ c => symbol (ConvertRequest.amount_ c) = SBD_SYMBOL) m ->
  moves db (db <| Db.convert_requests := m |>)
    (msum (convert_held STEEM_SYMBOL) (Db.convert_requests db) - msum (convert_held STEEM_SYMBOL) m)
    (msum (convert_held SBD_SYMBOL) (Db.convert_requests db) - msum (convert_held SBD_SYMBOL) m) 0 0 0.
Proof. intros [] Hm. split; [split; simpl; auto|gaps; unfold convert_held; lia..]. Qed.

Lemma savings_moves db m :
  wf db -> map_Forall (fun _ c => liquid_symbol (symbol (SavingsWithdraw.amount_ c))) m ->
  moves db (db <| Db.savings_withdraws := m |>)
    (msum (savings_held STEEM_SYMBOL) (Db.savings_withdraws db) - msum (savings_held STEEM_SYMBOL) m)
    (msum (savings_held SBD_SYMBOL) (Db.savings_withdraws db) - msum (savings_held SBD_SYMBOL) m) 0 0 0.
Proof. intros [] Hm. split; [split; simpl; auto|gaps; unfold savings_held; lia..]. Qed.

Lemma funds_moves db m :
  wf db -> map_Forall (fun _ r => symbol (RewardFund.reward_balance r) = STEEM_SYMBOL) m ->
  moves db (db <| Db.reward_funds := m |>)
    (msum fund_held (Db.reward_funds db) - msum fund_held m) 0 0 0 0.
Proof. intros [] Hm. split; [split; simpl; auto|gaps; unfold fund_held; lia..]. Qed.

(** The parts of the database the accounting reads. *)
Definition same_ledger (db db' : database) : Prop :=
  Db.accounts db' = Db.accounts db /\ Db.escrows db' = Db.escrows db /\
  Db.limit_orders db' = Db.limit_orders db /\ Db.convert_requests db' = Db.convert_requests db /\
  Db.savings_withdraws db' = Db.savings_withdraws db /\ Db.reward_funds db' = Db.reward_funds db /\
  Db.vesting_delegations db' = Db.vesting_delegations db /\
  Db.vesting_delegation_expirations db' = Db.vesting_delegation_expirations db /\
  Db.gpo db' = Db.gpo db.

#[export] Instance same_ledger_preorder : PreOrder same_ledger.
Proof.
  split; [by intros ?|].
  intros x y z (?&?&?&?&?&?&?&?&?) (?&?&?&?&?&?&?&?&?). repeat split; congruence.
Qed.

Lemma same_ledger_conserves db db' : wf db -> same_ledger db db' -> conserves db db'.
Proof.
  intros [] (E1&E2&E3&E4&E5&E6&E7&E8&E9). split.
  - split; rewrite ?E1, ?E2, ?E3, ?E4, ?E5, ?E6, ?E7, ?E8, ?E9; auto.
  - unfold steem_gap. rewrite E1, E2, E3, E4, E5, E6, E9. lia.
  - unfold sbd_gap. rewrite E1, E2, E3, E4, E5, E9. lia.
  - unfold vests_gap. rewrite E1, E9. lia.
  - unfold pending_gap. rewrite E1, E9. lia.
  - unfold vsf_gap. rewrite E1, E9. lia.
Qed.

Lemma val_same x : val (symbol x) x = amount x.
Proof. unfold val. by rewrite Z.eqb_refl. Qed.
Lemma val_mk_same s v : val s (mk_asset v s) = v.
Proof. unfold val. simpl. by rewrite Z.eqb_refl. Qed.
Lemma val_sbd_of_steem v : val SBD_SYMBOL (mk_asset v STEEM_SYMBOL) = 0.
Proof. done. Qed.
Lemma val_steem_of_sbd v : val STEEM_SYMBOL (mk_asset v SBD_SYMBOL) = 0.
Proof. done. Qed.
Lemma val_eq s x : symbol x = s -> val s x = amount x.
Proof. intros <-. apply val_same. Qed.
Lemma val_other s x : symbol x <> s -> val s x = 0.
Proof. unfold val. intros. destruct (Z.eqb_spec (symbol x) s); congruence. Qed.
Lemma val_neg s x : val s (mk_asset (- amount x) (symbol x)) = - val s x.
Proof. unfold val. simpl. destruct (symbol x =? s); lia. Qed.

(** ** The balance operations *)

Lemma get_account_Ok db n a : get_account db n = Ok a -> Db.accounts db !! n = Some a.
Proof. unfold get_account, find_account. intros H. by result_inv. Qed.

Lemma modify_account_inv db n f db' : modify_account db n f = Ok db' ->
  exists a a', Db.accounts db !! n = Some a /\ f a = Ok a' /\ db' = db <| Db.accounts ::= <[n := a']> |>.
Proof.
  unfold modify_account. intros H. result_inv.
  match goal with H : get_account _ _ = Ok _ |- _ => apply get_account_Ok in H end. eauto.
Qed.

Lemma modify_gpo_inv db f db' : modify_gpo db f = Ok db' ->
  exists g, f (Db.gpo db) = Ok g /\ db' = db <| Db.gpo := g |>.
Proof. unfold modify_gpo. intros H. result_inv. eauto. Qed.

(** The interest paid is added to the balance. *)
Lemma accrue_interest_Ok now rate bal secs upd paid bal' secs' upd' paid' interest :
  accrue_interest now rate bal secs upd paid = Ok (bal', secs', upd', paid', interest) ->
  amount bal' = amount bal + default 0 (amount <$> interest) /\ symbol bal' = symbol bal /\
  (forall i, interest = Some i -> symbol i = SBD_SYMBOL).
Proof.
  unfold accrue_interest. intros H. result_case; simplify_eq; simpl; auto with lia; asset_inv; simpl;
    repeat split; try lia; intros; simplify_eq; done.
Qed.

Lemma pay_interest_moves db interest db' :
  wf db -> (forall i, interest = Some i -> symbol i = SBD_SYMBOL) -> pay_interest db interest = Ok db' ->
  moves db db' 0 (default 0 (amount <$> interest)) 0 0 0 /\ Db.accounts db' = Db.accounts db.
Proof.
  intros Hwf Hsym H. destruct interest as [i|]; simpl in *; result_inv; [|by split; [apply moves_refl|]].
  apply modify_gpo_inv in H as (g & Hg & ->). split; [|done]. result_inv. asset_inv.
  pose proof (wf_gpo db Hwf) as (?&?&?&?&?&?&?&?).
  eapply moves_eq; [apply gpo_moves; [done|unfold gpo_wf; simpl; auto 10]|
    unfold gpo_steem, gpo_sbd, gpo_vests, gpo_pending, gpo_vsf; simpl; lia..].
Qed.

Ltac account_wf_inv :=
  repeat match goal with
  | Hwf : wf ?db, Ha : Db.accounts ?db !! ?n = Some ?a |- _ =>
      lazymatch goal with
      | _ : account_wf a |- _ => fail
      | _ => pose proof (wf_account db n a Hwf Ha)
      end
  end.

Ltac solve_account_wf :=
  account_wf_inv;
  repeat match goal with H : account_wf _ |- _ => destruct H as (?&?&?&?&?&?&?&?&?&?&?&?&?) end;
  unfold account_wf; simpl; repeat split; (assumption || congruence).

Ltac acc_unfold :=
  unfold acc_steem, acc_sbd, acc_vests, acc_pending, acc_vsf, self_proxied; simpl.

(** the [if]s of [val] on a known symbol *)
Ltac solve_val :=
  unfold val in *; simpl in *;
  repeat match goal with
  | H : symbol ?x = _ |- context [symbol ?x] => rewrite H
  end; simpl; try lia; repeat (destruct (bool_decide _); simpl); try lia.

Lemma modify_balance_moves db n d check db' :
  wf db -> modify_balance db n d check = Ok db' ->
  exists a, Db.accounts db !! n = Some a /\
    moves db db' (- val STEEM_SYMBOL d) (- val SBD_SYMBOL d) (- val VESTS_SYMBOL d) 0
      (- val VESTS_SYMBOL d * b2z (self_proxied a)).
Proof.
  intros Hwf. unfold modify_balance.
  destruct (Z.eqb_spec (symbol d) STEEM_ASSET_NUM_STEEM) as [E|_];
  [|destruct (Z.eqb_spec (symbol d) STEEM_ASSET_NUM_SBD) as [E|_];
    [|destruct (Z.eqb_spec (symbol d) STEEM_ASSET_NUM_VESTS) as [E|_]; [|done]]].
  - intros H. apply modify_account_inv in H as (a & a' & Ha & Ha' & ->). exists a. split; [done|].
    result_inv. asset_inv.
    eapply moves_eq; [apply account_moves; [done..|solve_account_wf]|acc_unfold; solve_val..].
  - intros H. apply bind_Ok_1 in H as (a & Ha & H). cbv beta in H. apply get_account_Ok in Ha.
    apply bind_Ok_1 in H as ([[[[bal secs] upd] paid] interest] & Hi & H). cbv beta iota in H.
    apply bind_Ok_1 in H as (db1 & Hp & H). cbv beta in H.
    apply accrue_interest_Ok in Hi as (Hbal & Hs & Hi).
    apply pay_interest_moves in Hp as [Hp Hacc]; [|done..]. exists a. split; [done|].
    apply modify_account_inv in H as (a1 & a' & Ha1 & Ha' & ->).
    rewrite Hacc, Ha in Ha1. injection Ha1 as <-. result_inv. asset_inv.
    eapply moves_eq; [eapply moves_trans; [exact Hp|apply account_moves; [apply Hp|by rewrite Hacc|solve_account_wf]]|
      acc_unfold; solve_val..].
  - intros H. apply modify_account_inv in H as (a & a' & Ha & Ha' & ->). exists a. split; [done|].
    result_inv. asset_inv.
    eapply moves_eq; [apply account_moves; [done..|solve_account_wf]|acc_unfold; solve_val..].
Qed.

(** What the balance operations leave alone: every map but the accounts and the
    witnesses, and the set of accounts with their proxies. *)
Definition frame (db db' : database) : Prop :=
  db' = db <| Db.accounts := Db.accounts db' |> <| Db.gpo := Db.gpo db' |> <| Db.witnesses := Db.witnesses db' |>
  /\ forall m, Account.proxy <$> (Db.accounts db' !! m) = Account.proxy <$> (Db.accounts db !! m).

#[export] Instance frame_preorder : PreOrder frame.
Proof.
  split; [intros db; split; [by destruct db|done]|].
  intros x y z [Hy Ay] [Hz Az]. split; [|intros m; by rewrite Az, Ay].
  rewrite Hz, Hy. reflexivity.
Qed.

Lemma frame_escrows db db' : frame db db' -> Db.escrows db' = Db.escrows db.
Proof. intros [-> _]. done. Qed.
Lemma frame_orders db db' : frame db db' -> Db.limit_orders db' = Db.limit_orders db.
Proof. intros [-> _]. done. Qed.
Lemma frame_converts db db' : frame db db' -> Db.convert_requests db' = Db.convert_requests db.
Proof. intros [-> _]. done. Qed.
Lemma frame_savings db db' : frame db db' -> Db.savings_withdraws db' = Db.savings_withdraws db.
Proof. intros [-> _]. done. Qed.
Lemma frame_funds db db' : frame db db' -> Db.reward_funds db' = Db.reward_funds db.
Proof. intros [-> _]. done. Qed.
Lemma frame_feed db db' : frame db db' -> Db.feed_history db' = Db.feed_history db.
Proof. intros [-> _]. done. Qed.

Lemma frame_account db db' n a :
  frame db db' -> Db.accounts db !! n = Some a ->
  exists a', Db.accounts db' !! n = Some a' /\ Account.proxy a' = Account.proxy a.
Proof.
  intros [_ F] Ha. specialize (F n). rewrite Ha in F. simpl in F.
  destruct (Db.accounts db' !! n); simplify_eq/=; eauto.
Qed.

Lemma account_frame db n a a' :
  Db.accounts db !! n = Some a -> Account.proxy a' = Account.proxy a ->
  frame db (db <| Db.accounts ::= <[n := a']> |>).
Proof.
  intros Ha E. split; [done|]. simpl. intros m. destruct (decide (m = n)) as [->|].
  - rewrite lookup_insert_eq, Ha. simpl. congruence.
  - by rewrite lookup_insert_ne by done.
Qed.

Lemma gpo_frame db g : frame db (db <| Db.gpo := g |>).
Proof. done. Qed.

Lemma modify_account_frame db n f db' :
  modify_account db n f = Ok db' -> (forall a a', f a = Ok a' -> Account.proxy a' = Account.proxy a) ->
  frame db db'.
Proof. intros H Hf. apply modify_account_inv in H as (a & a' & Ha & Ha' & ->). eauto using account_frame. Qed.

Lemma modify_gpo_frame db f db' : modify_gpo db f = Ok db' -> frame db db'.
Proof. intros H. apply modify_gpo_inv in H as (g & _ & ->). apply gpo_frame. Qed.

Lemma pay_interest_frame db i db' : pay_interest db i = Ok db' -> frame db db'.
Proof. destruct i; simpl; [apply modify_gpo_frame|]. by intros [= ->]. Qed.

(** discharges the proxy condition of [modify_account_frame] *)
Ltac keeps_proxy := cbv beta; intros; result_case; reflexivity.

Lemma modify_balance_frame db n d check db' : modify_balance db n d check = Ok db' -> frame db db'.
Proof.
  unfold modify_balance. intros H. result_case;
    try (eapply modify_account_frame; [eassumption|keeps_proxy]).
  etrans; [eapply pay_interest_frame; eassumption|eapply modify_account_frame; [eassumption|keeps_proxy]].
Qed.

Lemma adjust_savings_balance_moves db n d db' :
  wf db -> adjust_savings_balance db n d = Ok db' ->
  moves db db' (- val STEEM_SYMBOL d) (- val SBD_SYMBOL d) 0 0 0.
Proof.
  intros Hwf. unfold adjust_savings_balance.
  destruct (Z.eqb_spec (symbol d) STEEM_ASSET_NUM_STEEM) as [E|_];
  [|destruct (Z.eqb_spec (symbol d) STEEM_ASSET_NUM_SBD) as [E|_]; [|done]].
  - intros H. apply modify_account_inv in H as (a & a' & Ha & Ha' & ->).
    result_inv. asset_inv.
    eapply moves_eq; [apply account_moves; [done..|solve_account_wf]|acc_unfold; solve_val..].
  - intros H. apply bind_Ok_1 in H as (a & Ha & H). cbv beta in H. apply get_account_Ok in Ha.
    apply bind_Ok_1 in H as ([[[[bal secs] upd] paid] interest] & Hi & H). cbv beta iota in H.
    apply bind_Ok_1 in H as (db1 & Hp & H). cbv beta in H.
    apply accrue_interest_Ok in Hi as (Hbal & Hs & Hi).
    apply pay_interest_moves in Hp as [Hp Hacc]; [|done..].
    apply modify_account_inv in H as (a1 & a' & Ha1 & Ha' & ->).
    rewrite Hacc, Ha in Ha1. injection Ha1 as <-. result_inv. asset_inv.
    eapply moves_eq; [eapply moves_trans; [exact Hp|apply account_moves; [apply Hp|by rewrite Hacc|solve_account_wf]]|
      acc_unfold; solve_val..].
Qed.

Lemma adjust_savings_balance_frame db n d db' : adjust_savings_balance db n d = Ok db' -> frame db db'.
Proof.
  unfold adjust_savings_balance. intros H. result_case;
    try (eapply modify_account_frame; [eassumption|keeps_proxy]).
  etrans; [eapply pay_interest_frame; eassumption|eapply modify_account_frame; [eassumption|keeps_proxy]].
Qed.

(** A STEEM value with shares goes to the pending vesting rewards, any other
    value to the liquid rewards. *)
Lemma adjust_reward_balance_moves db n v s db' :
  wf db -> adjust_reward_balance db n v s = Ok db' ->
  moves db db' (if amount s =? 0 then - val STEEM_SYMBOL v else 0) (- val SBD_SYMBOL v)
    (- amount s) (if amount s =? 0 then 0 else - val STEEM_SYMBOL v) 0.
Proof.
  intros Hwf. unfold adjust_reward_balance. intros H. result_inv.
  apply modify_account_inv in H as (a & a' & Ha & Ha' & ->).
  result_case; zbool; asset_inv;
    (eapply moves_eq; [apply account_moves; [done..|solve_account_wf]|acc_unfold; solve_val..]).
  all: destruct (amount _ =? 0); lia.
Qed.

Lemma adjust_reward_balance_frame db n v s db' : adjust_reward_balance db n v s = Ok db' -> frame db db'.
Proof.
  unfold adjust_reward_balance. intros H. result_inv.
  eapply modify_account_frame; [eassumption|keeps_proxy].
Qed.

(** Only the amount itself enters the supply: what adjust_vesting adds to the
    vesting fund is part of the supply it creates. *)
Lemma adjust_supply_moves db d adjust_vesting db' :
  wf db -> adjust_supply db d adjust_vesting = Ok db' ->
  moves db db' (val STEEM_SYMBOL d) (val SBD_SYMBOL d) 0 0 0.
Proof.
  intros Hwf. unfold adjust_supply. intros H.
  apply modify_gpo_inv in H as (g & Hg & ->).
  pose proof (wf_gpo db Hwf) as (?&?&?&?&?&?&?&?).
  destruct (Z.eqb_spec (symbol d) STEEM_ASSET_NUM_STEEM) as [E|_];
  [|destruct (Z.eqb_spec (symbol d) STEEM_ASSET_NUM_SBD) as [E|_]; [|done]];
  result_inv; asset_inv;
  (eapply moves_eq; [apply gpo_moves; [done|unfold gpo_wf; simpl; repeat split; congruence]|
     unfold gpo_steem, gpo_sbd, gpo_vests, gpo_pending, gpo_vsf; simpl; solve_val..]).
Qed.

Lemma adjust_supply_frame db d v db' : adjust_supply db d v = Ok db' -> frame db db'.
Proof. apply modify_gpo_frame. Qed.

(** ** Witness votes *)

Lemma modify_witness_inv db n f db' : modify_witness db n f = Ok db' ->
  exists w w', Db.witnesses db !! n = Some w /\ f w = Ok w' /\ db' = db <| Db.witnesses ::= <[n := w']> |>.
Proof. unfold modify_witness, get_witness, find_witness. intros H. result_inv. eauto. Qed.

Lemma adjust_witness_votes_ledger db n d db' :
  adjust_witness_votes db n d = Ok db' -> same_ledger db db' /\ frame db db'.
Proof.
  unfold adjust_witness_votes, adjust_witness_vote. intros H. split; revert H.
  - apply foldM_preorder; [apply _|]. intros x w y H.
    apply modify_witness_inv in H as (? & ? & ? & ? & ->). done.
  - apply foldM_preorder; [apply _|]. intros x w y H.
    apply modify_witness_inv in H as (? & ? & ? & ? & ->). done.
Qed.

Lemma add_at_Ok i d l l' : add_at i d l = Ok l' -> exists v, l !! i = Some v /\ l' = <[i := v + d]> l.
Proof. unfold add_at. intros H. result_inv. asset_inv. eauto. Qed.

Lemma zsum_insert l : forall i v x, l !! i = Some v -> zsum (<[i := x]> l) = zsum l - v + x.
Proof.
  induction l as [|y l IH]; intros [|i] v x Hi; simplify_eq/=; [lia|].
  rewrite (IH _ _ _ Hi). lia.
Qed.

Lemma self_proxied_true a : Account.proxy a = STEEM_PROXY_TO_SELF_ACCOUNT -> self_proxied a = true.
Proof. apply bool_decide_true. Qed.
Lemma self_proxied_false a : Account.proxy a <> STEEM_PROXY_TO_SELF_ACCOUNT -> self_proxied a = false.
Proof. apply bool_decide_false. Qed.

(** Proxied votes reach an account that votes directly, or stop at the last
    entry of the array of the fourth proxy: either way they are counted once. *)
Lemma adjust_proxied_at_moves togo : forall db n d db' a,
  (togo <= 4)%nat -> wf db -> Db.accounts db !! n = Some a -> adjust_proxied_at togo db n d = Ok db' ->
  moves db db' 0 0 0 0 (- (if self_proxied a || (togo =? 0)%nat then 0 else d)) /\ frame db db'.
Proof.
  induction togo as [|togo IH]; intros db n d db' a Hn Hwf Ha H; simpl in H;
    apply bind_Ok_1 in H as (a1 & Ha1 & H); cbv beta in H; apply get_account_Ok in Ha1; simplify_map_eq;
    case_decide as Hp; rewrite ?(self_proxied_true _ Hp), ?(self_proxied_false _ Hp); simpl.
  1,3: apply adjust_witness_votes_ledger in H as [HL HF]; split; [by apply same_ledger_conserves|done].
  - result_inv. split; [by apply moves_refl|done].
  - apply bind_Ok_1 in H as (db1 & H1 & H). cbv beta in H.
    apply modify_account_inv in H1 as (p & p' & Hacc & Hp' & ->). result_inv.
    match goal with H : add_at _ _ _ = Ok _ |- _ => apply add_at_Ok in H as (v & Hv & ->) end.
    set (p' := p <| Account.proxied_vsf_votes := _ |>) in *.
    pose proof (wf_account _ _ _ Hwf Hacc) as Hpw.
    assert (account_wf p') as Hpw'.
    { unfold p'. destruct Hpw as (?&?&?&?&?&?&?&?&?&?&?&?&?).
      repeat split; simpl; rewrite ?length_insert; assumption. }
    assert (acc_vsf p' - acc_vsf p = if self_proxied p || (togo =? 0)%nat then d else 0) as Hvsf.
    { unfold acc_vsf, self_proxied, p'. simpl.
      destruct (bool_decide _); simpl; [rewrite (zsum_insert _ _ _ _ Hv); lia|].
      destruct togo as [|[|[|[|]]]]; simpl in *; try lia.
      + rewrite !list_lookup_total_alt, list_lookup_insert_eq, Hv by (apply lookup_lt_Some in Hv; done).
        simpl. lia.
      + rewrite !list_lookup_total_alt, list_lookup_insert_ne by done. lia.
      + rewrite !list_lookup_total_alt, list_lookup_insert_ne by done. lia.
      + rewrite !list_lookup_total_alt, list_lookup_insert_ne by done. lia. }
    pose proof (account_moves db _ p p' Hwf Hacc Hpw') as M1.
    eapply IH in H as [M2 F2]; [|lia|apply M1|simpl; apply lookup_insert_eq].
    split; [|etrans; [|exact F2]; by apply (account_frame _ _ p)].
    assert (self_proxied p' = self_proxied p) as Hself by done.
    eapply moves_eq; [eapply moves_trans; [exact M1|exact M2]|unfold acc_steem, acc_sbd, acc_vests, acc_pending, p';
      simpl; lia..|].
    rewrite Hself. clear - Hvsf. clearbody p'. destruct (self_proxied p), (togo =? 0)%nat; cbn [orb] in *; lia.
Qed.

Lemma adjust_proxied_witness_votes_moves db n d db' a :
  wf db -> Db.accounts db !! n = Some a -> adjust_proxied_witness_votes db n d = Ok db' ->
  moves db db' 0 0 0 0 (- (if self_proxied a then 0 else d)) /\ frame db db'.
Proof.
  intros Hwf Ha H. eapply adjust_proxied_at_moves in H; [|unfold STEEM_MAX_PROXY_RECURSION_DEPTH; lia|done..].
  by rewrite orb_false_r in H.
Qed.

Lemma clear_witness_votes_moves db n db' :
  wf db -> clear_witness_votes db n = Ok db' -> conserves db db'.
Proof.
  intros Hwf H. unfold clear_witness_votes in H. apply modify_account_inv in H as (a & a' & Ha & Ha' & ->).
  result_inv. set (db1 := db <| Db.witness_votes ::= _ |>) in *.
  assert (conserves db db1) as M by (by apply same_ledger_conserves).
  eapply moves_eq; [eapply moves_trans; [exact M|apply (account_moves db1 _ _ _ (mv_wf _ _ _ _ _ _ _ M) Ha)]|..].
  - assert (account_wf a) by (by apply (wf_account db n)). solve_account_wf.
  - done || (acc_unfold; lia).
  - done || (acc_unfold; lia).
  - done || (acc_unfold; lia).
  - done || (acc_unfold; lia).
  - done || (acc_unfold; lia).
Qed.

(** ** Creation of SBD and of vesting shares *)

Lemma make_Ok b q p : Price.make b q = Ok p -> p = mk_price b q.
Proof. unfold Price.make. intros H. by result_inv. Qed.

(** the shares bought at either vesting share price are VESTS *)
Lemma vesting_price_mul (reward : bool) g p liquid n :
  gpo_wf g -> (if reward then get_reward_vesting_share_price g else get_vesting_share_price g) = Ok p ->
  symbol liquid = STEEM_SYMBOL -> Price.mul liquid p = Ok n -> symbol n = VESTS_SYMBOL.
Proof.
  intros (?&?&?&?&?&?&?&?) Hp Hl Hn. apply AssetFacts.asset_mul_Ok in Hn.
  assert ((symbol (base p) = VESTS_SYMBOL /\ symbol (quote p) = STEEM_SYMBOL) \/
          (symbol (base p) = STEEM_SYMBOL /\ symbol (quote p) = VESTS_SYMBOL)) as Hs.
  { destruct reward; unfold get_reward_vesting_share_price, get_vesting_share_price in Hp;
      result_case; asset_inv;
      match goal with H : Price.make _ _ = Ok _ |- _ => apply make_Ok in H; subst end; simpl; auto. }
  assert (STEEM_SYMBOL <> VESTS_SYMBOL) by done. intuition congruence.
Qed.

(** create_vesting takes [liquid] out of the caller's hands and keeps every
    other total, for the reward balance only when it buys at least one share or
    nothing is paid. *)
Lemma create_vesting_moves db n liquid (reward : bool) db' nv :
  wf db -> create_vesting db n liquid reward = Ok (db', nv) -> (reward = true -> amount nv <> 0 \/ amount liquid = 0) ->
  moves db db' (- amount liquid) 0 0 0 0 /\ frame db db' /\ symbol nv = VESTS_SYMBOL.
Proof.
  intros Hwf H Hne. unfold create_vesting in H.
  bind H as u Hsym. apply fc_assert_Ok, Z.eqb_eq in Hsym. bind H as p Hp. bind H as nv' Hnv.
  bind H as db1 Hadj. bind H as db2 Hgpo. bind H as db3 Hprox. injection H as <- <-.
  pose proof (vesting_price_mul _ _ _ _ _ (wf_gpo db Hwf) Hp Hsym Hnv) as Hs.
  apply modify_gpo_inv in Hgpo as (g & Hg & ->).
  destruct reward.
  - pose proof (adjust_reward_balance_frame _ _ _ _ _ Hadj) as F1.
    apply adjust_reward_balance_moves in Hadj; [|done]. specialize (Hne eq_refl).
    pose proof (wf_gpo db1 (mv_wf _ _ _ _ _ _ _ Hadj)) as (?&?&?&?&?&?&?&?).
    result_inv. asset_inv. split; [|split; [etrans; [exact F1|apply gpo_frame]|done]].
    destruct (Z.eqb_spec (amount nv') 0) as [Z0|_]; [destruct Hne as [|L0]; [done|]|];
      (eapply moves_eq; [eapply moves_trans; [exact Hadj|apply gpo_moves;
        [apply Hadj|unfold gpo_wf; simpl; auto 10]]|..]);
      unfold gpo_steem, gpo_sbd, gpo_vests, gpo_pending, gpo_vsf; solve_val.
  - pose proof (modify_balance_frame _ _ _ _ _ Hadj) as F1.
    apply modify_balance_moves in Hadj as (a & Ha & Hadj); [|done].
    destruct (frame_account _ _ _ _ F1 Ha) as (a1 & Ha1 & Hpr).
    pose proof (wf_gpo db1 (mv_wf _ _ _ _ _ _ _ Hadj)) as (?&?&?&?&?&?&?&?).
    result_inv. asset_inv.
    epose proof (gpo_moves db1 _ (mv_wf _ _ _ _ _ _ _ Hadj) _) as M2.
    eapply adjust_proxied_witness_votes_moves in Hprox as [M3 F3]; [|apply M2|exact Ha1].
    split; [|split; [etrans; [exact F1|exact F3]|done]].
    eapply moves_eq; [eapply moves_trans; [exact Hadj|eapply moves_trans; [exact M2|exact M3]]|..];
      unfold gpo_steem, gpo_sbd, gpo_vests, gpo_pending, gpo_vsf, self_proxied; rewrite ?Hpr; solve_val.
    Unshelve. unfold gpo_wf; simpl; auto 10.
Qed.

(** A reward that buys no share is counted twice: [modify_reward_balance] takes a delta of
    no shares for a liquid reward, and [create_vesting] books the same STEEM as pending
    vesting.  The STEEM held exceeds the supply by the reward, and the pending STEEM is
    that of no account. *)
Lemma shareless_reward_counted_twice db n liquid db' nv :
  wf db -> create_vesting db n liquid true = Ok (db', nv) -> amount nv = 0 ->
  moves db db' (- amount liquid - amount liquid) 0 0 (amount liquid) 0.
Proof.
  intros Hwf H Z0. unfold create_vesting in H.
  bind H as u Hsym. apply fc_assert_Ok, Z.eqb_eq in Hsym. bind H as p Hp. bind H as nv' Hnv.
  bind H as db1 Hadj. bind H as db2 Hgpo. injection H as <- <-.
  pose proof (vesting_price_mul true _ _ _ _ (wf_gpo db Hwf) Hp Hsym Hnv) as Hs.
  apply modify_gpo_inv in Hgpo as (g & Hg & ->). apply adjust_reward_balance_moves in Hadj; [|done].
  pose proof (wf_gpo db1 (mv_wf _ _ _ _ _ _ _ Hadj)) as (?&?&?&?&?&?&?&?). result_inv. asset_inv.
  rewrite Z0 in Hadj. simpl in Hadj.
  eapply moves_eq; [eapply moves_trans; [exact Hadj|apply gpo_moves; [apply Hadj|unfold gpo_wf; simpl; auto 10]]|..];
    unfold gpo_steem, gpo_sbd, gpo_vests, gpo_pending, gpo_vsf; solve_val.
Qed.

(** ** Liquid amounts *)

Lemma liquid_not_vests d : liquid_symbol (symbol d) -> val VESTS_SYMBOL d = 0.
Proof. unfold liquid_symbol, val. by intros [-> | ->]. Qed.

Lemma adjust_balance_moves db n d db' :
  wf db -> liquid_symbol (symbol d) -> adjust_balance db n d = Ok db' ->
  moves db db' (- val STEEM_SYMBOL d) (- val SBD_SYMBOL d) 0 0 0 /\ frame db db'.
Proof.
  intros Hwf Hl H. split; [|by eapply modify_balance_frame].
  apply modify_balance_moves in H as (a & _ & M); [|done].
  rewrite (liquid_not_vests d Hl) in M. eapply moves_eq; [exact M|lia..].
Qed.

Lemma adjust_savings_moves db n d db' :
  wf db -> adjust_savings_balance db n d = Ok db' ->
  moves db db' (- val STEEM_SYMBOL d) (- val SBD_SYMBOL d) 0 0 0 /\ frame db db'.
Proof. eauto using adjust_savings_balance_moves, adjust_savings_balance_frame. Qed.

Lemma adjust_reward_liquid_moves db n d db' :
  wf db -> adjust_reward_balance db n d no_shares = Ok db' ->
  moves db db' (- val STEEM_SYMBOL d) (- val SBD_SYMBOL d) 0 0 0 /\ frame db db'.
Proof.
  intros Hwf H. split; [|by eapply adjust_reward_balance_frame].
  by apply adjust_reward_balance_moves in H.
Qed.

Lemma adjust_supply_liquid db d v db' : adjust_supply db d v = Ok db' -> liquid_symbol (symbol d).
Proof.
  unfold adjust_supply. intros H. apply modify_gpo_inv in H as (g & Hg & _). unfold liquid_symbol.
  result_case; zbool; auto.
Qed.

(** create_sbd pays out exactly [steem], part of it converted. *)
Lemma create_sbd_moves db n steem reward db' r :
  wf db -> symbol steem = STEEM_SYMBOL -> create_sbd db n steem reward = Ok (db', r) ->
  moves db db' (- amount steem) 0 0 0 0 /\ frame db db'.
Proof.
  intros Hwf Hsym H. unfold create_sbd in H.
  destruct (Z.eqb_spec (amount steem) 0) as [E|_].
  { injection H as <- <-. rewrite E. split; [by apply moves_refl|done]. }
  destruct (Price.is_null _); simpl in H.
  - bind H as db1 Hadj. injection H as <- <-.
    apply adjust_balance_moves in Hadj as [M F]; [|done|by left].
    split; [|done]. eapply moves_eq; [exact M|solve_val..].
  - bind H as m Hm. bind H as ts Hts. bind H as tst Htst. bind H as sbd Hsbd.
    bind H as db2 Hadj. bind H as msbd Hneg. bind H as db3 Hs1. bind H as db4 Hs2. injection H as <- <-.
    pose proof (adjust_supply_liquid _ _ _ _ Hs2) as Hl.
    assert (moves db db2 (- val STEEM_SYMBOL sbd - tst) (- val SBD_SYMBOL sbd) 0 0 0 /\ frame db db2) as [M F].
    { assert (exists db1, moves db db1 (- val STEEM_SYMBOL sbd) (- val SBD_SYMBOL sbd) 0 0 0 /\ frame db db1 /\
        moves db1 db2 (- tst) 0 0 0 0 /\ frame db1 db2) as (db1 & M1 & F1 & M2 & F2).
      { destruct reward; bind Hadj as db1 Hadj1; exists db1.
        - apply adjust_reward_liquid_moves in Hadj1 as [M1 F1]; [|done].
          by apply adjust_reward_liquid_moves in Hadj as [M2 F2]; [|apply M1].
        - apply adjust_balance_moves in Hadj1 as [M1 F1]; [|done..].
          by apply adjust_balance_moves in Hadj as [M2 F2]; [|apply M1|left]. }
      split; [|by etrans]. eapply moves_eq; [eapply moves_trans; [exact M1|exact M2]|lia..]. }
    pose proof (adjust_supply_frame _ _ _ _ Hs1). pose proof (adjust_supply_frame _ _ _ _ Hs2).
    apply adjust_supply_moves in Hs1 as M3; [|apply M]. apply adjust_supply_moves in Hs2 as M4; [|apply M3].
    split; [|etrans; [exact F|by etrans]]. asset_inv.
    rewrite val_mk_same, val_sbd_of_steem in M3.
    eapply moves_eq; [eapply moves_trans; [exact M|eapply moves_trans; [exact M3|exact M4]]|lia..].
Qed.

(** ** Creating, modifying and removing objects that hold assets *)

Lemma create_inv {K V} `{Countable K} idx (field : database -> gmap K V) `{!Setter field} key c db db' :
  create idx field key c db = Ok db' ->
  field db !! key = None /\
  exists ids, db' = (db <| Db.next_id := ids |>) <| field ::= <[key := c (Db.next_id db idx)]> |>.
Proof. unfold create. intros E. destruct (field db !! key) eqn:Hk; [done|]. injection E as <-. eauto. Qed.

Lemma modify_obj_inv {K V} `{Countable K} (field : database -> gmap K V) `{!Setter field} key f db db' :
  modify_obj field key f db = Ok db' ->
  exists v v', field db !! key = Some v /\ f v = Ok v' /\ db' = db <| field ::= <[key := v']> |>.
Proof. unfold modify_obj. intros E. result_inv. eauto. Qed.

Lemma ids_conserve db ids : wf db -> conserves db (db <| Db.next_id := ids |>).
Proof. intros. by apply same_ledger_conserves. Qed.

Lemma create_savings_moves db k c db' :
  wf db -> create savings_withdraw_index Db.savings_withdraws k c db = Ok db' ->
  (forall i, liquid_symbol (symbol (SavingsWithdraw.amount_ (c i)))) ->
  exists i, moves db db' (- savings_held STEEM_SYMBOL (c i)) (- savings_held SBD_SYMBOL (c i)) 0 0 0.
Proof.
  intros Hwf (Hk & ids & ->)%create_inv Hc. exists (Db.next_id db savings_withdraw_index).
  eapply moves_eq; [eapply moves_trans; [by apply ids_conserve|apply savings_moves;
    [by eapply mv_wf, ids_conserve|apply map_Forall_insert_2; [apply Hc|apply Hwf]]]|..];
    simpl; rewrite ?msum_insert_new by exact Hk; lia.
Qed.

Lemma create_convert_moves db k c db' :
  wf db -> create convert_request_index Db.convert_requests k c db = Ok db' ->
  (forall i, symbol (ConvertRequest.amount_ (c i)) = SBD_SYMBOL) ->
  exists i, moves db db' (- convert_held STEEM_SYMBOL (c i)) (- convert_held SBD_SYMBOL (c i)) 0 0 0.
Proof.
  intros Hwf (Hk & ids & ->)%create_inv Hc. exists (Db.next_id db convert_request_index).
  eapply moves_eq; [eapply moves_trans; [by apply ids_conserve|apply converts_moves;
    [by eapply mv_wf, ids_conserve|apply map_Forall_insert_2; [apply Hc|apply Hwf]]]|..];
    simpl; rewrite ?msum_insert_new by exact Hk; lia.
Qed.

Lemma create_escrow_moves db k c db' :
  wf db -> create escrow_index Db.escrows k c db = Ok db' -> (forall i, escrow_wf (c i)) ->
  exists i, moves db db' (- escrow_steem (c i)) (- escrow_sbd (c i)) 0 0 0.
Proof.
  intros Hwf (Hk & ids & ->)%create_inv Hc. exists (Db.next_id db escrow_index).
  eapply moves_eq; [eapply moves_trans; [by apply ids_conserve|apply escrows_moves;
    [by eapply mv_wf, ids_conserve|apply map_Forall_insert_2; [apply Hc|apply Hwf]]]|..];
    simpl; rewrite ?msum_insert_new by exact Hk; lia.
Qed.

Lemma create_order_moves db k c db' :
  wf db -> create limit_order_index Db.limit_orders k c db = Ok db' -> (forall i, order_wf (c i)) ->
  exists i, moves db db' (- order_held STEEM_SYMBOL (c i)) (- order_held SBD_SYMBOL (c i)) 0 0 0.
Proof.
  intros Hwf (Hk & ids & ->)%create_inv Hc. exists (Db.next_id db limit_order_index).
  eapply moves_eq; [eapply moves_trans; [by apply ids_conserve|apply orders_moves;
    [by eapply mv_wf, ids_conserve|apply map_Forall_insert_2; [apply Hc|apply Hwf]]]|..];
    simpl; rewrite ?msum_insert_new by exact Hk; lia.
Qed.

(** a new account holds nothing *)
Lemma create_account_moves db n c db' :
  wf db -> create account_index Db.accounts n c db = Ok db' ->
  (forall i, account_wf (c i) /\ acc_steem (c i) = 0 /\ acc_sbd (c i) = 0 /\ acc_vests (c i) = 0 /\
     acc_pending (c i) = 0 /\ acc_vsf (c i) = 0) -> conserves db db'.
Proof.
  intros Hwf (Hk & ids & ->)%create_inv Hc. destruct (Hc (Db.next_id db account_index)) as (W&?&?&?&?&?).
  destruct Hwf. split.
  - split; simpl; auto. by apply map_Forall_insert_2.
  - gaps. rewrite msum_insert_new by done. lia.
  - gaps. rewrite msum_insert_new by done. lia.
  - gaps. rewrite msum_insert_new by done. lia.
  - gaps. rewrite msum_insert_new by done. lia.
  - gaps. rewrite msum_insert_new by done. lia.
Qed.

Lemma remove_savings_moves db k s :
  wf db -> Db.savings_withdraws db !! k = Some s ->
  moves db (remove Db.savings_withdraws k db) (savings_held STEEM_SYMBOL s) (savings_held SBD_SYMBOL s) 0 0 0.
Proof.
  intros Hwf Hk. eapply moves_eq; [apply (savings_moves _ (delete k (Db.savings_withdraws db)));
    [done|apply map_Forall_delete, Hwf]|..]; rewrite ?(msum_delete _ _ _ _ Hk); lia.
Qed.

Lemma remove_convert_moves db k c :
  wf db -> Db.convert_requests db !! k = Some c ->
  moves db (remove Db.convert_requests k db) (convert_held STEEM_SYMBOL c) (convert_held SBD_SYMBOL c) 0 0 0.
Proof.
  intros Hwf Hk. eapply moves_eq; [apply (converts_moves _ (delete k (Db.convert_requests db)));
    [done|apply map_Forall_delete, Hwf]|..]; rewrite ?(msum_delete _ _ _ _ Hk); lia.
Qed.

Lemma remove_escrow_moves db k e :
  wf db -> Db.escrows db !! k = Some e ->
  moves db (remove Db.escrows k db) (escrow_steem e) (escrow_sbd e) 0 0 0.
Proof.
  intros Hwf Hk. eapply moves_eq; [apply (escrows_moves _ (delete k (Db.escrows db)));
    [done|apply map_Forall_delete, Hwf]|..]; rewrite ?(msum_delete _ _ _ _ Hk); lia.
Qed.

Lemma remove_order_moves db k o :
  wf db -> Db.limit_orders db !! k = Some o ->
  moves db (remove Db.limit_orders k db) (order_held STEEM_SYMBOL o) (order_held SBD_SYMBOL o) 0 0 0.
Proof.
  intros Hwf Hk. eapply moves_eq; [apply (orders_moves _ (delete k (Db.limit_orders db)));
    [done|apply map_Forall_delete, Hwf]|..]; rewrite ?(msum_delete _ _ _ _ Hk); lia.
Qed.

Lemma modify_escrow_moves db k f db' :
  wf db -> modify_obj Db.escrows k f db = Ok db' -> (forall e e', escrow_wf e -> f e = Ok e' -> escrow_wf e') ->
  exists e e', Db.escrows db !! k = Some e /\ f e = Ok e' /\ Db.escrows db' !! k = Some e' /\
    Db.accounts db' = Db.accounts db /\ escrow_wf e' /\
    moves db db' (escrow_steem e - escrow_steem e') (escrow_sbd e - escrow_sbd e') 0 0 0.
Proof.
  intros Hwf (e & e' & He & Hf & ->)%modify_obj_inv Hw.
  assert (escrow_wf e') by (eapply Hw; [by eapply (wf_escrows _ Hwf)|done]).
  exists e, e'. simpl. rewrite lookup_insert_eq. do 5 (split; [done|]).
  eapply moves_eq; [apply (escrows_moves _ (<[k:=e']> (Db.escrows db))); [done|apply map_Forall_insert_2; [done|apply Hwf]]|..];
    rewrite ?(msum_insert _ _ _ _ _ He); lia.
Qed.

Lemma modify_order_moves db k f db' :
  wf db -> modify_obj Db.limit_orders k f db = Ok db' -> (forall e e', order_wf e -> f e = Ok e' -> order_wf e') ->
  exists e e', Db.limit_orders db !! k = Some e /\ f e = Ok e' /\ db' = db <| Db.limit_orders ::= <[k := e']> |> /\
    moves db db' (order_held STEEM_SYMBOL e - order_held STEEM_SYMBOL e')
      (order_held SBD_SYMBOL e - order_held SBD_SYMBOL e') 0 0 0.
Proof.
  intros Hwf (e & e' & He & Hf & ->)%modify_obj_inv Hw. exists e, e'. do 3 (split; [done|]).
  eapply moves_eq; [apply (orders_moves _ (<[k:=e']> (Db.limit_orders db))); [done|apply map_Forall_insert_2;
    [eapply Hw; [by eapply (wf_orders _ Hwf)|done]|apply Hwf]]|..];
    rewrite ?(msum_insert _ _ _ _ _ He); lia.
Qed.

(** an update of an account that touches no holding *)
Lemma modify_account_conserves db n f db' :
  wf db -> modify_account db n f = Ok db' ->
  (forall a a', account_wf a -> f a = Ok a' -> account_wf a' /\ acc_steem a' = acc_steem a /\
     acc_sbd a' = acc_sbd a /\ acc_vests a' = acc_vests a /\ acc_pending a' = acc_pending a /\ acc_vsf a' = acc_vsf a) ->
  conserves db db'.
Proof.
  intros Hwf (a & a' & Ha & Hf & ->)%modify_account_inv Hk.
  destruct (Hk a a') as (W&?&?&?&?&?); [by eapply wf_account|done|].
  eapply moves_eq; [by apply account_moves|lia..].
Qed.

(** discharges the side condition of [modify_account_conserves] *)
Ltac keeps_holdings :=
  let a := fresh "a" in let a' := fresh "a'" in let W := fresh "W" in let Hf := fresh "Hf" in
  intros a a' W Hf; cbv beta in Hf; result_case; asset_inv;
  split; [solve_account_wf|acc_unfold; repeat split; reflexivity || lia].
