(* ===== verification/WitnessProps.v ===== *)
(** WitnessProps: witness_set_properties_operation.

    A witness sets any of its properties by name; the values are the raw
    serializations of Raw.  The operation is authorized by the current signing
    key of the witness, which it names in the property "key".  A value that is an
    empty vector leaves the variable it would be unpacked into as it is:
    validate() then tests uninitialized locals, whose content is the parameter
    [uninitialized]; the evaluator uses the defaults of the structs. *)
From Stdlib Require Import ZArith Lia String.
From stdpp Require Import base gmap strings list.
From S2P Require Import Prelude.
From S2P Require Import Safe.
From S2P Require Import Asset.
From S2P Require Import Authority.
From S2P Require Import Objects.
From S2P Require Import Balance.
From S2P Require Import Supply.
From S2P Require Import Utf8.
From S2P Require Import Raw.
Local Open Scope string_scope.
Local Open Scope Z_scope.
Local Open Scope fc_scope.

Definition STEEM_MAX_WITNESS_URL_LENGTH : Z := 2048.

(** flat_map< string, vector< char > > *)
Definition property_map : Type := gmap string (list Z).

(** the property [name], if present, unpacked and checked *)
Definition check_prop {A} (props : property_map) (name : string) (unpack : unpacker A) (tmp : A)
    (check : A -> result unit) : result unit :=
  match props !! name with
  | None => Ok tt
  | Some v => x ← unpack_from_vector unpack tmp v; check x
  end.

Section validate.
Context (uninitialized : string -> Z).

Definition validate_witness_props (props : property_map) : result unit :=
  _ ← fc_assert (bool_decide (is_Some (props !! "key")));
  _ ← check_prop props "account_creation_fee" unpack_asset (mk_asset 0 STEEM_SYMBOL) (fun fee =>
        _ ← fc_assert (symbol fee =? STEEM_SYMBOL);
        fc_assert (STEEM_MIN_ACCOUNT_CREATION_FEE <=? amount fee));
  _ ← check_prop props "maximum_block_size" unpack_uint32 (uninitialized "maximum_block_size") (fun size =>
        fc_assert (STEEM_MIN_BLOCK_SIZE_LIMIT <=? size));
  _ ← check_prop props "sbd_interest_rate" unpack_uint16 (uninitialized "sbd_interest_rate") (fun rate =>
        _ ← fc_assert (0 <=? rate);
        fc_assert (rate <=? STEEM_100_PERCENT));
  _ ← check_prop props "new_signing_key" unpack_public_key 0 (fun _ => Ok tt);
  _ ← check_prop props "sbd_exchange_rate" unpack_price Price.default (fun p =>
        _ ← fc_assert ((symbol (base p) =? SBD_SYMBOL) && (symbol (quote p) =? STEEM_SYMBOL));
        Price.validate p);
  _ ← check_prop props "url" unpack_string "" (fun url =>
        _ ← fc_assert (Z.of_nat (String.length url) <=? STEEM_MAX_WITNESS_URL_LENGTH);
        _ ← fc_assert (0 <? Z.of_nat (String.length url));
        fc_assert (is_utf8 url));
  check_prop props "account_subsidy_limit" unpack_uint32 (uninitialized "account_subsidy_limit") (fun _ => Ok tt).
End validate.

(** the authority that must sign: the key named by the operation *)
Definition witness_props_authority (props : property_map) : result authority :=
  match props !! "key" with
  | Some v => key ← unpack_from_vector unpack_public_key 0 v; Ok (mk_authority 1 [] [(key, 1)])
  | None => Ok (mk_authority 1 [(STEEM_NULL_ACCOUNT, 1)] [])
  end.

(** the property [name], if present, unpacked over [tmp] *)
Definition read_prop {A} (props : property_map) (name : string) (unpack : unpacker A) (tmp : A) : result (option A) :=
  match props !! name with
  | None => Ok None
  | Some v => x ← unpack_from_vector unpack tmp v; Ok (Some x)
  end.

Definition set_opt {R A} (set : A -> R -> R) (o : option A) (r : R) : R :=
  match o with Some x => set x r | None => r end.

Definition witness_set_properties_evaluator (db : database) (owner : account_name_type) (props : property_map)
    : result database :=
  w ← get_or out_of_range (Db.witnesses db !! owner);
  v ← get_or assert_exception (props !! "key");   (* present, since validate() passed *)
  signing_key ← unpack_from_vector unpack_public_key 0 v;
  _ ← fc_assert (signing_key =? Witness.signing_key w);
  let defaults := ChainProperties.default in
  fee ← read_prop props "account_creation_fee" unpack_asset (ChainProperties.account_creation_fee defaults);
  size ← read_prop props "maximum_block_size" unpack_uint32 (ChainProperties.maximum_block_size defaults);
  rate ← read_prop props "sbd_interest_rate" unpack_uint16 (ChainProperties.sbd_interest_rate defaults);
  limit ← read_prop props "account_subsidy_limit" unpack_uint32 (ChainProperties.account_subsidy_limit defaults);
  key ← read_prop props "new_signing_key" unpack_public_key signing_key;
  exchange ← read_prop props "sbd_exchange_rate" unpack_price Price.default;
  url ← read_prop props "url" unpack_string "";
  modify_witness db owner (fun w =>
    let w := set_opt (fun x w => w <| Witness.props ::= (fun p => p <| ChainProperties.account_creation_fee := x |>) |>) fee w in
    let w := set_opt (fun x w => w <| Witness.props ::= (fun p => p <| ChainProperties.maximum_block_size := x |>) |>) size w in
    let w := set_opt (fun x w => w <| Witness.props ::= (fun p => p <| ChainProperties.sbd_interest_rate := x |>) |>) rate w in
    let w := set_opt (fun x w => w <| Witness.props ::= (fun p => p <| ChainProperties.account_subsidy_limit := x |>) |>) limit w in
    let w := set_opt (fun x w => w <| Witness.signing_key := x |>) key w in
    let w := set_opt (fun x w => w <| Witness.sbd_exchange_rate := x |>
                                   <| Witness.last_sbd_exchange_update := head_block_time db |>) exchange w in
    Ok (set_opt (fun x w => w <| Witness.url := x |>) url w)).
