(* ===== verification/Transfers.v ===== *)
(** Transfers: the evaluators of steem_evaluator.cpp that move liquid, savings,
    escrowed and reward balances, and the block processing of savings
    withdrawals and escrow ratification (database.cpp).

    An evaluator takes the fields of its operation as arguments, in the order
    the operation declares them (memos, which no evaluator reads, only where
    they are stored). *)
From Stdlib Require Import ZArith Lia String Ascii.
From stdpp Require Import base gmap strings list sorting.
From S2P Require Import Prelude.
From S2P Require Import Safe.
From S2P Require Import Asset.
From S2P Require Import Authority.
From S2P Require Import Objects.
From S2P Require Import Balance.
From S2P Require Import Supply.
Local Open Scope string_scope.
Local Open Scope Z_scope.
Local Open Scope fc_scope.

(** FC_ASSERT( a >= b ) on assets, which also asserts equal symbols *)
Definition assert_geb (a b : asset) : result unit := c ← Asset.geb a b; fc_assert c.

Definition get_balance_of (db : database) (n : account_name_type) (s : asset_symbol_type) : result asset :=
  a ← get_account db n; get_balance a s.

(** ** Transfers and savings *)

Definition transfer_evaluator (db : database) (from to : account_name_type) (amt : asset) : result database :=
  b ← get_balance_of db from (symbol amt);
  _ ← assert_geb b amt;
  d ← Asset.neg amt;
  db ← adjust_balance db from d;
  adjust_balance db to amt.

Definition transfer_to_vesting_evaluator (db : database) (from to : account_name_type) (amt : asset)
    : result database :=
  a ← get_account db from;
  to ← (if decide (to = "") then Ok from else _ ← get_account db to; Ok to);
  b ← get_balance a (symbol amt);
  _ ← assert_geb b amt;
  d ← Asset.neg amt;
  db ← adjust_balance db from d;
  '(db, _) ← create_vesting db to amt false;
  Ok db.

Definition transfer_to_savings_evaluator (db : database) (from to : account_name_type) (amt : asset)
    : result database :=
  a ← get_account db from;
  _ ← get_account db to;
  b ← get_balance a (symbol amt);
  _ ← assert_geb b amt;
  d ← Asset.neg amt;
  db ← adjust_balance db from d;
  adjust_savings_balance db to amt.

Definition transfer_from_savings_evaluator (db : database) (from : account_name_type) (request_id : Z)
    (to : account_name_type) (amt : asset) (memo : string) : result database :=
  a ← get_account db from;
  _ ← get_account db to;
  _ ← fc_assert (Account.savings_withdraw_requests a <? STEEM_SAVINGS_WITHDRAW_REQUEST_LIMIT);
  b ← get_savings_balance a (symbol amt);
  _ ← assert_geb b amt;
  d ← Asset.neg amt;
  db ← adjust_savings_balance db from d;
  db ← create savings_withdraw_index Db.savings_withdraws (from, request_id) (fun id =>
         SavingsWithdraw.mk id from to memo request_id amt
           (u32 (head_block_time db + STEEM_SAVINGS_WITHDRAW_TIME))) db;
  modify_account db from (fun a => Ok (a <| Account.savings_withdraw_requests ::= fun n => u8 (n + 1) |>)).

Definition cancel_transfer_from_savings_evaluator (db : database) (from : account_name_type) (request_id : Z)
    : result database :=
  swo ← get_savings_withdraw db from request_id;
  db ← adjust_savings_balance db (SavingsWithdraw.from swo) (SavingsWithdraw.amount_ swo);
  let db := remove Db.savings_withdraws (from, request_id) db in
  modify_account db from (fun a => Ok (a <| Account.savings_withdraw_requests ::= fun n => u8 (n - 1) |>)).

(** ** Conversion requests *)

Definition convert_evaluator (db : database) (owner : account_name_type) (requestid : Z) (amt : asset)
    : result database :=
  b ← get_balance_of db owner (symbol amt);
  _ ← assert_geb b amt;
  d ← Asset.neg amt;
  db ← adjust_balance db owner d;
  _ ← fc_assert (negb (Price.is_null (FeedHistory.current_median_history (Db.feed_history db))));
  create convert_request_index Db.convert_requests (owner, requestid) (fun id =>
    ConvertRequest.mk id owner requestid amt (u32 (head_block_time db + STEEM_CONVERSION_DELAY))) db.

(** ** Escrow *)

Definition escrow_transfer_evaluator (db : database) (from to : account_name_type) (sbd_amount steem_amount : asset)
    (escrow_id : Z) (agent : account_name_type) (fee : asset) (ratification_deadline escrow_expiration : Z)
    : result database :=
  a ← get_account db from;
  _ ← get_account db to;
  _ ← get_account db agent;
  _ ← fc_assert (head_block_time db <? ratification_deadline);
  _ ← fc_assert (head_block_time db <? escrow_expiration);
  '(steem_spent, sbd_spent) ←
    (if symbol fee =? STEEM_SYMBOL then s ← Asset.add steem_amount fee; Ok (s, sbd_amount)
     else s ← Asset.add sbd_amount fee; Ok (steem_amount, s));
  _ ← assert_geb (Account.balance a) steem_spent;
  _ ← assert_geb (Account.sbd_balance a) sbd_spent;
  d ← Asset.neg steem_spent;
  db ← adjust_balance db from d;
  d ← Asset.neg sbd_spent;
  db ← adjust_balance db from d;
  create escrow_index Db.escrows (from, escrow_id) (fun id =>
    Escrow.mk id escrow_id from to agent ratification_deadline escrow_expiration
      sbd_amount steem_amount fee false false false) db.

Definition escrow_approve_evaluator (db : database) (from to agent who : account_name_type) (escrow_id : Z)
    (approve : bool) : result database :=
  e ← get_escrow db from escrow_id;
  _ ← fc_assert (bool_decide (Escrow.to e = to));
  _ ← fc_assert (bool_decide (Escrow.agent e = agent));
  _ ← fc_assert (head_block_time db <=? Escrow.ratification_deadline e);
  let reject_escrow := negb approve in
  db ← (if decide (who = to) then
          _ ← fc_assert (negb (Escrow.to_approved e));
          if negb reject_escrow then
            modify_obj Db.escrows (from, escrow_id) (fun e => Ok (e <| Escrow.to_approved := true |>)) db
          else Ok db
        else Ok db);
  e ← get_escrow db from escrow_id;
  db ← (if decide (who = agent) then
          _ ← fc_assert (negb (Escrow.agent_approved e));
          if negb reject_escrow then
            modify_obj Db.escrows (from, escrow_id) (fun e => Ok (e <| Escrow.agent_approved := true |>)) db
          else Ok db
        else Ok db);
  e ← get_escrow db from escrow_id;
  if reject_escrow then
    db ← adjust_balance db from (Escrow.steem_balance e);
    db ← adjust_balance db from (Escrow.sbd_balance e);
    db ← adjust_balance db from (Escrow.pending_fee e);
    Ok (remove Db.escrows (from, escrow_id) db)
  else if Escrow.to_approved e && Escrow.agent_approved e then
    db ← adjust_balance db agent (Escrow.pending_fee e);
    modify_obj Db.escrows (from, escrow_id) (fun e =>
      Ok (e <| Escrow.pending_fee ::= fun f => mk_asset 0 (symbol f) |>)) db
  else Ok db.

Definition escrow_dispute_evaluator (db : database) (from to agent : account_name_type) (escrow_id : Z)
    : result database :=
  _ ← get_account db from;
  e ← get_escrow db from escrow_id;
  _ ← fc_assert (head_block_time db <? Escrow.escrow_expiration e);
  _ ← fc_assert (Escrow.to_approved e && Escrow.agent_approved e);
  _ ← fc_assert (negb (Escrow.disputed e));
  _ ← fc_assert (bool_decide (Escrow.to e = to));
  _ ← fc_assert (bool_decide (Escrow.agent e = agent));
  modify_obj Db.escrows (from, escrow_id) (fun e => Ok (e <| Escrow.disputed := true |>)) db.

(** who may release to whom: the agent under dispute; before expiration either
    party to the other; after it either party to either *)
Definition release_allowed (now : Z) (e : escrow_object) (who receiver : account_name_type) : bool :=
  if Escrow.disputed e then bool_decide (who = Escrow.agent e)
  else
    (bool_decide (who = Escrow.from e) || bool_decide (who = Escrow.to e)) &&
    (if now <? Escrow.escrow_expiration e then
       if decide (who = Escrow.from e) then bool_decide (receiver = Escrow.to e)
       else if decide (who = Escrow.to e) then bool_decide (receiver = Escrow.from e)
       else true
     else true).

Definition escrow_release_evaluator (db : database) (from to agent who receiver : account_name_type)
    (escrow_id : Z) (sbd_amount steem_amount : asset) : result database :=
  _ ← get_account db from;
  e ← get_escrow db from escrow_id;
  _ ← assert_geb (Escrow.steem_balance e) steem_amount;
  _ ← assert_geb (Escrow.sbd_balance e) sbd_amount;
  _ ← fc_assert (bool_decide (Escrow.to e = to));
  _ ← fc_assert (bool_decide (Escrow.agent e = agent));
  _ ← fc_assert (bool_decide (receiver = Escrow.from e) || bool_decide (receiver = Escrow.to e));
  _ ← fc_assert (Escrow.to_approved e && Escrow.agent_approved e);
  _ ← fc_assert (release_allowed (head_block_time db) e who receiver);
  db ← adjust_balance db receiver steem_amount;
  db ← adjust_balance db receiver sbd_amount;
  db ← modify_obj Db.escrows (from, escrow_id) (fun e =>
         s ← Asset.sub (Escrow.steem_balance e) steem_amount;
         d ← Asset.sub (Escrow.sbd_balance e) sbd_amount;
         Ok (e <| Escrow.steem_balance := s |> <| Escrow.sbd_balance := d |>)) db;
  e ← get_escrow db from escrow_id;
  if (amount (Escrow.steem_balance e) =? 0) && (amount (Escrow.sbd_balance e) =? 0)
  then Ok (remove Db.escrows (from, escrow_id) db)
  else Ok db.

(** ** Claiming rewards *)

Definition claim_reward_balance_evaluator (db : database) (account : account_name_type)
    (reward_steem reward_sbd reward_vests : asset) : result database :=
  a ← get_account db account;
  _ ← assert_geb (Account.reward_steem_balance a) reward_steem;
  _ ← assert_geb (Account.reward_sbd_balance a) reward_sbd;
  _ ← assert_geb (Account.reward_vesting_balance a) reward_vests;
  to_move ←
    (if Asset.eqb reward_vests (Account.reward_vesting_balance a) then Ok (Account.reward_vesting_steem a)
     else
       let den := u128 (amount (Account.reward_vesting_balance a)) in
       _ ← (if den =? 0 then Throw divide_by_zero_exception else Ok tt);
       let q := u128 (u128 (amount reward_vests) * u128 (amount (Account.reward_vesting_steem a))) / den in
       _ ← fc_assert (q <? 2 ^ 64);
       Ok (mk_asset (i64 q) STEEM_SYMBOL));
  d ← Asset.neg reward_steem;
  db ← adjust_reward_balance db account d no_shares;
  d ← Asset.neg reward_sbd;
  db ← adjust_reward_balance db account d no_shares;
  db ← adjust_balance db account reward_steem;
  db ← adjust_balance db account reward_sbd;
  db ← modify_account db account (fun a =>
         v ← Asset.add (Account.vesting_shares a) reward_vests;
         b ← Asset.sub (Account.reward_vesting_balance a) reward_vests;
         s ← Asset.sub (Account.reward_vesting_steem a) to_move;
         Ok (a <| Account.vesting_shares := v |> <| Account.reward_vesting_balance := b |>
               <| Account.reward_vesting_steem := s |>));
  db ← modify_gpo db (fun g =>
         ts ← Asset.add (Gpo.total_vesting_shares g) reward_vests;
         tf ← Asset.add (Gpo.total_vesting_fund_steem g) to_move;
         ps ← Asset.sub (Gpo.pending_rewarded_vesting_shares g) reward_vests;
         pf ← Asset.sub (Gpo.pending_rewarded_vesting_steem g) to_move;
         Ok (g <| Gpo.total_vesting_shares := ts |> <| Gpo.total_vesting_fund_steem := tf |>
               <| Gpo.pending_rewarded_vesting_shares := ps |> <| Gpo.pending_rewarded_vesting_steem := pf |>));
  adjust_proxied_witness_votes db account (amount reward_vests).

(** ** Processing at every block *)

Definition matured_savings (db : database) : option ((account_name_type * Z) * savings_withdraw_object) :=
  match first_by (fun x y => lt_of (lex (SavingsWithdraw.complete x ?= SavingsWithdraw.complete y)
                    (lex (name_compare (SavingsWithdraw.from x) (SavingsWithdraw.from y))
                       (SavingsWithdraw.request_id x ?= SavingsWithdraw.request_id y))))
          (Db.savings_withdraws db) with
  | Some (k, s) => if head_block_time db <? SavingsWithdraw.complete s then None else Some (k, s)
  | None => None
  end.

Definition process_savings_withdraw (db : database) (x : (account_name_type * Z) * savings_withdraw_object)
    : result database :=
  let '(k, s) := x in
  db ← adjust_balance db (SavingsWithdraw.to s) (SavingsWithdraw.amount_ s);
  db ← modify_account db (SavingsWithdraw.from s) (fun a =>
         Ok (a <| Account.savings_withdraw_requests ::= fun n => u8 (n - 1) |>));
  Ok (remove Db.savings_withdraws k db).

Definition process_savings_withdraws (db : database) : result database :=
  while_next (size (Db.savings_withdraws db)) matured_savings process_savings_withdraw db.

(** the first escrow of by_ratification_deadline, if it has to be refunded *)
Definition unratified_escrow (db : database) : option ((account_name_type * Z) * escrow_object) :=
  match first_by (fun x y => lt_of (lex (b2z (is_approved x) ?= b2z (is_approved y))
                    (lex (Escrow.ratification_deadline x ?= Escrow.ratification_deadline y)
                       (Escrow.id x ?= Escrow.id y))))
          (Db.escrows db) with
  | Some (k, e) =>
      if negb (is_approved e) && (Escrow.ratification_deadline e <=? head_block_time db)
      then Some (k, e) else None
  | None => None
  end.

Definition refund_escrow (db : database) (x : (account_name_type * Z) * escrow_object) : result database :=
  let '(k, e) := x in
  db ← adjust_balance db (Escrow.from e) (Escrow.steem_balance e);
  db ← adjust_balance db (Escrow.from e) (Escrow.sbd_balance e);
  db ← adjust_balance db (Escrow.from e) (Escrow.pending_fee e);
  Ok (remove Db.escrows k db).

Definition expire_escrow_ratification (db : database) : result database :=
  while_next (size (Db.escrows db)) unratified_escrow refund_escrow db.

Definition due_conversion (db : database) : option ((account_name_type * Z) * convert_request_object) :=
  match first_by (fun x y => lt_of (lex (ConvertRequest.conversion_date x ?= ConvertRequest.conversion_date y)
                    (ConvertRequest.id x ?= ConvertRequest.id y)))
          (Db.convert_requests db) with
  | Some (k, c) => if ConvertRequest.conversion_date c <=? head_block_time db then Some (k, c) else None
  | None => None
  end.

Definition convert_one (st : database * asset * asset) (x : (account_name_type * Z) * convert_request_object)
    : result (database * asset * asset) :=
  let '(db, net_sbd, net_steem) := st in
  let '(k, c) := x in
  amount_to_issue ← Price.mul (ConvertRequest.amount_ c) (FeedHistory.current_median_history (Db.feed_history db));
  db ← adjust_balance db (ConvertRequest.owner c) amount_to_issue;
  net_sbd ← Asset.add net_sbd (ConvertRequest.amount_ c);
  net_steem ← Asset.add net_steem amount_to_issue;
  Ok (remove Db.convert_requests k db, net_sbd, net_steem).

Definition process_conversions (db : database) : result database :=
  let median := FeedHistory.current_median_history (Db.feed_history db) in
  if Price.is_null median then Ok db
  else
    '(db, net_sbd, net_steem) ←
      while_next (size (Db.convert_requests db)) (fun st => due_conversion st.1.1) convert_one
        (db, mk_asset 0 SBD_SYMBOL, mk_asset 0 STEEM_SYMBOL);
    modify_gpo db (fun g =>
      s ← Asset.add (Gpo.current_supply g) net_steem;
      d ← Asset.sub (Gpo.current_sbd_supply g) net_sbd;
      v ← Asset.add (Gpo.virtual_supply g) net_steem;
      w ← Price.mul net_sbd median;
      v ← Asset.sub v w;
      Ok (g <| Gpo.current_supply := s |> <| Gpo.current_sbd_supply := d |> <| Gpo.virtual_supply := v |>)).

(** ** Conservation *)

Lemma get_balance_liquid a s b : get_balance a s = Ok b -> liquid_symbol s.
Proof. unfold get_balance, liquid_symbol. intros H. result_case; zbool; auto. Qed.

Lemma get_savings_balance_liquid a s b : get_savings_balance a s = Ok b -> liquid_symbol s.
Proof. unfold get_savings_balance, liquid_symbol. intros H. result_case; zbool; auto. Qed.

Lemma assert_geb_Ok a b u : assert_geb a b = Ok u -> symbol a = symbol b /\ amount b <= amount a.
Proof. unfold assert_geb. intros H. result_inv. asset_inv. zbool. auto. Qed.

(** Turns every balance operation in the context into the gaps it moves. *)
Ltac wf_of := first [assumption|eapply mv_wf; eassumption].
Ltac liquid := simpl; first [assumption|left; assumption|right; assumption|left; congruence|right; congruence].
Ltac ledger :=
  repeat match goal with
  | H : get_balance _ _ = Ok _ |- _ => apply get_balance_liquid in H
  | H : get_savings_balance _ _ = Ok _ |- _ => apply get_savings_balance_liquid in H
  | H : assert_geb _ _ = Ok _ |- _ => apply assert_geb_Ok in H as [? ?]
  | H : get_account _ _ = Ok _ |- _ => apply get_account_Ok in H
  | H : adjust_balance ?db ?n ?d = Ok ?db' |- _ =>
      let M := fresh "M" in let F := fresh "F" in
      apply adjust_balance_moves in H as [M F]; [|wf_of|liquid]
  | H : adjust_savings_balance ?db ?n ?d = Ok ?db' |- _ =>
      let M := fresh "M" in let F := fresh "F" in
      apply adjust_savings_moves in H as [M F]; [|wf_of]
  | H : adjust_reward_balance ?db ?n ?d no_shares = Ok ?db' |- _ =>
      let M := fresh "M" in let F := fresh "F" in
      apply adjust_reward_liquid_moves in H as [M F]; [|wf_of]
  | H : create_vesting ?db ?n ?d false = Ok (?db', ?v) |- _ =>
      let M := fresh "M" in let F := fresh "F" in
      apply create_vesting_moves in H as (M & F & ?); [|wf_of|done]
  end.
(** Adds up the moves of the context. *)
Ltac conserve :=
  unfold conserves in *; rewrite ?val_neg in *;
  repeat match goal with H : moves _ _ _ _ _ _ _ |- _ => destruct H end;
  split; [assumption|lia..].

Lemma transfer_conserves db from to amt db' :
  wf db -> transfer_evaluator db from to amt = Ok db' -> conserves db db'.
Proof.
  intros Hwf H. unfold transfer_evaluator, get_balance_of in H. result_inv. asset_inv. ledger. conserve.
Qed.

Lemma transfer_to_vesting_conserves db from to amt db' :
  wf db -> transfer_to_vesting_evaluator db from to amt = Ok db' -> conserves db db'.
Proof.
  intros Hwf H. unfold transfer_to_vesting_evaluator in H.
  bind H as a Ha. bind H as t Ht. bind H as b Hb. bind H as u Hge. bind H as d Hd. bind H as db1 Hadj.
  bind H as [db2 v] Hcv. injection H as <-.
  assert (symbol amt = STEEM_SYMBOL) as Hs.
  { unfold create_vesting in Hcv. bind Hcv as u' Hs. by apply fc_assert_Ok, Z.eqb_eq in Hs. }
  asset_inv. ledger. simpl in *. rewrite !val_neg, (val_eq STEEM_SYMBOL amt), (val_other SBD_SYMBOL amt) in M
    by (rewrite ?Hs; done). conserve.
Qed.

Lemma transfer_to_savings_conserves db from to amt db' :
  wf db -> transfer_to_savings_evaluator db from to amt = Ok db' -> conserves db db'.
Proof.
  intros Hwf H. unfold transfer_to_savings_evaluator in H. result_inv. asset_inv. ledger. conserve.
Qed.

Lemma transfer_from_savings_conserves db from request_id to amt memo db' :
  wf db -> transfer_from_savings_evaluator db from request_id to amt memo = Ok db' -> conserves db db'.
Proof.
  intros Hwf H. unfold transfer_from_savings_evaluator in H. result_inv. asset_inv. ledger.
  match goal with H : create _ _ _ _ _ = Ok _ |- _ =>
    apply create_savings_moves in H as (i & M1); [|wf_of|done] end.
  apply modify_account_conserves in H; [|wf_of|keeps_holdings].
  unfold savings_held in *. simpl in *. conserve.
Qed.

Lemma cancel_transfer_from_savings_conserves db from request_id db' :
  wf db -> cancel_transfer_from_savings_evaluator db from request_id = Ok db' -> conserves db db'.
Proof.
  intros Hwf H. unfold cancel_transfer_from_savings_evaluator, get_savings_withdraw, find_savings_withdraw in H.
  result_inv. ledger.
  match goal with H : _ !! (from, request_id) = Some ?s, F : frame _ ?db1 |- _ =>
    rewrite <- (frame_savings _ _ F) in H;
    pose proof (remove_savings_moves db1 _ _ ltac:(wf_of) H) as M1 end.
  apply modify_account_conserves in H; [|wf_of|keeps_holdings].
  unfold savings_held in *. conserve.
Qed.

Lemma convert_conserves db owner requestid amt db' :
  wf db -> symbol amt = SBD_SYMBOL -> convert_evaluator db owner requestid amt = Ok db' -> conserves db db'.
Proof.
  intros Hwf Hs H. unfold convert_evaluator, get_balance_of in H. result_inv. asset_inv. ledger.
  apply create_convert_moves in H as (i & M1); [|wf_of|done].
  unfold convert_held in *. simpl in *. conserve.
Qed.

Lemma escrow_transfer_conserves db from to sbd_amount steem_amount id agent fee rd ee db' :
  wf db -> escrow_transfer_evaluator db from to sbd_amount steem_amount id agent fee rd ee = Ok db' ->
  conserves db db'.
Proof.
  intros Hwf H. unfold escrow_transfer_evaluator in H.
  bind H as a Ha. bind H as a2 Ha2. bind H as a3 Ha3. bind H as u1 Hu1. bind H as u2 Hu2.
  bind H as [steem_spent sbd_spent] Hfee. bind H as u3 Hge1. bind H as u4 Hge2.
  bind H as d1 Hd1. bind H as db1 Hadj1. bind H as d2 Hd2. bind H as db2 Hadj2.
  clear Hu1 Hu2 Ha2 Ha3. ledger.
  pose proof (wf_account _ _ _ Hwf Ha) as (Hb&_&Hsb&_).
  assert (symbol steem_amount = STEEM_SYMBOL /\ symbol sbd_amount = SBD_SYMBOL /\ liquid_symbol (symbol fee) /\
    symbol steem_spent = STEEM_SYMBOL /\ symbol sbd_spent = SBD_SYMBOL /\
    amount steem_spent = amount steem_amount + val STEEM_SYMBOL fee /\
    amount sbd_spent = amount sbd_amount + val SBD_SYMBOL fee) as (S1&S2&S3&S4&S5&S6&S7).
  { destruct (Z.eqb_spec (symbol fee) STEEM_SYMBOL) as [E|E]; bind Hfee as sp Hsp; injection Hfee as <- <-;
      apply AssetFacts.asset_add_Ok in Hsp as [Es ->]; simpl in *.
    - rewrite (val_eq STEEM_SYMBOL fee), (val_other SBD_SYMBOL fee) by (rewrite ?E; done).
      repeat split; try congruence; [by left|lia].
    - assert (symbol fee = SBD_SYMBOL) as E' by congruence.
      rewrite (val_eq SBD_SYMBOL fee), (val_other STEEM_SYMBOL fee) by done.
      repeat split; try congruence; [by right|lia]. }
  asset_inv.
  apply adjust_balance_moves in Hadj1 as [M1 F1]; [|done|left; done].
  apply adjust_balance_moves in Hadj2 as [M2 F2]; [|wf_of|right; done].
  rewrite !val_neg in M1, M2.
  rewrite (val_eq STEEM_SYMBOL steem_spent), (val_other SBD_SYMBOL steem_spent) in M1 by (rewrite ?S4; done).
  rewrite (val_eq SBD_SYMBOL sbd_spent), (val_other STEEM_SYMBOL sbd_spent) in M2 by (rewrite ?S5; done).
  apply create_escrow_moves in H as (i & M3); [|wf_of|done].
  unfold escrow_steem, escrow_sbd in M3. simpl in M3. conserve.
Qed.

Lemma get_escrow_Ok db n i e : get_escrow db n i = Ok e -> Db.escrows db !! (n, i) = Some e.
Proof. unfold get_escrow, find_escrow. intros H. by result_inv. Qed.

(** setting a flag of an escrow *)
Lemma escrow_flag_conserves db k f db' :
  wf db -> modify_obj Db.escrows k f db = Ok db' ->
  (forall e e', f e = Ok e' -> Escrow.steem_balance e' = Escrow.steem_balance e /\
     Escrow.sbd_balance e' = Escrow.sbd_balance e /\ Escrow.pending_fee e' = Escrow.pending_fee e) ->
  conserves db db'.
Proof.
  intros Hwf H Hf. apply modify_escrow_moves in H as (e & e' & _ & He & _ & _ & _ & M); [|done|].
  - destruct (Hf _ _ He) as (E1 & E2 & E3). unfold escrow_steem, escrow_sbd in M.
    rewrite E1, E2, E3 in M. eapply moves_eq; [exact M|lia..].
  - intros x x' (?&?&?) Hx. destruct (Hf _ _ Hx) as (E1 & E2 & E3). by unfold escrow_wf; rewrite E1, E2, E3.
Qed.

Ltac flag := intros; simplify_eq/=; done.

(** the value of an escrow paid out to one account *)
Lemma refund_conserves db k e n db1 db2 db3 :
  wf db -> Db.escrows db !! k = Some e ->
  adjust_balance db n (Escrow.steem_balance e) = Ok db1 ->
  adjust_balance db1 n (Escrow.sbd_balance e) = Ok db2 ->
  adjust_balance db2 n (Escrow.pending_fee e) = Ok db3 ->
  conserves db (remove Db.escrows k db3).
Proof.
  intros Hwf He H1 H2 H3. pose proof (wf_escrows _ Hwf _ _ He) as (S1&S2&S3). simpl in S1, S2, S3.
  apply adjust_balance_moves in H1 as [M1 F1]; [|done|by left].
  apply adjust_balance_moves in H2 as [M2 F2]; [|wf_of|by right].
  apply adjust_balance_moves in H3 as [M3 F3]; [|wf_of|done].
  rewrite (val_eq STEEM_SYMBOL), (val_other SBD_SYMBOL) in M1 by (rewrite ?S1; done).
  rewrite (val_eq SBD_SYMBOL), (val_other STEEM_SYMBOL) in M2 by (rewrite ?S2; done).
  rewrite <- (frame_escrows _ _ F1), <- (frame_escrows _ _ F2), <- (frame_escrows _ _ F3) in He.
  pose proof (remove_escrow_moves _ _ _ ltac:(wf_of) He) as M4. unfold escrow_steem, escrow_sbd in M4. conserve.
Qed.

Lemma escrow_approve_conserves db from to agent who id approve db' :
  wf db -> escrow_approve_evaluator db from to agent who id approve = Ok db' -> conserves db db'.
Proof.
  intros Hwf H. unfold escrow_approve_evaluator in H.
  bind H as e0 He0. bind H as u1 Hu1. bind H as u2 Hu2. bind H as u3 Hu3.
  bind H as db1 H1. bind H as e1 He1. bind H as db2 H2. bind H as e2 He2. apply get_escrow_Ok in He2.
  assert (conserves db db1) as M1.
  { destruct (decide (who = to)); [|injection H1 as <-; by apply moves_refl]. bind H1 as u4 Hu4.
    destruct (negb (negb approve)); [eapply escrow_flag_conserves; [done..|flag]|].
    injection H1 as <-. by apply moves_refl. }
  assert (conserves db1 db2) as M2.
  { destruct (decide (who = agent)); [|injection H2 as <-; by apply moves_refl, M1]. bind H2 as u4 Hu4.
    destruct (negb (negb approve)); [eapply escrow_flag_conserves; [apply M1|done|flag]|].
    injection H2 as <-. by apply moves_refl, M1. }
  assert (conserves db2 db') as M3; [|conserve].
  destruct (negb approve).
  - bind H as db3 H3. bind H as db4 H4. bind H as db5 H5. injection H as <-.
    eapply refund_conserves; [apply M2|done..].
  - destruct (_ && _); [|injection H as <-; by apply moves_refl, M2].
    bind H as db3 H3. pose proof (wf_escrows _ (mv_wf _ _ _ _ _ _ _ M2) _ _ He2) as (S1&S2&S3). simpl in S3.
    apply adjust_balance_moves in H3 as [M3 F3]; [|wf_of|done].
    rewrite <- (frame_escrows _ _ F3) in He2.
    apply modify_escrow_moves in H as (e & e' & He & [= <-] & _ & _ & _ & M4); [|wf_of|].
    + rewrite He2 in He. injection He as <-. unfold escrow_steem, escrow_sbd, val in M3, M4. simpl in M3, M4.
      destruct (symbol (Escrow.pending_fee e2) =? STEEM_SYMBOL), (symbol (Escrow.pending_fee e2) =? SBD_SYMBOL); conserve.
    + intros x x' (?&?&?) [= <-]. done.
Qed.

Lemma escrow_dispute_conserves db from to agent id db' :
  wf db -> escrow_dispute_evaluator db from to agent id = Ok db' -> conserves db db'.
Proof.
  intros Hwf H. unfold escrow_dispute_evaluator in H. result_inv.
  eapply escrow_flag_conserves; [done..|flag].
Qed.

(** An escrow that both parties approved has paid its fee; escrow_release relies
    on it when it removes an emptied escrow. *)
Definition fees_paid (db : database) : Prop :=
  map_Forall (fun _ e => is_approved e = true -> amount (Escrow.pending_fee e) = 0) (Db.escrows db).

Lemma escrow_release_conserves db from to agent who receiver id sbd_amount steem_amount db' :
  wf db -> fees_paid db ->
  escrow_release_evaluator db from to agent who receiver id sbd_amount steem_amount = Ok db' -> conserves db db'.
Proof.
  intros Hwf Hfees H. unfold escrow_release_evaluator in H.
  bind H as a Ha. bind H as e He. bind H as u1 H1. bind H as u2 H2. bind H as u3 H3. bind H as u4 H4.
  bind H as u5 H5. bind H as u6 H6. bind H as u7 H7. bind H as db1 A1. bind H as db2 A2. bind H as db3 A3.
  bind H as e3 He3. clear H3 H4 H5 H7 Ha. apply get_escrow_Ok in He, He3. apply fc_assert_Ok in H6.
  apply assert_geb_Ok in H1 as [E1 _], H2 as [E2 _].
  pose proof (wf_escrows _ Hwf _ _ He) as (S1&S2&S3). simpl in S1, S2, S3. rewrite S1 in E1. rewrite S2 in E2.
  apply adjust_balance_moves in A1 as [M1 F1]; [|done|by left].
  apply adjust_balance_moves in A2 as [M2 F2]; [|wf_of|by right].
  rewrite (val_eq STEEM_SYMBOL), (val_other SBD_SYMBOL) in M1 by (rewrite <- ?E1; done).
  rewrite (val_eq SBD_SYMBOL), (val_other STEEM_SYMBOL) in M2 by (rewrite <- ?E2; done).
  apply modify_escrow_moves in A3 as (e' & e'' & He' & Hf & He'' & _ & W & M3); [|wf_of|].
  2:{ intros x x' (?&?&?) Hx. result_inv. asset_inv. done. }
  rewrite He3 in He''. injection He'' as <-.
  rewrite (frame_escrows _ _ F2), (frame_escrows _ _ F1), He in He'. injection He' as <-.
  specialize (Hfees _ _ He H6). simpl in Hfees. result_inv. asset_inv.
  unfold escrow_steem, escrow_sbd in M3. simpl in M3, H, He3.
  assert (conserves db db3) as M by conserve. clear M1 M2 M3.
  match type of H with (if ?b then _ else _) = _ => destruct b eqn:Hz end; injection H as <-; [|done]. zbool.
  pose proof (remove_escrow_moves _ _ _ (mv_wf _ _ _ _ _ _ _ M) He3) as M4.
  unfold escrow_steem, escrow_sbd, val in M4. simpl in M4. rewrite Hfees in M4.
  destruct (_ =? STEEM_SYMBOL), (_ =? SBD_SYMBOL); conserve.
Qed.

(** Claimed vesting shares leave the pending rewards and become voting shares. *)
Lemma claim_reward_balance_conserves db account reward_steem reward_sbd reward_vests db' :
  wf db -> claim_reward_balance_evaluator db account reward_steem reward_sbd reward_vests = Ok db' ->
  conserves db db'.
Proof.
  intros Hwf H. unfold claim_reward_balance_evaluator in H.
  bind H as a Ha. bind H as u1 G1. bind H as u2 G2. bind H as u3 G3. bind H as to_move Htm.
  bind H as d1 D1. bind H as db1 A1. bind H as d2 D2. bind H as db2 A2. bind H as db3 A3. bind H as db4 A4.
  bind H as db5 A5. bind H as db6 A6. clear Htm.
  apply get_account_Ok in Ha. pose proof (wf_account _ _ _ Hwf Ha) as W.
  apply assert_geb_Ok in G1 as [E1 _], G2 as [E2 _], G3 as [E3 _].
  destruct W as (_&_&_&_&Wsbd&Wst&Wv&_). rewrite Wst in E1. rewrite Wsbd in E2. rewrite Wv in E3.
  asset_inv. ledger.
  apply modify_account_inv in A5 as (a4 & a5 & Ha4 & Ha5 & ->). apply modify_gpo_inv in A6 as (g & Hg & ->).
  assert (wf db4) as Hwf4 by wf_of. pose proof (wf_gpo db4 Hwf4) as Wg.
  assert (account_wf a5 /\ acc_steem a5 = acc_steem a4 /\ acc_sbd a5 = acc_sbd a4 /\
    acc_vests a5 = acc_vests a4 /\ acc_pending a5 = acc_pending a4 - amount to_move /\
    acc_vsf a5 = acc_vsf a4 + (if self_proxied a4 then amount reward_vests else 0) /\
    self_proxied a5 = self_proxied a4) as (Wa5 & P1 & P2 & P3 & P4 & P5 & P6).
  { clear H. result_inv. asset_inv. split; [solve_account_wf|]. acc_unfold. destruct (bool_decide _); repeat split; lia. }
  assert (gpo_wf g /\ gpo_steem g = gpo_steem (Db.gpo db4) /\ gpo_sbd g = gpo_sbd (Db.gpo db4) /\
    gpo_vests g = gpo_vests (Db.gpo db4) /\ gpo_pending g = gpo_pending (Db.gpo db4) - amount to_move /\
    gpo_vsf g = gpo_vsf (Db.gpo db4) + amount reward_vests) as (Wg' & Q1 & Q2 & Q3 & Q4 & Q5).
  { clear H. simpl in Hg. result_inv. asset_inv. destruct Wg as (?&?&?&?&?&?&?&?).
    unfold gpo_wf, gpo_steem, gpo_sbd, gpo_vests, gpo_pending, gpo_vsf. simpl. repeat split; (assumption || lia). }
  pose proof (account_moves db4 account a4 a5 Hwf4 Ha4 Wa5) as M5.
  pose proof (gpo_moves _ g (mv_wf _ _ _ _ _ _ _ M5) Wg') as M6. simpl in M6.
  eapply adjust_proxied_witness_votes_moves in H as [M7 F7]; [|apply M6|simpl; apply lookup_insert_eq].
  rewrite !val_neg in M, M0. rewrite P1, P2, P3, P4, P5 in M5. rewrite Q1, Q2, Q3, Q4, Q5 in M6. rewrite P6 in M7.
  destruct (self_proxied a4); conserve.
Qed.

(** ** Block processing *)

(** A database transformer that keeps the supply equations and the type
    invariant of every database it starts from. *)
Definition sound (db db' : database) : Prop := wf db -> conserves db db'.

#[export] Instance sound_preorder : PreOrder sound.
Proof.
  split; [intros db Hwf; by apply moves_refl|].
  intros x y z H1 H2 Hx. specialize (H1 Hx). specialize (H2 (mv_wf _ _ _ _ _ _ _ H1)). conserve.
Qed.

Lemma matured_savings_Some db k s :
  matured_savings db = Some (k, s) -> Db.savings_withdraws db !! k = Some s.
Proof.
  unfold matured_savings. destruct (first_by _ _) as [[k' s']|] eqn:E; [|done].
  destruct (_ <? _); [done|]. intros [= -> ->]. by eapply first_by_Some.
Qed.

Lemma process_savings_withdraws_conserves db db' :
  process_savings_withdraws db = Ok db' -> sound db db'.
Proof.
  apply while_next_preorder; [apply _|]. clear. intros db [k s] db' Hn%matured_savings_Some H Hwf.
  unfold process_savings_withdraw in H. pose proof (wf_savings _ Hwf _ _ Hn) as Hs. simpl in Hs.
  bind H as db1 H1. bind H as db2 H2. injection H as <-.
  apply adjust_balance_moves in H1 as [M1 F1]; [|done..].
  rewrite <- (frame_savings _ _ F1) in Hn.
  assert (Db.savings_withdraws db2 = Db.savings_withdraws db1) as E
    by (by apply modify_account_inv in H2 as (? & ? & _ & _ & ->)).
  apply modify_account_conserves in H2; [|wf_of|keeps_holdings].
  rewrite <- E in Hn. pose proof (remove_savings_moves _ _ _ ltac:(wf_of) Hn) as M3.
  unfold savings_held in M3. conserve.
Qed.

Lemma unratified_escrow_Some db k e :
  unratified_escrow db = Some (k, e) -> Db.escrows db !! k = Some e.
Proof.
  unfold unratified_escrow. destruct (first_by _ _) as [[k' s']|] eqn:E; [|done].
  destruct (_ && _); [|done]. intros [= -> ->]. by eapply first_by_Some.
Qed.

Lemma expire_escrow_ratification_conserves db db' :
  expire_escrow_ratification db = Ok db' -> sound db db'.
Proof.
  apply while_next_preorder; [apply _|]. clear. intros db [k e] db' Hn%unratified_escrow_Some H Hwf.
  unfold refund_escrow in H. result_inv. eapply refund_conserves; done.
Qed.

Lemma due_conversion_Some db k c :
  due_conversion db = Some (k, c) -> Db.convert_requests db !! k = Some c.
Proof.
  unfold due_conversion. destruct (first_by _ _) as [[k' s']|] eqn:E; [|done].
  destruct (_ <=? _); [|done]. intros [= -> ->]. by eapply first_by_Some.
Qed.

(** what the loop of process_conversions has issued and retired so far *)
Definition converted (db0 : database) (st : database * asset * asset) : Prop :=
  let '(db, net_sbd, net_steem) := st in
  moves db0 db (- amount net_steem) (amount net_sbd) 0 0 0 /\
  symbol net_sbd = SBD_SYMBOL /\ symbol net_steem = STEEM_SYMBOL.

Lemma convert_one_converted db0 st x st' :
  converted db0 st -> due_conversion st.1.1 = Some x -> convert_one st x = Ok st' -> converted db0 st'.
Proof.
  destruct st as [[db net_sbd] net_steem], x as [k c]. simpl. intros (M & S1 & S2) Hn%due_conversion_Some H.
  bind H as issue Hi. bind H as db1 H1. bind H as nsbd H2. bind H as nsteem H3. injection H as <-.
  pose proof (wf_converts _ (mv_wf _ _ _ _ _ _ _ M) _ _ Hn) as Hs. simpl in Hs.
  asset_inv. simpl in *.
  match goal with H : symbol net_steem = symbol issue |- _ => rewrite S2 in H; symmetry in H; rename H into Si end.
  apply adjust_balance_moves in H1 as [M1 F1]; [|wf_of|by left].
  rewrite <- (frame_converts _ _ F1) in Hn. pose proof (remove_convert_moves _ _ _ ltac:(wf_of) Hn) as M2.
  unfold convert_held in M2.
  rewrite (val_eq STEEM_SYMBOL issue), (val_other SBD_SYMBOL issue) in M1 by (rewrite ?Si; done).
  rewrite (val_eq SBD_SYMBOL), (val_other STEEM_SYMBOL) in M2 by (rewrite ?Hs; done).
  split; [|done]. conserve.
Qed.

Lemma process_conversions_conserves db db' : process_conversions db = Ok db' -> sound db db'.
Proof.
  unfold process_conversions. intros H Hwf. destruct (Price.is_null _); [injection H as <-; by apply moves_refl|].
  bind H as [[db1 net_sbd] net_steem] Hloop.
  apply (while_next_inv _ _ (converted db)) in Hloop as (M & S1 & S2).
  - apply modify_gpo_inv in H as (g & Hg & ->). result_inv. asset_inv.
    pose proof (wf_gpo db1 (mv_wf _ _ _ _ _ _ _ M)) as (?&?&?&?&?&?&?&?).
    eapply moves_eq; [eapply moves_trans; [exact M|apply gpo_moves; [wf_of|unfold gpo_wf; simpl; auto 10]]|..];
      unfold gpo_steem, gpo_sbd, gpo_vests, gpo_pending, gpo_vsf; simpl; lia.
  - intros st x st' HI Hn Hb. eapply convert_one_converted; eauto.
  - split; [|done]. simpl. by apply moves_refl.
Qed.

(** ** The loops finish their work *)

Definition same_time (db db' : database) : Prop := head_block_time db' = head_block_time db.
#[export] Instance same_time_preorder : PreOrder same_time.
Proof. unfold same_time. split; [done|]. intros x y z. congruence. Qed.

Lemma adjust_balance_time db n d db' : adjust_balance db n d = Ok db' -> same_time db db'.
Proof.
  unfold adjust_balance, modify_balance, same_time. intros H.
  result_case; repeat match goal with
  | H : modify_account _ _ _ = Ok _ |- _ => apply modify_account_inv in H as (? & ? & _ & _ & ->)
  | H : pay_interest _ ?i = Ok _ |- _ => destruct i; simpl in H; result_inv
  | H : modify_gpo _ _ = Ok _ |- _ => apply modify_gpo_inv in H as (? & ? & ->); result_inv
  end; done.
Qed.

Definition savings_due (db : database) (s : savings_withdraw_object) : Prop :=
  SavingsWithdraw.complete s <= head_block_time db.

Lemma matured_savings_None db k s :
  matured_savings db = None -> Db.savings_withdraws db !! k = Some s -> ~ savings_due db s.
Proof.
  unfold matured_savings, savings_due. destruct (first_by _ _) as [[k' s']|] eqn:E.
  - destruct (Z.ltb_spec (head_block_time db) (SavingsWithdraw.complete s')); [|done]. intros _ Hs.
    eapply (first_by_key SavingsWithdraw.complete) in Hs; [|exact E]. lia.
  - apply first_by_None in E. rewrite E. intros _ Hs. by rewrite lookup_empty in Hs.
Qed.

Lemma process_savings_withdraw_step db k s db' :
  process_savings_withdraw db (k, s) = Ok db' ->
  same_time db db' /\ Db.savings_withdraws db' = delete k (Db.savings_withdraws db).
Proof.
  unfold process_savings_withdraw. intros H. bind H as db1 H1. bind H as db2 H2. injection H as <-.
  apply modify_account_inv in H2 as (? & ? & _ & _ & ->).
  split; [by apply (adjust_balance_time _ _ _ _ H1)|]. simpl.
  apply modify_balance_frame in H1. by rewrite (frame_savings _ _ H1).
Qed.

(** after a block's savings processing no withdrawal that was due is left. *)
Theorem process_savings_withdraws_complete db db' k s :
  process_savings_withdraws db = Ok db' -> Db.savings_withdraws db' !! k = Some s ->
  head_block_time db < SavingsWithdraw.complete s.
Proof.
  intros H Hs. unfold process_savings_withdraws in H.
  assert (same_time db db') as Ht.
  { revert H. apply while_next_preorder; [apply _|]. intros ? [? ?] ? _ H. by apply process_savings_withdraw_step in H as [? _]. }
  apply (while_next_done _ _ (fun db => size (Db.savings_withdraws db))) in H; [|..|done].
  - pose proof (matured_savings_None _ _ _ H Hs) as Hd. unfold savings_due in Hd. unfold same_time in Ht. lia.
  - intros d [k' s'] Hn%matured_savings_Some. by eapply size_present.
  - intros d [k' s'] d' Hn%matured_savings_Some Hb. apply process_savings_withdraw_step in Hb as [_ ->].
    by eapply size_delete_lt.
Qed.

#[export] Hint Resolve transfer_conserves transfer_to_vesting_conserves transfer_to_savings_conserves transfer_from_savings_conserves cancel_transfer_from_savings_conserves
  escrow_transfer_conserves escrow_approve_conserves escrow_dispute_conserves escrow_release_conserves claim_reward_balance_conserves : conserves.
