(* ===== verification/Comments.v ===== *)
(** Comments: posts, replies and the votes on them.

    The evaluators of comment_operation, comment_options_operation,
    delete_comment_operation and vote_operation (steem_evaluator.cpp), as a full
    node runs them (IS_LOW_MEM off, CLEAR_VOTES on, the defaults of the build).
    Comments are keyed by author and permlink; their index compares permlinks with
    strcmp, so a lookup sees a permlink up to its first NUL ([c_str]).  The text
    patching of an edited body (diff_match_patch) is a parameter. *)
From Stdlib Require Import ZArith Lia String Ascii.
From stdpp Require Import base gmap strings list sorting.
From S2P Require Import Prelude.
From S2P Require Import Safe.
From S2P Require Import Asset.
From S2P Require Import Authority.
From S2P Require Import Objects.
From S2P Require Import Utf8.
From S2P Require Import Balance.
From S2P Require Import Supply.
From S2P Require Import Transfers.
From S2P Require Import Reward.
Local Open Scope string_scope.
Local Open Scope Z_scope.
Local Open Scope fc_scope.

Definition STEEM_ROOT_POST_PARENT : account_name_type := "".
Definition STEEM_MAX_COMMENT_DEPTH : Z := 0xffff.
Definition STEEM_MIN_ROOT_COMMENT_INTERVAL : Z := 60 * 5.
Definition STEEM_MIN_REPLY_INTERVAL : Z := 3.
Definition STEEM_CASHOUT_WINDOW_SECONDS : Z := 60 * 60 * 24 * 7.
Definition STEEM_UPVOTE_LOCKOUT : Z := 12 * 60 * 60.
Definition STEEM_MIN_PERMLINK_LENGTH : Z := 0.
Definition STEEM_MAX_PERMLINK_LENGTH : Z := 256.
Definition STEEM_MAX_VOTE_CHANGES : Z := 5.
Definition STEEM_REVERSE_AUCTION_WINDOW_SECONDS : Z := 60 * 30.
Definition STEEM_MIN_VOTE_INTERVAL_SEC : Z := 3.
Definition STEEM_MIN_VOTE_VESTING_SHARES : Z := 1000000.
Definition STEEM_VOTE_DUST_THRESHOLD : Z := 1000.

(** ** Strings *)

Definition size_of (s : string) : Z := Z.of_nat (String.length s).

(** the C string of a string: what precedes its first NUL *)
Fixpoint c_str (s : string) : string :=
  match s with
  | "" => ""
  | String c s => if Ascii.eqb c "000" then "" else String c (c_str s)
  end.

(** strcmp_equal *)
Definition strcmp_equal (a b : string) : bool := (size_of a =? size_of b) || String.eqb (c_str a) (c_str b).

Definition permlink_char (c : ascii) : bool :=
  let n := Z.of_nat (nat_of_ascii c) in
  ((97 <=? n) && (n <=? 122)) || ((48 <=? n) && (n <=? 57)) || (n =? 45).

Definition validate_permlink_0_1 (permlink : string) : result unit :=
  _ ← fc_assert ((STEEM_MIN_PERMLINK_LENGTH <? size_of permlink) && (size_of permlink <? STEEM_MAX_PERMLINK_LENGTH));
  fc_assert (forallb permlink_char (list_ascii_of_string permlink)).

(** ** Lookups *)

Abbreviation comment_key := (account_name_type * string)%type (only parsing).

Definition find_comment (db : database) (author : account_name_type) (permlink : string) : option comment_object :=
  Db.comments db !! (author, c_str permlink).
Definition get_comment (db : database) (author : account_name_type) (permlink : string) : result comment_object :=
  get_or out_of_range (find_comment db author permlink).
Definition key_of (c : comment_object) : comment_key := (Comment.author c, c_str (Comment.permlink c)).

(** get< T > by id *)
Definition by_id {K V} `{Countable K} (id : V -> Z) (m : gmap K V) (i : Z) : result (K * V) :=
  get_or out_of_range (head (filter (fun kv => id (snd kv) = i) (map_to_list m))).
Definition comment_by_id (db : database) (i : Z) : result (comment_key * comment_object) :=
  by_id Comment.id (Db.comments db) i.
Definition account_by_id (db : database) (i : Z) : result (account_name_type * account_object) :=
  by_id Account.id (Db.accounts db) i.

Definition modify_comment (db : database) (k : comment_key) (f : comment_object -> result comment_object) : result database :=
  modify_obj Db.comments k f db.

(** the votes on a comment, a range of the index by_comment_voter *)
Definition votes_on (db : database) (i : Z) : list ((Z * Z) * comment_vote_object) :=
  filter (fun kv => CommentVote.comment (snd kv) = i) (map_to_list (Db.comment_votes db)).

Definition get_reward_fund (db : database) : result reward_fund_object :=
  get_or out_of_range (Db.reward_funds db !! STEEM_POST_REWARD_FUND_NAME).
Definition get_curation_rewards_percent (db : database) : result Z :=
  f ← get_reward_fund db; Ok (RewardFund.percent_curation_rewards f).
Definition calculate_discussion_payout_time (c : comment_object) : Z := Comment.cashout_time c.

(** ** Ancestors: the loops over the parents of a comment *)

Definition parent_of (c : comment_object) : option comment_key :=
  if decide (Comment.parent_author c = STEEM_ROOT_POST_PARENT) then None
  else Some (Comment.parent_author c, c_str (Comment.parent_permlink c)).

(** [current] is the pointer [parent] of the loop *)
Definition touch_parent (d : Z) (st : database * option comment_key) (k : comment_key)
    : result (database * option comment_key) :=
  let '(db, _) := st in
  db ← modify_comment db k (fun p => Ok (p <| Comment.children ::= fun n => u32 (n + d) |>
                                           <| Comment.active := head_block_time db |>));
  p ← get_or out_of_range (Db.comments db !! k);
  match parent_of p with
  | Some k' => _ ← get_or out_of_range (Db.comments db !! k'); Ok (db, Some k')
  | None => Ok (db, None)
  end.

(** a comment has as many ancestors as its depth says *)
Definition touch_parents (d : Z) (db : database) (k : comment_key) (depth : Z) : result database :=
  '(db, _) ← while_next (S (Z.to_nat depth)) snd (touch_parent d) (db, Some k);
  Ok db.

(** ** comment *)

Definition may_post (now : Z) (a : account_object) (root : bool) : bool :=
  if root then STEEM_MIN_ROOT_COMMENT_INTERVAL <? now - Account.last_root_post a
  else STEEM_MIN_REPLY_INTERVAL <=? now - Account.last_post a.

Definition record_post (now : Z) (root : bool) (a : account_object) : account_object :=
  let a := if root then a <| Account.last_root_post := now |> <| Account.post_bandwidth ::= u32 |> else a in
  a <| Account.last_post := now |> <| Account.post_count ::= fun n => u32 (n + 1) |>.

Definition new_comment (now : Z) (parent : option comment_object) (parent_permlink : string)
    (author : account_name_type) (permlink : string) (id : Z) : comment_object :=
  let c := Comment.default <| Comment.id := id |> <| Comment.author := author |> <| Comment.permlink := permlink |>
    <| Comment.last_update := now |> <| Comment.created := now |> <| Comment.active := now |>
    <| Comment.last_payout := 0 |> <| Comment.max_cashout_time := time_maximum |>
    <| Comment.reward_weight := STEEM_100_PERCENT |> in
  let c :=
    match parent with
    | None => c <| Comment.parent_author := "" |> <| Comment.parent_permlink := parent_permlink |>
                <| Comment.category := parent_permlink |> <| Comment.root_comment := id |>
    | Some p => c <| Comment.parent_author := Comment.author p |> <| Comment.parent_permlink := Comment.permlink p |>
                  <| Comment.depth := u16 (Comment.depth p + 1) |> <| Comment.category := Comment.category p |>
                  <| Comment.root_comment := Comment.root_comment p |>
    end in
  c <| Comment.cashout_time := u32 (now + STEEM_CASHOUT_WINDOW_SECONDS) |>.

Section comment.
Context (patch_body : string -> string -> string).

Definition new_content (title body json_metadata : string) (comment id : Z) : comment_content_object :=
  CommentContent.mk id comment title (if size_of body <? 1024 * 1024 * 128 then body else "") json_metadata.

Definition create_comment (db : database) (parent : option comment_object) (parent_permlink : string)
    (author : account_name_type) (permlink title body json_metadata : string) : result database :=
  let root := match parent with None => true | Some _ => false end in
  a ← get_account db author;
  _ ← match parent with
      | Some p => '(_, r) ← comment_by_id db (Comment.root_comment p); fc_assert (Comment.allow_replies r)
      | None => Ok tt
      end;
  _ ← fc_assert (may_post (head_block_time db) a root);
  db ← modify_account db author (fun a => Ok (record_post (head_block_time db) root a));
  _ ← validate_permlink_0_1 parent_permlink;
  _ ← validate_permlink_0_1 permlink;
  let id := Db.next_id db comment_index in
  db ← create comment_index Db.comments (author, c_str permlink)
         (new_comment (head_block_time db) parent parent_permlink author permlink) db;
  db ← create comment_content_index Db.comment_contents id (new_content title body json_metadata id) db;
  match parent with
  | Some p => touch_parents 1 db (key_of p) (Comment.depth p)
  | None => Ok db
  end.

Definition edit_comment (db : database) (c : comment_object) (parent : option comment_object)
    (parent_author : account_name_type) (parent_permlink title body json_metadata : string) : result database :=
  db ← modify_comment db (key_of c) (fun com =>
         let com := com <| Comment.last_update := head_block_time db |> <| Comment.active := head_block_time db |> in
         let expected := match parent with None => "" | Some _ => parent_author end in
         _ ← fc_assert (bool_decide (Comment.parent_author com = expected));
         _ ← fc_assert (strcmp_equal (Comment.parent_permlink com) parent_permlink);
         Ok com);
  modify_obj Db.comment_contents (Comment.id c) (fun con =>
    let con := if 0 <? size_of title then con <| CommentContent.title := title |> else con in
    let con := if 0 <? size_of json_metadata then con <| CommentContent.json_metadata := json_metadata |> else con in
    Ok (if 0 <? size_of body then con <| CommentContent.body ::= fun old => patch_body old body |> else con)) db.

Definition comment_evaluator (db : database) (parent_author : account_name_type) (parent_permlink : string)
    (author : account_name_type) (permlink title body json_metadata : string) : result database :=
  _ ← fc_assert (negb (size_of title + size_of body + size_of json_metadata =? 0));
  let itr := find_comment db author permlink in
  _ ← get_account db author;
  parent ← (if decide (parent_author = STEEM_ROOT_POST_PARENT) then Ok None
            else
              p ← get_comment db parent_author parent_permlink;
              _ ← fc_assert (Comment.depth p <? STEEM_MAX_COMMENT_DEPTH);
              Ok (Some p));
  _ ← fc_assert (is_utf8 json_metadata);
  match itr with
  | None => create_comment db parent parent_permlink author permlink title body json_metadata
  | Some c => edit_comment db c parent parent_author parent_permlink title body json_metadata
  end.
End comment.

(** ** comment_options *)

Definition add_beneficiaries (db : database) (k : comment_key) (bs : list (account_name_type * Z)) : result database :=
  c ← get_or out_of_range (Db.comments db !! k);
  _ ← fc_assert (Z.of_nat (List.length (Comment.beneficiaries c)) =? 0);
  _ ← fc_assert (Comment.abs_rshares c =? 0);
  _ ← foldM (fun _ b => fc_assert (bool_decide (is_Some (find_account db (fst b))))) tt bs;
  modify_comment db k (fun c => Ok (c <| Comment.beneficiaries ::= fun l => (l ++ bs)%list |>)).

Definition comment_options_evaluator (db : database) (author : account_name_type) (permlink : string)
    (max_accepted_payout : asset) (percent_steem_dollars : Z) (allow_votes allow_curation_rewards : bool)
    (extensions : list (list (account_name_type * Z))) : result database :=
  c ← get_comment db author permlink;
  restricts ← (if negb allow_curation_rewards || negb allow_votes then Ok true
               else Asset.ltb max_accepted_payout (Comment.max_accepted_payout c));
  _ ← fc_assert (negb restricts || (Comment.abs_rshares c =? 0));
  _ ← fc_assert (Comment.allow_curation_rewards c || negb allow_curation_rewards);
  _ ← fc_assert (Comment.allow_votes c || negb allow_votes);
  _ ← assert_geb (Comment.max_accepted_payout c) max_accepted_payout;
  _ ← fc_assert (percent_steem_dollars <=? Comment.percent_steem_dollars c);
  db ← modify_comment db (key_of c) (fun c =>
         Ok (c <| Comment.max_accepted_payout := max_accepted_payout |>
               <| Comment.percent_steem_dollars := percent_steem_dollars |>
               <| Comment.allow_votes := allow_votes |> <| Comment.allow_curation_rewards := allow_curation_rewards |>));
  foldM (fun db bs => add_beneficiaries db (key_of c) bs) db extensions.

(** ** delete_comment *)

Definition delete_comment_evaluator (db : database) (author : account_name_type) (permlink : string) : result database :=
  c ← get_comment db author permlink;
  _ ← fc_assert (Comment.children c =? 0);
  _ ← fc_assert (negb (Comment.cashout_time c =? time_maximum));
  _ ← fc_assert (Comment.net_rshares c <=? 0);
  let db := fold_left (fun db kv => remove Db.comment_votes (fst kv) db) (votes_on db (Comment.id c)) db in
  db ← match parent_of c with
       | Some k =>
           p ← get_or out_of_range (Db.comments db !! k);
           touch_parents (-1) db k (Comment.depth p)
       | None => Ok db
       end;
  Ok (remove Db.comments (key_of c) db).

(** ** vote *)

(** what a vote of [weight] costs the voter and puts on the comment *)
Definition vote_power (db : database) (a : account_object) (weight : Z) : result (Z * Z * Z) :=
  e ← get_effective_vesting_shares a VESTS_SYMBOL;
  let effective_vesting := amount e in
  _ ← fc_assert (STEEM_MIN_VOTE_VESTING_SHARES <? effective_vesting);
  let elapsed_seconds := head_block_time db - Account.last_vote_time a in
  _ ← fc_assert (STEEM_MIN_VOTE_INTERVAL_SEC <=? elapsed_seconds);
  let regenerated_power := STEEM_100_PERCENT * elapsed_seconds / STEEM_VOTE_REGENERATION_SECONDS in
  let current_power := Z.min (Account.voting_power a + regenerated_power) STEEM_100_PERCENT in
  _ ← fc_assert (0 <? current_power);
  let used_power := current_power * Z.abs weight / STEEM_100_PERCENT * (60 * 60 * 24) in
  let max_vote_denom := u32 (Gpo.vote_power_reserve_rate (Db.gpo db) * STEEM_VOTE_REGENERATION_SECONDS) in
  _ ← fc_assert (0 <? max_vote_denom);
  let used_power := (used_power + max_vote_denom - 1) / max_vote_denom in
  _ ← fc_assert (used_power <=? current_power);
  r ← div128 (u128 (u128 effective_vesting * u128 used_power)) STEEM_100_PERCENT;
  r ← to_uint64 r;
  Ok (current_power, used_power, Z.max 0 (i64 r - STEEM_VOTE_DUST_THRESHOLD)).

Definition spend_power (now current_power used_power : Z) (a : account_object) : account_object :=
  a <| Account.voting_power := u16 (current_power - used_power) |> <| Account.last_vote_time := now |>.

(** the curation weight of a new vote: with and without the reverse auction *)
Definition curation_weight (db : database) (c : comment_object) (old_vote_rshares rshares : Z) : result (Z * Z) :=
  if (0 <? rshares) && (Comment.last_payout c =? 0) && Comment.allow_curation_rewards c then
    percent ← get_curation_rewards_percent db;
    if 0 <? percent then
      f ← get_reward_fund db;
      let curve := RewardFund.curation_reward_curve f in
      o ← evaluate_reward_curve (u128 old_vote_rshares) curve (RewardFund.content_constant f);
      old_weight ← to_uint64 o;
      n ← evaluate_reward_curve (u128 (Comment.vote_rshares c)) curve (RewardFund.content_constant f);
      new_weight ← to_uint64 n;
      let max_vote_weight := u64 (new_weight - old_weight) in
      let delta_t := Z.min (u64 (head_block_time db - Comment.created c)) STEEM_REVERSE_AUCTION_WINDOW_SECONDS in
      w ← div128 (u128 (max_vote_weight * delta_t)) STEEM_REVERSE_AUCTION_WINDOW_SECONDS;
      w ← to_uint64 w;
      Ok (max_vote_weight, w)
    else Ok (0, 0)
  else Ok (0, 0).

Definition add_root_rshares (db : database) (c : comment_object) (abs_rshares : Z) : result database :=
  '(k, _) ← comment_by_id db (Comment.root_comment c);
  modify_comment db k (fun r =>
    s ← Safe.add (Comment.children_abs_rshares r) abs_rshares; Ok (r <| Comment.children_abs_rshares := s |>)).

Definition count_new_vote (rshares abs_rshares : Z) (c : comment_object) : result comment_object :=
  net ← Safe.add (Comment.net_rshares c) rshares;
  abs ← Safe.add (Comment.abs_rshares c) abs_rshares;
  v ← (if 0 <? rshares then Safe.add (Comment.vote_rshares c) rshares else Ok (Comment.vote_rshares c));
  Ok (c <| Comment.net_rshares := net |> <| Comment.abs_rshares := abs |> <| Comment.vote_rshares := v |>
        <| Comment.net_votes ::= fun n => if 0 <? rshares then n + 1 else n - 1 |>).

Definition new_vote (db : database) (k : comment_key) (c : comment_object) (voter : account_name_type)
    (a : account_object) (weight current_power used_power abs_rshares : Z) : result database :=
  _ ← fc_assert (negb (weight =? 0));
  let rshares := if weight <? 0 then - abs_rshares else abs_rshares in
  _ ← fc_assert (negb (0 <? rshares) || (head_block_time db <? Comment.cashout_time c - STEEM_UPVOTE_LOCKOUT));
  db ← modify_account db voter (fun a => Ok (spend_power (head_block_time db) current_power used_power a));
  _ ← comment_by_id db (Comment.root_comment c);
  _ ← fc_assert (0 <? abs_rshares);
  let old_vote_rshares := Comment.vote_rshares c in
  db ← modify_comment db k (count_new_vote rshares abs_rshares);
  db ← add_root_rshares db c abs_rshares;
  c ← get_or out_of_range (Db.comments db !! k);
  '(max_vote_weight, w) ← curation_weight db c old_vote_rshares rshares;
  db ← create comment_vote_index Db.comment_votes (Comment.id c, Account.id a) (fun id =>
         CommentVote.mk id (Account.id a) (Comment.id c) w rshares weight (head_block_time db) 0) db;
  if negb (max_vote_weight =? 0) then
    modify_comment db k (fun c => Ok (c <| Comment.total_vote_weight ::= fun t => u64 (t + max_vote_weight) |>))
  else Ok db.

(** how many votes a change from [old] to [new] rshares adds *)
Definition net_votes_change (old new : Z) : Z :=
  if (0 <? new) && (old <? 0) then 2
  else if (0 <? new) && (old =? 0) then 1
  else if (new =? 0) && (old <? 0) then 1
  else if (new =? 0) && (0 <? old) then -1
  else if (new <? 0) && (old =? 0) then -1
  else if (new <? 0) && (0 <? old) then -2
  else 0.

Definition change_vote (db : database) (k : comment_key) (c : comment_object) (voter : account_name_type)
    (vk : Z * Z) (v : comment_vote_object) (weight current_power used_power abs_rshares : Z) : result database :=
  _ ← fc_assert (CommentVote.num_changes v <? STEEM_MAX_VOTE_CHANGES);
  _ ← fc_assert (negb (CommentVote.vote_percent v =? weight));
  let rshares := if weight <? 0 then - abs_rshares else abs_rshares in
  _ ← fc_assert (negb (CommentVote.rshares v <? rshares)
                 || (head_block_time db <? Comment.cashout_time c - STEEM_UPVOTE_LOCKOUT));
  db ← modify_account db voter (fun a => Ok (spend_power (head_block_time db) current_power used_power a));
  _ ← comment_by_id db (Comment.root_comment c);
  db ← modify_comment db k (fun c =>
         n ← Safe.sub (Comment.net_rshares c) (CommentVote.rshares v);
         net ← Safe.add n rshares;
         abs ← Safe.add (Comment.abs_rshares c) abs_rshares;
         Ok (c <| Comment.net_rshares := net |> <| Comment.abs_rshares := abs |>
               <| Comment.net_votes ::= Z.add (net_votes_change (CommentVote.rshares v) rshares) |>));
  db ← add_root_rshares db c abs_rshares;
  db ← modify_comment db k (fun c =>
         Ok (c <| Comment.total_vote_weight ::= fun t => u64 (t - CommentVote.weight v) |>));
  modify_obj Db.comment_votes vk (fun v =>
    Ok (v <| CommentVote.rshares := rshares |> <| CommentVote.vote_percent := weight |>
          <| CommentVote.last_update := head_block_time db |> <| CommentVote.weight := 0 |>
          <| CommentVote.num_changes ::= Z.add 1 |>)) db.

Definition vote_evaluator (db : database) (voter author : account_name_type) (permlink : string) (weight : Z)
    : result database :=
  c ← get_comment db author permlink;
  a ← get_account db voter;
  _ ← fc_assert (Account.can_vote a);
  _ ← fc_assert (negb (0 <? weight) || Comment.allow_votes c);
  if calculate_discussion_payout_time c =? time_maximum then Ok db
  else
    '(current_power, used_power, abs_rshares) ← vote_power db a weight;
    let vk := (Comment.id c, Account.id a) in
    match Db.comment_votes db !! vk with
    | Some v =>
        _ ← fc_assert (negb (CommentVote.num_changes v =? -1));
        change_vote db (key_of c) c voter vk v weight current_power used_power abs_rshares
    | None => new_vote db (key_of c) c voter a weight current_power used_power abs_rshares
    end.

(** ** Content operations keep the books

    [content_only]: nothing changed but comments, votes, contents, ids and the
    posting and voting fields of accounts. *)

Definition same_holder (a a' : account_object) : Prop :=
  a' = a <| Account.voting_power := Account.voting_power a' |> <| Account.last_vote_time := Account.last_vote_time a' |>
         <| Account.last_post := Account.last_post a' |> <| Account.last_root_post := Account.last_root_post a' |>
         <| Account.post_bandwidth := Account.post_bandwidth a' |> <| Account.post_count := Account.post_count a' |>.

#[export] Instance same_holder_preorder : PreOrder same_holder.
Proof. split; [intros a; by destruct a|]. intros x y z Hy Hz. unfold same_holder. rewrite Hz, Hy. reflexivity. Qed.

Definition same_holders (m m' : gmap account_name_type account_object) : Prop :=
  forall n, match m !! n, m' !! n with
            | Some a, Some a' => same_holder a a'
            | None, None => True
            | _, _ => False
            end.

#[export] Instance same_holders_preorder : PreOrder same_holders.
Proof.
  split; [intros m n; by destruct (m !! n)|]. intros x y z Hy Hz n. specialize (Hy n). specialize (Hz n).
  destruct (x !! n), (y !! n), (z !! n); try done. by etrans.
Qed.

Definition content_only (db db' : database) : Prop :=
  db' = db <| Db.accounts := Db.accounts db' |> <| Db.comments := Db.comments db' |>
           <| Db.comment_votes := Db.comment_votes db' |> <| Db.comment_contents := Db.comment_contents db' |>
           <| Db.next_id := Db.next_id db' |> /\
  same_holders (Db.accounts db) (Db.accounts db').

#[export] Instance content_only_preorder : PreOrder content_only.
Proof.
  split; [intros db; split; [by destruct db|done]|]. intros x y z [Hy Ay] [Hz Az]. split; [|by etrans].
  rewrite Hz, Hy. reflexivity.
Qed.

Lemma content_account db n f db' :
  modify_account db n f = Ok db' -> (forall a a', f a = Ok a' -> same_holder a a') -> content_only db db'.
Proof.
  intros (a & a' & Ha & Hf & ->)%modify_account_inv Hs. split; [by destruct db|]. intros m. simpl.
  destruct (decide (m = n)) as [->|N]; [rewrite Ha, lookup_insert_eq; by apply Hs|].
  rewrite lookup_insert_ne by done. by destruct (Db.accounts db !! m).
Qed.

Lemma content_comment db k f db' : modify_comment db k f = Ok db' -> content_only db db'.
Proof. intros (c & c' & _ & _ & ->)%modify_obj_inv. split; [by destruct db|done]. Qed.
Lemma content_vote db k f db' : modify_obj Db.comment_votes k f db = Ok db' -> content_only db db'.
Proof. intros (c & c' & _ & _ & ->)%modify_obj_inv. split; [by destruct db|done]. Qed.
Lemma content_text db k f db' : modify_obj Db.comment_contents k f db = Ok db' -> content_only db db'.
Proof. intros (c & c' & _ & _ & ->)%modify_obj_inv. split; [by destruct db|done]. Qed.
Lemma content_create_comment i db k f db' : create i Db.comments k f db = Ok db' -> content_only db db'.
Proof. intros (_ & ids & ->)%create_inv. split; [by destruct db|done]. Qed.
Lemma content_create_vote i db k f db' : create i Db.comment_votes k f db = Ok db' -> content_only db db'.
Proof. intros (_ & ids & ->)%create_inv. split; [by destruct db|done]. Qed.
Lemma content_create_text i db k f db' : create i Db.comment_contents k f db = Ok db' -> content_only db db'.
Proof. intros (_ & ids & ->)%create_inv. split; [by destruct db|done]. Qed.
Lemma content_remove_comment db k : content_only db (remove Db.comments k db).
Proof. split; [by destruct db|done]. Qed.
Lemma content_remove_votes (l : list ((Z * Z) * comment_vote_object)) :
  forall db, content_only db (fold_left (fun db kv => remove Db.comment_votes (fst kv) db) l db).
Proof.
  induction l as [|kv l IH]; intros db; [done|]. simpl. etrans; [|apply IH]. split; [by destruct db|done].
Qed.

Lemma record_post_holder now root a : same_holder a (record_post now root a).
Proof. destruct a, root; reflexivity. Qed.
Lemma spend_power_holder now p u a : same_holder a (spend_power now p u a).
Proof. destruct a; reflexivity. Qed.

(** the facts of the steps of a run, then the run as a chain of them *)
Ltac content_facts :=
  repeat match goal with
  | H : modify_account _ _ (fun a => Ok (record_post _ _ a)) = Ok _ |- _ =>
      apply content_account in H; [|intros ? ? [= <-]; apply record_post_holder]
  | H : modify_account _ _ (fun a => Ok (spend_power _ _ _ a)) = Ok _ |- _ =>
      apply content_account in H; [|intros ? ? [= <-]; apply spend_power_holder]
  | H : modify_comment _ _ _ = Ok _ |- _ => apply content_comment in H
  | H : modify_obj Db.comment_votes _ _ _ = Ok _ |- _ => apply content_vote in H
  | H : modify_obj Db.comment_contents _ _ _ = Ok _ |- _ => apply content_text in H
  | H : create _ Db.comments _ _ _ = Ok _ |- _ => apply content_create_comment in H
  | H : create _ Db.comment_votes _ _ _ = Ok _ |- _ => apply content_create_vote in H
  | H : create _ Db.comment_contents _ _ _ = Ok _ |- _ => apply content_create_text in H
  end.
Ltac content_chain :=
  first
    [ reflexivity
    | eassumption
    | match goal with
      | H : content_only ?c ?b |- content_only ?a ?b => transitivity c; [clear H; content_chain|exact H]
      end ].

Lemma touch_parents_content d db k depth db' : touch_parents d db k depth = Ok db' -> content_only db db'.
Proof.
  unfold touch_parents. intros H. bind H as [db1 o] H1. injection H as <-.
  change (content_only (db, Some k).1 (db1, o).1). revert H1.
  apply (while_next_inv snd (touch_parent d) (fun st => content_only db st.1)); [|done].
  intros [s p] k' [s' p'] Hs _ Hb. simpl in *. unfold touch_parent in Hb. bind Hb as s1 H1. apply content_comment in H1.
  bind Hb as c Hc. etrans; [exact Hs|]. result_case; done.
Qed.

Lemma add_root_rshares_content db c x db' : add_root_rshares db c x = Ok db' -> content_only db db'.
Proof. unfold add_root_rshares. intros H. bind H as [k r] Hr. by apply content_comment in H. Qed.

Lemma comment_content patch db pa pp author permlink title body json db' :
  comment_evaluator patch db pa pp author permlink title body json = Ok db' -> content_only db db'.
Proof.
  intros H. unfold comment_evaluator in H. bind H as u1 U1. bind H as a Ha. bind H as parent Hp. bind H as u2 U2.
  destruct (find_comment db author permlink) as [c|].
  - unfold edit_comment in H. bind H as db1 H1. content_facts. content_chain.
  - unfold create_comment in H. bind H as b Hb. bind H as u3 U3. bind H as u4 U4. bind H as db1 H1. bind H as u5 U5.
    bind H as u6 U6. bind H as db2 H2. bind H as db3 H3. content_facts.
    destruct parent as [p|]; [apply touch_parents_content in H|injection H as <-]; content_chain.
Qed.

Lemma add_beneficiaries_content db k bs db' : add_beneficiaries db k bs = Ok db' -> content_only db db'.
Proof.
  unfold add_beneficiaries. intros H. bind H as c Hc. bind H as u1 U1. bind H as u2 U2. bind H as u3 U3.
  by apply content_comment in H.
Qed.

Lemma comment_options_content db author permlink mp psd av ac exts db' :
  comment_options_evaluator db author permlink mp psd av ac exts = Ok db' -> content_only db db'.
Proof.
  intros H. unfold comment_options_evaluator in H. bind H as c Hc. bind H as r Hr. bind H as u1 U1. bind H as u2 U2.
  bind H as u3 U3. bind H as u4 U4. bind H as u5 U5. bind H as db1 H1. content_facts. etrans; [exact H1|].
  revert H. apply foldM_preorder; [apply _|]. intros d bs d'. apply add_beneficiaries_content.
Qed.

Lemma delete_comment_content db author permlink db' : delete_comment_evaluator db author permlink = Ok db' -> content_only db db'.
Proof.
  intros H. unfold delete_comment_evaluator in H. bind H as c Hc. bind H as u1 U1. bind H as u2 U2. bind H as u3 U3.
  bind H as db1 H1. injection H as <-. etrans; [|apply content_remove_comment].
  etrans; [apply (content_remove_votes (votes_on db (Comment.id c)))|].
  destruct (parent_of c) as [k|]; [|by injection H1 as <-]. bind H1 as p Hp. by apply touch_parents_content in H1.
Qed.

Lemma vote_content db voter author permlink weight db' : vote_evaluator db voter author permlink weight = Ok db' -> content_only db db'.
Proof.
  intros H. unfold vote_evaluator in H. bind H as c Hc. bind H as a Ha. bind H as u1 U1. bind H as u2 U2.
  destruct (_ =? time_maximum); [by injection H as <-|]. bind H as [[cp up] ar] Hv.
  destruct (Db.comment_votes db !! _) as [v|].
  - bind H as u3 U3. unfold change_vote in H. bind H as u4 U4. bind H as u5 U5. bind H as u6 U6. bind H as db1 H1.
    bind H as x Hx. bind H as db2 H2. bind H as db3 H3. bind H as db4 H4. apply add_root_rshares_content in H3.
    content_facts. content_chain.
  - unfold new_vote in H. bind H as u4 U4. bind H as u5 U5. bind H as db1 H1. bind H as x Hx. bind H as u6 U6.
    bind H as db2 H2. bind H as db3 H3. bind H as c' Hc'. bind H as [mw w] Hw. bind H as db4 H4.
    apply add_root_rshares_content in H3. content_facts.
    destruct (mw =? 0); [injection H as <-|cbn [negb] in H; content_facts]; content_chain.
Qed.

(** the ledger reads nothing that a content operation writes *)
Lemma content_conserves db db' : wf db -> content_only db db' -> conserves db db'.
Proof.
  intros Hwf [E A].
  assert (forall f, (forall a a', same_holder a a' -> f a' = f a) -> msum f (Db.accounts db') = msum f (Db.accounts db)) as S.
  { intros f Hf. apply msum_same. intros n. specialize (A n).
    destruct (Db.accounts db !! n), (Db.accounts db' !! n); try done. simpl. f_equal. by apply Hf. }
  assert (map_Forall (fun _ a => account_wf a) (Db.accounts db')) as W.
  { intros n a' Ha. specialize (A n). rewrite Ha in A. destruct (Db.accounts db !! n) as [a|] eqn:Hn; [|done].
    apply (wf_accounts db Hwf) in Hn. rewrite A. exact Hn. }
  rewrite E. split.
  - destruct Hwf. split; simpl; auto.
  - gaps. rewrite S; [lia|]. by intros a a' ->.
  - gaps. rewrite S; [lia|]. by intros a a' ->.
  - gaps. rewrite S; [lia|]. by intros a a' ->.
  - gaps. rewrite S; [lia|]. by intros a a' ->.
  - gaps. rewrite S; [lia|]. by intros a a' ->.
Qed.

#[export] Hint Resolve content_conserves comment_content comment_options_content delete_comment_content vote_content : conserves.
