(* ===== verification/Market.v ===== *)
(** Market: the internal STEEM/SBD market.

    apply_order, match, fill_order, cancel_order and clear_expired_orders of
    database.cpp, and the limit order evaluators of steem_evaluator.cpp.

    Orders are kept under the key (seller, orderid) of the unique index
    by_account; by_price is the order in which [crossing] lists them. *)
From Stdlib Require Import ZArith Lia String Ascii.
From stdpp Require Import base gmap strings list sorting.
From S2P Require Import Prelude.
From S2P Require Import Safe.
From S2P Require Import Asset.
From S2P Require Import Authority.
From S2P Require Import Objects.
From S2P Require Import Balance.
From S2P Require Import Supply.
From S2P Require Import Transfers.
Local Open Scope string_scope.
Local Open Scope Z_scope.
Local Open Scope fc_scope.

Abbreviation order_key := (account_name_type * Z)%type.

(** STEEM_ASSERT( b, e ) *)
Definition steem_assert (e : exn) (b : bool) : result unit := if b then Ok tt else Throw e.

Definition order_at (db : database) (k : order_key) : result limit_order_object :=
  get_or out_of_range (Db.limit_orders db !! k).

Definition cancel_order (db : database) (k : order_key) : result database :=
  o ← order_at db k;
  db ← adjust_balance db (LimitOrder.seller o) (amount_for_sale o);
  Ok (remove Db.limit_orders k db).

Definition fill_order (db : database) (k : order_key) (pays receives : asset) : result (database * bool) :=
  order ← order_at db k;
  _ ← steem_assert order_fill_exception (symbol (amount_for_sale order) =? symbol pays);
  _ ← steem_assert order_fill_exception (negb (symbol pays =? symbol receives));
  db ← adjust_balance db (LimitOrder.seller order) receives;
  if Asset.eqb pays (amount_for_sale order) then Ok (remove Db.limit_orders k db, true)
  else
    c ← Asset.ltb pays (amount_for_sale order);
    _ ← steem_assert order_fill_exception c;
    db ← modify_obj Db.limit_orders k (fun b : limit_order_object =>
           s ← Safe.sub (LimitOrder.for_sale b) (amount pays);
           Ok (b <| LimitOrder.for_sale := s |>)) db;
    order ← order_at db k;
    r ← amount_to_receive order;
    if amount r =? 0 then
      db ← cancel_order db k;
      Ok (db, true)
    else Ok (db, false).

(** what the two sides of a match pay and receive *)
Definition match_amounts (new_for_sale old_for_sale : asset) (match_price : price) : result (asset * asset) :=
  t ← Price.mul old_for_sale match_price;
  c ← Asset.leb new_for_sale t;
  if c : bool then
    new_receives ← Price.mul new_for_sale match_price;
    Ok (new_receives, new_for_sale)
  else
    old_receives ← Price.mul old_for_sale match_price;
    Ok (old_for_sale, old_receives).

(** The int result as two flags: the new order was filled, the old one was. *)
Definition match_orders (db : database) (new_key old_key : order_key) (match_price : price)
    : result (database * (bool * bool)) :=
  new_order ← order_at db new_key;
  old_order ← order_at db old_key;
  let np := LimitOrder.sell_price new_order in
  let op := LimitOrder.sell_price old_order in
  _ ← steem_assert order_match_exception (symbol (quote np) =? symbol (base op));
  _ ← steem_assert order_match_exception (symbol (base np) =? symbol (quote op));
  _ ← steem_assert order_match_exception
        ((0 <? LimitOrder.for_sale new_order) && (0 <? LimitOrder.for_sale old_order));
  _ ← steem_assert order_match_exception (symbol (quote match_price) =? symbol (base np));
  _ ← steem_assert order_match_exception (symbol (base match_price) =? symbol (base op));
  '(new_receives, old_receives) ← match_amounts (amount_for_sale new_order) (amount_for_sale old_order) match_price;
  let old_pays := new_receives in
  let new_pays := old_receives in
  _ ← steem_assert order_match_exception
        (Asset.eqb new_pays (amount_for_sale new_order) || Asset.eqb old_pays (amount_for_sale old_order));
  '(db, new_filled) ← fill_order db new_key new_pays new_receives;
  '(db, old_filled) ← fill_order db old_key old_pays old_receives;
  _ ← steem_assert order_match_exception (new_filled || old_filled);
  Ok (db, (new_filled, old_filled)).

(** by_price: higher prices first, then lower ids *)
Definition by_price_le (x y : order_key * limit_order_object) : Prop :=
  match Price.compare (LimitOrder.sell_price (snd x)) (LimitOrder.sell_price (snd y)) with
  | Gt => True
  | Lt => False
  | Eq => LimitOrder.id (snd x) <= LimitOrder.id (snd y)
  end.
#[export] Instance by_price_le_dec : RelDecision by_price_le.
Proof. intros x y. unfold by_price_le. destruct (Price.compare _ _); apply _. Defined.

(** the range [lower_bound( max_price.max() ), upper_bound( max_price )) *)
Definition in_range (max_price top : price) (o : limit_order_object) : bool :=
  Price.leb (LimitOrder.sell_price o) top && Price.leb max_price (LimitOrder.sell_price o).

Definition crossing (db : database) (max_price top : price) : list (order_key * limit_order_object) :=
  merge_sort by_price_le (filter (fun x => in_range max_price top (snd x) = true) (map_to_list (Db.limit_orders db))).

(** The loop removes no order of the range but the one it is at, so the range
    can be listed before it. *)
Fixpoint match_all (db : database) (new_key : order_key) (l : list (order_key * limit_order_object))
    : result database :=
  match l with
  | [] => Ok db
  | (old_key, old) :: l =>
      '(db, (finished, _)) ← match_orders db new_key old_key (LimitOrder.sell_price old);
      if finished : bool then Ok db else match_all db new_key l
  end.

Definition apply_order (db : database) (new_key : order_key) : result (database * bool) :=
  new_order ← order_at db new_key;
  max_price ← Price.inv (LimitOrder.sell_price new_order);
  top ← Price.max (symbol (base max_price)) (symbol (quote max_price));
  db ← match_all db new_key (crossing db max_price top);
  Ok (db, match Db.limit_orders db !! new_key with Some _ => false | None => true end).

Definition create_limit_order (db : database) (owner : account_name_type) (orderid : Z) (amount_to_sell : asset)
    (sell_price : result price) (fill_or_kill : bool) (expiration : Z) : result database :=
  _ ← fc_assert (head_block_time db <? expiration);
  _ ← fc_assert (expiration <=? u32 (head_block_time db + STEEM_MAX_LIMIT_ORDER_EXPIRATION));
  b ← get_balance_of db owner (symbol amount_to_sell);
  _ ← assert_geb b amount_to_sell;
  d ← Asset.neg amount_to_sell;
  db ← adjust_balance db owner d;
  p ← sell_price;
  db ← create limit_order_index Db.limit_orders (owner, orderid) (fun id =>
         LimitOrder.mk id (head_block_time db) expiration owner orderid (amount amount_to_sell) p) db;
  '(db, filled) ← apply_order db (owner, orderid);
  _ ← fc_assert (negb fill_or_kill || filled);
  Ok db.

Definition limit_order_create_evaluator (db : database) (owner : account_name_type) (orderid : Z)
    (amount_to_sell min_to_receive : asset) (fill_or_kill : bool) (expiration : Z) : result database :=
  create_limit_order db owner orderid amount_to_sell (Price.div amount_to_sell min_to_receive) fill_or_kill expiration.

Definition limit_order_create2_evaluator (db : database) (owner : account_name_type) (orderid : Z)
    (amount_to_sell : asset) (fill_or_kill : bool) (exchange_rate : price) (expiration : Z) : result database :=
  create_limit_order db owner orderid amount_to_sell (Ok exchange_rate) fill_or_kill expiration.

Definition limit_order_cancel_evaluator (db : database) (owner : account_name_type) (orderid : Z) : result database :=
  _ ← get_limit_order db owner orderid;
  cancel_order db (owner, orderid).

Definition expired_order (db : database) : option (order_key * limit_order_object) :=
  match first_by (fun x y => lt_of (lex (LimitOrder.expiration x ?= LimitOrder.expiration y)
                    (LimitOrder.id x ?= LimitOrder.id y))) (Db.limit_orders db) with
  | Some (k, o) => if LimitOrder.expiration o <? head_block_time db then Some (k, o) else None
  | None => None
  end.

Definition clear_expired_orders (db : database) : result database :=
  while_next (size (Db.limit_orders db)) expired_order (fun db x => cancel_order db (fst x)) db.

(** ** One order *)

Lemma order_at_Ok db k o : order_at db k = Ok o -> Db.limit_orders db !! k = Some o.
Proof. unfold order_at. intros H. by result_inv. Qed.

Lemma steem_assert_Ok e b u : steem_assert e b = Ok u -> b = true.
Proof. unfold steem_assert. by destruct b. Qed.

Lemma order_liquid o : order_wf o -> liquid_symbol (symbol (amount_for_sale o)).
Proof. by intros [? _]. Qed.

Lemma cancel_order_spec db k db' :
  wf db -> cancel_order db k = Ok db' ->
  conserves db db' /\ Db.limit_orders db' = delete k (Db.limit_orders db) /\ same_time db db'.
Proof.
  intros Hwf H. unfold cancel_order in H. bind H as o Ho. bind H as db1 H1. injection H as <-.
  apply order_at_Ok in Ho. pose proof (wf_orders _ Hwf _ _ Ho) as Wo.
  pose proof (adjust_balance_time _ _ _ _ H1) as T.
  apply adjust_balance_moves in H1 as [M1 F1]; [|done|by apply order_liquid].
  simpl. rewrite (frame_orders _ _ F1). split; [|done].
  rewrite <- (frame_orders _ _ F1) in Ho. pose proof (remove_order_moves _ _ _ ltac:(wf_of) Ho) as M2.
  unfold order_held in M2. conserve.
Qed.

(** The rest of the book is untouched; the order itself is gone or keeps its price. *)
Definition fills (db db' : database) (k : order_key) (filled : bool) : Prop :=
  (forall k', k' <> k -> Db.limit_orders db' !! k' = Db.limit_orders db !! k') /\
  if filled then Db.limit_orders db' !! k = None
  else exists o o', Db.limit_orders db !! k = Some o /\ Db.limit_orders db' !! k = Some o' /\
         LimitOrder.sell_price o' = LimitOrder.sell_price o.

Lemma fill_order_spec db k pays receives db' filled :
  wf db -> liquid_symbol (symbol receives) -> fill_order db k pays receives = Ok (db', filled) ->
  moves db db' (val STEEM_SYMBOL pays - val STEEM_SYMBOL receives)
    (val SBD_SYMBOL pays - val SBD_SYMBOL receives) 0 0 0 /\ fills db db' k filled.
Proof.
  intros Hwf Hl H. unfold fill_order in H. bind H as o Ho. apply order_at_Ok in Ho.
  bind H as u1 Hs1. apply steem_assert_Ok, Z.eqb_eq in Hs1. bind H as u2 Hs2. clear Hs2. bind H as db1 H1.
  apply adjust_balance_moves in H1 as [M1 F1]; [|done..].
  pose proof Ho as Ho1. rewrite <- (frame_orders _ _ F1) in Ho1.
  destruct (Asset.eqb pays (amount_for_sale o)) eqn:Heq.
  - injection H as <- <-. apply AssetFacts.eqb_eq in Heq.
    pose proof (remove_order_moves _ _ _ ltac:(wf_of) Ho1) as M2. unfold order_held in M2. rewrite <- Heq in M2.
    split; [conserve|]. split; simpl; rewrite (frame_orders _ _ F1).
    + intros k' Hk. by rewrite lookup_delete_ne.
    + apply lookup_delete_eq.
  - bind H as c Hc. bind H as u3 Hs3. clear Hs3 Hc. bind H as db2 H2. bind H as o2 Ho2. bind H as r Hr.
    apply modify_order_moves in H2 as (x & x' & Hx & Hx' & E2 & M2); [|wf_of|].
    2:{ intros y y' Hy Hy'. by result_inv. }
    rewrite Ho1 in Hx. injection Hx as <-.
    assert (x' = o <| LimitOrder.for_sale := LimitOrder.for_sale o - amount pays |>) as ->
      by (clear H E2 M2; result_inv; by asset_inv).
    assert (Db.limit_orders db2 = <[k := o <| LimitOrder.for_sale := LimitOrder.for_sale o - amount pays |>]>
              (Db.limit_orders db)) as Eo by (by rewrite E2; simpl; rewrite (frame_orders _ _ F1)).
    assert (moves db db2 (val STEEM_SYMBOL pays - val STEEM_SYMBOL receives)
              (val SBD_SYMBOL pays - val SBD_SYMBOL receives) 0 0 0) as M.
    { clear H Hr E2. unfold order_held, val, amount_for_sale in M2. simpl in M2, Hs1. rewrite Hs1 in M2.
      unfold val in *. destruct (symbol pays =? STEEM_SYMBOL), (symbol pays =? SBD_SYMBOL); conserve. }
    clear M1 M2. destruct (amount r =? 0).
    + bind H as db3 H3. injection H as <- <-. apply cancel_order_spec in H3 as (M3 & E3 & _); [|wf_of].
      split; [conserve|]. split; rewrite E3, Eo.
      * intros k' Hk. by rewrite lookup_delete_ne, lookup_insert_ne.
      * apply lookup_delete_eq.
    + injection H as <- <-. split; [done|]. split; rewrite Eo.
      * intros k' Hk. by rewrite lookup_insert_ne.
      * eexists o, _. split; [done|]. split; [apply lookup_insert_eq|done].
Qed.

(** ** A match *)

Lemma match_amounts_symbols n o p nr or_ :
  match_amounts n o p = Ok (nr, or_) ->
  (symbol nr = symbol o \/ symbol nr = symbol (base p) \/ symbol nr = symbol (quote p)) /\
  (symbol or_ = symbol n \/ symbol or_ = symbol (base p) \/ symbol or_ = symbol (quote p)).
Proof.
  unfold match_amounts. intros H. bind H as t Ht. bind H as c Hc. destruct c.
  - bind H as r Hr. injection H as <- <-. apply AssetFacts.asset_mul_Ok in Hr. intuition.
  - bind H as r Hr. injection H as <- <-. apply AssetFacts.asset_mul_Ok in Hr. intuition.
Qed.

Lemma match_orders_spec db nk ok p db' nf mf :
  wf db -> nk <> ok -> match_orders db nk ok p = Ok (db', (nf, mf)) ->
  conserves db db' /\ (nf = true \/ mf = true) /\
  (forall k, k <> nk -> k <> ok -> Db.limit_orders db' !! k = Db.limit_orders db !! k) /\
  (if nf then Db.limit_orders db' !! nk = None else Db.limit_orders db' !! nk <> None) /\
  (mf = true -> Db.limit_orders db' !! ok = None).
Proof.
  intros Hwf Hne H. unfold match_orders in H. bind H as n Hn. bind H as o Ho. apply order_at_Ok in Hn, Ho.
  bind H as u1 A1. bind H as u2 A2. bind H as u3 A3. bind H as u4 A4. bind H as u5 A5.
  apply steem_assert_Ok, Z.eqb_eq in A4, A5. clear A1 A2 A3.
  bind H as [nr orr] Ha. bind H as u6 A6. bind H as [db1 nf'] F1. bind H as [db2 mf'] F2. bind H as u7 A7.
  injection H as <- <- <-. apply steem_assert_Ok in A7. clear A6.
  pose proof (wf_orders _ Hwf _ _ Hn) as [Wn _]. pose proof (wf_orders _ Hwf _ _ Ho) as [Wo _]. simpl in Wn, Wo.
  apply match_amounts_symbols in Ha as [Hs1 Hs2]. simpl in Hs1, Hs2. rewrite A4, A5 in Hs1, Hs2.
  apply fill_order_spec in F1 as (M1 & K1 & R1); [|done|by destruct Hs1 as [-> | [-> | ->]]].
  apply fill_order_spec in F2 as (M2 & K2 & R2); [|wf_of|by destruct Hs2 as [-> | [-> | ->]]].
  split; [conserve|]. split; [destruct nf'; [by left|by right]|]. split; [|split].
  - intros k Hk1 Hk2. by rewrite K2, K1.
  - rewrite K2 by done. destruct nf'; [done|]. by destruct R1 as (x & x' & _ & -> & _).
  - by intros ->.
Qed.

(** ** The loop *)

(** Either the new order left the book, or every listed order did; orders
    that are not listed stay as they are. *)
Lemma match_all_spec nk l : forall db db',
  wf db -> Forall (fun x => fst x <> nk) l -> NoDup l.*1 -> match_all db nk l = Ok db' ->
  conserves db db' /\
  (forall k, k <> nk -> k ∉ l.*1 -> Db.limit_orders db' !! k = Db.limit_orders db !! k) /\
  (Db.limit_orders db' !! nk <> None -> forall k, k ∈ l.*1 -> Db.limit_orders db' !! k = None).
Proof.
  induction l as [|[ok o] l IH]; intros db db' Hwf Hl Hnd H; simpl in H.
  - injection H as <-. split; [by apply moves_refl|]. split; [done|]. intros _ k Hk. by apply elem_of_nil in Hk.
  - apply Forall_cons in Hl as [Hne Hl]. apply NoDup_cons in Hnd as [Hnin Hnd]. simpl in Hne, Hnin.
    bind H as [db1 [nf mf]] H1. apply match_orders_spec in H1 as (M1 & Hf & K1 & R1 & R2); [|done..].
    destruct nf.
    + injection H as <-. split; [done|]. split; [|by rewrite R1].
      intros k Hk Hk'. apply K1; set_solver.
    + destruct Hf as [?|Hf]; [done|]. specialize (R2 Hf).
      apply IH in H as (M2 & K2 & R3); [|wf_of|done..]. split; [conserve|]. split.
      * intros k Hk Hk'. simpl in Hk'. rewrite K2, K1 by set_solver. done.
      * intros Hpres k [->|Hk]%elem_of_cons; [|by apply R3]. simpl. rewrite K2; [done..|set_solver].
Qed.

Lemma leb_pair x y :
  Price.leb x y = true -> Price.bq_compare x y <> Gt.
Proof.
  unfold Price.leb, Price.compare. destruct (Price.bq_compare x y); done.
Qed.

(** An order in the range trades the same pair of symbols as its bounds. *)
Lemma in_range_pair mp top o :
  symbol (base top) = symbol (base mp) -> symbol (quote top) = symbol (quote mp) -> in_range mp top o = true ->
  symbol (base (LimitOrder.sell_price o)) = symbol (base mp) /\
  symbol (quote (LimitOrder.sell_price o)) = symbol (quote mp).
Proof.
  unfold in_range. intros E1 E2 H. zbool. apply leb_pair in H, H0. unfold Price.bq_compare in *. rewrite E1, E2 in H.
  destruct (Z.compare_spec (symbol (base (LimitOrder.sell_price o))) (symbol (base mp))) as [E|L|L];
    destruct (Z.compare_spec (symbol (base mp)) (symbol (base (LimitOrder.sell_price o)))) as [E'|L'|L'];
    try lia; try done.
  destruct (Z.compare_spec (symbol (quote (LimitOrder.sell_price o))) (symbol (quote mp))) as [F|G|G];
    destruct (Z.compare_spec (symbol (quote mp)) (symbol (quote (LimitOrder.sell_price o)))) as [F'|G'|G'];
    try lia; try done.
Qed.

Lemma price_max_symbols b q p : Price.max b q = Ok p -> symbol (base p) = b /\ symbol (quote p) = q.
Proof. unfold Price.max, Price.div, Price.make. intros H. by result_inv. Qed.

Lemma price_inv_Ok p q : Price.inv p = Ok q ->
  q = mk_price (quote p) (base p) /\ symbol (base p) <> symbol (quote p).
Proof.
  unfold Price.inv, Price.make, Price.validate. intros H. result_inv. simpl in *. zbool. split; [done|]. congruence.
Qed.

Lemma crossing_elem db mp top k o :
  (k, o) ∈ crossing db mp top <-> Db.limit_orders db !! k = Some o /\ in_range mp top o = true.
Proof.
  unfold crossing. rewrite merge_sort_Permutation, list_elem_of_filter, elem_of_map_to_list. simpl. tauto.
Qed.

Lemma crossing_NoDup db mp top : NoDup (crossing db mp top).*1.
Proof.
  unfold crossing. rewrite merge_sort_Permutation.
  eapply sublist_NoDup; [apply (NoDup_fst_map_to_list (Db.limit_orders db))|].
  apply (fmap_sublist fst), sublist_filter.
Qed.

Lemma apply_order_spec db nk db' filled :
  wf db -> apply_order db nk = Ok (db', filled) ->
  exists new max_price top,
    Db.limit_orders db !! nk = Some new /\ max_price = mk_price (quote (LimitOrder.sell_price new)) (base (LimitOrder.sell_price new)) /\
    Price.max (symbol (base max_price)) (symbol (quote max_price)) = Ok top /\
    conserves db db' /\ filled = bool_decide (Db.limit_orders db' !! nk = None) /\
    (forall k, k <> nk -> k ∉ (crossing db max_price top).*1 -> Db.limit_orders db' !! k = Db.limit_orders db !! k) /\
    (Db.limit_orders db' !! nk <> None -> forall k, k ∈ (crossing db max_price top).*1 -> Db.limit_orders db' !! k = None).
Proof.
  intros Hwf H. unfold apply_order in H. bind H as new Hn. bind H as mp Hmp. bind H as top Htop. bind H as db1 Hall.
  injection H as <- <-. apply order_at_Ok in Hn. apply price_inv_Ok in Hmp as [-> Hne].
  exists new, (mk_price (quote (LimitOrder.sell_price new)) (base (LimitOrder.sell_price new))), top.
  apply match_all_spec in Hall as (M & K & R); [|done| |apply crossing_NoDup].
  - do 4 (split; [done|]). split; [|done]. by destruct (Db.limit_orders db1 !! nk).
  - apply Forall_forall. intros [k o] [Hk Hin]%crossing_elem Ek. simpl in *. subst k. rewrite Hn in Hk. injection Hk as <-.
    apply price_max_symbols in Htop as [E1 E2]. simpl in *.
    by apply in_range_pair in Hin as [? _].
Qed.

(** ** Correctness of the market *)

(** C16: the book is never left crossed: when an order stays on the book after it
    was applied, no order remains that sells what it wants at its price or
    better.  [max_price] is the worst price the new order accepts, seen from
    the other side of the market. *)
Theorem apply_order_uncrosses db nk db' max_price top k o :
  wf db -> apply_order db nk = Ok (db', false) ->
  Price.inv (LimitOrder.sell_price (default LimitOrder.default (Db.limit_orders db !! nk))) = Ok max_price ->
  Price.max (symbol (base max_price)) (symbol (quote max_price)) = Ok top ->
  Db.limit_orders db' !! k = Some o -> k <> nk -> in_range max_price top o = false.
Proof.
  intros Hwf H Hmp Htop Hk Hne. apply apply_order_spec in H as (new & mp & top' & Hn & -> & Htop' & M & Hf & K & R); [|done].
  rewrite Hn in Hmp. simpl in Hmp. apply price_inv_Ok in Hmp as [-> _]. rewrite Htop in Htop'. injection Htop' as <-.
  destruct (in_range _ _ o) eqn:Hin; [|done]. exfalso.
  symmetry in Hf. apply bool_decide_eq_false in Hf. specialize (R Hf).
  destruct (decide (k ∈ (crossing db (mk_price (quote (LimitOrder.sell_price new)) (base (LimitOrder.sell_price new))) top).*1))
    as [Hc|Hc].
  - rewrite (R k Hc) in Hk. done.
  - rewrite (K k Hne Hc) in Hk. apply Hc. apply list_elem_of_fmap. exists (k, o). split; [done|].
    by apply crossing_elem.
Qed.

(** C28: a match trades at the price of the order that was on the book, up to the
    rounding of one unit on the side that is rounded, and fills one of the two
    orders completely. *)
Theorem match_at_book_price new_for_sale old_for_sale p new_receives old_receives :
  PriceFacts.valid p -> symbol old_for_sale = symbol (base p) -> symbol new_for_sale = symbol (quote p) ->
  0 < amount new_for_sale <= INT64_MAX -> 0 < amount old_for_sale <= INT64_MAX ->
  match_amounts new_for_sale old_for_sale p = Ok (new_receives, old_receives) ->
  0 <= amount new_receives -> 0 <= amount old_receives ->
  amount new_receives * amount (quote p) < (amount old_receives + 1) * amount (base p) /\
  amount old_receives * amount (base p) < (amount new_receives + 1) * amount (quote p) /\
  (old_receives = new_for_sale \/ new_receives = old_for_sale).
Proof.
  intros Hp Hso Hsn Hn Ho H Hr1 Hr2. unfold match_amounts in H. bind H as t Ht. bind H as c Hc.
  assert (forall x y d, 0 < d -> x = y / d -> x * d <= y < (x + 1) * d) as Hdiv.
  { intros x y d Hd ->. pose proof (Z.div_mod y d ltac:(lia)). pose proof (Z.mod_pos_bound y d Hd). lia. }
  pose proof Hp as ((? & ?) & (? & ?) & Hne).
  destruct c; bind H as r Hr; injection H as <- <-.
  - apply PriceFacts.mul_floor in Hr; [|done|lia|done].
    destruct Hr as [(? & _)|(_ & _ & E)]; [congruence|]. apply Hdiv in E; [|lia].
    split; [|split; [|by left]]; lia.
  - apply PriceFacts.mul_floor in Hr; [|done|lia|done].
    destruct Hr as [(_ & _ & E)|(? & _)]; [|congruence]. apply Hdiv in E; [|lia].
    split; [|split; [|by right]]; lia.
Qed.

Lemma create_limit_order_conserves db owner orderid amt rate fok expiration db' :
  wf db -> (forall p, rate = Ok p -> symbol (base p) = symbol amt /\ liquid_symbol (symbol (quote p))) ->
  create_limit_order db owner orderid amt rate fok expiration = Ok db' -> conserves db db'.
Proof.
  intros Hwf Hr H. unfold create_limit_order, get_balance_of in H.
  bind H as u1 A1. bind H as u2 A2. bind H as b Hb. bind H as u3 Hge. bind H as d Hd. bind H as db1 H1.
  bind H as p Hp. bind H as db2 H2. bind H as [db3 filled] H3. bind H as u4 A4. injection H as <-.
  apply Hr in Hp as [Sb Sq]. bind Hb as a Ha. apply get_balance_liquid in Hb. asset_inv.
  apply adjust_balance_moves in H1 as [M1 F1]; [|done..].
  apply create_order_moves in H2 as (i & M2); [|wf_of|].
  - apply apply_order_spec in H3 as (_ & _ & _ & _ & _ & _ & M3 & _); [|wf_of].
    unfold order_held, amount_for_sale in M2. simpl in M2. rewrite Sb in M2. rewrite !val_neg in M1.
    destruct amt as [x s]; simpl in *. conserve.
  - intros i. split; simpl; [by rewrite Sb|done].
Qed.

Lemma limit_order_create_conserves db owner orderid amt min fok expiration db' :
  wf db -> liquid_symbol (symbol min) ->
  limit_order_create_evaluator db owner orderid amt min fok expiration = Ok db' -> conserves db db'.
Proof.
  intros Hwf Hmin. apply create_limit_order_conserves; [done|].
  unfold Price.div, Price.make. intros p Hp. by result_inv.
Qed.

Lemma limit_order_create2_conserves db owner orderid amt fok rate expiration db' :
  wf db -> symbol (base rate) = symbol amt -> liquid_symbol (symbol (quote rate)) ->
  limit_order_create2_evaluator db owner orderid amt fok rate expiration = Ok db' -> conserves db db'.
Proof. intros Hwf H1 H2. apply create_limit_order_conserves; [done|]. by intros p [= <-]. Qed.

Lemma limit_order_cancel_conserves db owner orderid db' :
  wf db -> limit_order_cancel_evaluator db owner orderid = Ok db' -> conserves db db'.
Proof. intros Hwf H. unfold limit_order_cancel_evaluator in H. result_inv. by apply cancel_order_spec in H as [? _]. Qed.

Lemma clear_expired_orders_conserves db db' : clear_expired_orders db = Ok db' -> sound db db'.
Proof.
  apply while_next_preorder; [apply _|]. intros d [k o] d' _ H Hwf. by apply cancel_order_spec in H as [? _].
Qed.

(** C29: every expired order is cancelled, whatever their number. *)
Theorem clear_expired_orders_complete db db' k o :
  wf db -> clear_expired_orders db = Ok db' -> Db.limit_orders db' !! k = Some o ->
  head_block_time db <= LimitOrder.expiration o.
Proof.
  intros Hwf H Hk. unfold clear_expired_orders in H.
  assert (wf db' /\ same_time db db') as [Hwf' Ht].
  { revert H. apply (while_next_inv _ _ (fun d => wf d /\ same_time db d)); [|done].
    intros d [k' o'] d' [Hd Ht] _ Hb. apply cancel_order_spec in Hb as (M & _ & T); [|done].
    split; [wf_of|by etrans]. }
  apply (while_next_done_inv _ _ wf (fun db => size (Db.limit_orders db))) in H; [|done| | | |done].
  - unfold expired_order in H. destruct (first_by _ _) as [[k' o']|] eqn:E.
    + destruct (Z.ltb_spec (LimitOrder.expiration o') (head_block_time db')); [done|].
      apply (first_by_key LimitOrder.expiration) with (k' := k) (v' := o) in E; [|done]. unfold same_time in Ht. lia.
    + apply first_by_None in E. by rewrite E, lookup_empty in Hk.
  - intros d [k' o'] d' Hd _ Hb. by apply cancel_order_spec in Hb as (M & _ & _); [eapply mv_wf|].
  - intros d [k' o'] _ E. unfold expired_order in E. destruct (first_by _ _) as [[? ?]|] eqn:E'; [|done].
    by eapply size_present, first_by_Some.
  - intros d [k' o'] d' Hd E Hb. unfold expired_order in E. destruct (first_by _ _) as [[? ?]|] eqn:E'; [|done].
    destruct (_ <? _); [|done]. injection E as -> ->. apply first_by_Some in E'.
    apply cancel_order_spec in Hb as (_ & -> & _); [|done]. by eapply size_delete_lt.
Qed.

#[export] Hint Resolve limit_order_cancel_conserves : conserves.
