(* ===== verification/MarketHistory.v ===== *)
(** MarketHistory: the statistics of the market.

    From market_history_plugin.cpp: every trade on the internal market is recorded, and
    summed up in buckets of several lengths that hold the first and the last trade of
    their interval, the highest and the lowest price and the volumes.  The handler is
    called for each fill_order_operation with the time of the head block.  The ids of the
    objects are left out, and the lengths and the number of buckets are parameters. *)
From Stdlib Require Import ZArith Lia String.
From stdpp Require Import base gmap list sorting.
From S2P Require Import Prelude.
From S2P Require Import Safe.
From S2P Require Import Asset.
From S2P Require Import Authority.
From S2P Require Import Objects.
Local Open Scope string_scope.
Local Open Scope Z_scope.
Local Open Scope fc_scope.

Record fill_order_operation : Type := mk_fill {
  current_owner : account_name_type;
  current_orderid : Z;
  current_pays : asset;
  open_owner : account_name_type;
  open_orderid : Z;
  open_pays : asset
}.

Record bucket_object_details : Type := mk_details { high : Z; low : Z; open : Z; close : Z; volume : Z }.
#[export] Instance details_rebuild : Rebuild bucket_object_details := fun r =>
  mk_details (high r) (low r) (open r) (close r) (volume r).

Record bucket_object : Type := mk_bucket {
  opened : Z;     (* the member open *)
  seconds : Z;
  steem : bucket_object_details;
  non_steem : bucket_object_details
}.
#[export] Instance bucket_rebuild : Rebuild bucket_object := fun r =>
  mk_bucket (opened r) (seconds r) (steem r) (non_steem r).

Record market_history : Type := mk_history {
  order_history : list (Z * fill_order_operation);
  buckets : gmap (Z * Z) bucket_object
}.
Definition empty_history : market_history := mk_history [] ∅.

Definition fill (v : Z) : bucket_object_details := mk_details v v v v v.

Definition high_price (b : bucket_object) : result price :=
  Price.div (mk_asset (high (non_steem b)) SBD_SYMBOL) (mk_asset (high (steem b)) STEEM_SYMBOL).
Definition low_price (b : bucket_object) : result price :=
  Price.div (mk_asset (low (non_steem b)) SBD_SYMBOL) (mk_asset (low (steem b)) STEEM_SYMBOL).

(** the side that paid STEEM and the other one *)
Definition steem_paid (op : fill_order_operation) : asset :=
  if symbol (open_pays op) =? STEEM_SYMBOL then open_pays op else current_pays op.
Definition other_paid (op : fill_order_operation) : asset :=
  if symbol (open_pays op) =? STEEM_SYMBOL then current_pays op else open_pays op.

Definition new_bucket (op : fill_order_operation) (secs at_ : Z) : bucket_object :=
  mk_bucket at_ secs (fill (amount (steem_paid op))) (fill (amount (other_paid op))).

(** a trade in an interval that has a bucket *)
Definition update_bucket (op : fill_order_operation) (b : bucket_object) : result bucket_object :=
  let s := amount (steem_paid op) in
  let o := amount (other_paid op) in
  sv ← Safe.add (volume (steem b)) s;
  ov ← Safe.add (volume (non_steem b)) o;
  let b := b <| steem ::= fun d => d <| volume := sv |> <| close := s |> |>
             <| non_steem ::= fun d => d <| volume := ov |> <| close := o |> |> in
  p ← Price.make (other_paid op) (steem_paid op);
  h ← high_price b;
  let b := if Price.ltb h p then b <| steem ::= fun d => d <| high := s |> |> <| non_steem ::= fun d => d <| high := o |> |> else b in
  l ← low_price b;
  Ok (if Price.gtb l p then b <| steem ::= fun d => d <| low := s |> |> <| non_steem ::= fun d => d <| low := o |> |> else b).

(** by_bucket *)
Definition bucket_lt (x y : bucket_object) : bool := lt_of (lex (seconds x ?= seconds y) (opened x ?= opened y)).

(** the iterator from lower_bound( ( seconds, 0 ) ) on, while it points to an old bucket;
    the time of a bucket is unsigned *)
Definition old_bucket (secs cutoff : Z) (m : gmap (Z * Z) bucket_object) : option (Z * Z) :=
  match first_by bucket_lt (filter (fun kv => secs <= seconds (snd kv)) m) with
  | Some (k, b) => if (seconds b =? secs) && (opened b <? cutoff) then Some k else None
  | None => None
  end.

Section plugin.
Context (tracked_buckets : list Z) (maximum_history_per_bucket_size : Z).

Definition track (now : Z) (op : fill_order_operation) (m : gmap (Z * Z) bucket_object) (bucket : Z)
    : result (gmap (Z * Z) bucket_object) :=
  let cutoff := now - u32 (bucket * maximum_history_per_bucket_size) in
  let at_ := now / bucket * bucket in
  match m !! (bucket, at_) with
  | None => Ok (<[(bucket, at_) := new_bucket op bucket at_]> m)
  | Some b =>
      b ← update_bucket op b;
      let m := <[(bucket, at_) := b]> m in
      if 0 <? maximum_history_per_bucket_size
      then while_next (size m) (old_bucket bucket cutoff) (fun m k => Ok (delete k m)) m
      else Ok m
  end.

Definition on_post_apply_operation (h : market_history) (note : Z * fill_order_operation) : result market_history :=
  let '(now, op) := note in
  let orders := (order_history h ++ [note])%list in
  if maximum_history_per_bucket_size =? 0 then Ok (mk_history orders (buckets h))
  else
    m ← foldM (track now op) (buckets h) tracked_buckets;
    Ok (mk_history orders m).
End plugin.

(** ** What a bucket says about the trades of its interval *)

Abbreviation paid_s f := (amount (steem_paid f)).
Abbreviation paid_o f := (amount (other_paid f)).

Definition trade_ok (f : fill_order_operation) : Prop :=
  symbol (steem_paid f) = STEEM_SYMBOL /\ symbol (other_paid f) = SBD_SYMBOL /\
  0 < paid_s f <= INT64_MAX /\ 0 < paid_o f <= INT64_MAX.

(** the price of [f] is at most that of [g] *)
Definition cheaper (f g : fill_order_operation) : Prop := paid_o f * paid_s g <= paid_o g * paid_s f.

Definition total (paid : fill_order_operation -> Z) (fs : list fill_order_operation) : Z := foldr (fun f s => paid f + s) 0 fs.

Record summarises (b : bucket_object) (fs : list fill_order_operation) : Prop := mk_summarises {
  sm_first : exists f, head fs = Some f /\ open (steem b) = paid_s f /\ open (non_steem b) = paid_o f;
  sm_last : exists f, last fs = Some f /\ close (steem b) = paid_s f /\ close (non_steem b) = paid_o f;
  sm_volume : volume (steem b) = total (fun f => paid_s f) fs /\ volume (non_steem b) = total (fun f => paid_o f) fs;
  sm_high : exists f, f ∈ fs /\ high (steem b) = paid_s f /\ high (non_steem b) = paid_o f /\ Forall (fun g => cheaper g f) fs;
  sm_low : exists f, f ∈ fs /\ low (steem b) = paid_s f /\ low (non_steem b) = paid_o f /\ Forall (fun g => cheaper f g) fs
}.

Lemma total_snoc paid fs f : total paid (fs ++ [f]) = total paid fs + paid f.
Proof. unfold total. induction fs as [|g fs IH]; simpl; lia. Qed.

Lemma summarises_new f secs at_ : summarises (new_bucket f secs at_) [f].
Proof.
  assert (cheaper f f) as Hc by (unfold cheaper; lia).
  split; simpl; [by exists f|by exists f|lia|exists f; by repeat constructor|exists f; by repeat constructor].
Qed.

Lemma cheaper_trans f g h : trade_ok f -> trade_ok g -> trade_ok h -> cheaper f g -> cheaper g h -> cheaper f h.
Proof.
  unfold cheaper. intros (_ & _ & ? & ?) (_ & _ & ? & ?) (_ & _ & ? & ?) Q1 Q2.
  apply (Z.mul_le_mono_pos_l _ _ (paid_s g)); [lia|].
  assert (paid_o f * paid_s g * paid_s h <= paid_o g * paid_s f * paid_s h) by (apply Z.mul_le_mono_nonneg_r; lia).
  assert (paid_s f * (paid_o g * paid_s h) <= paid_s f * (paid_o h * paid_s g)) by (apply Z.mul_le_mono_nonneg_l; lia). lia.
Qed.

(** the comparison of the price of a trade with that of a bucket *)
Lemma price_cheaper f g p q :
  trade_ok f -> trade_ok g -> Price.div (mk_asset (paid_o f) SBD_SYMBOL) (mk_asset (paid_s f) STEEM_SYMBOL) = Ok p ->
  Price.make (other_paid g) (steem_paid g) = Ok q ->
  (Price.ltb p q = true <-> paid_o f * paid_s g < paid_o g * paid_s f) /\ (Price.gtb p q = true <-> paid_o g * paid_s f < paid_o f * paid_s g).
Proof.
  intros (F1 & F2 & F3 & F4) (G1 & G2 & G3 & G4) Hp Hq. unfold Price.div, Price.make in Hp, Hq.
  bind Hp as u1 U1. bind Hp as u2 U2. injection Hp as <-. bind Hq as u3 U3. injection Hq as <-.
  assert (PriceFacts.valid (mk_price (mk_asset (paid_o f) SBD_SYMBOL) (mk_asset (paid_s f) STEEM_SYMBOL))) as V1 by (repeat split; simpl; done || lia).
  assert (PriceFacts.valid (mk_price (other_paid g) (steem_paid g))) as V2 by (repeat split; simpl; try lia; by rewrite G1, G2).
  assert (PriceFacts.same_pair (mk_price (mk_asset (paid_o f) SBD_SYMBOL) (mk_asset (paid_s f) STEEM_SYMBOL)) (mk_price (other_paid g) (steem_paid g)))
    as Hs by (split; simpl; done).
  pose proof (PriceFacts.compare_ratio _ _ V1 V2 Hs) as E. simpl in E. unfold Price.ltb, Price.gtb. rewrite E.
  destruct (Z.compare_spec (paid_s g * paid_o f) (paid_s f * paid_o g)); split; split; intros; done || lia.
Qed.

Lemma update_summarises f b fs b' :
  Forall trade_ok fs -> trade_ok f -> summarises b fs -> update_bucket f b = Ok b' ->
  summarises b' (fs ++ [f]) /\ seconds b' = seconds b /\ opened b' = opened b.
Proof.
  intros Hfs Hf [(f0 & E0 & O1 & O2) (fl & El & C1 & C2) [V1 V2] (fh & Hh & H1 & H2 & Hmax) (fw & Hw & L1 & L2 & Hmin)] H.
  unfold update_bucket in H. bind H as sv Sv. bind H as ov Ov. cbv zeta in H. bind H as p Hp. bind H as h Hhp. bind H as l Hlp. injection H as <-.
  apply Safe.add_Ok in Sv, Ov. rewrite Forall_forall in Hfs, Hmax, Hmin. pose proof (Hfs fh Hh) as Tfh. pose proof (Hfs fw Hw) as Tfw.
  unfold high_price in Hhp. simpl in Hhp. rewrite H1, H2 in Hhp. destruct (price_cheaper fh f h p Tfh Hf Hhp Hp) as [P1 _].
  assert (Price.div (mk_asset (paid_o fw) SBD_SYMBOL) (mk_asset (paid_s fw) STEEM_SYMBOL) = Ok l) as Hlp'
    by (rewrite <- L1, <- L2, <- Hlp; unfold low_price; by destruct (Price.ltb h p)).
  destruct (price_cheaper fw f l p Tfw Hf Hlp' Hp) as [_ P2].
  assert (forall g, cheaper g g) as Hrefl by (unfold cheaper; lia).
  split; [split|by destruct (Price.ltb h p), (Price.gtb l p)].
  - exists f0. split; [by destruct fs|]. by destruct (Price.ltb h p), (Price.gtb l p).
  - exists f. split; [by rewrite last_snoc|]. by destruct (Price.ltb h p), (Price.gtb l p).
  - rewrite !total_snoc. destruct (Price.ltb h p), (Price.gtb l p); simpl; lia.
  - destruct (Price.ltb h p) eqn:E.
    + exists f. split; [apply elem_of_app; right; by left|]. split; [by destruct (Price.gtb l p)|]. split; [by destruct (Price.gtb l p)|].
      apply Forall_app. split; [|by constructor]. apply Forall_forall. intros g Hg. apply (cheaper_trans g fh f); auto.
      unfold cheaper. apply Z.lt_le_incl, P1. done.
    + exists fh. split; [apply elem_of_app; by left|]. split; [by destruct (Price.gtb l p)|]. split; [by destruct (Price.gtb l p)|].
      apply Forall_app. split; [by apply Forall_forall|]. constructor; [|done]. unfold cheaper.
      destruct (Z.le_gt_cases (paid_o f * paid_s fh) (paid_o fh * paid_s f)) as [?|Hlt]; [done|]. exfalso. enough (false = true) by done. apply P1. lia.
  - destruct (Price.gtb l p) eqn:E.
    + exists f. split; [apply elem_of_app; right; by left|]. split; [by destruct (Price.ltb h p)|]. split; [by destruct (Price.ltb h p)|].
      apply Forall_app. split; [|by constructor]. apply Forall_forall. intros g Hg. apply (cheaper_trans f fw g); auto.
      unfold cheaper. apply Z.lt_le_incl, P2. done.
    + exists fw. split; [apply elem_of_app; by left|]. split; [by destruct (Price.ltb h p)|]. split; [by destruct (Price.ltb h p)|].
      apply Forall_app. split; [by apply Forall_forall|]. constructor; [|done]. unfold cheaper.
      destruct (Z.le_gt_cases (paid_o fw * paid_s f) (paid_o f * paid_s fw)) as [?|Hlt]; [done|]. exfalso. enough (false = true) by done. apply P2. lia.
Qed.

(** ** Old buckets *)

Lemma old_bucket_least secs cutoff m k b :
  old_bucket secs cutoff m = None -> m !! k = Some b -> seconds b = secs -> cutoff <= opened b.
Proof.
  unfold old_bucket. intros H Hk Hs. destruct (first_by bucket_lt _) as [[k0 b0]|] eqn:E.
  - assert (filter (fun kv : (Z * Z) * bucket_object => secs <= seconds (snd kv)) m !! k = Some b) as Hk' by (apply map_lookup_filter_Some; split; [done|simpl; lia]).
    assert (seconds b0 < seconds b \/ seconds b0 = seconds b /\ opened b0 <= opened b) as Hle.
    { eapply (first_by_least bucket_lt (fun x y => seconds x < seconds y \/ seconds x = seconds y /\ opened x <= opened y)); [..|exact E|exact Hk'];
        unfold bucket_lt, lt_of, lex; intros; try lia;
        destruct (Z.compare_spec (seconds x) (seconds y)); try done; try lia; destruct (Z.compare_spec (opened x) (opened y)); done || lia. }
    pose proof (first_by_Some _ _ _ _ E) as E0. apply map_lookup_filter_Some in E0 as [_ E0]. simpl in E0.
    destruct (Z.eqb_spec (seconds b0) secs); simpl in H; [|lia]. destruct (Z.ltb_spec (opened b0) cutoff); [done|lia].
  - apply first_by_None in E. exfalso. assert (filter (fun kv : (Z * Z) * bucket_object => secs <= seconds (snd kv)) m !! k = Some b) as Hk'
      by (apply map_lookup_filter_Some; split; [done|simpl; lia]). by rewrite E, lookup_empty in Hk'.
Qed.

Lemma old_bucket_Some secs cutoff m k :
  old_bucket secs cutoff m = Some k -> exists b, m !! k = Some b /\ seconds b = secs /\ opened b < cutoff.
Proof.
  unfold old_bucket. destruct (first_by bucket_lt _) as [[k0 b0]|] eqn:E; [|done]. intros H. exists b0.
  apply first_by_Some, map_lookup_filter_Some in E as [E _].
  destruct (Z.eqb_spec (seconds b0) secs); simpl in H; [|done]. destruct (Z.ltb_spec (opened b0) cutoff); [|done]. by injection H as <-.
Qed.

Lemma drop_old_spec secs cutoff fuel : forall m m',
  (size m <= fuel)%nat -> while_next fuel (old_bucket secs cutoff) (fun m k => Ok (delete k m)) m = Ok m' ->
  m' = filter (fun kv => seconds (snd kv) <> secs \/ cutoff <= opened (snd kv)) m.
Proof.
  induction fuel as [|fuel IH]; intros m m' Hs H; simpl in H.
  - injection H as <-. assert (m = ∅) as -> by (apply map_size_empty_iff; lia). by rewrite map_filter_empty.
  - destruct (old_bucket secs cutoff m) as [k|] eqn:E; simpl in H.
    + apply old_bucket_Some in E as (b & Hb & E1 & E2). apply IH in H; [|rewrite map_size_delete_Some by done; lia].
      rewrite H, map_filter_delete_not; [done|]. intros y Hy. simpl. rewrite Hb in Hy. injection Hy as <-. lia.
    + injection H as <-. symmetry. apply map_filter_id. intros k b Hb. simpl. destruct (decide (seconds b = secs)); [right|by left].
      by eapply old_bucket_least.
Qed.

(** ** The buckets of a run of trades *)

Definition keys_ok (m : gmap (Z * Z) bucket_object) : Prop := forall k b, m !! k = Some b -> k = (seconds b, opened b).

(** the trades of an interval *)
Definition window (s o : Z) (trades : list (Z * fill_order_operation)) : list fill_order_operation :=
  map snd (filter (fun tr => fst tr / s * s = o) trades).

Lemma window_snoc s o trades t f :
  window s o (trades ++ [(t, f)]) = (window s o trades ++ (if decide (t / s * s = o) then [f] else []))%list.
Proof. unfold window. rewrite filter_app, map_app. f_equal. rewrite filter_cons. simpl. by destruct (decide (t / s * s = o)). Qed.

Section run.
Context (tracked : list Z) (maximum : Z) (Hmax : 0 < maximum).
Context (Htracked : NoDup tracked) (Hrange : Forall (fun s => 0 < s /\ s * maximum < 2 ^ 32) tracked).

(** the buckets of length [s] after the trades, the last one at [t] *)
Definition slot_ok (s t : Z) (trades : list (Z * fill_order_operation)) (m : gmap (Z * Z) bucket_object) : Prop :=
  forall o, match m !! (s, o) with
            | Some b => summarises b (window s o trades)
            | None => window s o trades = [] \/ o < t - s * maximum
            end.

Lemma update_bucket_key f b b' : update_bucket f b = Ok b' -> seconds b' = seconds b /\ opened b' = opened b.
Proof.
  intros H. unfold update_bucket in H. bind H as sv Sv. bind H as ov Ov. cbv zeta in H. bind H as p Hp. bind H as h Hh. bind H as l Hl. injection H as <-.
  by destruct (Price.ltb h p), (Price.gtb l p).
Qed.

Lemma interval_start s now : 0 < s -> now - s < now / s * s <= now.
Proof. intros Hs. pose proof (Z.div_mod now s ltac:(lia)). pose proof (Z.mod_pos_bound now s Hs). lia. Qed.

(** the bucket of the trade is made or updated, only old buckets of its length go *)
Lemma track_inv now f m s m' :
  s ∈ tracked -> keys_ok m -> track maximum now f m s = Ok m' ->
  keys_ok m' /\
  (exists b', m' !! (s, now / s * s) = Some b' /\
     match m !! (s, now / s * s) with None => b' = new_bucket f s (now / s * s) | Some b => update_bucket f b = Ok b' end) /\
  (forall k, k <> (s, now / s * s) -> m' !! k = m !! k \/ m' !! k = None /\ exists o, k = (s, o) /\ o < now - s * maximum).
Proof.
  intros Hs Hk H. rewrite Forall_forall in Hrange. destruct (Hrange s Hs) as [Hs0 Hs1]. pose proof (interval_start s now Hs0) as Hat.
  unfold track in H. cbv zeta in H. destruct (m !! (s, now / s * s)) as [b|] eqn:E.
  - bind H as b' Hb. rewrite (proj2 (Z.ltb_lt 0 maximum) Hmax), u32_id in H by nia. apply drop_old_spec in H; [|done]. subst m'.
    destruct (update_bucket_key _ _ _ Hb) as [E1 E2]. pose proof (Hk _ _ E) as E3. rewrite <- E1, <- E2 in E3.
    assert (keys_ok (<[(s, now / s * s) := b']> m)) as Hk'.
    { intros k c Hc. apply lookup_insert_Some in Hc as [[<- <-]|[_ Hc]]; [done|by apply Hk]. }
    split; [intros k c Hc; apply map_lookup_filter_Some in Hc as [Hc _]; by apply Hk'|]. split.
    + exists b'. split; [|done]. apply map_lookup_filter_Some. split; [apply lookup_insert_eq|]. injection E3 as E3 E4. simpl. right. nia.
    + intros k Hne. destruct (m !! k) as [c|] eqn:Ec.
      * destruct (decide (seconds c <> s \/ now - s * maximum <= opened c)) as [Hd|Hd].
        -- left. apply map_lookup_filter_Some. by rewrite lookup_insert_ne.
        -- right. split; [apply map_lookup_filter_None; right; intros x; rewrite lookup_insert_ne, Ec by done; by intros [= <-]|].
           exists (opened c). rewrite (Hk _ _ Ec). destruct (decide (seconds c = s)) as [->|?]; [|exfalso; tauto]. split; [done|]. lia.
      * left. apply map_lookup_filter_None. left. by rewrite lookup_insert_ne.
  - injection H as <-. split.
    + intros k c Hc. apply lookup_insert_Some in Hc as [[<- <-]|[_ Hc]]; [done|by apply Hk].
    + split; [eexists; split; [apply lookup_insert_eq|done]|]. intros k Hne. left. by rewrite lookup_insert_ne.
Qed.

Lemma track_slot trades t now f m s m' :
  s ∈ tracked -> keys_ok m -> Forall (fun tr => trade_ok (snd tr)) trades -> trade_ok f -> t <= now ->
  slot_ok s t trades m -> track maximum now f m s = Ok m' -> slot_ok s now (trades ++ [(now, f)]) m'.
Proof.
  intros Hs Hk Htr Hf Hle Hslot H. destruct (track_inv now f m s m' Hs Hk H) as (_ & (b' & Hb' & Eb') & Hother).
  rewrite Forall_forall in Hrange. destruct (Hrange s Hs) as [Hs0 Hs1]. pose proof (interval_start s now Hs0) as Hat.
  intros o. rewrite window_snoc. specialize (Hslot o). destruct (decide (now / s * s = o)) as [<-|Hne].
  - rewrite Hb'. destruct (m !! (s, now / s * s)) as [b|].
    + eapply update_summarises; [|exact Hf|exact Hslot|exact Eb']. unfold window. apply List.Forall_map, Forall_forall. intros [u g] Hg.
      apply list_elem_of_filter in Hg as [_ Hg]. rewrite Forall_forall in Htr. by apply (Htr (u, g)).
    + destruct Hslot as [->|?]; [subst b'; apply summarises_new|nia].
  - rewrite app_nil_r. destruct (Hother (s, o)) as [->|(-> & o' & [= <-] & Ho)]; [congruence|..].
    + destruct (m !! (s, o)); [done|]. destruct Hslot; [by left|right; lia].
    + by right.
Qed.

Lemma tracks_slot trades t now f l : forall m m',
  (forall s, s ∈ l -> s ∈ tracked) -> NoDup l -> keys_ok m -> Forall (fun tr => trade_ok (snd tr)) trades -> trade_ok f -> t <= now ->
  (forall s, s ∈ l -> slot_ok s t trades m) -> foldM (track maximum now f) m l = Ok m' ->
  keys_ok m' /\ (forall s, s ∈ l -> slot_ok s now (trades ++ [(now, f)]) m') /\ (forall s o, s ∉ l -> m' !! (s, o) = m !! (s, o)).
Proof.
  induction l as [|s l IH]; intros m m' Hl Hnd Hk Htr Hf Hle Hslot H; cbn [foldM] in H.
  - injection H as <-. split; [done|]. split; [|done]. intros s Hs. by apply elem_of_nil in Hs.
  - bind H as m1 H1. apply NoDup_cons in Hnd as [Hn Hnd]. assert (s ∈ tracked) as Hs by (apply Hl; by left).
    destruct (track_inv now f m s m1 Hs Hk H1) as (Hk1 & _ & Hother).
    assert (forall s' o, s' <> s -> m1 !! (s', o) = m !! (s', o)) as Hsame.
    { intros s' o Hne. destruct (Hother (s', o)) as [?|(_ & o' & [= ? _] & _)]; [congruence|done|done]. }
    destruct (IH m1 m') as (K & S & O); try done.
    + intros s' Hs'. apply Hl. by right.
    + intros s' Hs' o. rewrite Hsame by congruence. by apply Hslot; right.
    + split; [done|]. split.
      * intros s' Hs' o. apply elem_of_cons in Hs' as [->|Hs']; [|by apply S]. rewrite O by done.
        by apply (track_slot trades t now f m s m1); [..|apply Hslot; left|].
      * intros s' o Hs'. apply not_elem_of_cons in Hs' as [Hne Hs']. rewrite O, Hsame by done. done.
Qed.

Definition last_time (trades : list (Z * fill_order_operation)) : Z := from_option fst 0 (last trades).

(** C27: The buckets sum up the market.  After any run of trades in the order of time, a
    bucket holds the first and the last trade of its interval, the volumes, and the trades
    at the highest and the lowest price; an interval without a bucket has seen no trade or
    lies further back than the history is kept.  Every trade is recorded. *)
Theorem buckets_summarise trades h :
  StronglySorted (fun x y => fst x <= fst y) trades -> Forall (fun tr => 0 <= fst tr /\ trade_ok (snd tr)) trades ->
  foldM (on_post_apply_operation tracked maximum) empty_history trades = Ok h ->
  order_history h = trades /\
  forall s o, s ∈ tracked ->
    match buckets h !! (s, o) with
    | Some b => summarises b (window s o trades)
    | None => window s o trades = [] \/ o < last_time trades - s * maximum
    end.
Proof.
  intros Hsort Hok H. enough (order_history h = trades /\ keys_ok (buckets h) /\ forall s, s ∈ tracked -> slot_ok s (last_time trades) trades (buckets h)) as (A & _ & B).
  { split; [done|]. intros s o Hs. by apply B. }
  revert h H. induction trades as [|[now f] trades IH] using rev_ind; intros h H.
  { injection H as <-. split; [done|]. split; [intros k b Hb; simpl in Hb; by rewrite lookup_empty in Hb|]. intros s _ o. simpl. rewrite lookup_empty. by left. }
  apply Forall_app in Hok as [Hok Hlast]. inversion Hlast as [|? ? [Hnow Hf] _]; subst. rewrite foldM_app in H. bind H as h1 H1. cbn [foldM] in H. bind H as h2 H2. injection H as <-.
  pose proof (StronglySorted_app_1_l _ _ _ Hsort) as Hsort1. destruct (IH Hsort1 Hok h1 H1) as (A & K & B).
  unfold on_post_apply_operation in H2. cbv zeta in H2. destruct (Z.eqb_spec maximum 0); [lia|]. bind H2 as m Hm. injection H2 as <-. simpl.
  assert (last_time trades <= now) as Hle.
  { unfold last_time. destruct (last trades) as [tr|] eqn:El; simpl; [|done].
    apply (StronglySorted_app_1_elem_of _ _ _ tr (now, f) Hsort); [by apply last_Some_elem_of|by left]. }
  destruct (tracks_slot trades (last_time trades) now f tracked (buckets h1) m) as (K' & S & _); try done.
  { eapply Forall_impl; [exact Hok|]. by intros ? [_ ?]. }
  split; [by rewrite A|]. split; [done|]. intros s Hs. unfold last_time. rewrite last_snoc. simpl. by apply S.
Qed.
End run.

Lemma buckets_summarise_witness :
  let sell s o := mk_fill "alice" 1 (mk_asset o SBD_SYMBOL) "bob" 2 (mk_asset s STEEM_SYMBOL) in
  let buy s o := mk_fill "alice" 1 (mk_asset s STEEM_SYMBOL) "bob" 2 (mk_asset o SBD_SYMBOL) in
  let trades := [(10, sell 4 2); (12, buy 10 7); (14, sell 6 2); (16, buy 3 1)] in
  exists h, foldM (on_post_apply_operation [15; 60] 1000) empty_history trades = Ok h /\ order_history h = trades /\
    buckets h !! (15, 0) = Some (mk_bucket 0 15 (mk_details 10 6 4 6 20) (mk_details 7 2 2 2 11)).
Proof.
  intros sell buy trades. eexists. split; [vm_compute; reflexivity|]. split; [|vm_compute; reflexivity].
  refine (proj1 (buckets_summarise [15; 60] 1000 eq_refl _ _ trades _ _ _ _)).
  - apply NoDup_ListNoDup. repeat constructor; simpl; lia.
  - repeat constructor.
  - repeat constructor; simpl; lia.
  - repeat constructor; simpl; try lia; unfold INT64_MAX; lia.
  - vm_compute. reflexivity.
Defined.
