(* ===== verification/Vesting.v ===== *)
(** Vesting: powering down and delegating.

    The withdraw_vesting, set_withdraw_vesting_route and delegate_vesting_shares
    evaluators, and the block processing process_vesting_withdrawals and
    clear_expired_delegations. *)
From Stdlib Require Import ZArith Lia String Ascii.
From stdpp Require Import base gmap strings list sorting.
From S2P Require Import Prelude.
From S2P Require Import Safe.
From S2P Require Import Asset.
From S2P Require Import Authority.
From S2P Require Import Objects.
From S2P Require Import Balance.
From S2P Require Import Supply.
From S2P Require Import Transfers.
Local Open Scope string_scope.
Local Open Scope Z_scope.
Local Open Scope fc_scope.

(** ** Powering down *)

Definition withdraw_vesting_evaluator (db : database) (account : account_name_type) (vesting_shares : asset)
    : result database :=
  a ← get_account db account;
  if amount vesting_shares <? 0 then
    if 23847548 <? head_block_num db then Throw assert_exception else Ok db
  else
    _ ← assert_geb (Account.vesting_shares a) (mk_asset 0 VESTS_SYMBOL);
    d ← Asset.sub (Account.vesting_shares a) (Account.delegated_vesting_shares a);
    _ ← assert_geb d vesting_shares;
    if amount vesting_shares =? 0 then
      _ ← fc_assert (negb (amount (Account.vesting_withdraw_rate a) =? 0));
      modify_account db account (fun a =>
        Ok (a <| Account.vesting_withdraw_rate := mk_asset 0 VESTS_SYMBOL |>
              <| Account.next_vesting_withdrawal := time_maximum |>
              <| Account.to_withdraw := 0 |> <| Account.withdrawn := 0 |>))
    else
      modify_account db account (fun a =>
        r ← Safe.div (amount vesting_shares) STEEM_VESTING_WITHDRAW_INTERVALS;
        let rate := mk_asset (if r =? 0 then 1 else r) VESTS_SYMBOL in
        c ← Asset.neqb (Account.vesting_withdraw_rate a) rate;
        _ ← fc_assert c;
        Ok (a <| Account.vesting_withdraw_rate := rate |>
              <| Account.next_vesting_withdrawal :=
                   u32 (head_block_time db + STEEM_VESTING_WITHDRAW_INTERVAL_SECONDS) |>
              <| Account.to_withdraw := amount vesting_shares |> <| Account.withdrawn := 0 |>)).

(** the routes of an account, in the order of by_withdraw_route *)
Definition route_le (x y : withdraw_vesting_route_object) : Prop :=
  name_le (WithdrawVestingRoute.to_account x) (WithdrawVestingRoute.to_account y).
#[export] Instance route_le_dec : RelDecision route_le.
Proof. intros x y. unfold route_le. apply _. Defined.

Definition routes_of (db : database) (n : account_name_type) : list withdraw_vesting_route_object :=
  merge_sort route_le
    (filter (fun r => WithdrawVestingRoute.from_account r = n) (values (Db.withdraw_vesting_routes db))).

Definition total_percent (l : list withdraw_vesting_route_object) : Z :=
  fold_left (fun t r => u16 (t + WithdrawVestingRoute.percent r)) l 0.

Definition set_withdraw_vesting_route_evaluator (db : database) (from_account to_account : account_name_type)
    (percent : Z) (auto_vest : bool) : result database :=
  a ← get_account db from_account;
  _ ← get_account db to_account;
  let key := (from_account, to_account) in
  db ← match Db.withdraw_vesting_routes db !! key with
       | None =>
           _ ← fc_assert (negb (percent =? 0));
           _ ← fc_assert (Account.withdraw_routes a <? STEEM_MAX_WITHDRAW_ROUTES);
           db ← create withdraw_vesting_route_index Db.withdraw_vesting_routes key (fun id =>
                  WithdrawVestingRoute.mk id from_account to_account percent auto_vest) db;
           modify_account db from_account (fun a => Ok (a <| Account.withdraw_routes ::= fun n => u16 (n + 1) |>))
       | Some r =>
           if percent =? 0 then
             modify_account (remove Db.withdraw_vesting_routes key db) from_account (fun a =>
               Ok (a <| Account.withdraw_routes ::= fun n => u16 (n - 1) |>))
           else
             modify_obj Db.withdraw_vesting_routes key (fun r =>
               Ok (WithdrawVestingRoute.mk (WithdrawVestingRoute.id r) from_account to_account percent auto_vest)) db
       end;
  _ ← fc_assert (total_percent (routes_of db from_account) <=? STEEM_100_PERCENT);
  Ok db.

(** what one withdrawal takes out of the account *)
Definition withdrawal (a : account_object) : result Z :=
  left_to_withdraw ← Safe.sub (Account.to_withdraw a) (Account.withdrawn a);
  if left_to_withdraw <? amount (Account.vesting_withdraw_rate a) then
    m ← Safe.rem (Account.to_withdraw a) (amount (Account.vesting_withdraw_rate a));
    Ok (Z.min (amount (Account.vesting_shares a)) m)
  else Ok (Z.min (amount (Account.vesting_shares a)) (amount (Account.vesting_withdraw_rate a))).

(** the share of a withdrawal a route receives *)
Definition route_share (to_withdraw percent : Z) : result Z :=
  let q := u128 (u128 to_withdraw * percent) / STEEM_100_PERCENT in
  _ ← fc_assert (q <? 2 ^ 64);
  Ok (i64 q).

(** First pass: routes that keep the shares vested.  The state carries
    vests_deposited_as_vests. *)
Definition deposit_vests (to_withdraw : Z) (st : database * Z) (r : withdraw_vesting_route_object)
    : result (database * Z) :=
  let '(db, deposited) := st in
  if WithdrawVestingRoute.auto_vest r then
    to_deposit ← route_share to_withdraw (WithdrawVestingRoute.percent r);
    deposited ← Safe.add deposited to_deposit;
    if 0 <? to_deposit then
      db ← modify_account db (WithdrawVestingRoute.to_account r) (fun a =>
             v ← Safe.add (amount (Account.vesting_shares a)) to_deposit;
             Ok (a <| Account.vesting_shares ::= fun s => mk_asset v (symbol s) |>));
      db ← adjust_proxied_witness_votes db (WithdrawVestingRoute.to_account r) to_deposit;
      Ok (db, deposited)
    else Ok (db, deposited)
  else Ok (db, deposited).

(** a withdrawal of [vests] leaves the vesting fund as [steem] *)
Definition shrink_fund (db : database) (vests : Z) (steem : asset) : result database :=
  modify_gpo db (fun g =>
    f ← Asset.sub (Gpo.total_vesting_fund_steem g) steem;
    s ← Safe.sub (amount (Gpo.total_vesting_shares g)) vests;
    Ok (g <| Gpo.total_vesting_fund_steem := f |>
          <| Gpo.total_vesting_shares ::= fun v => mk_asset s (symbol v) |>)).

(** Second pass: routes paid in STEEM.  The state carries
    vests_deposited_as_steem and total_steem_converted. *)
Definition deposit_steem (to_withdraw : Z) (st : database * Z * asset) (r : withdraw_vesting_route_object)
    : result (database * Z * asset) :=
  let '(db, deposited, total_converted) := st in
  if negb (WithdrawVestingRoute.auto_vest r) then
    _ ← get_account db (WithdrawVestingRoute.to_account r);
    to_deposit ← route_share to_withdraw (WithdrawVestingRoute.percent r);
    deposited ← Safe.add deposited to_deposit;
    p ← get_vesting_share_price (Db.gpo db);
    converted_steem ← Price.mul (mk_asset to_deposit VESTS_SYMBOL) p;
    total_converted ← Asset.add total_converted converted_steem;
    if 0 <? to_deposit then
      db ← modify_account db (WithdrawVestingRoute.to_account r) (fun a =>
             b ← Asset.add (Account.balance a) converted_steem;
             Ok (a <| Account.balance := b |>));
      db ← shrink_fund db to_deposit converted_steem;
      Ok (db, deposited, total_converted)
    else Ok (db, deposited, total_converted)
  else Ok (db, deposited, total_converted).

(** the last update of the account that powers down *)
Definition settle_withdrawal (to_withdraw : Z) (converted_steem : asset) (a : account_object)
    : result account_object :=
  v ← Safe.sub (amount (Account.vesting_shares a)) to_withdraw;
  b ← Asset.add (Account.balance a) converted_steem;
  w ← Safe.add (Account.withdrawn a) to_withdraw;
  let a := a <| Account.vesting_shares ::= fun s => mk_asset v (symbol s) |>
             <| Account.balance := b |> <| Account.withdrawn := w |> in
  if (Account.to_withdraw a <=? w) || (v =? 0) then
    Ok (a <| Account.vesting_withdraw_rate ::= fun r => mk_asset 0 (symbol r) |>
          <| Account.next_vesting_withdrawal := time_maximum |>)
  else
    Ok (a <| Account.next_vesting_withdrawal ::=
              fun t => u32 (t + STEEM_VESTING_WITHDRAW_INTERVAL_SECONDS) |>).

Definition withdraw_from (db : database) (n : account_name_type) : result database :=
  a ← get_account db n;
  to_withdraw ← withdrawal a;
  '(db, as_vests) ← foldM (deposit_vests to_withdraw) (db, 0) (routes_of db n);
  '(db, as_steem, _) ← foldM (deposit_steem to_withdraw) (db, 0, mk_asset 0 STEEM_SYMBOL) (routes_of db n);
  c ← Safe.sub to_withdraw as_steem;
  to_convert ← Safe.sub c as_vests;
  _ ← fc_assert (0 <=? to_convert);
  p ← get_vesting_share_price (Db.gpo db);
  converted_steem ← Price.mul (mk_asset to_convert VESTS_SYMBOL) p;
  db ← modify_account db n (settle_withdrawal to_withdraw converted_steem);
  db ← shrink_fund db to_convert converted_steem;
  if 0 <? to_withdraw then
    m ← Safe.neg to_withdraw;
    adjust_proxied_witness_votes db n m
  else Ok db.

(** by_next_vesting_withdrawal *)
Definition withdraw_order (x y : account_object) : comparison :=
  lex (Account.next_vesting_withdrawal x ?= Account.next_vesting_withdrawal y)
    (name_compare (Account.name x) (Account.name y)).

(** The iterator [current] of the loop is the key of the account it points at;
    it is moved on before the account is processed, and what it points at then
    keeps its place in the index. *)
Definition next_after (db : database) (n : account_name_type) : option account_name_type :=
  match Db.accounts db !! n with
  | None => None
  | Some a =>
      fst <$> first_by (fun x y => lt_of (withdraw_order x y))
                (filter (fun kv => lt_of (withdraw_order a (snd kv)) = true) (Db.accounts db))
  end.

Definition due_withdrawal (st : database * option account_name_type) : option account_name_type :=
  let '(db, current) := st in
  n ← current;
  a ← Db.accounts db !! n;
  if Account.next_vesting_withdrawal a <=? head_block_time db then Some n else None.

Definition process_withdrawal (st : database * option account_name_type) (n : account_name_type)
    : result (database * option account_name_type) :=
  let '(db, _) := st in
  let current := next_after db n in
  db ← withdraw_from db n;
  Ok (db, current).

(** how often the schedule of an account can still come due by [now] *)
Definition due_count (now : Z) (a : account_object) : Z :=
  if Account.next_vesting_withdrawal a <=? now
  then (now - Account.next_vesting_withdrawal a) / STEEM_VESTING_WITHDRAW_INTERVAL_SECONDS + 1
  else 0.

Definition process_vesting_withdrawals (db : database) : result database :=
  '(db, _) ← while_next (Z.to_nat (msum (due_count (head_block_time db)) (Db.accounts db)))
               due_withdrawal process_withdrawal
               (db, fst <$> first_by (fun x y => lt_of (withdraw_order x y)) (Db.accounts db));
  Ok db.

(** ** Delegation *)

Definition min_delegation (db : database) (divisor : Z) : result asset :=
  m ← Safe.div (amount (ChainProperties.account_creation_fee (WitnessSchedule.median_props (Db.wso db)))) divisor;
  p ← get_vesting_share_price (Db.gpo db);
  Price.mul (mk_asset m STEEM_SYMBOL) p.

Definition available_shares (a : account_object) : result asset :=
  d ← Asset.sub (Account.vesting_shares a) (Account.delegated_vesting_shares a);
  w ← Safe.sub (Account.to_withdraw a) (Account.withdrawn a);
  Asset.sub d (mk_asset w VESTS_SYMBOL).

Definition add_delegated (x : asset) (a : account_object) : result account_object :=
  v ← Asset.add (Account.delegated_vesting_shares a) x; Ok (a <| Account.delegated_vesting_shares := v |>).
Definition add_received (x : asset) (a : account_object) : result account_object :=
  v ← Asset.add (Account.received_vesting_shares a) x; Ok (a <| Account.received_vesting_shares := v |>).
Definition sub_delegated (x : asset) (a : account_object) : result account_object :=
  v ← Asset.sub (Account.delegated_vesting_shares a) x; Ok (a <| Account.delegated_vesting_shares := v |>).
Definition sub_received (x : asset) (a : account_object) : result account_object :=
  v ← Asset.sub (Account.received_vesting_shares a) x; Ok (a <| Account.received_vesting_shares := v |>).

Definition delegate_vesting_shares_evaluator (db : database) (delegator delegatee : account_name_type)
    (vesting_shares : asset) : result database :=
  a ← get_account db delegator;
  _ ← get_account db delegatee;
  let key := (delegator, delegatee) in
  available ← available_shares a;
  min_deleg ← min_delegation db 3;
  min_update ← min_delegation db 30;
  match Db.vesting_delegations db !! key with
  | None =>
      _ ← assert_geb available vesting_shares;
      _ ← assert_geb vesting_shares min_deleg;
      db ← create vesting_delegation_index Db.vesting_delegations key (fun id =>
             VestingDelegation.mk id delegator delegatee vesting_shares (head_block_time db)) db;
      db ← modify_account db delegator (add_delegated vesting_shares);
      modify_account db delegatee (add_received vesting_shares)
  | Some d =>
      c ← Asset.geb vesting_shares (VestingDelegation.vesting_shares d);
      if c : bool then
        delta ← Asset.sub vesting_shares (VestingDelegation.vesting_shares d);
        _ ← assert_geb delta min_update;
        _ ← assert_geb available delta;
        db ← modify_account db delegator (add_delegated delta);
        db ← modify_account db delegatee (add_received delta);
        modify_obj Db.vesting_delegations key (fun d =>
          Ok (d <| VestingDelegation.vesting_shares := vesting_shares |>)) db
      else
        delta ← Asset.sub (VestingDelegation.vesting_shares d) vesting_shares;
        _ ← (if 0 <? amount vesting_shares then
               _ ← assert_geb delta min_update;
               assert_geb vesting_shares min_deleg
             else fc_assert (0 <? amount (VestingDelegation.vesting_shares d)));
        let expiration := Z.max (u32 (head_block_time db + Gpo.delegation_return_period (Db.gpo db)))
                            (VestingDelegation.min_delegation_time d) in
        db ← create vesting_delegation_expiration_index Db.vesting_delegation_expirations
               (Db.next_id db vesting_delegation_expiration_index) (fun id =>
               VestingDelegationExpiration.mk id delegator delta expiration) db;
        db ← modify_account db delegatee (sub_received delta);
        if 0 <? amount vesting_shares then
          modify_obj Db.vesting_delegations key (fun d =>
            Ok (d <| VestingDelegation.vesting_shares := vesting_shares |>)) db
        else Ok (remove Db.vesting_delegations key db)
  end.

Definition expired_delegation (db : database) : option (Z * vesting_delegation_expiration_object) :=
  match first_by (fun x y => lt_of (lex (VestingDelegationExpiration.expiration x ?= VestingDelegationExpiration.expiration y)
                    (VestingDelegationExpiration.id x ?= VestingDelegationExpiration.id y)))
          (Db.vesting_delegation_expirations db) with
  | Some (k, e) => if VestingDelegationExpiration.expiration e <? head_block_time db then Some (k, e) else None
  | None => None
  end.

Definition return_delegation (db : database) (x : Z * vesting_delegation_expiration_object) : result database :=
  let '(k, e) := x in
  db ← modify_account db (VestingDelegationExpiration.delegator e)
         (sub_delegated (VestingDelegationExpiration.vesting_shares e));
  Ok (remove Db.vesting_delegation_expirations k db).

Definition clear_expired_delegations (db : database) : result database :=
  while_next (size (Db.vesting_delegation_expirations db)) expired_delegation return_delegation db.

(** ** Conservation *)

(** maps the accounting does not read *)
Lemma routes_conserve db m : wf db -> conserves db (db <| Db.withdraw_vesting_routes := m |>).
Proof. intros. by apply same_ledger_conserves. Qed.

Lemma delegations_conserve db m :
  wf db -> map_Forall (fun _ d => symbol (VestingDelegation.vesting_shares d) = VESTS_SYMBOL) m ->
  conserves db (db <| Db.vesting_delegations := m |>).
Proof. intros [] Hm. split; [by split|gaps; lia..]. Qed.

Lemma expirations_conserve db m :
  wf db -> map_Forall (fun _ d => symbol (VestingDelegationExpiration.vesting_shares d) = VESTS_SYMBOL) m ->
  conserves db (db <| Db.vesting_delegation_expirations := m |>).
Proof. intros [] Hm. split; [by split|gaps; lia..]. Qed.

Lemma withdraw_vesting_conserves db n x db' :
  wf db -> withdraw_vesting_evaluator db n x = Ok db' -> conserves db db'.
Proof.
  intros Hwf H. unfold withdraw_vesting_evaluator in H. result_case; [by apply moves_refl|..];
    (eapply modify_account_conserves; [done|eassumption|keeps_holdings]).
Qed.

Lemma set_withdraw_vesting_route_conserves db from to p av db' :
  wf db -> set_withdraw_vesting_route_evaluator db from to p av = Ok db' -> conserves db db'.
Proof.
  intros Hwf H. unfold set_withdraw_vesting_route_evaluator in H.
  bind H as a Ha. bind H as b Hb. bind H as db1 H1. bind H as u Hu. injection H as <-.
  destruct (Db.withdraw_vesting_routes db !! (from, to)) as [r|]; [destruct (p =? 0)|].
  - pose proof (routes_conserve db (delete (from, to) (Db.withdraw_vesting_routes db)) Hwf) as M1.
    apply modify_account_conserves in H1; [|wf_of|keeps_holdings]. eapply conserves_trans; [exact M1|exact H1].
  - apply modify_obj_inv in H1 as (v & v' & _ & _ & ->). apply (routes_conserve db _ Hwf).
  - bind H1 as u1 U1. bind H1 as u2 U2. bind H1 as db2 H2. apply create_inv in H2 as (_ & ids & ->).
    apply modify_account_conserves in H1; [|by apply (same_ledger_conserves db)|keeps_holdings].
    eapply conserves_trans; [|exact H1]. by apply (same_ledger_conserves db).
Qed.

Lemma delegation_account_conserves db n f db' :
  wf db -> modify_account db n f = Ok db' ->
  (exists x, f = add_delegated x \/ f = add_received x \/ f = sub_delegated x \/ f = sub_received x) ->
  conserves db db'.
Proof.
  intros Hwf H Hf. eapply modify_account_conserves; [done|exact H|].
  destruct Hf as (x & [-> | [-> | [-> | ->]]]); unfold add_delegated, add_received, sub_delegated, sub_received;
    keeps_holdings.
Qed.

Lemma available_shares_vests a x : account_wf a -> available_shares a = Ok x -> symbol x = VESTS_SYMBOL.
Proof.
  intros W H. unfold available_shares in H. result_inv. asset_inv. simpl in *.
  destruct W as (_&_&_&_&_&_&_&_&Hv&_). done.
Qed.

Lemma delegate_vesting_shares_conserves db delegator delegatee x db' :
  wf db -> delegate_vesting_shares_evaluator db delegator delegatee x = Ok db' -> conserves db db'.
Proof.
  intros Hwf H. unfold delegate_vesting_shares_evaluator in H.
  bind H as a Ha. apply get_account_Ok in Ha. bind H as a2 Ha2. clear Ha2. bind H as av Hav. bind H as m1 Hm1. bind H as m2 Hm2.
  apply available_shares_vests in Hav; [|by eapply wf_account].
  destruct (Db.vesting_delegations db !! (delegator, delegatee)) as [d|] eqn:Hd.
  - pose proof (wf_delegations _ Hwf _ _ Hd) as Sd. simpl in Sd. bind H as c Hc. asset_inv. destruct (_ <=? _).
    + bind H as delta Hdelta. bind H as u1 U1. bind H as u2 U2. bind H as db1 H1. bind H as db2 H2.
      apply delegation_account_conserves in H1; [|done|eauto].
      apply delegation_account_conserves in H2; [|wf_of|eauto].
      apply modify_obj_inv in H as (v & v' & Hv & [= <-] & ->). asset_inv.
      assert (wf db2) as Hwf2 by wf_of.
      pose proof (delegations_conserve db2 (<[(delegator, delegatee):=v <| VestingDelegation.vesting_shares := x |>]>
        (Db.vesting_delegations db2)) Hwf2) as M3.
      specialize (M3 ltac:(apply map_Forall_insert_2; [simpl; congruence|apply Hwf2])).
      eapply conserves_trans; [exact H1|]. eapply conserves_trans; [exact H2|exact M3].
    + bind H as delta Hdelta. bind H as u1 U1. bind H as db1 H1. bind H as db2 H2. asset_inv.
      apply create_inv in H1 as (_ & ids & ->).
      set (db1 := (db <| Db.next_id := ids |>) <| Db.vesting_delegation_expirations ::= _ |>) in *.
      assert (conserves db db1) as M1.
      { pose proof (ids_conserve db ids Hwf) as M0.
        eapply moves_eq; [eapply moves_trans; [exact M0|apply expirations_conserve;
          [wf_of|apply map_Forall_insert_2; [done|apply Hwf]]]|lia..]. }
      apply delegation_account_conserves in H2; [|wf_of|eauto].
      assert (wf db2) as Hwf2 by wf_of. destruct (0 <? amount x).
      * apply modify_obj_inv in H as (v & v' & Hv & [= <-] & ->).
        pose proof (delegations_conserve db2 (<[(delegator, delegatee):=v <| VestingDelegation.vesting_shares := x |>]>
          (Db.vesting_delegations db2)) Hwf2) as M3.
        specialize (M3 ltac:(apply map_Forall_insert_2; [simpl; congruence|apply Hwf2])).
        eapply conserves_trans; [exact M1|]. eapply conserves_trans; [exact H2|exact M3].
      * injection H as <-.
        pose proof (delegations_conserve db2 (delete (delegator, delegatee) (Db.vesting_delegations db2)) Hwf2) as M3.
        specialize (M3 ltac:(apply map_Forall_delete, Hwf2)).
        eapply conserves_trans; [exact M1|]. eapply conserves_trans; [exact H2|exact M3].
  - bind H as u1 U1. bind H as u2 U2. bind H as db1 H1. bind H as db2 H2.
    apply assert_geb_Ok in U1 as [S1 _].
    apply create_inv in H1 as (_ & ids & ->).
    set (db1 := (db <| Db.next_id := ids |>) <| Db.vesting_delegations ::= _ |>) in *.
    assert (conserves db db1) as M1.
    { pose proof (ids_conserve db ids Hwf) as M0.
      eapply moves_eq; [eapply moves_trans; [exact M0|apply delegations_conserve;
        [wf_of|apply map_Forall_insert_2; [simpl; congruence|apply Hwf]]]|lia..]. }
    apply delegation_account_conserves in H2; [|wf_of|eauto].
    apply delegation_account_conserves in H; [|wf_of|eauto].
    eapply conserves_trans; [exact M1|]. eapply conserves_trans; [exact H2|exact H].
Qed.

Lemma clear_expired_delegations_conserves db db' : clear_expired_delegations db = Ok db' -> sound db db'.
Proof.
  apply while_next_preorder; [apply _|]. intros d [k e] d' _ H Hwf. unfold return_delegation in H.
  bind H as d1 H1. injection H as <-. apply delegation_account_conserves in H1; [|done|eauto].
  assert (wf d1) as Hwf1 by wf_of.
  pose proof (expirations_conserve d1 (delete k (Db.vesting_delegation_expirations d1)) Hwf1) as M2.
  specialize (M2 ltac:(apply map_Forall_delete, Hwf1)). eapply conserves_trans; [exact H1|exact M2].
Qed.

(** ** Withdrawals *)

(** What a withdrawal does to accounts other than the one that powers down, and
    to that one before it is settled: shares only grow, the schedule stays. *)
Definition grows (a a' : account_object) : Prop :=
  amount (Account.vesting_shares a) <= amount (Account.vesting_shares a') /\
  (Safe.valid (amount (Account.vesting_shares a)) -> Safe.valid (amount (Account.vesting_shares a'))) /\
  Account.vesting_withdraw_rate a' = Account.vesting_withdraw_rate a /\
  Account.to_withdraw a' = Account.to_withdraw a /\ Account.withdrawn a' = Account.withdrawn a /\
  Account.next_vesting_withdrawal a' = Account.next_vesting_withdrawal a.

Definition accounts_grow (db db' : database) : Prop :=
  (forall n a, Db.accounts db !! n = Some a -> exists a', Db.accounts db' !! n = Some a' /\ grows a a') /\
  (forall n a', Db.accounts db' !! n = Some a' -> exists a, Db.accounts db !! n = Some a /\ grows a a') /\
  Db.withdraw_vesting_routes db' = Db.withdraw_vesting_routes db /\ head_block_time db' = head_block_time db.

Lemma grows_refl a : grows a a.
Proof. split; [lia|]. by split. Qed.
Lemma grows_trans a b c : grows a b -> grows b c -> grows a c.
Proof.
  intros (?&V1&?&?&?&?) (?&V2&?&?&?&?). split; [lia|]. split; [by intros ?%V1%V2|]. repeat split; congruence.
Qed.

#[export] Instance accounts_grow_preorder : PreOrder accounts_grow.
Proof.
  split.
  - intros db. split; [|split; [|done]]; eauto using grows_refl.
  - intros x y z (H1 & H2 & E1 & T1) (H3 & H4 & E2 & T2). split; [|split; [|split; congruence]].
    + intros n a Ha. apply H1 in Ha as (b & Hb & ?). apply H3 in Hb as (c & Hc & ?). eauto using grows_trans.
    + intros n c Hc. apply H4 in Hc as (b & Hb & ?). apply H2 in Hb as (a & Ha & ?). eauto using grows_trans.
Qed.

Lemma account_grow db n a a' :
  Db.accounts db !! n = Some a -> grows a a' -> accounts_grow db (db <| Db.accounts ::= <[n := a']> |>).
Proof.
  intros Ha Hg. split; [|split; [|done]]; simpl; intros m b Hb; destruct (decide (m = n)) as [->|Hne].
  - rewrite lookup_insert_eq. rewrite Ha in Hb. injection Hb as <-. eauto.
  - rewrite lookup_insert_ne by done. eauto using grows_refl.
  - rewrite lookup_insert_eq in Hb. injection Hb as <-. eauto.
  - rewrite lookup_insert_ne in Hb by done. eauto using grows_refl.
Qed.

Lemma modify_account_grow db n f db' :
  modify_account db n f = Ok db' -> (forall a a', f a = Ok a' -> grows a a') -> accounts_grow db db'.
Proof. intros (a & a' & Ha & Hf & ->)%modify_account_inv Hg. eauto using account_grow. Qed.

Lemma same_accounts_grow db db' :
  Db.accounts db' = Db.accounts db -> Db.withdraw_vesting_routes db' = Db.withdraw_vesting_routes db ->
  head_block_time db' = head_block_time db -> accounts_grow db db'.
Proof. intros E R T. split; [|split; [|done]]; rewrite E; eauto using grows_refl. Qed.

Lemma adjust_witness_votes_grow db n d db' : adjust_witness_votes db n d = Ok db' -> accounts_grow db db'.
Proof.
  unfold adjust_witness_votes, adjust_witness_vote. apply foldM_preorder; [apply _|]. intros x w y H.
  apply modify_witness_inv in H as (? & ? & ? & ? & ->). by apply same_accounts_grow.
Qed.

Lemma adjust_proxied_at_grow togo : forall db n d db', adjust_proxied_at togo db n d = Ok db' -> accounts_grow db db'.
Proof.
  induction togo as [|togo IH]; intros db n d db' H; simpl in H; bind H as a Ha; case_decide.
  1,3: by eapply adjust_witness_votes_grow.
  - by injection H as <-.
  - bind H as db1 H1. apply IH in H. etrans; [|exact H]. eapply modify_account_grow; [exact H1|].
    cbv beta. intros p p' Hp. result_inv. apply (grows_refl p).
Qed.

(** shares are granted to an account and to the witnesses it votes for *)
Lemma grant_moves db n d db1 db2 :
  wf db ->
  modify_account db n (fun a =>
    v ← Safe.add (amount (Account.vesting_shares a)) d;
    Ok (a <| Account.vesting_shares ::= fun s => mk_asset v (symbol s) |>)) = Ok db1 ->
  adjust_proxied_witness_votes db1 n d = Ok db2 -> moves db db2 0 0 (- d) 0 (- d).
Proof.
  intros Hwf (a & a' & Ha & Hf & ->)%modify_account_inv H. result_inv. asset_inv.
  epose proof (account_moves db n a _ Hwf Ha _) as M1.
  eapply adjust_proxied_witness_votes_moves in H as [M2 _]; [|apply M1|simpl; apply lookup_insert_eq].
  eapply moves_eq; [eapply moves_trans; [exact M1|exact M2]|..]; acc_unfold; solve_val.
  Unshelve. solve_account_wf.
Qed.

Lemma shrink_fund_moves db v s db' :
  wf db -> shrink_fund db v s = Ok db' ->
  moves db db' (amount s) 0 (- v) 0 (- v) /\ accounts_grow db db' /\ Db.accounts db' = Db.accounts db.
Proof.
  unfold shrink_fund. intros Hwf (g & Hg & ->)%modify_gpo_inv. result_inv. asset_inv.
  pose proof (wf_gpo db Hwf) as (?&?&?&?&?&?&?&?). split; [|split; [by apply same_accounts_grow|done]].
  eapply moves_eq; [apply gpo_moves; [done|unfold gpo_wf; simpl; auto 10]|..];
    unfold gpo_steem, gpo_sbd, gpo_vests, gpo_pending, gpo_vsf; simpl; lia.
Qed.

Definition percent_ok (r : withdraw_vesting_route_object) : Prop :=
  0 <= WithdrawVestingRoute.percent r <= STEEM_100_PERCENT.

Lemma route_share_floor w p :
  0 <= w <= INT64_MAX -> 0 <= p <= STEEM_100_PERCENT ->
  route_share w p = Ok (w * p / STEEM_100_PERCENT) /\ 0 <= w * p / STEEM_100_PERCENT <= w.
Proof.
  unfold STEEM_100_PERCENT, INT64_MAX. intros Hw Hp.
  assert (0 <= w * p / 10000 <= w) as Hb.
  { split; [apply Z.div_pos; lia|]. apply Z.div_le_upper_bound; nia. }
  split; [|done]. unfold route_share, STEEM_100_PERCENT.
  rewrite (u128_id w) by lia. rewrite u128_id by nia.
  rewrite (proj2 (Z.ltb_lt (w * p / 10000) (2 ^ 64))) by lia. simpl.
  rewrite i64_id; [done|]. unfold INT64_MIN, INT64_MAX. lia.
Qed.

Section one_withdrawal.
Context (W : Z) (HW : 0 <= W <= INT64_MAX).

Lemma deposit_vests_moves l : forall db x db' x',
  wf db -> Forall percent_ok l -> foldM (deposit_vests W) (db, x) l = Ok (db', x') ->
  moves db db' 0 0 (x - x') 0 (x - x') /\ accounts_grow db db' /\ x <= x'.
Proof.
  induction l as [|r l IH]; intros db x db' x' Hwf Hl H; simpl in H.
  - injection H as <- <-. split; [|done]. eapply moves_eq; [by apply moves_refl|lia..].
  - apply Forall_cons in Hl as [Hr Hl]. bind H as [db1 x1] H1.
    assert (moves db db1 0 0 (x - x1) 0 (x - x1) /\ accounts_grow db db1 /\ x <= x1) as (M1 & G1 & L1).
    { destruct (WithdrawVestingRoute.auto_vest r).
      - destruct (route_share_floor W _ HW Hr) as [E Hb]. rewrite E in H1. simpl in H1.
        bind H1 as y Hy. asset_inv. destruct (Z.ltb_spec 0 (W * WithdrawVestingRoute.percent r / STEEM_100_PERCENT)).
        + bind H1 as db2 H2. bind H1 as db3 H3. injection H1 as <- <-.
          split; [|split; [|lia]].
          * eapply moves_eq; [by eapply grant_moves|lia..].
          * etrans; [eapply modify_account_grow; [exact H2|]|by eapply adjust_proxied_at_grow].
            cbv beta. intros a a' Ha. bind Ha as v Hv. injection Ha as <-.
            pose proof Hv as ->%Safe.add_Ok. split; simpl; [lia|]. split; [|done].
            intros Hva. eapply Safe.add_valid; [exact Hva| |exact Hv]. unfold Safe.valid, INT64_MIN in *. lia.
        + injection H1 as <- <-. split; [|split; [done|lia]]. eapply moves_eq; [by apply moves_refl|lia..].
      - injection H1 as <- <-. split; [|done]. eapply moves_eq; [by apply moves_refl|lia..]. }
    apply IH in H as (M2 & G2 & L2); [|wf_of|done].
    split; [|split; [by etrans|lia]]. eapply moves_eq; [eapply moves_trans; [exact M1|exact M2]|lia..].
Qed.

Lemma deposit_steem_moves l : forall db x t db' x' t',
  wf db -> Forall percent_ok l -> foldM (deposit_steem W) (db, x, t) l = Ok (db', x', t') ->
  moves db db' 0 0 (x - x') 0 (x - x') /\ accounts_grow db db' /\ x <= x'.
Proof.
  induction l as [|r l IH]; intros db x t db' x' t' Hwf Hl H; simpl in H.
  - injection H as <- <- <-. split; [|done]. eapply moves_eq; [by apply moves_refl|lia..].
  - apply Forall_cons in Hl as [Hr Hl]. bind H as [[db1 x1] t1] H1.
    assert (moves db db1 0 0 (x - x1) 0 (x - x1) /\ accounts_grow db db1 /\ x <= x1) as (M1 & G1 & L1).
    { destruct (negb (WithdrawVestingRoute.auto_vest r)).
      - destruct (route_share_floor W _ HW Hr) as [E Hb]. bind H1 as a Ha. rewrite E in H1. simpl in H1.
        bind H1 as y Hy. bind H1 as p Hp. bind H1 as cs Hcs. bind H1 as tt' Htt. asset_inv.
        destruct (Z.ltb_spec 0 (W * WithdrawVestingRoute.percent r / STEEM_100_PERCENT)).
        + bind H1 as db2 Hma. bind H1 as db3 Hsf. injection H1 as <- <- <-.
          pose proof Hma as (b & b' & Hb1 & Hb' & Edb)%modify_account_inv.
          assert (moves db db2 (- amount cs) 0 0 0 0 /\ accounts_grow db db2) as [M2 G2].
          { subst db2. clear Hma Hsf. result_inv. asset_inv. split.
            - eapply moves_eq; [apply account_moves; [done..|solve_account_wf]|acc_unfold; solve_val..].
            - apply (account_grow _ _ b); [done|]. apply (grows_refl b). }
          apply shrink_fund_moves in Hsf as (M3 & G3 & _); [|wf_of].
          split; [|split; [by etrans|lia]]. eapply moves_eq; [eapply moves_trans; [exact M2|exact M3]|lia..].
        + injection H1 as <- <- <-. split; [|split; [done|lia]]. eapply moves_eq; [by apply moves_refl|lia..].
      - injection H1 as <- <- <-. split; [|done]. eapply moves_eq; [by apply moves_refl|lia..]. }
    apply IH in H as (M2 & G2 & L2); [|wf_of|done].
    split; [|split; [by etrans|lia]]. eapply moves_eq; [eapply moves_trans; [exact M1|exact M2]|lia..].
Qed.
End one_withdrawal.

(** The ranges the amounts of a power down live in. *)
Definition vesting_ok (a : account_object) : Prop :=
  0 <= amount (Account.vesting_shares a) <= INT64_MAX /\ 0 <= amount (Account.vesting_withdraw_rate a) /\
  0 <= Account.to_withdraw a.

Definition power_downs_ok (db : database) : Prop :=
  map_Forall (fun _ a => vesting_ok a) (Db.accounts db) /\
  map_Forall (fun _ r => percent_ok r) (Db.withdraw_vesting_routes db).

Lemma withdrawal_range a w : vesting_ok a -> withdrawal a = Ok w -> 0 <= w <= amount (Account.vesting_shares a).
Proof.
  intros Hok H. destruct Hok as ((? & ?) & ? & ?). unfold withdrawal in H. bind H as l Hl. destruct (_ <? _).
  - bind H as m Hm. injection H as <-. unfold Safe.rem in Hm. result_case. zbool.
    pose proof (Z.rem_nonneg (Account.to_withdraw a) (amount (Account.vesting_withdraw_rate a)) ltac:(done) ltac:(done)). lia.
  - injection H as <-. lia.
Qed.

Lemma grows_ok a a' : vesting_ok a -> grows a a' -> vesting_ok a'.
Proof.
  intros ((? & ?) & ? & ?) (? & V & E1 & E2 & _). unfold vesting_ok. rewrite E1, E2.
  unfold Safe.valid, INT64_MIN in V. lia.
Qed.

Lemma accounts_grow_ok db db' : power_downs_ok db -> accounts_grow db db' -> power_downs_ok db'.
Proof.
  intros [Ha Hr] (_ & G & E & _). split; [|by rewrite E].
  intros n a' Hn. apply G in Hn as (a & Hn & Hg). eapply grows_ok; [by eapply Ha|done].
Qed.

Lemma routes_of_ok db n : power_downs_ok db -> Forall percent_ok (routes_of db n).
Proof.
  intros [_ Hr]. unfold routes_of. rewrite merge_sort_Permutation. apply Forall_forall. intros r Hin.
  apply list_elem_of_filter in Hin as [_ Hin]. unfold values in Hin. apply list_elem_of_In, in_map_iff in Hin as ([k r'] & <- & Hin).
  apply list_elem_of_In, elem_of_map_to_list in Hin. by apply Hr in Hin.
Qed.

(** the effect of the final update on the schedule *)
Lemma settle_withdrawal_ok W cs a a' :
  vesting_ok a -> 0 <= W <= amount (Account.vesting_shares a) -> settle_withdrawal W cs a = Ok a' ->
  vesting_ok a' /\ Account.proxy a' = Account.proxy a /\
  (account_wf a -> account_wf a' /\ acc_steem a' = acc_steem a + amount cs /\ acc_sbd a' = acc_sbd a /\
     acc_vests a' = acc_vests a - W /\ acc_pending a' = acc_pending a /\
     acc_vsf a' = acc_vsf a - (if self_proxied a then W else 0)) /\
  (Account.next_vesting_withdrawal a' = time_maximum \/
   Account.next_vesting_withdrawal a' =
     u32 (Account.next_vesting_withdrawal a + STEEM_VESTING_WITHDRAW_INTERVAL_SECONDS)).
Proof.
  intros Hok HW H. destruct Hok as ((? & ?) & ? & ?). unfold settle_withdrawal in H. bind H as v Hv. bind H as b Hb. bind H as w Hw.
  asset_inv. simpl in H.
  destruct (_ || _); injection H as <-; simpl; (split; [repeat split; simpl; lia|]); (split; [done|]);
    (split; [|auto]); intros W1; (split; [solve_account_wf|]); acc_unfold; destruct (bool_decide _); repeat split; lia.
Qed.

(** the account is settled once, its shares may grow before and after *)
Definition settled (a a' : account_object) : Prop :=
  exists W cs b b', withdrawal a = Ok W /\ grows a b /\ settle_withdrawal W cs b = Ok b' /\ grows b' a'.

Lemma withdraw_from_settles db n a db' :
  wf db -> power_downs_ok db -> Db.accounts db !! n = Some a -> withdraw_from db n = Ok db' ->
  conserves db db' /\ power_downs_ok db' /\ head_block_time db' = head_block_time db /\
  (forall m b', m <> n -> Db.accounts db' !! m = Some b' -> exists b, Db.accounts db !! m = Some b /\ grows b b') /\
  exists a', Db.accounts db' !! n = Some a' /\ settled a a'.
Proof.
  intros Hwf Hok Ha H. unfold withdraw_from in H. bind H as a0 Ha0. apply get_account_Ok in Ha0. simplify_map_eq.
  bind H as W HW. bind H as [db1 dv] H1. bind H as [[db2 ds] t] H2. bind H as c Hc. bind H as tc Htc.
  bind H as u Hu. bind H as p Hp. bind H as cs Hcs. bind H as db3 H3. bind H as db4 H4. asset_inv.
  pose proof (proj1 Hok _ _ Ha) as Hva. pose proof HW as HW0. apply withdrawal_range in HW; [|done].
  assert (0 <= W <= INT64_MAX) as HWm by (destruct Hva; lia).
  apply (deposit_vests_moves W HWm) in H1 as (M1 & G1 & _); [|done|by apply routes_of_ok].
  pose proof (accounts_grow_ok _ _ Hok G1) as Hok1.
  apply (deposit_steem_moves W HWm) in H2 as (M2 & G2 & _); [|wf_of|by apply routes_of_ok].
  pose proof (accounts_grow_ok _ _ Hok1 G2) as Hok2. assert (accounts_grow db db2) as G by (by etrans).
  apply modify_account_inv in H3 as (b & b' & Hb & Hs & ->).
  destruct (proj1 (proj2 G) _ _ Hb) as (a1 & Ha1 & Hg). simplify_map_eq.
  pose proof Hs as Hs0. apply settle_withdrawal_ok in Hs as (Hvb & Hpr & Hm & _); [|by eapply Hok2|destruct Hg; lia].
  destruct Hm as (Wb & E1 & E2 & E3 & E4 & E5); [by eapply wf_account; [wf_of|]|].
  assert (wf db2) as Hwf2 by wf_of.
  pose proof (account_moves db2 n b b' Hwf2 Hb Wb) as M3.
  set (db3 := db2 <| Db.accounts ::= <[n := b']> |>) in *.
  assert (Db.accounts db3 !! n = Some b') as Hb3 by apply lookup_insert_eq.
  assert (power_downs_ok db3) as Hok3.
  { split; [apply map_Forall_insert_2; [done|apply Hok2]|apply Hok2]. }
  apply shrink_fund_moves in H4 as (M4 & G4 & Eacc); [|wf_of].
  assert (moves db4 db' 0 0 0 0 (if self_proxied b then 0 else W) /\ accounts_grow db4 db') as [M5 G5].
  { destruct (Z.ltb_spec 0 W).
    - bind H as m Hneg. asset_inv. split; [|by eapply adjust_proxied_at_grow].
      eapply adjust_proxied_witness_votes_moves in H as [M5 _]; [|wf_of|rewrite Eacc; exact Hb3].
      unfold self_proxied in *. rewrite Hpr in M5. eapply moves_eq; [exact M5|lia..|destruct (bool_decide _); lia].
    - injection H as <-. split; [|done]. assert (W = 0) as -> by lia.
      eapply moves_eq; [apply moves_refl; wf_of|lia..|by destruct (self_proxied b)]. }
  assert (accounts_grow db3 db') as G35 by (by etrans).
  split; [|split; [by eapply accounts_grow_ok|split; [|split]]].
  - rewrite E1, E2, E3, E4, E5 in M3.
    eapply moves_eq; [eapply moves_trans; [exact M1|eapply moves_trans; [exact M2|eapply moves_trans; [exact M3|
      eapply moves_trans; [exact M4|exact M5]]]]|..]; try lia.
    destruct (self_proxied b); lia.
  - destruct G35 as (_ & _ & _ & ->). apply G.
  - intros m x' Hne Hx. apply (proj1 (proj2 G35)) in Hx as (x & Hx & Hgx). unfold db3 in Hx. simpl in Hx.
    rewrite lookup_insert_ne in Hx by done. apply (proj1 (proj2 G)) in Hx as (y & Hy & Hgy). eauto using grows_trans.
  - apply (proj1 G35) in Hb3 as (x & Hx & Hgx). exists x. split; [done|]. by exists W, cs, b, b'.
Qed.

Lemma settled_next a a' :
  vesting_ok a -> settled a a' ->
  Account.next_vesting_withdrawal a' = time_maximum \/
  Account.next_vesting_withdrawal a' = u32 (Account.next_vesting_withdrawal a + STEEM_VESTING_WITHDRAW_INTERVAL_SECONDS).
Proof.
  intros Hok (W & cs & b & b' & HW & Hg & Hs & (_&_&_&_&_&->)). apply withdrawal_range in HW; [|done].
  apply settle_withdrawal_ok in Hs as (_ & _ & _ & Hn); [|by eapply grows_ok|destruct Hg; lia]. by destruct Hg as (_&_&_&_&_&<-).
Qed.

Lemma withdraw_from_spec db n a db' :
  wf db -> power_downs_ok db -> Db.accounts db !! n = Some a -> withdraw_from db n = Ok db' ->
  conserves db db' /\ power_downs_ok db' /\ head_block_time db' = head_block_time db /\
  (forall m b', m <> n -> Db.accounts db' !! m = Some b' -> exists b, Db.accounts db !! m = Some b /\ grows b b') /\
  exists a', Db.accounts db' !! n = Some a' /\
    (Account.next_vesting_withdrawal a' = time_maximum \/
     Account.next_vesting_withdrawal a' = u32 (Account.next_vesting_withdrawal a + STEEM_VESTING_WITHDRAW_INTERVAL_SECONDS)).
Proof.
  intros Hwf Hok Ha H. destruct (withdraw_from_settles db n a db' Hwf Hok Ha H) as (M & P & T & G & a' & Ha' & Hs).
  split_and!; try done. exists a'. split; [done|]. eapply settled_next; [|exact Hs]. by eapply (proj1 Hok).
Qed.

(** ** The loop over the due withdrawals *)

Lemma due_withdrawal_Some db c n :
  due_withdrawal (db, c) = Some n ->
  exists a, Db.accounts db !! n = Some a /\ Account.next_vesting_withdrawal a <= head_block_time db.
Proof.
  unfold due_withdrawal. destruct c as [m|]; simpl; [|done].
  destruct (Db.accounts db !! m) as [a|] eqn:Ha; simpl; [|done].
  destruct (Z.leb_spec (Account.next_vesting_withdrawal a) (head_block_time db)); [|done]. intros [= ->]. eauto.
Qed.

Lemma due_count_nonneg now a : 0 <= due_count now a.
Proof.
  unfold due_count, STEEM_VESTING_WITHDRAW_INTERVAL_SECONDS.
  destruct (Z.leb_spec (Account.next_vesting_withdrawal a) now); [|lia].
  pose proof (Z.div_pos (now - Account.next_vesting_withdrawal a) (60 * 60 * 24 * 7) ltac:(lia) ltac:(lia)). lia.
Qed.

(** a processed account comes due at least once less *)
Lemma due_count_step now a a' :
  0 <= Account.next_vesting_withdrawal a <= now -> now + STEEM_VESTING_WITHDRAW_INTERVAL_SECONDS < 2 ^ 32 ->
  Account.next_vesting_withdrawal a' = time_maximum \/
  Account.next_vesting_withdrawal a' = u32 (Account.next_vesting_withdrawal a + STEEM_VESTING_WITHDRAW_INTERVAL_SECONDS) ->
  due_count now a' < due_count now a.
Proof.
  unfold due_count, STEEM_VESTING_WITHDRAW_INTERVAL_SECONDS, time_maximum. intros Hn Hb Hn'.
  rewrite (proj2 (Z.leb_le (Account.next_vesting_withdrawal a) now)) by lia.
  set (t := Account.next_vesting_withdrawal a) in *. set (t' := Account.next_vesting_withdrawal a') in *.
  pose proof (Z.div_pos (now - t) (60 * 60 * 24 * 7) ltac:(lia) ltac:(lia)).
  destruct (Z.leb_spec t' now); [|lia]. destruct Hn' as [->|E]; [lia|].
  rewrite u32_id in E by lia. rewrite E.
  replace (now - (t + 60 * 60 * 24 * 7)) with (now - t + (-1) * (60 * 60 * 24 * 7)) by lia.
  rewrite Z_div_plus_full by lia. lia.
Qed.

Definition times_ok (db : database) : Prop :=
  map_Forall (fun _ a => 0 <= Account.next_vesting_withdrawal a) (Db.accounts db).

Lemma process_vesting_withdrawals_conserves db db' :
  wf db -> power_downs_ok db -> process_vesting_withdrawals db = Ok db' ->
  conserves db db' /\ power_downs_ok db'.
Proof.
  intros Hwf Hok H. unfold process_vesting_withdrawals in H. bind H as [d c] Hl. injection H as <-.
  apply (while_next_inv _ _ (fun st : database * option account_name_type =>
    conserves db st.1 /\ power_downs_ok st.1)) in Hl; [done| |split; [by apply moves_refl|done]].
  intros [d1 c1] n [d2 c2] [M1 P1] (a & Ha & _)%due_withdrawal_Some Hb. simpl in *.
  bind Hb as d3 Hw. injection Hb as <- <-.
  apply (withdraw_from_spec d1 n a) in Hw as (M2 & P2 & _); [|wf_of|done..].
  split; [by eapply conserves_trans|done].
Qed.

(** C30: The number of rounds the model allows is enough, however long the chain
    was halted: any larger number gives the same result, exceptions included. *)
Theorem process_vesting_withdrawals_terminates db fuel :
  wf db -> power_downs_ok db -> times_ok db ->
  head_block_time db + STEEM_VESTING_WITHDRAW_INTERVAL_SECONDS < 2 ^ 32 ->
  (Z.to_nat (msum (due_count (head_block_time db)) (Db.accounts db)) <= fuel)%nat ->
  process_vesting_withdrawals db =
    ('(db, _) ← while_next fuel due_withdrawal process_withdrawal
                  (db, fst <$> first_by (fun x y => lt_of (withdraw_order x y)) (Db.accounts db));
     Ok db).
Proof.
  intros Hwf Hok Ht Hb Hf. unfold process_vesting_withdrawals. f_equal.
  set (now := head_block_time db) in *.
  apply (while_next_enough _ _
    (fun st : database * option account_name_type =>
       wf st.1 /\ power_downs_ok st.1 /\ times_ok st.1 /\ head_block_time st.1 = now)
    (fun st => Z.to_nat (msum (due_count now) (Db.accounts st.1)))); [..|done|simpl; lia|simpl; lia].
  - intros [d c] n [d' c'] (W & P & T & E) (a & Ha & Hn)%due_withdrawal_Some Hs. simpl in *.
    bind Hs as d1 Hw. injection Hs as <- <-.
    apply (withdraw_from_spec d n a) in Hw as (M & P' & T' & G & a' & Ha' & Hn'); [|done..].
    split; [wf_of|]. split; [done|]. split; [|congruence].
    intros m x Hx. destruct (decide (m = n)) as [->|Hne].
    + rewrite Ha' in Hx. injection Hx as <-. specialize (T _ _ Ha). simpl in T.
      destruct Hn' as [-> | ->]; [by vm_compute|]. rewrite u32_id; unfold STEEM_VESTING_WITHDRAW_INTERVAL_SECONDS in *; lia.
    + apply G in Hx as (y & Hy & Hg); [|done]. specialize (T _ _ Hy). simpl in T. by destruct Hg as (_&_&_&_&_&->).
  - intros [d c] n (W & P & T & E) (a & Ha & Hn)%due_withdrawal_Some. simpl in *.
    rewrite <- (insert_delete_id _ _ _ Ha), msum_insert_new by apply lookup_delete_eq.
    assert (0 <= msum (due_count now) (delete n (Db.accounts d))) by (apply msum_nonneg; intros; apply due_count_nonneg).
    assert (0 < due_count now a); [|lia]. unfold due_count. rewrite (proj2 (Z.leb_le _ now)) by lia.
    pose proof (Z.div_pos (now - Account.next_vesting_withdrawal a) STEEM_VESTING_WITHDRAW_INTERVAL_SECONDS
      ltac:(lia) ltac:(done)). lia.
  - intros [d c] n [d' c'] (W & P & T & E) (a & Ha & Hn)%due_withdrawal_Some Hs. simpl in *.
    bind Hs as d1 Hw. injection Hs as <- <-.
    apply (withdraw_from_spec d n a) in Hw as (M & P' & T' & G & a' & Ha' & Hn'); [|done..].
    specialize (T _ _ Ha). simpl in T.
    assert (due_count now a' < due_count now a) as Hlt by (apply due_count_step; [lia|lia|done]).
    rewrite <- (insert_delete_id _ _ _ Ha), <- (insert_delete_id _ _ _ Ha'), !msum_insert_new by apply lookup_delete_eq.
    assert (msum (due_count now) (delete n (Db.accounts d1)) <= msum (due_count now) (delete n (Db.accounts d))) as Hle.
    { apply msum_rel_le; [apply due_count_nonneg|]. intros k x Hx.
      destruct (decide (k = n)) as [->|Hne]; [by rewrite lookup_delete_eq in Hx|].
      rewrite lookup_delete_ne in Hx |- * by done. apply G in Hx as (y & Hy & Hg); [|done].
      exists y. split; [done|]. unfold due_count. by destruct Hg as (_&_&_&_&_&->). }
    pose proof (due_count_nonneg now a').
    assert (0 <= msum (due_count now) (delete n (Db.accounts d1))) by (apply msum_nonneg; intros; apply due_count_nonneg).
    lia.
Qed.

(** ** The books of delegation *)

Definition given (n : account_name_type) (d : vesting_delegation_object) : Z :=
  if decide (VestingDelegation.delegator d = n) then amount (VestingDelegation.vesting_shares d) else 0.
Definition taken (n : account_name_type) (d : vesting_delegation_object) : Z :=
  if decide (VestingDelegation.delegatee d = n) then amount (VestingDelegation.vesting_shares d) else 0.
Definition returning (n : account_name_type) (e : vesting_delegation_expiration_object) : Z :=
  if decide (VestingDelegationExpiration.delegator e = n) then amount (VestingDelegationExpiration.vesting_shares e)
  else 0.

(** What an account has delegated is what its delegations and the shares on
    their way back to it add up to; what it received is what is delegated to it. *)
Definition delegations_balanced (db : database) : Prop :=
  (forall n a, Db.accounts db !! n = Some a ->
     amount (Account.delegated_vesting_shares a) =
       msum (given n) (Db.vesting_delegations db) + msum (returning n) (Db.vesting_delegation_expirations db) /\
     amount (Account.received_vesting_shares a) = msum (taken n) (Db.vesting_delegations db)) /\
  (forall k d, Db.vesting_delegations db !! k = Some d ->
     k = (VestingDelegation.delegator d, VestingDelegation.delegatee d)).

(** every account's delegated and received shares change by the given amounts *)
Definition delegation_shift (db db' : database) (fd fr : account_name_type -> Z) : Prop :=
  (forall m a', Db.accounts db' !! m = Some a' -> exists a, Db.accounts db !! m = Some a /\
     amount (Account.delegated_vesting_shares a') = amount (Account.delegated_vesting_shares a) + fd m /\
     amount (Account.received_vesting_shares a') = amount (Account.received_vesting_shares a) + fr m) /\
  Db.vesting_delegations db' = Db.vesting_delegations db /\
  Db.vesting_delegation_expirations db' = Db.vesting_delegation_expirations db.

Definition at_name (n : account_name_type) (x : Z) (m : account_name_type) : Z := if decide (n = m) then x else 0.

Lemma modify_account_shift db n f db' x y :
  modify_account db n f = Ok db' ->
  (forall a a', f a = Ok a' ->
     amount (Account.delegated_vesting_shares a') = amount (Account.delegated_vesting_shares a) + x /\
     amount (Account.received_vesting_shares a') = amount (Account.received_vesting_shares a) + y) ->
  delegation_shift db db' (at_name n x) (at_name n y).
Proof.
  intros (a & a' & Ha & Hf & ->)%modify_account_inv Hs. split; [|done]. simpl. intros m b Hb. unfold at_name.
  destruct (decide (n = m)) as [->|Hne].
  - rewrite lookup_insert_eq in Hb. injection Hb as <-. eauto.
  - rewrite lookup_insert_ne in Hb by done. exists b. split; [done|]. lia.
Qed.

Lemma add_delegated_shift db n x db' : modify_account db n (add_delegated x) = Ok db' ->
  delegation_shift db db' (at_name n (amount x)) (at_name n 0).
Proof. intros H. eapply modify_account_shift; [exact H|]. unfold add_delegated. intros. result_inv. asset_inv. simpl. lia. Qed.
Lemma add_received_shift db n x db' : modify_account db n (add_received x) = Ok db' ->
  delegation_shift db db' (at_name n 0) (at_name n (amount x)).
Proof. intros H. eapply modify_account_shift; [exact H|]. unfold add_received. intros. result_inv. asset_inv. simpl. lia. Qed.
Lemma sub_delegated_shift db n x db' : modify_account db n (sub_delegated x) = Ok db' ->
  delegation_shift db db' (at_name n (- amount x)) (at_name n 0).
Proof. intros H. eapply modify_account_shift; [exact H|]. unfold sub_delegated. intros. result_inv. asset_inv. simpl. lia. Qed.
Lemma sub_received_shift db n x db' : modify_account db n (sub_received x) = Ok db' ->
  delegation_shift db db' (at_name n 0) (at_name n (- amount x)).
Proof. intros H. eapply modify_account_shift; [exact H|]. unfold sub_received. intros. result_inv. asset_inv. simpl. lia. Qed.

(** the sums after a change of one delegation *)
Lemma given_at n d : given n d = at_name (VestingDelegation.delegator d) (amount (VestingDelegation.vesting_shares d)) n.
Proof. done. Qed.
Lemma taken_at n d : taken n d = at_name (VestingDelegation.delegatee d) (amount (VestingDelegation.vesting_shares d)) n.
Proof. done. Qed.
Lemma at_name_add n x y m : at_name n (x + y) m = at_name n x m + at_name n y m.
Proof. unfold at_name. destruct (decide _); lia. Qed.
Lemma at_name_sub n x y m : at_name n (x - y) m = at_name n x m - at_name n y m.
Proof. unfold at_name. destruct (decide _); lia. Qed.
Lemma at_name_opp n x m : at_name n (- x) m = - at_name n x m.
Proof. unfold at_name. destruct (decide _); lia. Qed.
Lemma at_name_0 n m : at_name n 0 m = 0.
Proof. unfold at_name. by destruct (decide _). Qed.

Lemma delegate_balanced db delegator delegatee x db' :
  delegations_balanced db -> 0 <= amount x ->
  delegate_vesting_shares_evaluator db delegator delegatee x = Ok db' -> delegations_balanced db'.
Proof.
  intros [Hb Hk] Hx H. unfold delegate_vesting_shares_evaluator in H.
  bind H as a0 Ha0. bind H as b0 Hb0. bind H as av Hav. bind H as m1 Hm1. bind H as m2 Hm2. clear Ha0 Hb0 Hav Hm1 Hm2.
  destruct (Db.vesting_delegations db !! (delegator, delegatee)) as [d|] eqn:Hd.
  - assert (VestingDelegation.delegator d = delegator /\ VestingDelegation.delegatee d = delegatee) as E.
    { by injection (Hk _ _ Hd) as -> ->. }
    bind H as c Hc. destruct c.
    + bind H as delta Hdelta. bind H as u1 U1. bind H as u2 U2. bind H as db1 H1. bind H as db2 H2.
      apply add_delegated_shift in H1 as (S1 & D1 & X1). apply add_received_shift in H2 as (S2 & D2 & X2).
      apply modify_obj_inv in H as (v & v' & Hv & [= <-] & ->). rewrite D2, D1, Hd in Hv. injection Hv as <-. asset_inv.
      split; simpl; rewrite ?D2, ?D1, ?X2, ?X1.
      * intros n a Ha. apply S2 in Ha as (a2 & Ha & P2 & Q2). apply S1 in Ha as (a1 & Ha & P1 & Q1).
        destruct (Hb _ _ Ha) as [B1 B2]. rewrite !(msum_insert _ _ _ _ _ Hd), !given_at, !taken_at. simpl.
        rewrite (proj1 E), (proj2 E), P2, P1, Q2, Q1, B1, B2. simpl. rewrite !at_name_sub, !at_name_0. lia.
      * intros k e. destruct (decide (k = (delegator, delegatee))) as [->|].
        -- rewrite lookup_insert_eq. intros [= <-]. simpl. by rewrite (proj1 E), (proj2 E).
        -- rewrite lookup_insert_ne by done. apply Hk.
    + bind H as delta Hdelta. bind H as u1 U1. bind H as db1 H1. bind H as db2 H2. clear U1.
      apply create_inv in H1 as (Hfree & ids & ->). apply sub_received_shift in H2 as (S2 & D2 & X2). simpl in D2, X2. asset_inv.
      assert (forall n a, Db.accounts db2 !! n = Some a ->
        amount (Account.delegated_vesting_shares a) = msum (given n) (Db.vesting_delegations db) - given n d + at_name delegator (amount x) n
          + msum (returning n) (Db.vesting_delegation_expirations db2) /\
        amount (Account.received_vesting_shares a) = msum (taken n) (Db.vesting_delegations db) - taken n d + at_name delegatee (amount x) n) as Hn.
      { intros n a Ha. apply S2 in Ha as (a2 & Ha & P2 & Q2). simpl in Ha. destruct (Hb _ _ Ha) as [B1 B2].
        rewrite X2, msum_insert_new by done. unfold returning at 1. simpl.
        change (if decide (delegator = n) then ?z else 0) with (at_name delegator z n).
        rewrite P2, Q2, B1, B2, given_at, taken_at, (proj1 E), (proj2 E).
        simpl. rewrite !at_name_opp, !at_name_sub, !at_name_0. lia. }
      destruct (Z.ltb_spec 0 (amount x)).
      * apply modify_obj_inv in H as (v & v' & Hv & [= <-] & ->). rewrite D2, Hd in Hv. injection Hv as <-.
        split; simpl; rewrite ?D2.
        -- intros n a Ha. destruct (Hn _ _ Ha) as [B1 B2].
           rewrite !(msum_insert _ _ _ _ _ Hd), (given_at n (d <| VestingDelegation.vesting_shares := x |>)),
             (taken_at n (d <| VestingDelegation.vesting_shares := x |>)). simpl. rewrite (proj1 E), (proj2 E). lia.
        -- intros k e. destruct (decide (k = (delegator, delegatee))) as [->|].
           ++ rewrite lookup_insert_eq. intros [= <-]. simpl. by rewrite (proj1 E), (proj2 E).
           ++ rewrite lookup_insert_ne by done. apply Hk.
      * injection H as <-. split; simpl; rewrite ?D2.
        -- intros n a Ha. destruct (Hn _ _ Ha) as [B1 B2]. rewrite !(msum_delete _ _ _ _ Hd).
           assert (amount x = 0) as Ex by lia. rewrite Ex, at_name_0 in B1, B2. lia.
        -- intros k e Hke. apply lookup_delete_Some in Hke as [_ Hke]. by apply Hk.
  - bind H as u1 U1. bind H as u2 U2. bind H as db1 H1. bind H as db2 H2.
    apply create_inv in H1 as (Hfree & ids & ->).
    apply add_delegated_shift in H2 as (S1 & D1 & X1). apply add_received_shift in H as (S2 & D2 & X2). simpl in D1, X1.
    split; rewrite ?D2, ?D1, ?X2, ?X1.
    + intros n a Ha. apply S2 in Ha as (a2 & Ha & P2 & Q2). apply S1 in Ha as (a1 & Ha & P1 & Q1). simpl in Ha.
      destruct (Hb _ _ Ha) as [B1 B2]. rewrite !msum_insert_new by done. rewrite (given_at n), (taken_at n). simpl.
      rewrite P2, P1, Q2, Q1, B1, B2. rewrite !at_name_0. lia.
    + intros k e. destruct (decide (k = (delegator, delegatee))) as [->|].
      * rewrite lookup_insert_eq. by intros [= <-].
      * rewrite lookup_insert_ne by done. apply Hk.
Qed.

Lemma return_delegation_balanced db k e db' :
  Db.vesting_delegation_expirations db !! k = Some e -> delegations_balanced db ->
  return_delegation db (k, e) = Ok db' -> delegations_balanced db'.
Proof.
  intros He [Hb Hk] H. unfold return_delegation in H. bind H as db1 H1. injection H as <-.
  apply sub_delegated_shift in H1 as (S1 & D1 & X1). split; simpl; rewrite D1; [|done].
  intros n a Ha. apply S1 in Ha as (a1 & Ha & P1 & Q1). destruct (Hb _ _ Ha) as [B1 B2].
  rewrite X1, (msum_delete _ _ _ _ He), P1, Q1, B1, B2, at_name_opp, at_name_0.
  change (returning n e) with (at_name (VestingDelegationExpiration.delegator e)
    (amount (VestingDelegationExpiration.vesting_shares e)) n). lia.
Qed.

Lemma expired_delegation_Some db k e :
  expired_delegation db = Some (k, e) -> Db.vesting_delegation_expirations db !! k = Some e.
Proof.
  unfold expired_delegation. destruct (first_by _ _) as [[k' s']|] eqn:E; [|done].
  destruct (_ <? _); [|done]. intros [= -> ->]. by eapply first_by_Some.
Qed.

Lemma clear_expired_delegations_balanced db db' :
  delegations_balanced db -> clear_expired_delegations db = Ok db' -> delegations_balanced db'.
Proof.
  intros Hb H. eapply (while_next_inv _ _ delegations_balanced); [|exact Hb|exact H].
  intros d [k e] d' Hd Hn%expired_delegation_Some. by apply return_delegation_balanced.
Qed.

(** C25: what accounts have delegated and received is what the delegations and
    the expiring delegations say, after every delegation and after every return of
    expired ones. *)
Theorem delegations_accounted db delegator delegatee x db1 db2 :
  delegations_balanced db -> 0 <= amount x ->
  delegate_vesting_shares_evaluator db delegator delegatee x = Ok db1 -> clear_expired_delegations db1 = Ok db2 ->
  delegations_balanced db1 /\ delegations_balanced db2.
Proof.
  intros Hb Hx H1 H2. assert (delegations_balanced db1) by (by eapply delegate_balanced).
  split; [done|by eapply clear_expired_delegations_balanced].
Qed.

(** ** The schedule of a power down *)

(** As long as whole intervals were withdrawn so far, a withdrawal never takes
    more than was requested, and it is a whole interval unless it is the last
    one or empties the account. *)
Theorem withdrawal_within_request a w :
  vesting_ok a -> 0 < amount (Account.vesting_withdraw_rate a) ->
  (amount (Account.vesting_withdraw_rate a) | Account.withdrawn a) ->
  0 <= Account.withdrawn a < Account.to_withdraw a -> withdrawal a = Ok w ->
  0 <= w <= amount (Account.vesting_shares a) /\ Account.withdrawn a + w <= Account.to_withdraw a /\
  (w = amount (Account.vesting_withdraw_rate a) \/ w = amount (Account.vesting_shares a) \/
   Account.withdrawn a + w = Account.to_withdraw a).
Proof.
  intros Hok Hr [k Hk] Hw H. pose proof (withdrawal_range a w Hok H) as Hrange. split; [done|].
  unfold withdrawal in H. bind H as l Hl. asset_inv.
  destruct (Z.ltb_spec (Account.to_withdraw a - Account.withdrawn a) (amount (Account.vesting_withdraw_rate a))).
  - bind H as m Hm. injection H as <-. unfold Safe.rem in Hm. result_case.
    rewrite Z.rem_mod_nonneg in * by lia.
    assert (Account.to_withdraw a mod amount (Account.vesting_withdraw_rate a) =
            Account.to_withdraw a - Account.withdrawn a) as ->.
    { symmetry. apply (Z.mod_unique _ _ k); [left; lia|]. rewrite Hk. ring. }
    lia.
  - injection H as <-. lia.
Qed.

Lemma withdrawal_within_request_witness :
  let a := Account.default <| Account.vesting_shares := mk_asset 500 VESTS_SYMBOL |>
             <| Account.vesting_withdraw_rate := mk_asset 7 VESTS_SYMBOL |>
             <| Account.to_withdraw := 100 |> <| Account.withdrawn := 98 |> in
  withdrawal a = Ok 2 /\ Account.withdrawn a + 2 <= Account.to_withdraw a.
Proof.
  intros a. split; [reflexivity|].
  apply (withdrawal_within_request a 2).
  - unfold vesting_ok, INT64_MAX. simpl. lia.
  - simpl. lia.
  - by exists 14.
  - simpl. lia.
  - reflexivity.
Defined.

#[export] Hint Resolve withdraw_vesting_conserves set_withdraw_vesting_route_conserves delegate_vesting_shares_conserves : conserves.
