(* ===== verification/PowerDown.v ===== *)
(** PowerDown: a power down runs to its end.

    An account that powers down is visited by process_vesting_withdrawals once an
    interval.  In between other operations run, which may add to its shares.  The
    theorem counts the visits until everything that was asked for has been paid out. *)
From Stdlib Require Import ZArith Lia String Ascii.
From stdpp Require Import base gmap strings list sorting.
From S2P Require Import Prelude.
From S2P Require Import Safe.
From S2P Require Import Asset.
From S2P Require Import Authority.
From S2P Require Import Objects.
From S2P Require Import Balance.
From S2P Require Import Supply.
From S2P Require Import Transfers.
From S2P Require Import Vesting.
Local Open Scope string_scope.
Local Open Scope Z_scope.
Local Open Scope fc_scope.

(** after [j] of the withdrawals of [requested] at [rate] an interval *)
Record powering (requested rate j : Z) (a : account_object) : Prop := mk_powering {
  pw_requested : Account.to_withdraw a = requested;
  pw_rate : amount (Account.vesting_withdraw_rate a) = rate;
  pw_done : Account.withdrawn a = j * rate;
  pw_open : 0 < rate /\ 0 <= j /\ j * rate < requested <= INT64_MAX;
  pw_shares : requested - j * rate <= amount (Account.vesting_shares a)
}.

(** the power down is over and all of it was paid out *)
Record powered_down (requested : Z) (a : account_object) : Prop := mk_powered_down {
  pd_done : Account.withdrawn a = requested;
  pd_rate : amount (Account.vesting_withdraw_rate a) = 0;
  pd_next : Account.next_vesting_withdrawal a = time_maximum
}.

Lemma powering_grows requested rate j a a' : powering requested rate j a -> grows a a' -> powering requested rate j a'.
Proof. intros [] (? & _ & Er & Et & Ew & _). split; rewrite ?Er, ?Et, ?Ew; try done. lia. Qed.

Lemma powered_down_grows requested a a' : powered_down requested a -> grows a a' -> powered_down requested a'.
Proof. intros [] (_ & _ & Er & _ & Ew & En). split; by rewrite ?Er, ?Ew, ?En. Qed.

(** a withdrawal takes one interval, the last one what is left *)
Lemma powering_withdrawal requested rate j a W :
  powering requested rate j a -> withdrawal a = Ok W -> W = Z.min rate (requested - j * rate).
Proof.
  intros [Et Er Ew Ho Hs] H. unfold withdrawal in H. rewrite Et, Er, Ew in H. clear Et Er Ew. bind H as l Hl. apply Safe.sub_Ok in Hl as ->.
  destruct (Z.ltb_spec (requested - j * rate) rate); [|injection H as <-; lia].
  bind H as m Hm. injection H as <-. unfold Safe.rem in Hm. result_case. rewrite Z.rem_mod_nonneg by nia.
  assert (requested mod rate = requested - j * rate) as ->; [|lia]. symmetry. apply (Z.mod_unique _ _ j); [left; lia|ring].
Qed.

Lemma powering_settled requested rate j a a' :
  powering requested rate j a -> settled a a' ->
  if (j + 1) * rate <? requested then powering requested rate (j + 1) a' else powered_down requested a'.
Proof.
  intros Hp (W & cs & b & b' & HW & Hg & Hs & Hg'). pose proof (powering_withdrawal _ _ _ _ _ Hp HW) as EW.
  pose proof (powering_grows _ _ _ _ _ Hp Hg) as [Et Er Ew Ho Hsh]. unfold settle_withdrawal in Hs.
  bind Hs as v Hv. bind Hs as bal Hb. bind Hs as w Hw. apply Safe.sub_Ok in Hv. apply Safe.add_Ok in Hw. simpl in Hs. rewrite Et, Ew in *.
  destruct (Z.ltb_spec ((j + 1) * rate) requested) as [L|L].
  - eapply powering_grows; [|exact Hg'].
    destruct (Z.leb_spec requested w) as [?|_]; [lia|]. destruct (Z.eqb_spec v 0) as [?|_]; [lia|]. injection Hs as <-.
    split; simpl; [done|done|lia|lia|lia].
  - eapply powered_down_grows; [|exact Hg']. destruct (Z.leb_spec requested w) as [_|?]; [|lia]. injection Hs as <-.
    split; simpl; [lia|done|done].
Qed.

(** [k] withdrawals of the account, and between them changes of the chain that leave
    its power down alone *)
Inductive visited (n : account_name_type) (db : database) : nat -> database -> Prop :=
| visited_none : visited n db 0 db
| visited_other k db1 a1 db2 a2 :
    visited n db k db1 -> Db.accounts db1 !! n = Some a1 -> Db.accounts db2 !! n = Some a2 -> grows a1 a2 ->
    wf db2 -> power_downs_ok db2 -> visited n db k db2
| visited_withdraw k db1 db2 : visited n db k db1 -> withdraw_from db1 n = Ok db2 -> visited n db (S k) db2.

Lemma visited_powering n db k db' requested rate a :
  wf db -> power_downs_ok db -> Db.accounts db !! n = Some a -> powering requested rate 0 a ->
  visited n db k db' -> (Z.of_nat k - 1) * rate < requested ->
  wf db' /\ power_downs_ok db' /\ exists a', Db.accounts db' !! n = Some a' /\
    if Z.of_nat k * rate <? requested then powering requested rate (Z.of_nat k) a' else powered_down requested a'.
Proof.
  intros Hwf Hok Ha Hp Hv. pose proof (pw_open _ _ _ _ Hp) as Ho.
  induction Hv as [|k db1 a1 db2 a2 Hv IH H1 H2 Hg Hwf2 Hok2|k db1 db2 Hv IH Hw]; intros Hk.
  - split; [done|]. split; [done|]. exists a. split; [done|]. destruct (Z.ltb_spec (Z.of_nat 0 * rate) requested); [done|lia].
  - destruct (IH Hk) as (_ & _ & a' & Ha' & Hs). rewrite H1 in Ha'. injection Ha' as <-. split; [done|]. split; [done|].
    exists a2. split; [done|]. destruct (_ <? _); [by eapply powering_grows|by eapply powered_down_grows].
  - rewrite Nat2Z.inj_succ in Hk |- *. destruct IH as (Hwf1 & Hok1 & a1 & Ha1 & Hs); [lia|].
    destruct (Z.ltb_spec (Z.of_nat k * rate) requested) as [_|?]; [|lia].
    destruct (withdraw_from_settles db1 n a1 db2 Hwf1 Hok1 Ha1 Hw) as (M & P & _ & _ & a2 & Ha2 & Hst).
    split; [wf_of|]. split; [done|]. exists a2. split; [done|]. rewrite <- Z.add_1_r. by apply (powering_settled _ _ _ a1).
Qed.

Lemma request_powering db n x db' :
  power_downs_ok db -> (forall a, Db.accounts db !! n = Some a -> 0 <= amount (Account.delegated_vesting_shares a)) ->
  0 < amount x -> withdraw_vesting_evaluator db n x = Ok db' ->
  power_downs_ok db' /\ exists a, Db.accounts db' !! n = Some a /\
    powering (amount x) (Z.max 1 (amount x / STEEM_VESTING_WITHDRAW_INTERVALS)) 0 a.
Proof.
  intros [Hok Hr] Hdel Hx H. unfold withdraw_vesting_evaluator, assert_geb in H. bind H as a Ha. apply get_account_Ok in Ha.
  destruct (Z.ltb_spec (amount x) 0); [lia|]. bind H as u1 H1. bind H as d H2. bind H as u2 H3. bind H3 as c H4.
  destruct (Z.eqb_spec (amount x) 0); [lia|].
  apply modify_account_inv in H as (b & b' & Hb & Hf & ->). rewrite Ha in Hb. injection Hb as <-. bind Hf as r Hdiv. bind Hf as c' H5. bind Hf as u3 H6.
  injection Hf as <-. apply fc_assert_Ok in H3. subst c. asset_inv.
  specialize (Hdel _ Ha). destruct (Hok _ _ Ha) as ((? & ?) & ? & ?).
  set (rate := if _ =? 0 then 1 else _).
  assert (rate = Z.max 1 (amount x / STEEM_VESTING_WITHDRAW_INTERVALS)) as Er.
  { unfold rate, STEEM_VESTING_WITHDRAW_INTERVALS. rewrite Z.quot_div_nonneg by lia. pose proof (Z.div_pos (amount x) 13 ltac:(lia) ltac:(lia)).
    destruct (Z.eqb_spec (amount x / 13) 0); lia. }
  split.
  - split; [|done]. simpl. apply map_Forall_insert_2; [|done]. unfold vesting_ok. simpl. lia.
  - symmetry in H4. apply Z.leb_le in H4. simpl in H4. eexists. split; [apply lookup_insert_eq|]. rewrite <- Er. split; simpl; lia || done.
Qed.

(** C31: A power down completes.  After a request for [x] vesting shares the account is paid
    in intervals of a thirteenth; as long as its withdrawals are processed, whatever else
    happens to its shares in between, the visit that reaches [x] comes after
    ceil(x / rate) of them, ends the power down and has paid out exactly [x]. *)
Theorem power_down_completes db n x db1 k db2 :
  let rate := Z.max 1 (amount x / STEEM_VESTING_WITHDRAW_INTERVALS) in
  wf db -> power_downs_ok db -> (forall a, Db.accounts db !! n = Some a -> 0 <= amount (Account.delegated_vesting_shares a)) ->
  0 < amount x -> withdraw_vesting_evaluator db n x = Ok db1 -> visited n db1 k db2 ->
  Z.of_nat k = (amount x + rate - 1) / rate ->
  exists a, Db.accounts db2 !! n = Some a /\ Account.withdrawn a = amount x /\
    amount (Account.vesting_withdraw_rate a) = 0 /\ Account.next_vesting_withdrawal a = time_maximum.
Proof.
  intros rate Hwf Hok Hdel Hx H Hv Hk. pose proof (withdraw_vesting_conserves _ _ _ _ Hwf H) as M.
  destruct (request_powering db n x db1 Hok Hdel Hx H) as (Hok1 & a1 & Ha1 & Hp). fold rate in Hp.
  assert (0 < rate) as Hr by lia. pose proof (Z.div_mod (amount x + rate - 1) rate ltac:(lia)) as E.
  pose proof (Z.mod_pos_bound (amount x + rate - 1) rate Hr). rewrite <- Hk in E.
  destruct (visited_powering n db1 k db2 (amount x) rate a1) as (_ & _ & a2 & Ha2 & Hs); [wf_of|done|done|done|done|nia|].
  destruct (Z.ltb_spec (Z.of_nat k * rate) (amount x)); [nia|]. exists a2. by destruct Hs.
Qed.

