(* ===== verification/Accounts.v ===== *)
(** Accounts: creation, update, recovery and the voting rights of accounts.

    The account evaluators of steem_evaluator.cpp (account_create,
    account_create_with_delegation, account_update, claim_account,
    create_claimed_account, the recovery operations, account_witness_proxy,
    account_witness_vote, decline_voting_rights, witness_update, feed_publish)
    and the block processing account_recovery_processing and
    process_decline_voting_rights of database.cpp.

    [producing] is database::is_producing(), a flag of the node and not of the
    chain. *)
From Stdlib Require Import ZArith Lia String Ascii.
From stdpp Require Import base gmap strings list sorting.
From S2P Require Import Prelude.
From S2P Require Import Safe.
From S2P Require Import Asset.
From S2P Require Import Authority.
From S2P Require Import Objects.
From S2P Require Import Balance.
From S2P Require Import Supply.
From S2P Require Import Transfers.
From S2P Require Import Vesting.
Local Open Scope string_scope.
Local Open Scope Z_scope.
Local Open Scope fc_scope.

Definition STEEM_MAX_AUTHORITY_MEMBERSHIP : Z := 40.
Definition STEEM_SOFT_MAX_BLOCK_SIZE : Z := 2 * 1024 * 1024.

(** ** Authorities of an account *)

Definition validate_auth_size (a : authority) : result unit :=
  fc_assert (Auth.num_auths a <=? STEEM_MAX_AUTHORITY_MEMBERSHIP).

Definition verify_authority_accounts_exist (db : database) (auth : authority) : result unit :=
  foldM (fun _ aw => fc_assert (bool_decide (is_Some (find_account db (fst aw))))) tt (account_auths auth).

(** get_account for every account of an authority *)
Definition get_authority_accounts (db : database) (auth : authority) : result unit :=
  foldM (fun _ aw => _ ← get_account db (fst aw); Ok tt) tt (account_auths auth).

Definition get_account_authority (db : database) (n : account_name_type) : result account_authority_object :=
  get_or out_of_range (Db.account_authorities db !! n).

Definition update_owner_authority (db : database) (n : account_name_type) (owner_authority : authority)
    : result database :=
  db ← (if STEEM_OWNER_AUTH_HISTORY_TRACKING_START_BLOCK_NUM <=? head_block_num db then
          auth ← get_account_authority db n;
          create owner_authority_history_index Db.owner_authority_histories
            (Db.next_id db owner_authority_history_index)
            (fun id => OwnerAuthorityHistory.mk id n (AccountAuthority.owner auth) (head_block_time db)) db
        else Ok db);
  modify_obj Db.account_authorities n (fun auth =>
    Ok (auth <| AccountAuthority.owner := owner_authority |>
             <| AccountAuthority.last_owner_update := head_block_time db |>)) db.

(** ** Creation *)

Definition initialize_account_object (acc : account_object) (name : account_name_type) (key : public_key_type)
    (props : dynamic_global_property_object) (mined : bool) (recovery_account : account_name_type)
    : account_object :=
  let acc := acc <| Account.name := name |> <| Account.memo_key := key |>
                 <| Account.created := Gpo.time props |> <| Account.last_vote_time := Gpo.time props |>
                 <| Account.mined := mined |> in
  if decide (recovery_account = STEEM_TEMP_ACCOUNT) then acc
  else acc <| Account.recovery_account := recovery_account |>.

(** the account and its authority object, shared by the creating evaluators *)
Definition create_account_objects (db : database) (creator new_account_name : account_name_type)
    (owner active posting : authority) (memo_key : public_key_type) (json_metadata : string)
    (received : asset) : result database :=
  db ← create account_index Db.accounts new_account_name (fun id =>
         (initialize_account_object (Account.default <| Account.id := id |>) new_account_name memo_key
            (Db.gpo db) false creator)
         <| Account.json_metadata := json_metadata |> <| Account.received_vesting_shares := received |>) db;
  create account_authority_index Db.account_authorities new_account_name (fun id =>
    AccountAuthority.mk id new_account_name owner active posting 0) db.

Definition account_create_evaluator (producing : bool) (db : database) (fee : asset)
    (creator new_account_name : account_name_type) (owner active posting : authority)
    (memo_key : public_key_type) (json_metadata : string) : result database :=
  c ← get_account db creator;
  _ ← assert_geb (Account.balance c) fee;
  _ ← assert_geb fee (ChainProperties.account_creation_fee (WitnessSchedule.median_props (Db.wso db)));
  _ ← (if producing : bool then
         _ ← validate_auth_size owner; _ ← validate_auth_size active; validate_auth_size posting
       else Ok tt);
  _ ← verify_authority_accounts_exist db owner;
  _ ← verify_authority_accounts_exist db active;
  _ ← verify_authority_accounts_exist db posting;
  db ← modify_account db creator (fun c =>
         b ← Asset.sub (Account.balance c) fee; Ok (c <| Account.balance := b |>));
  db ← create_account_objects db creator new_account_name owner active posting memo_key json_metadata
         (mk_asset 0 VESTS_SYMBOL);
  if 0 <? amount fee then '(db, _) ← create_vesting db new_account_name fee false; Ok db else Ok db.

Definition account_create_with_delegation_evaluator (producing : bool) (db : database) (fee delegation : asset)
    (creator new_account_name : account_name_type) (owner active posting : authority)
    (memo_key : public_key_type) (json_metadata : string) : result database :=
  c ← get_account db creator;
  let creation_fee := ChainProperties.account_creation_fee (WitnessSchedule.median_props (Db.wso db)) in
  _ ← assert_geb (Account.balance c) fee;
  available ← available_shares c;
  _ ← assert_geb available delegation;
  m ← Safe.mul (amount creation_fee) STEEM_CREATE_ACCOUNT_WITH_STEEM_MODIFIER;
  m ← Safe.mul m STEEM_CREATE_ACCOUNT_DELEGATION_RATIO;
  p ← get_vesting_share_price (Db.gpo db);
  target_delegation ← Price.mul (mk_asset m STEEM_SYMBOL) p;
  f ← Safe.mul (amount fee) STEEM_CREATE_ACCOUNT_DELEGATION_RATIO;
  x ← Price.mul (mk_asset f STEEM_SYMBOL) p;
  current_delegation ← Asset.add x delegation;
  _ ← assert_geb current_delegation target_delegation;
  _ ← assert_geb fee creation_fee;
  _ ← (if producing : bool then
         _ ← validate_auth_size owner; _ ← validate_auth_size active; validate_auth_size posting
       else Ok tt);
  _ ← get_authority_accounts db owner;
  _ ← get_authority_accounts db active;
  _ ← get_authority_accounts db posting;
  db ← modify_account db creator (fun c =>
         b ← Asset.sub (Account.balance c) fee;
         d ← Asset.add (Account.delegated_vesting_shares c) delegation;
         Ok (c <| Account.balance := b |> <| Account.delegated_vesting_shares := d |>));
  db ← create_account_objects db creator new_account_name owner active posting memo_key json_metadata delegation;
  db ← (if 0 <? amount delegation then
          create vesting_delegation_index Db.vesting_delegations (creator, new_account_name) (fun id =>
            VestingDelegation.mk id creator new_account_name delegation
              (u32 (head_block_time db + STEEM_CREATE_ACCOUNT_DELEGATION_TIME))) db
        else Ok db);
  if 0 <? amount fee then '(db, _) ← create_vesting db new_account_name fee false; Ok db else Ok db.

Definition claim_account_evaluator (db : database) (creator : account_name_type) (fee : asset) : result database :=
  c ← get_account db creator;
  _ ← assert_geb (Account.balance c) fee;
  _ ← assert_geb fee (ChainProperties.account_creation_fee (WitnessSchedule.median_props (Db.wso db)));
  _ ← fc_assert (Account.pending_claimed_accounts c <? INT64_MAX);
  _ ← get_account db STEEM_NULL_ACCOUNT;
  db ← adjust_balance db STEEM_NULL_ACCOUNT fee;
  modify_account db creator (fun a =>
    b ← Asset.sub (Account.balance a) fee;
    n ← Safe.add (Account.pending_claimed_accounts a) 1;
    Ok (a <| Account.balance := b |> <| Account.pending_claimed_accounts := n |>)).

Definition create_claimed_account_evaluator (db : database) (creator new_account_name : account_name_type)
    (owner active posting : authority) (memo_key : public_key_type) (json_metadata : string) : result database :=
  c ← get_account db creator;
  _ ← fc_assert (0 <? Account.pending_claimed_accounts c);
  _ ← verify_authority_accounts_exist db owner;
  _ ← verify_authority_accounts_exist db active;
  _ ← verify_authority_accounts_exist db posting;
  db ← modify_account db creator (fun a =>
         n ← Safe.sub (Account.pending_claimed_accounts a) 1; Ok (a <| Account.pending_claimed_accounts := n |>));
  create_account_objects db creator new_account_name owner active posting memo_key json_metadata
    (mk_asset 0 VESTS_SYMBOL).

(** ** Update *)

Definition when_some {A} (o : option A) (f : A -> result unit) : result unit :=
  match o with Some x => f x | None => Ok tt end.

Definition account_update_evaluator (db : database) (account : account_name_type)
    (owner active posting : option authority) (memo_key : public_key_type) (json_metadata : string)
    : result database :=
  _ ← fc_assert (negb (bool_decide (account = STEEM_TEMP_ACCOUNT)));
  _ ← when_some posting Auth.validate;
  _ ← get_account db account;
  auth ← get_account_authority db account;
  _ ← when_some owner validate_auth_size;
  _ ← when_some active validate_auth_size;
  _ ← when_some posting validate_auth_size;
  db ← match owner with
       | Some o =>
           _ ← fc_assert (STEEM_OWNER_UPDATE_LIMIT <? head_block_time db - AccountAuthority.last_owner_update auth);
           _ ← verify_authority_accounts_exist db o;
           update_owner_authority db account o
       | None => Ok db
       end;
  _ ← when_some active (verify_authority_accounts_exist db);
  _ ← when_some posting (verify_authority_accounts_exist db);
  db ← modify_account db account (fun acc =>
         let acc := if memo_key =? 0 then acc else acc <| Account.memo_key := memo_key |> in
         let acc := acc <| Account.last_account_update := head_block_time db |> in
         Ok (if decide (json_metadata = "") then acc else acc <| Account.json_metadata := json_metadata |>));
  match active, posting with
  | None, None => Ok db
  | _, _ =>
      modify_obj Db.account_authorities account (fun auth =>
        let auth := match active with Some a => auth <| AccountAuthority.active := a |> | None => auth end in
        Ok (match posting with Some p => auth <| AccountAuthority.posting := p |> | None => auth end)) db
  end.

(** ** Recovery *)

(** by_vote_name: the witness with the most votes first, then by name *)
Definition top_witness (db : database) : option (account_name_type * witness_object) :=
  first_by (fun x y => lt_of (lex (Witness.votes y ?= Witness.votes x)
              (name_compare (Witness.owner x) (Witness.owner y)))) (Db.witnesses db).

Definition request_account_recovery_evaluator (db : database) (recovery_account account_to_recover : account_name_type)
    (new_owner_authority : authority) : result database :=
  a ← get_account db account_to_recover;
  _ ← (if decide (Account.recovery_account a = "") then
         match top_witness db with
         | Some (_, w) => fc_assert (bool_decide (Witness.owner w = recovery_account))
         | None => Throw out_of_range
         end
       else fc_assert (bool_decide (Account.recovery_account a = recovery_account)));
  let expires := u32 (head_block_time db + STEEM_ACCOUNT_RECOVERY_REQUEST_EXPIRATION_PERIOD) in
  match Db.account_recovery_requests db !! account_to_recover with
  | None =>
      _ ← fc_assert (negb (Auth.is_impossible new_owner_authority));
      _ ← fc_assert (negb (weight_threshold new_owner_authority =? 0));
      _ ← validate_auth_size new_owner_authority;
      _ ← get_authority_accounts db new_owner_authority;
      create account_recovery_request_index Db.account_recovery_requests account_to_recover (fun id =>
        AccountRecoveryRequest.mk id account_to_recover new_owner_authority expires) db
  | Some _ =>
      if weight_threshold new_owner_authority =? 0 then
        Ok (remove Db.account_recovery_requests account_to_recover db)
      else
        _ ← fc_assert (negb (Auth.is_impossible new_owner_authority));
        _ ← get_authority_accounts db new_owner_authority;
        modify_obj Db.account_recovery_requests account_to_recover (fun req =>
          Ok (req <| AccountRecoveryRequest.new_owner_authority := new_owner_authority |>
                  <| AccountRecoveryRequest.expires := expires |>)) db
  end.

Definition in_owner_history (db : database) (n : account_name_type) (auth : authority) : bool :=
  existsb (fun h => bool_decide (OwnerAuthorityHistory.account h = n) &&
                    bool_decide (OwnerAuthorityHistory.previous_owner_authority h = auth))
    (values (Db.owner_authority_histories db)).

Definition recover_account_evaluator (db : database) (account_to_recover : account_name_type)
    (new_owner_authority recent_owner_authority : authority) : result database :=
  a ← get_account db account_to_recover;
  _ ← fc_assert (STEEM_OWNER_UPDATE_LIMIT <? head_block_time db - Account.last_account_recovery a);
  match Db.account_recovery_requests db !! account_to_recover with
  | None => Throw assert_exception
  | Some request =>
      _ ← fc_assert (bool_decide (AccountRecoveryRequest.new_owner_authority request = new_owner_authority));
      _ ← fc_assert (in_owner_history db account_to_recover recent_owner_authority);
      let db := remove Db.account_recovery_requests account_to_recover db in
      db ← update_owner_authority db account_to_recover new_owner_authority;
      modify_account db account_to_recover (fun a =>
        Ok (a <| Account.last_account_recovery := head_block_time db |>))
  end.

Definition change_recovery_account_evaluator (db : database)
    (account_to_recover new_recovery_account : account_name_type) : result database :=
  _ ← get_account db new_recovery_account;
  a ← get_account db account_to_recover;
  let effective_on := u32 (head_block_time db + STEEM_OWNER_AUTH_RECOVERY_PERIOD) in
  match Db.change_recovery_account_requests db !! account_to_recover with
  | None =>
      create change_recovery_account_request_index Db.change_recovery_account_requests account_to_recover (fun id =>
        ChangeRecoveryAccountRequest.mk id account_to_recover new_recovery_account effective_on) db
  | Some _ =>
      if decide (Account.recovery_account a = new_recovery_account) then
        Ok (remove Db.change_recovery_account_requests account_to_recover db)
      else
        modify_obj Db.change_recovery_account_requests account_to_recover (fun req =>
          Ok (req <| ChangeRecoveryAccountRequest.recovery_account := new_recovery_account |>
                  <| ChangeRecoveryAccountRequest.effective_on := effective_on |>)) db
  end.

Definition expired_recovery (db : database) : option (account_name_type * account_recovery_request_object) :=
  match first_by (fun x y => lt_of (lex (AccountRecoveryRequest.expires x ?= AccountRecoveryRequest.expires y)
                    (name_compare (AccountRecoveryRequest.account_to_recover x)
                       (AccountRecoveryRequest.account_to_recover y)))) (Db.account_recovery_requests db) with
  | Some (k, r) => if AccountRecoveryRequest.expires r <=? head_block_time db then Some (k, r) else None
  | None => None
  end.

(** by id: the loop stops at the first authority that is still recent *)
Definition stale_history (db : database) : option (Z * owner_authority_history_object) :=
  match first_by (fun x y => OwnerAuthorityHistory.id x <? OwnerAuthorityHistory.id y)
          (Db.owner_authority_histories db) with
  | Some (k, h) =>
      if u32 (OwnerAuthorityHistory.last_valid_time h + STEEM_OWNER_AUTH_RECOVERY_PERIOD) <? head_block_time db
      then Some (k, h) else None
  | None => None
  end.

Definition effective_change (db : database) : option (account_name_type * change_recovery_account_request_object) :=
  match first_by (fun x y => lt_of (lex (ChangeRecoveryAccountRequest.effective_on x ?=
                                         ChangeRecoveryAccountRequest.effective_on y)
                    (name_compare (ChangeRecoveryAccountRequest.account_to_recover x)
                       (ChangeRecoveryAccountRequest.account_to_recover y))))
          (Db.change_recovery_account_requests db) with
  | Some (k, r) => if ChangeRecoveryAccountRequest.effective_on r <=? head_block_time db then Some (k, r) else None
  | None => None
  end.

Definition apply_recovery_change (db : database) (x : account_name_type * change_recovery_account_request_object)
    : result database :=
  let '(k, r) := x in
  db ← modify_account db (ChangeRecoveryAccountRequest.account_to_recover r) (fun a =>
         Ok (a <| Account.recovery_account := ChangeRecoveryAccountRequest.recovery_account r |>));
  Ok (remove Db.change_recovery_account_requests k db).

Definition account_recovery_processing (db : database) : result database :=
  db ← while_next (size (Db.account_recovery_requests db)) expired_recovery
         (fun db x => Ok (remove Db.account_recovery_requests (fst x) db)) db;
  db ← while_next (size (Db.owner_authority_histories db)) stale_history
         (fun db x => Ok (remove Db.owner_authority_histories (fst x) db)) db;
  while_next (size (Db.change_recovery_account_requests db)) effective_change apply_recovery_change db.

(** ** Witnesses and voting rights *)

(** legacy_chain_properties; [legacy_ser] is the serialization of the symbol of
    the account creation fee *)
Record legacy_chain_properties : Type := mk_legacy {
  legacy_fee : Z;
  legacy_ser : Z;
  legacy_maximum_block_size : Z;
  legacy_sbd_interest_rate : Z
}.

(** copy_legacy_chain_properties< false > *)
Definition copy_legacy_chain_properties (src : legacy_chain_properties) (dest : chain_properties) : chain_properties :=
  dest <| ChainProperties.account_creation_fee := mk_asset (legacy_fee src) STEEM_SYMBOL |>
       <| ChainProperties.maximum_block_size := legacy_maximum_block_size src |>
       <| ChainProperties.sbd_interest_rate := legacy_sbd_interest_rate src |>.

Definition witness_update_evaluator (producing : bool) (db : database) (owner : account_name_type) (url : string)
    (block_signing_key : public_key_type) (props : legacy_chain_properties) : result database :=
  _ ← get_account db owner;
  _ ← fc_assert (legacy_ser props =? SymbolSer.STEEM_SYMBOL_SER);
  _ ← fc_assert (negb producing || (legacy_maximum_block_size props <=? STEEM_SOFT_MAX_BLOCK_SIZE));
  match Db.witnesses db !! owner with
  | Some _ =>
      modify_witness db owner (fun w =>
        Ok (w <| Witness.url := url |> <| Witness.signing_key := block_signing_key |>
              <| Witness.props ::= copy_legacy_chain_properties props |>))
  | None =>
      create witness_index Db.witnesses owner (fun id =>
        Witness.default <| Witness.id := id |> <| Witness.owner := owner |> <| Witness.url := url |>
          <| Witness.signing_key := block_signing_key |> <| Witness.created := head_block_time db |>
          <| Witness.props ::= copy_legacy_chain_properties props |>) db
  end.

Definition feed_publish_evaluator (db : database) (publisher : account_name_type) (exchange_rate : price)
    : result database :=
  _ ← fc_assert ((symbol (base exchange_rate) =? SBD_SYMBOL) && (symbol (quote exchange_rate) =? STEEM_SYMBOL));
  modify_witness db publisher (fun w =>
    Ok (w <| Witness.sbd_exchange_rate := exchange_rate |>
          <| Witness.last_sbd_exchange_update := head_block_time db |>)).

(** the votes an account hands to its proxy: its own shares, then what it holds
    for others by distance *)
Definition vote_array (a : account_object) : list Z :=
  amount (Account.vesting_shares a) :: Account.proxied_vsf_votes a.

Definition neg_all (l : list Z) : result (list Z) :=
  foldr (fun x r => l ← r; y ← Safe.neg x; Ok (y :: l)) (Ok []) l.

(** The loop check walks the chain of proxies from the new one; the set of ids
    it has seen may hold at most STEEM_MAX_PROXY_RECURSION_DEPTH entries, which
    bounds the walk ([fuel]). *)
Fixpoint proxy_chain_ok (fuel : nat) (db : database) (seen : list Z) (cprox : account_object) : result unit :=
  if decide (Account.proxy cprox = "") then Ok tt
  else
    match fuel with
    | O => Throw assert_exception
    | S fuel =>
        next_proxy ← get_account db (Account.proxy cprox);
        _ ← fc_assert (negb (bool_decide (Account.id next_proxy ∈ seen)));
        let seen := Account.id next_proxy :: seen in
        _ ← fc_assert (Z.of_nat (List.length seen) <=? STEEM_MAX_PROXY_RECURSION_DEPTH);
        proxy_chain_ok fuel db seen next_proxy
    end.

Definition account_witness_proxy_evaluator (db : database) (account proxy : account_name_type) : result database :=
  a ← get_account db account;
  _ ← fc_assert (negb (bool_decide (Account.proxy a = proxy)));
  _ ← fc_assert (Account.can_vote a);
  delta ← neg_all (vote_array a);
  db ← adjust_proxied_witness_votes_array db account delta;
  if decide (proxy = "") then modify_account db account (fun a => Ok (a <| Account.proxy := proxy |>))
  else
    new_proxy ← get_account db proxy;
    let chain := if Account.id a =? Account.id new_proxy then [Account.id a] else [Account.id a; Account.id new_proxy] in
    _ ← proxy_chain_ok (Z.to_nat STEEM_MAX_PROXY_RECURSION_DEPTH) db chain new_proxy;
    db ← clear_witness_votes db account;
    db ← modify_account db account (fun a => Ok (a <| Account.proxy := proxy |>));
    delta ← neg_all delta;
    adjust_proxied_witness_votes_array db account delta.

Definition account_witness_vote_evaluator (db : database) (account witness : account_name_type) (approve : bool)
    : result database :=
  voter ← get_account db account;
  _ ← fc_assert (bool_decide (Account.proxy voter = ""));
  _ ← fc_assert (negb approve || Account.can_vote voter);
  _ ← get_witness db witness;
  if decide ((account, witness) ∈ Db.witness_votes db) then
    _ ← fc_assert (negb approve);
    weight ← witness_vote_weight voter;
    d ← Safe.neg weight;
    db ← adjust_witness_vote db witness d;
    db ← modify_account db account (fun a => Ok (a <| Account.witnesses_voted_for ::= fun n => u16 (n - 1) |>));
    Ok (db <| Db.witness_votes ::= fun s => s ∖ {[(account, witness)]} |>)
  else
    _ ← fc_assert approve;
    _ ← fc_assert (Account.witnesses_voted_for voter <? STEEM_MAX_ACCOUNT_WITNESS_VOTES);
    let db := db <| Db.witness_votes ::= fun s => {[(account, witness)]} ∪ s |> in
    weight ← witness_vote_weight voter;
    db ← adjust_witness_vote db witness weight;
    modify_account db account (fun a => Ok (a <| Account.witnesses_voted_for ::= fun n => u16 (n + 1) |>)).

Definition decline_voting_rights_evaluator (db : database) (account : account_name_type) (decline : bool)
    : result database :=
  _ ← get_account db account;
  let request := Db.decline_voting_rights_requests db !! account in
  if decline then
    _ ← fc_assert (bool_decide (request = None));
    create decline_voting_rights_request_index Db.decline_voting_rights_requests account (fun id =>
      DeclineVotingRightsRequest.mk id account (u32 (head_block_time db + STEEM_OWNER_AUTH_RECOVERY_PERIOD))) db
  else
    _ ← fc_assert (negb (bool_decide (request = None)));
    Ok (remove Db.decline_voting_rights_requests account db).

Definition effective_decline (db : database) : option (account_name_type * decline_voting_rights_request_object) :=
  match first_by (fun x y => lt_of (lex (DeclineVotingRightsRequest.effective_date x ?=
                                         DeclineVotingRightsRequest.effective_date y)
                    (name_compare (DeclineVotingRightsRequest.account x) (DeclineVotingRightsRequest.account y))))
          (Db.decline_voting_rights_requests db) with
  | Some (k, r) => if DeclineVotingRightsRequest.effective_date r <=? head_block_time db then Some (k, r) else None
  | None => None
  end.

Definition decline_one (db : database) (x : account_name_type * decline_voting_rights_request_object)
    : result database :=
  let '(k, r) := x in
  let n := DeclineVotingRightsRequest.account r in
  a ← get_account db n;
  delta ← neg_all (vote_array a);
  db ← adjust_proxied_witness_votes_array db n delta;
  db ← clear_witness_votes db n;
  db ← modify_account db n (fun a =>
         Ok (a <| Account.can_vote := false |> <| Account.proxy := STEEM_PROXY_TO_SELF_ACCOUNT |>));
  Ok (remove Db.decline_voting_rights_requests k db).

Definition process_decline_voting_rights (db : database) : result database :=
  while_next (size (Db.decline_voting_rights_requests db)) effective_decline decline_one db.

(** ** Conservation *)

Lemma recovery_conserve db m : wf db -> conserves db (db <| Db.account_recovery_requests := m |>).
Proof. intros. by apply same_ledger_conserves. Qed.

Lemma new_account_conserves db creator name owner active posting key json received db' :
  wf db -> symbol received = VESTS_SYMBOL ->
  create_account_objects db creator name owner active posting key json received = Ok db' ->
  conserves db db' /\ Db.vesting_delegations db' = Db.vesting_delegations db.
Proof.
  intros Hwf Hs H. unfold create_account_objects in H. bind H as db1 H1.
  pose proof H1 as (_ & ids1 & E1)%create_inv. apply create_account_moves in H1 as M1; [|done|].
  - apply create_inv in H as (_ & ids & ->). split; [|by rewrite E1].
    eapply conserves_trans; [exact M1|]. apply same_ledger_conserves; [wf_of|done].
  - intros i. unfold initialize_account_object. destruct (decide _); (split; [repeat split; done|]); repeat split.
Qed.

Lemma pay_fee_moves db n fee db' :
  wf db -> modify_account db n (fun c => b ← Asset.sub (Account.balance c) fee; Ok (c <| Account.balance := b |>)) = Ok db' ->
  moves db db' (amount fee) 0 0 0 0 /\ symbol fee = STEEM_SYMBOL.
Proof.
  intros Hwf (a & a' & Ha & Hf & ->)%modify_account_inv. result_inv. asset_inv.
  pose proof (wf_account _ _ _ Hwf Ha) as W. split; [|destruct W; congruence].
  eapply moves_eq; [apply account_moves; [done..|solve_account_wf]|acc_unfold; solve_val..].
Qed.

(** the fee becomes the first shares of the new account *)
Lemma fee_to_vesting_moves db n fee db' :
  wf db -> (if 0 <? amount fee then '(db, _) ← create_vesting db n fee false; Ok db else Ok db) = Ok db' ->
  0 <= amount fee -> moves db db' (- amount fee) 0 0 0 0.
Proof.
  intros Hwf H Hfee. destruct (Z.ltb_spec 0 (amount fee)).
  - bind H as [db1 v] H1. injection H as <-. by apply create_vesting_moves in H1 as (M & _).
  - injection H as <-. eapply moves_eq; [by apply moves_refl|lia..].
Qed.

Lemma account_create_conserves producing db fee creator name owner active posting key json db' :
  wf db -> 0 <= amount fee ->
  account_create_evaluator producing db fee creator name owner active posting key json = Ok db' -> conserves db db'.
Proof.
  intros Hwf Hfee H. unfold account_create_evaluator in H.
  bind H as c Hc. bind H as u1 U1. bind H as u2 U2. bind H as u3 U3. bind H as u4 U4. bind H as u5 U5. bind H as u6 U6.
  bind H as db1 H1. bind H as db2 H2. clear U1 U2 U3 U4 U5 U6 Hc.
  apply pay_fee_moves in H1 as [M1 Hs]; [|done].
  apply new_account_conserves in H2 as [M2 _]; [|wf_of|done].
  apply fee_to_vesting_moves in H as M3; [|wf_of|done].
  conserve.
Qed.

Lemma account_create_with_delegation_conserves producing db fee delegation creator name owner active posting key json db' :
  wf db -> 0 <= amount fee ->
  account_create_with_delegation_evaluator producing db fee delegation creator name owner active posting key json = Ok db' ->
  conserves db db'.
Proof.
  intros Hwf Hfee H. unfold account_create_with_delegation_evaluator in H.
  bind H as c Hc. apply get_account_Ok in Hc. bind H as u1 U1. bind H as av Hav. bind H as u2 U2.
  apply available_shares_vests in Hav; [|by eapply wf_account]. apply assert_geb_Ok in U2 as [Sd _]. rewrite Hav in Sd.
  bind H as m1 X1. bind H as m2 X2. bind H as p X3. bind H as td X4. bind H as f X5. bind H as x X6. bind H as cd X7.
  bind H as u3 U3. bind H as u4 U4. bind H as u5 U5. bind H as u6 U6. bind H as u7 U7. bind H as u8 U8.
  clear U1 U3 U4 U5 U6 U7 U8 X1 X2 X3 X4 X5 X6 X7.
  bind H as db1 H1. bind H as db2 H2. bind H as db3 H3.
  assert (moves db db1 (amount fee) 0 0 0 0) as M1.
  { apply modify_account_inv in H1 as (a & a' & Ha & Hf & ->). clear H2 H3 H. result_inv. asset_inv.
    eapply moves_eq; [apply account_moves; [done..|solve_account_wf]|acc_unfold; solve_val..]. }
  apply new_account_conserves in H2 as [M2 D2]; [|wf_of|done].
  assert (conserves db2 db3) as M3.
  { destruct (0 <? amount delegation); [|injection H3 as <-; apply moves_refl; wf_of].
    apply create_inv in H3 as (_ & ids & ->). assert (wf db2) as W2 by wf_of.
    eapply conserves_trans; [by apply (ids_conserve db2 ids)|]. apply (delegations_conserve (db2 <| Db.next_id := ids |>)).
    - by eapply mv_wf, ids_conserve.
    - apply map_Forall_insert_2; [done|apply W2]. }
  apply fee_to_vesting_moves in H as M4; [|wf_of|done].
  conserve.
Qed.

Lemma claim_account_conserves db creator fee db' :
  wf db -> claim_account_evaluator db creator fee = Ok db' -> conserves db db'.
Proof.
  intros Hwf H. unfold claim_account_evaluator in H.
  bind H as c Hc. apply get_account_Ok in Hc. bind H as u1 U1. bind H as u2 U2. bind H as u3 U3. bind H as n Hn. bind H as db1 H1.
  apply assert_geb_Ok in U1 as [Sf _]. pose proof (wf_account _ _ _ Hwf Hc) as (Sb & _). rewrite Sb in Sf.
  apply adjust_balance_moves in H1 as [M1 F1]; [|done|by left].
  apply modify_account_inv in H as (a & a' & Ha & Hf & ->). result_inv. asset_inv.
  assert (wf db1) as W1 by wf_of.
  rewrite (val_eq STEEM_SYMBOL fee), (val_other SBD_SYMBOL fee) in M1 by (rewrite <- ?Sf; done).
  eapply moves_eq; [eapply moves_trans; [exact M1|apply account_moves; [done..|solve_account_wf]]|acc_unfold; solve_val..].
Qed.

Lemma create_claimed_account_conserves db creator name owner active posting key json db' :
  wf db -> create_claimed_account_evaluator db creator name owner active posting key json = Ok db' -> conserves db db'.
Proof.
  intros Hwf H. unfold create_claimed_account_evaluator in H.
  bind H as c Hc. bind H as u1 U1. bind H as u2 U2. bind H as u3 U3. bind H as u4 U4. bind H as db1 H1.
  apply modify_account_conserves in H1; [|done|keeps_holdings].
  apply new_account_conserves in H as [M2 _]; [|wf_of|done]. conserve.
Qed.

Lemma update_owner_authority_conserves db n auth db' :
  wf db -> update_owner_authority db n auth = Ok db' -> conserves db db'.
Proof.
  intros Hwf H. unfold update_owner_authority in H. bind H as db1 H1.
  apply modify_obj_inv in H as (v & v' & _ & _ & ->). apply same_ledger_conserves; [done|].
  destruct (_ <=? _); [|injection H1 as <-; done].
  bind H1 as a Ha. by apply create_inv in H1 as (_ & ids & ->).
Qed.

Lemma account_update_conserves db account owner active posting key json db' :
  wf db -> account_update_evaluator db account owner active posting key json = Ok db' -> conserves db db'.
Proof.
  intros Hwf H. unfold account_update_evaluator in H.
  bind H as u1 U1. bind H as u2 U2. bind H as a Ha. bind H as au Hau. bind H as u3 U3. bind H as u4 U4. bind H as u5 U5.
  bind H as db1 H1. bind H as u6 U6. bind H as u7 U7. bind H as db2 H2.
  assert (conserves db db1) as M1.
  { destruct owner as [o|]; [|injection H1 as <-; by apply moves_refl].
    bind H1 as u8 U8. bind H1 as u9 U9. by eapply update_owner_authority_conserves. }
  apply modify_account_conserves in H2; [|wf_of|].
  - assert (conserves db2 db') as M3; [|eapply conserves_trans; [exact M1|by eapply conserves_trans]].
    destruct active, posting; try (injection H as <-; by apply moves_refl, H2);
      apply modify_obj_inv in H as (v & v' & _ & _ & ->); (apply same_ledger_conserves; [apply H2|done]).
  - intros x x' W [= <-]. destruct (key =? 0), (decide (json = "")); (split; [exact W|done]).
Qed.

Lemma recovery_evaluators_conserve :
  (forall db r n auth db', wf db -> request_account_recovery_evaluator db r n auth = Ok db' -> conserves db db') /\
  (forall db n auth recent db', wf db -> recover_account_evaluator db n auth recent = Ok db' -> conserves db db') /\
  (forall db n r db', wf db -> change_recovery_account_evaluator db n r = Ok db' -> conserves db db').
Proof.
  split; [|split].
  - intros db r n auth db' Hwf H. unfold request_account_recovery_evaluator in H. apply same_ledger_conserves; [done|].
    bind H as a Ha. bind H as u1 U1. destruct (Db.account_recovery_requests db !! n).
    + destruct (_ =? 0); [by injection H as <-|]. bind H as u2 U2. bind H as u3 U3.
      by apply modify_obj_inv in H as (v & v' & _ & _ & ->).
    + bind H as u2 U2. bind H as u3 U3. bind H as u4 U4. bind H as u5 U5. by apply create_inv in H as (_ & ids & ->).
  - intros db n auth recent db' Hwf H. unfold recover_account_evaluator in H. bind H as a Ha. bind H as u1 U1.
    destruct (Db.account_recovery_requests db !! n); [|done]. bind H as u2 U2. bind H as u3 U3. bind H as db1 H1.
    apply update_owner_authority_conserves in H1; [|by apply (recovery_conserve db)].
    apply modify_account_conserves in H; [|wf_of|keeps_holdings].
    eapply conserves_trans; [by apply (recovery_conserve db)|]. eapply conserves_trans; [exact H1|exact H].
  - intros db n r db' Hwf H. unfold change_recovery_account_evaluator in H. apply same_ledger_conserves; [done|].
    bind H as b Hb. bind H as a Ha. destruct (Db.change_recovery_account_requests db !! n).
    + destruct (decide _); [by injection H as <-|]. by apply modify_obj_inv in H as (v & v' & _ & _ & ->).
    + by apply create_inv in H as (_ & ids & ->).
Qed.

Lemma account_recovery_processing_conserves db db' : account_recovery_processing db = Ok db' -> sound db db'.
Proof.
  intros H. unfold account_recovery_processing in H. bind H as db1 H1. bind H as db2 H2.
  transitivity db1; [|transitivity db2].
  - revert H1. apply (while_next_preorder _ _ sound).
    intros d x d' _ [= <-] W. by apply same_ledger_conserves.
  - revert H2. apply (while_next_preorder _ _ sound).
    intros d x d' _ [= <-] W. by apply same_ledger_conserves.
  - revert H. apply (while_next_preorder _ _ sound). intros d [k r] d' _ H W. unfold apply_recovery_change in H.
    bind H as d1 H3. injection H as <-. apply modify_account_conserves in H3; [|done|keeps_holdings].
    eapply conserves_trans; [exact H3|]. apply same_ledger_conserves; [wf_of|done].
Qed.

Lemma witness_evaluators_conserve :
  (forall producing db o url key props db', wf db ->
     witness_update_evaluator producing db o url key props = Ok db' -> conserves db db') /\
  (forall db p rate db', wf db -> feed_publish_evaluator db p rate = Ok db' -> conserves db db') /\
  (forall db n d db', wf db -> decline_voting_rights_evaluator db n d = Ok db' -> conserves db db').
Proof.
  split; [|split].
  - intros producing db o url key props db' Hwf H. apply same_ledger_conserves; [done|].
    unfold witness_update_evaluator in H. bind H as a Ha. bind H as u1 U1. bind H as u2 U2.
    destruct (Db.witnesses db !! o); [by apply modify_witness_inv in H as (? & ? & _ & _ & ->)|].
    by apply create_inv in H as (_ & ids & ->).
  - intros db p rate db' Hwf H. apply same_ledger_conserves; [done|]. unfold feed_publish_evaluator in H.
    bind H as u1 U1. by apply modify_witness_inv in H as (? & ? & _ & _ & ->).
  - intros db n d db' Hwf H. apply same_ledger_conserves; [done|]. unfold decline_voting_rights_evaluator in H.
    bind H as a Ha. destruct d; bind H as u1 U1; [by apply create_inv in H as (_ & ids & ->)|by injection H as <-].
Qed.

#[export] Hint Resolve claim_account_conserves create_claimed_account_conserves account_update_conserves : conserves.
