(* ===== verification/Voting.v ===== *)
(** Voting: why the bookkeeping of proxied witness votes is right.

    The proxy, witness vote and decline evaluators are defined in Accounts; this
    file proves what they keep: the sum of the voting weights equals the vesting
    shares in existence (the last equation of validate_invariants), and the
    proxies form a forest, so that every chain of proxies ends at an account that
    votes for itself. *)
From Stdlib Require Import ZArith Lia String Ascii.
From stdpp Require Import base gmap strings list sorting.
From S2P Require Import Prelude.
From S2P Require Import Safe.
From S2P Require Import Asset.
From S2P Require Import Authority.
From S2P Require Import Objects.
From S2P Require Import Balance.
From S2P Require Import Supply.
From S2P Require Import Transfers.
From S2P Require Import Accounts.
Local Open Scope string_scope.
Local Open Scope Z_scope.
Local Open Scope fc_scope.

(** ** Chains of proxies *)

(** [above db n m]: [m] is a proxy of [n], a proxy of a proxy of [n], and so on *)
Inductive above (db : database) : account_name_type -> account_name_type -> Prop :=
| above_proxy n a : Db.accounts db !! n = Some a -> Account.proxy a <> STEEM_PROXY_TO_SELF_ACCOUNT ->
    above db n (Account.proxy a)
| above_next n a m : Db.accounts db !! n = Some a -> Account.proxy a <> STEEM_PROXY_TO_SELF_ACCOUNT ->
    above db (Account.proxy a) m -> above db n m.

(** the chain of proxies of [n] ends at an account that votes for itself *)
Inductive reaches_self (db : database) : account_name_type -> Prop :=
| reaches_here n a : Db.accounts db !! n = Some a -> Account.proxy a = STEEM_PROXY_TO_SELF_ACCOUNT ->
    reaches_self db n
| reaches_next n a : Db.accounts db !! n = Some a -> Account.proxy a <> STEEM_PROXY_TO_SELF_ACCOUNT ->
    reaches_self db (Account.proxy a) -> reaches_self db n.

Definition proxies_ok (db : database) : Prop :=
  forall n a, Db.accounts db !! n = Some a -> reaches_self db n.

Lemma above_snoc db n m a :
  above db n m -> Db.accounts db !! m = Some a -> Account.proxy a <> STEEM_PROXY_TO_SELF_ACCOUNT ->
  above db n (Account.proxy a).
Proof. induction 1; intros; (eapply above_next; [done..|]); eauto using above. Qed.

Lemma reaches_acyclic db n : reaches_self db n -> ~ above db n n.
Proof.
  induction 1 as [n a Ha Hp|n a Ha Hp _ IH]; intros Hab.
  - remember n as m eqn:E in Hab at 2. clear E. destruct Hab; simplify_map_eq.
  - apply IH. eapply above_snoc; [|exact Ha|exact Hp].
    assert (forall m, above db n m -> m = Account.proxy a \/ above db (Account.proxy a) m) as Hfirst.
    { intros m Hm. destruct Hm; simplify_map_eq; auto. }
    destruct (Hfirst n Hab) as [E|]; [|done]. rewrite <- E. exact Hab.
Qed.

(** ** Adding a whole array of proxied votes *)

(** the accounts of the two databases differ in their arrays of proxied votes only *)
Definition votes_only (db db' : database) : Prop :=
  forall m, (fun a => a <| Account.proxied_vsf_votes := [] |>) <$> (Db.accounts db' !! m) =
            (fun a => a <| Account.proxied_vsf_votes := [] |>) <$> (Db.accounts db !! m).

#[export] Instance votes_only_preorder : PreOrder votes_only.
Proof. split; [done|]. intros x y z H1 H2 m. by rewrite H2, H1. Qed.

Lemma votes_only_account db db' n a :
  votes_only db db' -> Db.accounts db !! n = Some a ->
  exists a', Db.accounts db' !! n = Some a' /\ Account.proxy a' = Account.proxy a /\ Account.id a' = Account.id a.
Proof.
  intros V Ha. specialize (V n). rewrite Ha in V. destruct (Db.accounts db' !! n) as [a'|]; [|done].
  exists a'. simpl in V. injection V. intros. repeat split; congruence.
Qed.

Lemma votes_only_sym db db' : votes_only db db' -> votes_only db' db.
Proof. intros V m. by rewrite V. Qed.

Lemma reaches_votes_only db db' n : votes_only db db' -> reaches_self db n -> reaches_self db' n.
Proof.
  intros V. induction 1 as [n a Ha Hp|n a Ha Hp _ IH];
    destruct (votes_only_account _ _ _ _ V Ha) as (a' & Ha' & E & _).
  - eapply reaches_here; [done|congruence].
  - eapply reaches_next; [done|congruence|by rewrite E].
Qed.

Lemma above_votes_only db db' n m : votes_only db' db -> above db n m -> above db' n m.
Proof.
  intros V. induction 1 as [n a Ha Hp|n a m Ha Hp _ IH];
    destruct (votes_only_account _ _ _ _ (votes_only_sym _ _ V) Ha) as (a' & Ha' & E & _).
  - rewrite <- E. econstructor; [done|congruence].
  - eapply above_next; [done|congruence|by rewrite E].
Qed.

Lemma zsum_app l1 l2 : zsum (l1 ++ l2) = zsum l1 + zsum l2.
Proof. induction l1; simpl; lia. Qed.
Lemma zsum_opp l : zsum (map Z.opp l) = - zsum l.
Proof. induction l; simpl in *; lia. Qed.

Lemma add_all_at_Ok ds : forall i l l', add_all_at i ds l = Ok l' ->
  zsum l' = zsum l + zsum ds /\ List.length l' = List.length l /\
  forall j, l' !! j = (fun v => v + default 0 (if (i <=? j)%nat then ds !! (j - i)%nat else None)) <$> l !! j.
Proof.
  induction ds as [|d ds IH]; intros i l l' H; simpl in H.
  - injection H as <-. split; [simpl; lia|]. split; [done|]. intros j.
    destruct (l !! j); [|done]. simpl. destruct (i <=? j)%nat; simpl; f_equal; lia.
  - bind H as l1 H1. destruct (IH _ _ _ H1) as (S1 & L1 & J1). apply add_at_Ok in H as (v & Hv & ->).
    split; [rewrite (zsum_insert _ _ _ _ Hv); simpl; lia|]. split; [by rewrite length_insert|]. intros j.
    destruct (decide (j = i)) as [->|N].
    + pose proof Hv as Hj. rewrite J1, (proj2 (Nat.leb_gt (S i) i)) in Hj by lia.
      rewrite list_lookup_insert_eq by (by eapply lookup_lt_Some).
      destruct (l !! i) as [w|]; [|done]. cbn in Hj. injection Hj as <-. rewrite Nat.leb_refl, Nat.sub_diag.
      simpl. f_equal. lia.
    + rewrite list_lookup_insert_ne by done. rewrite J1. destruct (l !! j); [|done].
      destruct (Nat.leb_spec (S i) j), (Nat.leb_spec i j); [|lia..|done].
      by replace (j - i)%nat with (S (j - S i)) by lia.
Qed.

Lemma neg_all_Ok l l' : neg_all l = Ok l' -> l' = map Z.opp l.
Proof.
  revert l'. induction l as [|x l IH]; intros l' H; simpl in H; [by injection H as <-|].
  bind H as l1 H1. bind H as y Hy. injection H as <-. apply Safe.neg_Ok in Hy as ->. by rewrite (IH _ H1).
Qed.

(** the effect of a block of deltas on the voting weight of the proxy that gets it *)
Lemma array_vsf p v delta togo :
  (S togo <= 4)%nat -> (S togo <= List.length delta)%nat -> List.length (Account.proxied_vsf_votes p) = 4%nat ->
  add_all_at (4 - S togo) (take (S togo) delta) (Account.proxied_vsf_votes p) = Ok v ->
  acc_vsf (p <| Account.proxied_vsf_votes := v |>) - acc_vsf p =
    (if self_proxied p then zsum (take (S togo) delta) else zsum (take (S togo) delta) - zsum (take togo delta)).
Proof.
  intros Ht Hd Hl H. apply add_all_at_Ok in H as (HS & HL & HJ). unfold acc_vsf, self_proxied. simpl Account.proxy.
  simpl Account.vesting_shares. simpl Account.proxied_vsf_votes.
  destruct (bool_decide _); [lia|]. specialize (HJ 3%nat). rewrite !list_lookup_total_alt, HJ.
  destruct (Account.proxied_vsf_votes p !! 3%nat) as [w|] eqn:Hw; [|apply lookup_ge_None in Hw; lia].
  rewrite (proj2 (Nat.leb_le (4 - S togo) 3)) by lia. replace (3 - (4 - S togo))%nat with togo by lia.
  rewrite lookup_take_lt by lia. destruct (lookup_lt_is_Some_2 delta togo) as [x Hx]; [lia|].
  rewrite (take_S_r _ _ _ Hx), zsum_app, Hx. simpl. lia.
Qed.

Lemma adjust_proxied_array_at_moves togo : forall db n delta db' a,
  (togo <= 4)%nat -> (togo <= List.length delta)%nat -> wf db -> Db.accounts db !! n = Some a ->
  adjust_proxied_array_at togo db n delta = Ok db' ->
  moves db db' 0 0 0 0 (- (if self_proxied a then 0 else zsum (take togo delta))) /\ votes_only db db' /\
  (forall m, ~ above db n m -> Db.accounts db' !! m = Db.accounts db !! m).
Proof.
  induction togo as [|togo IH]; intros db n delta db' a Hn Hd Hwf Ha H; simpl in H;
    bind H as a1 Ha1; apply get_account_Ok in Ha1; rewrite Ha in Ha1; injection Ha1 as <-;
    destruct (decide (Account.proxy a = STEEM_PROXY_TO_SELF_ACCOUNT)) as [Hp|Hp];
    rewrite ?(self_proxied_true _ Hp), ?(self_proxied_false _ Hp).
  1,3: bind H as t Ht; apply adjust_witness_votes_ledger in H as [HL _];
    (split; [by apply same_ledger_conserves|]); destruct HL as [HL _]; unfold votes_only; rewrite HL; done.
  - injection H as <-. rewrite take_0. split; [by apply moves_refl|done].
  - bind H as db1 H1. apply modify_account_inv in H1 as (p & p' & Hacc & Hp' & ->). bind Hp' as v Hv.
    injection Hp' as <-. pose proof (wf_account _ _ _ Hwf Hacc) as Hpw.
    pose proof (array_vsf p v delta togo Hn Hd (proj2 (proj2 (proj2 (proj2 (proj2 (proj2 (proj2 (proj2
      (proj2 (proj2 (proj2 (proj2 Hpw)))))))))))) Hv) as Hvsf.
    apply add_all_at_Ok in Hv as (_ & HL & _). set (p' := p <| Account.proxied_vsf_votes := _ |>) in *.
    assert (account_wf p') as Hpw'.
    { unfold p'. destruct Hpw as (?&?&?&?&?&?&?&?&?&?&?&?&?). repeat split; simpl; congruence. }
    pose proof (account_moves db _ p p' Hwf Hacc Hpw') as M1. set (db1 := db <| Db.accounts ::= _ |>) in *.
    assert (votes_only db db1) as V1.
    { intros m. unfold db1. simpl. destruct (decide (m = Account.proxy a)) as [->|];
        [by rewrite lookup_insert_eq, Hacc|by rewrite lookup_insert_ne]. }
    eapply IH in H as (M2 & V2 & U2); [|lia|lia|apply M1|simpl; apply lookup_insert_eq].
    split; [|split; [by etrans|]].
    + eapply moves_eq; [eapply moves_trans; [exact M1|exact M2]|unfold acc_steem, acc_sbd, acc_vests, acc_pending, p';
        simpl; lia..|].
      change (self_proxied p') with (self_proxied p). clear - Hvsf. clearbody p'. destruct (self_proxied p); lia.
    + intros m Hm. rewrite U2.
      * unfold db1. simpl. rewrite lookup_insert_ne; [done|]. intros <-. apply Hm. by econstructor.
      * intros Hab. apply Hm. eapply above_next; [done..|]. by apply (above_votes_only db1).
Qed.

Lemma adjust_array_moves db n delta db' a :
  wf db -> List.length delta = 5%nat -> Db.accounts db !! n = Some a ->
  adjust_proxied_witness_votes_array db n delta = Ok db' ->
  moves db db' 0 0 0 0 (- (if self_proxied a then 0 else zsum (take 4 delta))) /\ votes_only db db' /\
  (forall m, ~ above db n m -> Db.accounts db' !! m = Db.accounts db !! m).
Proof. intros Hwf Hd Ha H. apply (adjust_proxied_array_at_moves 4) with (a := a) in H; [done|lia..|done|done]. Qed.

Lemma vote_array_length a : account_wf a -> List.length (vote_array a) = 5%nat.
Proof. intros (_&_&_&_&_&_&_&_&_&_&_&_&E). unfold vote_array. simpl. by rewrite E. Qed.

(** what a vote for oneself counts beyond the last entry, when the proxy is [s] *)
Definition proxied_part (s : account_name_type) (a : account_object) : Z :=
  if decide (s = STEEM_PROXY_TO_SELF_ACCOUNT) then zsum (take 4 (vote_array a)) else 0.

(** the weight an account keeps for itself when it votes through a proxy: the
    entries its proxy cannot take *)
Lemma acc_vsf_split a (s : account_name_type) : account_wf a ->
  acc_vsf (a <| Account.proxy := s |>) =
    proxied_part s a + Account.proxied_vsf_votes a !!! 3%nat.
Proof.
  intros W. pose proof (vote_array_length a W) as L. unfold acc_vsf, self_proxied, proxied_part, vote_array in *.
  simpl. set (l := Account.proxied_vsf_votes a) in *. clearbody l.
  destruct l as [|v0 [|v1 [|v2 [|v3 [|]]]]]; try done.
  destruct (decide (s = _)) as [E|E]; [rewrite bool_decide_true by done|rewrite bool_decide_false by done];
    simpl; unfold lookup_total; simpl; lia.
Qed.

Lemma acc_vsf_own a : account_wf a ->
  acc_vsf a = proxied_part (Account.proxy a) a + Account.proxied_vsf_votes a !!! 3%nat.
Proof. intros W. rewrite <- (acc_vsf_split a (Account.proxy a) W). by destruct a. Qed.

(** an update of the proxy and of fields no gap reads *)
Lemma set_proxy_moves db n f db' a s :
  wf db -> Db.accounts db !! n = Some a -> modify_account db n f = Ok db' ->
  (forall b, f a = Ok b -> Account.vesting_shares b = Account.vesting_shares a /\
     Account.proxied_vsf_votes b = Account.proxied_vsf_votes a /\ Account.proxy b = s /\
     account_wf b /\ acc_steem b = acc_steem a /\ acc_sbd b = acc_sbd a /\ acc_vests b = acc_vests a /\
     acc_pending b = acc_pending a) ->
  moves db db' 0 0 0 0 (proxied_part (Account.proxy a) a - proxied_part s a) /\
  exists b, f a = Ok b /\ db' = db <| Db.accounts ::= <[n := b]> |>.
Proof.
  intros Hwf Ha (a1 & b & Ha1 & Hf & ->)%modify_account_inv Hk. rewrite Ha in Ha1. injection Ha1 as <-.
  destruct (Hk b Hf) as (Ev & El & Ep & Wb & E1 & E2 & E3 & E4). split; [|eauto].
  eapply moves_eq; [by apply account_moves|lia..|].
  rewrite (acc_vsf_own a), (acc_vsf_own b) by first [done|by eapply wf_account].
  unfold proxied_part, vote_array. rewrite Ep, Ev, El. lia.
Qed.

Lemma proxied_part_own a :
  proxied_part (Account.proxy a) a = if self_proxied a then zsum (take 4 (vote_array a)) else 0.
Proof.
  unfold proxied_part. destruct (decide _) as [E|E]; by rewrite ?(self_proxied_true _ E), ?(self_proxied_false _ E).
Qed.

Lemma take_opp l : take 4 (map Z.opp l) = map Z.opp (take 4 l).
Proof. symmetry. apply fmap_take. Qed.

Lemma proxy_clear_conserves db n a delta db1 db' f :
  wf db -> Db.accounts db !! n = Some a -> reaches_self db n -> delta = map Z.opp (vote_array a) ->
  adjust_proxied_witness_votes_array db n delta = Ok db1 ->
  f a = Ok (a <| Account.proxy := STEEM_PROXY_TO_SELF_ACCOUNT |>) -> modify_account db1 n f = Ok db' ->
  conserves db db'.
Proof.
  intros Hwf Ha Hr -> H1 Hf H2. pose proof (wf_account _ _ _ Hwf Ha) as W.
  eapply adjust_array_moves in H1 as (M1 & _ & U1); [|done|by rewrite length_map, vote_array_length|done].
  assert (Db.accounts db1 !! n = Some a) as Ha1 by (rewrite U1; [done|by apply reaches_acyclic]).
  eapply (set_proxy_moves _ _ _ _ a STEEM_PROXY_TO_SELF_ACCOUNT) in H2 as [M2 _]; [|wf_of|done|].
  - rewrite take_opp, zsum_opp in M1. eapply moves_eq; [eapply moves_trans; [exact M1|exact M2]|lia..|].
    rewrite proxied_part_own. unfold proxied_part. rewrite decide_True by done. destruct (self_proxied a); lia.
  - rewrite Hf. intros b [= <-]. repeat split; done || (by apply W) || reflexivity.
Qed.

Lemma clear_votes_account db n a db' :
  Db.accounts db !! n = Some a -> clear_witness_votes db n = Ok db' ->
  Db.accounts db' = <[n := a <| Account.witnesses_voted_for := 0 |>]> (Db.accounts db).
Proof.
  intros Ha (a1 & b & Ha1 & Hf & ->)%modify_account_inv. simpl in Ha1. rewrite Ha in Ha1. by simplify_eq.
Qed.

(** The three evaluators that change who casts the votes of an account. *)
Lemma account_witness_proxy_conserves db n p db' :
  wf db -> proxies_ok db -> account_witness_proxy_evaluator db n p = Ok db' -> conserves db db'.
Proof.
  intros Hwf Hok H. unfold account_witness_proxy_evaluator in H. bind H as a Ha. apply get_account_Ok in Ha.
  bind H as u1 U1. bind H as u2 U2. bind H as delta Hd. apply neg_all_Ok in Hd. bind H as db1 H1.
  pose proof (wf_account _ _ _ Hwf Ha) as W. specialize (Hok _ _ Ha).
  destruct (decide (p = "")) as [->|Np];
    [by eapply proxy_clear_conserves; [..|exact H]|]. subst delta.
  bind H as np Hnp. bind H as u3 U3. bind H as db2 H2. bind H as db3 H3. bind H as delta Hd. apply neg_all_Ok in Hd as ->.
  eapply adjust_array_moves in H1 as (M1 & _ & N1); [|done|by rewrite length_map, vote_array_length|done].
  assert (Db.accounts db1 !! n = Some a) as Ha1 by (rewrite N1; [done|by apply reaches_acyclic]).
  pose proof (clear_votes_account _ _ _ _ Ha1 H2) as A2. apply clear_witness_votes_moves in H2 as M2; [|wf_of].
  assert (Db.accounts db2 !! n = Some (a <| Account.witnesses_voted_for := 0 |>)) as Ha2
    by (rewrite A2; apply lookup_insert_eq).
  eapply (set_proxy_moves _ _ _ _ _ p) in H3 as [M3 (b & Hb & E3)]; [|wf_of|exact Ha2|].
  2: { intros b [= <-]. repeat split; done || (by apply W) || reflexivity. }
  injection Hb as <-. rewrite map_map in H.
  eapply adjust_array_moves in H as (M4 & _); [|wf_of|by rewrite length_map, vote_array_length|
    rewrite E3; apply lookup_insert_eq].
  rewrite self_proxied_false in M4 by exact Np. rewrite take_opp, zsum_opp in M1.
  rewrite proxied_part_own in M3. unfold proxied_part in M3. rewrite decide_False in M3 by exact Np.
  change (self_proxied (a <| Account.witnesses_voted_for := 0 |>)) with (self_proxied a) in M3.
  change (vote_array (a <| Account.witnesses_voted_for := 0 |>)) with (vote_array a) in M3.
  rewrite (map_ext _ id), map_id in M4 by (intros; apply Z.opp_involutive).
  eapply moves_eq; [eapply moves_trans; [eapply moves_trans; [eapply moves_trans|]|]; eassumption|lia..|].
  destruct (self_proxied a); lia.
Qed.

Lemma decline_one_conserves db x db' :
  wf db -> proxies_ok db -> decline_one db x = Ok db' -> conserves db db'.
Proof.
  destruct x as [k r]. intros Hwf Hok H. unfold decline_one in H. bind H as a Ha. apply get_account_Ok in Ha.
  bind H as delta Hd. apply neg_all_Ok in Hd as ->. bind H as db1 H1. bind H as db2 H2. bind H as db3 H3.
  injection H as <-. set (n := DeclineVotingRightsRequest.account r) in *.
  pose proof (wf_account _ _ _ Hwf Ha) as W. specialize (Hok _ _ Ha).
  eapply adjust_array_moves in H1 as (M1 & _ & N1); [|done|by rewrite length_map, vote_array_length|done].
  assert (Db.accounts db1 !! n = Some a) as Ha1 by (rewrite N1; [done|by apply reaches_acyclic]).
  pose proof (clear_votes_account _ _ _ _ Ha1 H2) as A2. apply clear_witness_votes_moves in H2 as M2; [|wf_of].
  assert (Db.accounts db2 !! n = Some (a <| Account.witnesses_voted_for := 0 |>)) as Ha2
    by (rewrite A2; apply lookup_insert_eq).
  eapply (set_proxy_moves _ _ _ _ _ STEEM_PROXY_TO_SELF_ACCOUNT) in H3 as [M3 _]; [|wf_of|exact Ha2|].
  2: { intros b [= <-]. repeat split; done || (by apply W) || reflexivity. }
  eapply conserves_trans; [|apply same_ledger_conserves; [wf_of|done]].
  rewrite take_opp, zsum_opp in M1. rewrite proxied_part_own in M3. unfold proxied_part in M3.
  rewrite decide_True in M3 by done.
  change (self_proxied (a <| Account.witnesses_voted_for := 0 |>)) with (self_proxied a) in M3.
  change (vote_array (a <| Account.witnesses_voted_for := 0 |>)) with (vote_array a) in M3.
  eapply moves_eq; [eapply moves_trans; [eapply moves_trans|]; eassumption|lia..|]. destruct (self_proxied a); lia.
Qed.

Lemma account_witness_vote_conserves db n w approve db' :
  wf db -> account_witness_vote_evaluator db n w approve = Ok db' -> conserves db db'.
Proof.
  intros Hwf H. unfold account_witness_vote_evaluator, adjust_witness_vote in H.
  bind H as a Ha. bind H as u1 U1. bind H as u2 U2. bind H as wo W. clear Ha U1 U2 W.
  destruct (decide _); [bind H as u3 U3|bind H as u3 U3; bind H as u4 U4]; bind H as wt Hwt.
  - bind H as d Hd. bind H as db1 H1. bind H as db2 H2. injection H as <-.
    apply modify_witness_inv in H1 as (x & x' & _ & _ & ->).
    assert (conserves db (db <| Db.witnesses ::= <[w := x']> |>)) as M1 by (by apply same_ledger_conserves).
    apply modify_account_conserves in H2; [|wf_of|keeps_holdings].
    eapply conserves_trans; [exact M1|]. eapply conserves_trans; [exact H2|]. apply same_ledger_conserves; [wf_of|done].
  - bind H as db1 H1. apply modify_witness_inv in H1 as (x & x' & _ & _ & ->).
    match type of H with modify_account ?d _ _ = _ => assert (conserves db d) as M1 by (by apply same_ledger_conserves) end.
    apply modify_account_conserves in H; [|wf_of|keeps_holdings]. eapply conserves_trans; [exact M1|exact H].
Qed.

(** ** The proxies form a forest *)

Lemma proxies_votes_only db db' : votes_only db db' -> proxies_ok db -> proxies_ok db'.
Proof.
  intros V Hok n a Ha. destruct (votes_only_account _ _ _ _ (votes_only_sym _ _ V) Ha) as (a' & Ha' & _).
  eapply reaches_votes_only; [done|by eapply Hok].
Qed.

(** the database without the account [n]: a chain of it does not pass [n] *)
Definition without (n : account_name_type) (db : database) : database := db <| Db.accounts ::= delete n |>.

Lemma proxy_chain_avoids fuel : forall db seen n a m c,
  Db.accounts db !! n = Some a -> Account.id a ∈ seen -> n <> m -> Db.accounts db !! m = Some c ->
  proxy_chain_ok fuel db seen c = Ok tt -> reaches_self (without n db) m.
Proof.
  induction fuel as [|fuel IH]; intros db seen n a m c Ha Hin Nm Hc H; simpl in H;
    (destruct (decide (Account.proxy c = "")) as [E|E];
      [eapply reaches_here; [|exact E]; simpl; by rewrite lookup_delete_ne|]); [done|].
  bind H as p Hp. apply get_account_Ok in Hp. bind H as u1 U1. bind H as u2 U2.
  eapply reaches_next; [simpl; by rewrite lookup_delete_ne|exact E|].
  assert (n <> Account.proxy c) as Np.
  { intros En. rewrite <- En, Ha in Hp. injection Hp as <-.
    rewrite bool_decide_true in U1 by done. discriminate. }
  eapply IH; [exact Ha| |exact Np|exact Hp|exact H]. by right.
Qed.

(** giving [n] the proxy of [b], when the chain from there does not come back *)
Lemma reproxy_ok db n a b :
  proxies_ok db -> Db.accounts db !! n = Some a ->
  (Account.proxy b = STEEM_PROXY_TO_SELF_ACCOUNT \/ reaches_self (without n db) (Account.proxy b)) ->
  proxies_ok (db <| Db.accounts ::= <[n := b]> |>).
Proof.
  intros Hok Ha Hb. set (db' := db <| Db.accounts ::= _ |>).
  assert (forall m, reaches_self (without n db) m -> reaches_self db' m) as Hout.
  { induction 1 as [m c Hm Hp|m c Hm Hp _ IH]; apply (lookup_delete_Some (Db.accounts db)) in Hm as [Nm Hm];
      [eapply reaches_here|eapply reaches_next]; try done; simpl; by rewrite lookup_insert_ne. }
  assert (reaches_self db' n) as Hn.
  { assert (Db.accounts db' !! n = Some b) as Hnb by apply lookup_insert_eq.
    destruct (decide (Account.proxy b = STEEM_PROXY_TO_SELF_ACCOUNT)) as [E|E]; [by eapply reaches_here|].
    destruct Hb as [?|Hb]; [done|]. eapply reaches_next; [done..|]. by apply Hout. }
  assert (forall m, reaches_self db m -> reaches_self db' m) as Hall.
  { induction 1 as [m c Hm Hp|m c Hm Hp _ IH]; (destruct (decide (m = n)) as [->|Nm]; [exact Hn|]);
      [eapply reaches_here|eapply reaches_next]; try done; simpl; by rewrite lookup_insert_ne. }
  intros m c Hm. destruct (decide (m = n)) as [->|Nm]; [exact Hn|]. simpl in Hm. rewrite lookup_insert_ne in Hm by done.
  apply Hall. by eapply Hok.
Qed.

(** an update that keeps the proxy of the account *)
Lemma same_proxy_ok db n a b :
  proxies_ok db -> Db.accounts db !! n = Some a -> Account.proxy b = Account.proxy a ->
  proxies_ok (db <| Db.accounts ::= <[n := b]> |>).
Proof.
  intros Hok Ha E. set (db' := db <| Db.accounts ::= _ |>).
  assert (forall m, reaches_self db m -> reaches_self db' m) as Hall.
  { induction 1 as [m c Hm Hp|m c Hm Hp _ IH]; destruct (decide (m = n)) as [->|Nm]; simplify_map_eq.
    - eapply reaches_here; [apply lookup_insert_eq|congruence].
    - eapply reaches_here; [simpl; by rewrite lookup_insert_ne|done].
    - eapply reaches_next; [apply lookup_insert_eq|congruence|by rewrite E].
    - eapply reaches_next; [simpl; by rewrite lookup_insert_ne|done|done]. }
  intros m c Hm. apply Hall. destruct (decide (m = n)) as [->|Nm]; [by eapply Hok|].
  simpl in Hm. rewrite lookup_insert_ne in Hm by done. by eapply Hok.
Qed.

Lemma proxies_ok_ext db db' : Db.accounts db' = Db.accounts db -> proxies_ok db -> proxies_ok db'.
Proof. intros E. apply proxies_votes_only. intros m. by rewrite E. Qed.

Lemma clear_votes_proxies db n a db' :
  Db.accounts db !! n = Some a -> clear_witness_votes db n = Ok db' -> proxies_ok db -> proxies_ok db'.
Proof.
  intros Ha H Hok. eapply (proxies_ok_ext (db <| Db.accounts ::= <[n := a <| Account.witnesses_voted_for := 0 |>]> |>)).
  - simpl. by apply clear_votes_account.
  - by eapply same_proxy_ok.
Qed.

Lemma adjust_array_votes_only db n delta db' a :
  wf db -> List.length delta = 5%nat -> Db.accounts db !! n = Some a ->
  adjust_proxied_witness_votes_array db n delta = Ok db' -> votes_only db db'.
Proof. intros Hwf Hd Ha H. by eapply adjust_array_moves in H as (_ & V & _). Qed.

Lemma votes_array_neg a delta : account_wf a -> neg_all (vote_array a) = Ok delta -> List.length delta = 5%nat.
Proof. intros W ->%neg_all_Ok. by rewrite length_map, vote_array_length. Qed.

Lemma account_witness_proxy_forest db n p db' :
  wf db -> proxies_ok db -> n <> p -> account_witness_proxy_evaluator db n p = Ok db' -> proxies_ok db'.
Proof.
  intros Hwf Hok Nnp H. pose proof (account_witness_proxy_conserves _ _ _ _ Hwf Hok H) as M.
  unfold account_witness_proxy_evaluator in H. bind H as a Ha. apply get_account_Ok in Ha.
  bind H as u1 U1. bind H as u2 U2. bind H as delta Hd. bind H as db1 H1.
  pose proof (wf_account _ _ _ Hwf Ha) as W. apply (votes_array_neg a) in Hd as Ld; [|done].
  apply adjust_array_moves with (a := a) in H1 as (M1 & V1 & _); [|done..].
  destruct (votes_only_account _ _ _ _ V1 Ha) as (a1 & Ha1 & P1 & I1).
  apply proxies_votes_only in V1; [|done].
  destruct (decide (p = "")) as [->|Np].
  { apply modify_account_inv in H as (a2 & b & Ha2 & [= <-] & ->). eapply reproxy_ok; [done..|by left]. }
  bind H as np Hnp. apply get_account_Ok in Hnp. bind H as u3 U3. destruct u3.
  bind H as db2 H2. bind H as db3 H3. bind H as delta2 Hd2.
  assert (reaches_self (without n db1) p) as Hr.
  { eapply proxy_chain_avoids; [exact Ha1| |exact Nnp|exact Hnp|exact U3].
    rewrite I1. destruct (_ =? _); apply list_elem_of_here. }
  pose proof (clear_votes_proxies _ _ _ _ Ha1 H2 V1) as V2. apply clear_votes_account with (a := a1) in H2 as A2; [|done].
  apply clear_witness_votes_moves in H2 as M2; [|wf_of].
  apply modify_account_inv in H3 as (a2 & b & Ha2 & Hb & ->). injection Hb as <-.
  set (b := a2 <| Account.proxy := p |>) in *.
  assert (account_wf b) as Wb by (pose proof (wf_account _ _ _ (mv_wf _ _ _ _ _ _ _ M2) Ha2); solve_account_wf).
  eapply proxies_votes_only; [eapply adjust_array_votes_only in H; [exact H|..]|].
  - eapply mv_wf, account_moves; [wf_of|exact Ha2|exact Wb].
  - apply neg_all_Ok in Hd2 as ->. by rewrite length_map.
  - apply lookup_insert_eq.
  - eapply reproxy_ok; [exact V2|exact Ha2|right]. revert Hr. clear - A2. intros Hr. change (Account.proxy b) with p.
    eapply reaches_votes_only; [|exact Hr]. intros m. unfold without. simpl. by rewrite A2, delete_insert_eq.
Qed.

Lemma decline_one_forest db x db' :
  wf db -> proxies_ok db -> decline_one db x = Ok db' -> proxies_ok db'.
Proof.
  destruct x as [k r]. intros Hwf Hok H. unfold decline_one in H. bind H as a Ha. apply get_account_Ok in Ha.
  bind H as delta Hd. bind H as db1 H1. bind H as db2 H2. bind H as db3 H3. injection H as <-.
  pose proof (wf_account _ _ _ Hwf Ha) as W. apply (votes_array_neg a) in Hd as Ld; [|done].
  apply adjust_array_moves with (a := a) in H1 as (M1 & V1 & _); [|done..].
  destruct (votes_only_account _ _ _ _ V1 Ha) as (a1 & Ha1 & _). apply proxies_votes_only in V1; [|done].
  pose proof (clear_votes_proxies _ _ _ _ Ha1 H2 V1) as V2.
  apply modify_account_inv in H3 as (a2 & b & Ha2 & Hb & ->).
  apply (proxies_ok_ext (db2 <| Db.accounts ::= <[DeclineVotingRightsRequest.account r := b]> |>)); [done|].
  eapply reproxy_ok; [exact V2|exact Ha2|left]. by injection Hb as <-.
Qed.

(** a block transition that keeps accounts and forest *)
Definition sound_votes (db db' : database) : Prop :=
  wf db -> proxies_ok db -> conserves db db' /\ proxies_ok db'.

#[export] Instance sound_votes_preorder : PreOrder sound_votes.
Proof.
  split; [by intros db Hwf; split; [apply moves_refl|]|].
  intros x y z H1 H2 W P. destruct (H1 W P) as [C1 P1]. destruct (H2 (mv_wf _ _ _ _ _ _ _ C1) P1) as [C2 P2].
  split; [by eapply conserves_trans|done].
Qed.

Lemma process_decline_sound db db' : process_decline_voting_rights db = Ok db' -> sound_votes db db'.
Proof.
  apply while_next_preorder; [apply _|]. intros d x d' _ H W P.
  split; [by eapply decline_one_conserves|by eapply decline_one_forest].
Qed.

#[export] Hint Resolve account_witness_proxy_conserves account_witness_vote_conserves : conserves.
