(* ===== verification/Operation.v ===== *)
(** Operation: the operations of the protocol, their validation, the accounts
    that must sign them, and the evaluator each is given to.

    [validate] is the validate() member of each operation struct
    (steem_operations.cpp), [required_*] its get_required_*_authorities members
    (steem_operations.hpp) and [apply_operation] the dispatch of
    database::apply_operation to the evaluators of the other files.  What the
    chain calls and this development does not define is collected in [environment]:
    no theorem depends on what it answers.  [block] is the header of a signed block:
    report_over_production carries two of them. *)
From Stdlib Require Import ZArith Lia String Ascii.
From stdpp Require Import base gmap strings list sorting.
From S2P Require Import Prelude.
From S2P Require Import Safe.
From S2P Require Import BlockId.
From S2P Require Import Asset.
From S2P Require Import Authority.
From S2P Require Import Objects.
From S2P Require Import Balance.
From S2P Require Import Supply.
From S2P Require Import Transfers.
From S2P Require Import Market.
From S2P Require Import Vesting.
From S2P Require Import Accounts.
From S2P Require Import Voting.
From S2P Require Import Utf8.
From S2P Require Import WitnessProps.
From S2P Require Import Comments.
Local Open Scope string_scope.
Local Open Scope Z_scope.
Local Open Scope fc_scope.

Definition STEEM_MAX_MEMO_SIZE : Z := 2048.

(** what became of a custom operation that was handed to a plugin *)
Inductive interpretation : Type :=
| not_interpreted             (* no plugin has registered the id *)
| interpreted
| threw_fc_exception (e : exn)
| threw_other.

(** The environment of a node: the JSON parser of fc, the library that patches
    texts, the plugins that interpret custom operations (their objects are not
    part of the chain state), and the content of uninitialized locals. *)
Class environment : Type := {
  json_is_valid : string -> bool;
  patch_body : string -> string -> string;
  interpret : database -> string -> string -> interpretation;
  uninitialized : string -> Z
}.

(** ** Block headers

    A signed_block_header.  The hash of the signed header and the key its signature
    recovers to are fields: they are functions of the serialized header. *)
Record block : Type := mk_block {
  sha224 : Z;
  previous : Z;
  timestamp : Z;
  witness : account_name_type;
  signee : public_key_type
}.
Definition block_num (b : block) : Z := u32 (num_from_id (previous b) + 1).
Definition block_id (b : block) : Z := make_id (sha224 b) (block_num b).

(** [extensions] is the size of the set of extensions of an operation *)
Inductive operation : Type :=
| account_create_operation (fee : asset) (creator new_account_name : account_name_type)
    (owner active posting : authority) (memo_key : public_key_type) (json_metadata : string)
| account_create_with_delegation_operation (fee delegation : asset) (creator new_account_name : account_name_type)
    (owner active posting : authority) (memo_key : public_key_type) (json_metadata : string)
| account_update_operation (account : account_name_type) (owner active posting : option authority)
    (memo_key : public_key_type) (json_metadata : string)
| claim_account_operation (creator : account_name_type) (fee : asset) (extensions : Z)
| create_claimed_account_operation (creator new_account_name : account_name_type)
    (owner active posting : authority) (memo_key : public_key_type) (json_metadata : string) (extensions : Z)
| transfer_operation (from to : account_name_type) (amount : asset) (memo : string)
| escrow_transfer_operation (from to agent : account_name_type) (escrow_id : Z) (sbd_amount steem_amount fee : asset)
    (ratification_deadline escrow_expiration : Z) (json_meta : string)
| escrow_approve_operation (from to agent who : account_name_type) (escrow_id : Z) (approve : bool)
| escrow_dispute_operation (from to agent who : account_name_type) (escrow_id : Z)
| escrow_release_operation (from to agent who receiver : account_name_type) (escrow_id : Z)
    (sbd_amount steem_amount : asset)
| transfer_to_vesting_operation (from to : account_name_type) (amount : asset)
| withdraw_vesting_operation (account : account_name_type) (vesting_shares : asset)
| set_withdraw_vesting_route_operation (from_account to_account : account_name_type) (percent : Z) (auto_vest : bool)
| witness_update_operation (owner : account_name_type) (url : string) (block_signing_key : public_key_type)
    (props : legacy_chain_properties) (fee : asset)
| account_witness_vote_operation (account witness : account_name_type) (approve : bool)
| account_witness_proxy_operation (account proxy : account_name_type)
| custom_operation (required_auths : list account_name_type) (id : Z) (data_size : Z)
| feed_publish_operation (publisher : account_name_type) (exchange_rate : price)
| convert_operation (owner : account_name_type) (requestid : Z) (amount : asset)
| limit_order_create_operation (owner : account_name_type) (orderid : Z) (amount_to_sell min_to_receive : asset)
    (fill_or_kill : bool) (expiration : Z)
| limit_order_create2_operation (owner : account_name_type) (orderid : Z) (amount_to_sell : asset)
    (fill_or_kill : bool) (exchange_rate : price) (expiration : Z)
| limit_order_cancel_operation (owner : account_name_type) (orderid : Z)
| request_account_recovery_operation (recovery_account account_to_recover : account_name_type)
    (new_owner_authority : authority)
| recover_account_operation (account_to_recover : account_name_type)
    (new_owner_authority recent_owner_authority : authority)
| change_recovery_account_operation (account_to_recover new_recovery_account : account_name_type)
| transfer_to_savings_operation (from to : account_name_type) (amount : asset) (memo : string)
| transfer_from_savings_operation (from : account_name_type) (request_id : Z) (to : account_name_type)
    (amount : asset) (memo : string)
| cancel_transfer_from_savings_operation (from : account_name_type) (request_id : Z)
| decline_voting_rights_operation (account : account_name_type) (decline : bool)
| reset_account_operation (reset_account account_to_reset : account_name_type) (new_owner_authority : authority)
| set_reset_account_operation (account current_reset_account reset_account : account_name_type)
| claim_reward_balance_operation (account : account_name_type) (reward_steem reward_sbd reward_vests : asset)
| delegate_vesting_shares_operation (delegator delegatee : account_name_type) (vesting_shares : asset)
| comment_operation (parent_author : account_name_type) (parent_permlink : string) (author : account_name_type)
    (permlink title body json_metadata : string)
| comment_options_operation (author : account_name_type) (permlink : string) (max_accepted_payout : asset)
    (percent_steem_dollars : Z) (allow_votes allow_curation_rewards : bool)
    (extensions : list (list (account_name_type * Z)))
| delete_comment_operation (author : account_name_type) (permlink : string)
| vote_operation (voter author : account_name_type) (permlink : string) (weight : Z)
| witness_set_properties_operation (owner : account_name_type) (props : property_map)
| custom_json_operation (required_auths required_posting_auths : list account_name_type) (id json : string)
| custom_binary_operation (required_owner_auths required_active_auths required_posting_auths : list account_name_type)
    (required_auths : list authority) (id data : string)
| report_over_production_operation (reporter : account_name_type) (first_block second_block : block).

(** ** validate *)

Definition str_size (s : string) : Z := Z.of_nat (String.length s).
Definition is_asset_type (a : asset) (s : asset_symbol_type) : bool := symbol a =? s.
Definition validate_account_name (n : account_name_type) : result unit := fc_assert (Name.is_valid_account_name n).

(** the STEEM:SBD market, in either direction *)
Definition steem_sbd (a b : asset) : bool :=
  (is_asset_type a STEEM_SYMBOL && is_asset_type b SBD_SYMBOL)
  || (is_asset_type a SBD_SYMBOL && is_asset_type b STEEM_SYMBOL).

(** legacy_chain_properties::validate< false > *)
Definition validate_props (p : legacy_chain_properties) : result unit :=
  _ ← fc_assert (STEEM_MIN_ACCOUNT_CREATION_FEE <=? legacy_fee p);
  _ ← fc_assert (STEEM_MIN_BLOCK_SIZE_LIMIT <=? legacy_maximum_block_size p);
  _ ← fc_assert (0 <=? legacy_sbd_interest_rate p);
  fc_assert (legacy_sbd_interest_rate p <=? STEEM_100_PERCENT).

(** comment_payout_beneficiaries::validate: the loop from the second beneficiary
    on, [prev] being the one before and [sum] the weights so far *)
Fixpoint validate_more_beneficiaries (sum : Z) (prev : account_name_type) (bs : list (account_name_type * Z)) : result unit :=
  match bs with
  | [] => Ok tt
  | (account, weight) :: bs =>
      _ ← validate_account_name account;
      _ ← fc_assert (weight <=? STEEM_100_PERCENT);
      let sum := u32 (sum + weight) in
      _ ← fc_assert (sum <=? STEEM_100_PERCENT);
      _ ← fc_assert (lt_of (name_compare prev account));
      validate_more_beneficiaries sum account bs
  end.

Definition validate_beneficiaries (bs : list (account_name_type * Z)) : result unit :=
  _ ← fc_assert (negb (Z.of_nat (List.length bs) =? 0));
  _ ← fc_assert (Z.of_nat (List.length bs) <? 128);
  match bs with
  | [] => Ok tt
  | (account, weight) :: bs =>
      _ ← validate_account_name account;
      _ ← fc_assert (weight <=? STEEM_100_PERCENT);
      _ ← fc_assert (u32 weight <=? STEEM_100_PERCENT);
      validate_more_beneficiaries (u32 weight) account bs
  end.

Definition validate_permlink (permlink : string) : result unit :=
  _ ← fc_assert (str_size permlink <? STEEM_MAX_PERMLINK_LENGTH);
  fc_assert (is_utf8 permlink).

Section validation.
Context `{env : environment}.

Definition validate_json (s : string) : result unit :=
  if 0 <? str_size s then _ ← fc_assert (is_utf8 s); fc_assert (json_is_valid s) else Ok tt.

Definition validate_memo (s : string) : result unit :=
  _ ← fc_assert (str_size s <? STEEM_MAX_MEMO_SIZE); fc_assert (is_utf8 s).

Definition validate (op : operation) : result unit :=
  match op with
  | account_create_operation fee creator new_account_name owner active posting memo_key json_metadata =>
      _ ← validate_account_name new_account_name;
      _ ← fc_assert (is_asset_type fee STEEM_SYMBOL);
      _ ← Auth.validate owner; _ ← Auth.validate active;
      _ ← validate_json json_metadata;
      assert_geb fee (mk_asset 0 STEEM_SYMBOL)
  | account_create_with_delegation_operation fee delegation creator new_account_name owner active posting _ json_metadata =>
      _ ← validate_account_name new_account_name; _ ← validate_account_name creator;
      _ ← fc_assert (is_asset_type fee STEEM_SYMBOL);
      _ ← fc_assert (is_asset_type delegation VESTS_SYMBOL);
      _ ← Auth.validate owner; _ ← Auth.validate active; _ ← Auth.validate posting;
      _ ← validate_json json_metadata;
      _ ← assert_geb fee (mk_asset 0 STEEM_SYMBOL);
      assert_geb delegation (mk_asset 0 VESTS_SYMBOL)
  | account_update_operation account _ _ _ _ json_metadata =>
      _ ← validate_account_name account; validate_json json_metadata
  | claim_account_operation creator fee extensions =>
      _ ← validate_account_name creator;
      _ ← fc_assert (is_asset_type fee STEEM_SYMBOL);
      _ ← assert_geb fee (mk_asset 0 STEEM_SYMBOL);
      fc_assert (extensions =? 0)
  | create_claimed_account_operation creator new_account_name owner active posting _ json_metadata extensions =>
      _ ← validate_account_name creator; _ ← validate_account_name new_account_name;
      _ ← Auth.validate owner; _ ← Auth.validate active; _ ← Auth.validate posting;
      _ ← validate_auth_size owner; _ ← validate_auth_size active; _ ← validate_auth_size posting;
      _ ← validate_json json_metadata;
      fc_assert (extensions =? 0)
  | transfer_operation from to amt memo =>
      _ ← validate_account_name from; _ ← validate_account_name to;
      _ ← fc_assert (negb (symbol amt =? VESTS_SYMBOL));
      _ ← fc_assert (0 <? amount amt);
      validate_memo memo
  | escrow_transfer_operation from to agent _ sbd_amount steem_amount fee ratification_deadline escrow_expiration json_meta =>
      _ ← validate_account_name from; _ ← validate_account_name to; _ ← validate_account_name agent;
      _ ← fc_assert (0 <=? amount fee);
      _ ← fc_assert (0 <=? amount sbd_amount);
      _ ← fc_assert (0 <=? amount steem_amount);
      _ ← fc_assert ((0 <? amount sbd_amount) || (0 <? amount steem_amount));
      _ ← fc_assert (negb (bool_decide (from = agent)) && negb (bool_decide (to = agent)));
      _ ← fc_assert ((symbol fee =? STEEM_SYMBOL) || (symbol fee =? SBD_SYMBOL));
      _ ← fc_assert (symbol sbd_amount =? SBD_SYMBOL);
      _ ← fc_assert (symbol steem_amount =? STEEM_SYMBOL);
      _ ← fc_assert (ratification_deadline <? escrow_expiration);
      validate_json json_meta
  | escrow_approve_operation from to agent who _ _ =>
      _ ← validate_account_name from; _ ← validate_account_name to;
      _ ← validate_account_name agent; _ ← validate_account_name who;
      fc_assert (bool_decide (who = to) || bool_decide (who = agent))
  | escrow_dispute_operation from to agent who _ =>
      _ ← validate_account_name from; _ ← validate_account_name to;
      _ ← validate_account_name agent; _ ← validate_account_name who;
      fc_assert (bool_decide (who = from) || bool_decide (who = to))
  | escrow_release_operation from to agent who receiver _ sbd_amount steem_amount =>
      _ ← validate_account_name from; _ ← validate_account_name to; _ ← validate_account_name agent;
      _ ← validate_account_name who; _ ← validate_account_name receiver;
      _ ← fc_assert (bool_decide (who = from) || bool_decide (who = to) || bool_decide (who = agent));
      _ ← fc_assert (bool_decide (receiver = from) || bool_decide (receiver = to));
      _ ← fc_assert (0 <=? amount sbd_amount);
      _ ← fc_assert (0 <=? amount steem_amount);
      _ ← fc_assert ((0 <? amount sbd_amount) || (0 <? amount steem_amount));
      _ ← fc_assert (symbol sbd_amount =? SBD_SYMBOL);
      fc_assert (symbol steem_amount =? STEEM_SYMBOL)
  | transfer_to_vesting_operation from to amt =>
      _ ← validate_account_name from;
      _ ← fc_assert (symbol amt =? STEEM_SYMBOL);
      _ ← (if decide (to = "") then Ok tt else validate_account_name to);
      fc_assert (0 <? amount amt)
  | withdraw_vesting_operation account vesting_shares =>
      _ ← validate_account_name account; fc_assert (is_asset_type vesting_shares VESTS_SYMBOL)
  | set_withdraw_vesting_route_operation from_account to_account percent _ =>
      _ ← validate_account_name from_account; _ ← validate_account_name to_account;
      fc_assert ((0 <=? percent) && (percent <=? STEEM_100_PERCENT))
  | witness_update_operation owner url _ props fee =>
      _ ← validate_account_name owner;
      _ ← fc_assert (str_size url <=? STEEM_MAX_WITNESS_URL_LENGTH);
      _ ← fc_assert (0 <? str_size url);
      _ ← fc_assert (is_utf8 url);
      _ ← assert_geb fee (mk_asset 0 STEEM_SYMBOL);
      validate_props props
  | account_witness_vote_operation account witness _ =>
      _ ← validate_account_name account; validate_account_name witness
  | account_witness_proxy_operation account proxy =>
      _ ← validate_account_name account;
      _ ← (if 0 <? str_size proxy then validate_account_name proxy else Ok tt);
      fc_assert (negb (bool_decide (proxy = account)))
  | custom_operation required_auths _ _ => fc_assert (0 <? Z.of_nat (List.length required_auths))
  | feed_publish_operation publisher exchange_rate =>
      _ ← validate_account_name publisher;
      _ ← fc_assert (steem_sbd (base exchange_rate) (quote exchange_rate));
      Price.validate exchange_rate
  | convert_operation owner _ amt =>
      _ ← validate_account_name owner;
      _ ← fc_assert (is_asset_type amt SBD_SYMBOL);
      fc_assert (0 <? amount amt)
  | limit_order_create_operation owner _ amount_to_sell min_to_receive _ _ =>
      _ ← validate_account_name owner;
      _ ← fc_assert (steem_sbd amount_to_sell min_to_receive);
      p ← Price.div amount_to_sell min_to_receive;
      Price.validate p
  | limit_order_create2_operation owner _ amount_to_sell _ exchange_rate _ =>
      _ ← validate_account_name owner;
      _ ← fc_assert (symbol amount_to_sell =? symbol (base exchange_rate));
      _ ← Price.validate exchange_rate;
      _ ← fc_assert (steem_sbd amount_to_sell (quote exchange_rate));
      r ← Price.mul amount_to_sell exchange_rate;
      fc_assert (0 <? amount r)
  | limit_order_cancel_operation owner _ => validate_account_name owner
  | request_account_recovery_operation recovery_account account_to_recover new_owner_authority =>
      _ ← validate_account_name recovery_account; _ ← validate_account_name account_to_recover;
      Auth.validate new_owner_authority
  | recover_account_operation account_to_recover new_owner_authority recent_owner_authority =>
      _ ← validate_account_name account_to_recover;
      _ ← fc_assert (negb (bool_decide (new_owner_authority = recent_owner_authority)));
      _ ← fc_assert (negb (Auth.is_impossible new_owner_authority));
      _ ← fc_assert (negb (Auth.is_impossible recent_owner_authority));
      _ ← fc_assert (negb (weight_threshold new_owner_authority =? 0));
      _ ← Auth.validate new_owner_authority;
      Auth.validate recent_owner_authority
  | change_recovery_account_operation account_to_recover new_recovery_account =>
      _ ← validate_account_name account_to_recover; validate_account_name new_recovery_account
  | transfer_to_savings_operation from to amt memo
  | transfer_from_savings_operation from _ to amt memo =>
      _ ← validate_account_name from; _ ← validate_account_name to;
      _ ← fc_assert (0 <? amount amt);
      _ ← fc_assert ((symbol amt =? STEEM_SYMBOL) || (symbol amt =? SBD_SYMBOL));
      validate_memo memo
  | cancel_transfer_from_savings_operation from _ => validate_account_name from
  | decline_voting_rights_operation account _ => validate_account_name account
  | reset_account_operation reset_account account_to_reset new_owner_authority =>
      _ ← validate_account_name reset_account; _ ← validate_account_name account_to_reset;
      _ ← fc_assert (negb (Auth.is_impossible new_owner_authority));
      _ ← fc_assert (negb (weight_threshold new_owner_authority =? 0));
      Auth.validate new_owner_authority
  | set_reset_account_operation account current_reset_account reset_account =>
      _ ← validate_account_name account;
      _ ← (if 0 <? str_size current_reset_account then validate_account_name current_reset_account else Ok tt);
      _ ← validate_account_name reset_account;
      fc_assert (negb (bool_decide (current_reset_account = reset_account)))
  | claim_reward_balance_operation account reward_steem reward_sbd reward_vests =>
      _ ← validate_account_name account;
      _ ← fc_assert (is_asset_type reward_steem STEEM_SYMBOL);
      _ ← fc_assert (is_asset_type reward_sbd SBD_SYMBOL);
      _ ← fc_assert (is_asset_type reward_vests VESTS_SYMBOL);
      _ ← fc_assert (0 <=? amount reward_steem);
      _ ← fc_assert (0 <=? amount reward_sbd);
      _ ← fc_assert (0 <=? amount reward_vests);
      fc_assert ((0 <? amount reward_steem) || (0 <? amount reward_sbd) || (0 <? amount reward_vests))
  | delegate_vesting_shares_operation delegator delegatee vesting_shares =>
      _ ← validate_account_name delegator; _ ← validate_account_name delegatee;
      _ ← fc_assert (negb (bool_decide (delegator = delegatee)));
      _ ← fc_assert (is_asset_type vesting_shares VESTS_SYMBOL);
      assert_geb vesting_shares (mk_asset 0 VESTS_SYMBOL)
  | comment_operation parent_author parent_permlink author permlink title body json_metadata =>
      _ ← fc_assert (str_size title <? 256);
      _ ← fc_assert (is_utf8 title);
      _ ← fc_assert (0 <? str_size body);
      _ ← fc_assert (is_utf8 body);
      _ ← (if 0 <? str_size parent_author then validate_account_name parent_author else Ok tt);
      _ ← validate_account_name author;
      _ ← validate_permlink parent_permlink; _ ← validate_permlink permlink;
      if 0 <? str_size json_metadata then fc_assert (json_is_valid json_metadata) else Ok tt
  | comment_options_operation author permlink max_accepted_payout percent_steem_dollars _ _ extensions =>
      _ ← validate_account_name author;
      _ ← fc_assert (percent_steem_dollars <=? STEEM_100_PERCENT);
      _ ← fc_assert (symbol max_accepted_payout =? SBD_SYMBOL);
      _ ← fc_assert (0 <=? amount max_accepted_payout);
      _ ← validate_permlink permlink;
      foldM (fun _ bs => validate_beneficiaries bs) tt extensions
  | delete_comment_operation author permlink => _ ← validate_permlink permlink; validate_account_name author
  | vote_operation voter author permlink weight =>
      _ ← validate_account_name voter; _ ← validate_account_name author;
      _ ← fc_assert (Z.abs weight <=? STEEM_100_PERCENT);
      validate_permlink permlink
  | witness_set_properties_operation owner props =>
      _ ← validate_account_name owner; validate_witness_props uninitialized props
  | custom_json_operation required_auths required_posting_auths id json =>
      _ ← fc_assert (0 <? Z.of_nat (List.length required_auths + List.length required_posting_auths));
      _ ← fc_assert (str_size id <=? 32);
      _ ← fc_assert (is_utf8 json);
      fc_assert (json_is_valid json)
  | custom_binary_operation owner_auths active_auths posting_auths required_auths id _ =>
      _ ← fc_assert (0 <? Z.of_nat (List.length owner_auths + List.length active_auths + List.length posting_auths));
      _ ← fc_assert (str_size id <=? 32);
      foldM (fun _ a => Auth.validate a) tt required_auths
  | report_over_production_operation reporter first_block second_block =>
      _ ← validate_account_name reporter; _ ← validate_account_name (witness first_block);
      _ ← fc_assert (bool_decide (witness first_block = witness second_block));
      _ ← fc_assert (timestamp first_block =? timestamp second_block);
      _ ← fc_assert (signee first_block =? signee second_block);
      fc_assert (negb (block_id first_block =? block_id second_block))
  end.
End validation.

(** ** Required authorities *)

Definition required_active (op : operation) : list account_name_type :=
  match op with
  | account_create_operation _ creator _ _ _ _ _ _ => [creator]
  | account_create_with_delegation_operation _ _ creator _ _ _ _ _ _ => [creator]
  | account_update_operation account owner _ _ _ _ => match owner with Some _ => [] | None => [account] end
  | claim_account_operation creator _ _ => [creator]
  | create_claimed_account_operation creator _ _ _ _ _ _ _ => [creator]
  | transfer_operation from _ amt _ => if symbol amt =? VESTS_SYMBOL then [] else [from]
  | escrow_transfer_operation from _ _ _ _ _ _ _ _ _ => [from]
  | escrow_approve_operation _ _ _ who _ _ => [who]
  | escrow_dispute_operation _ _ _ who _ => [who]
  | escrow_release_operation _ _ _ who _ _ _ _ => [who]
  | transfer_to_vesting_operation from _ _ => [from]
  | withdraw_vesting_operation account _ => [account]
  | set_withdraw_vesting_route_operation from_account _ _ _ => [from_account]
  | witness_update_operation owner _ _ _ _ => [owner]
  | account_witness_vote_operation account _ _ => [account]
  | account_witness_proxy_operation account _ => [account]
  | custom_operation required_auths _ _ => required_auths
  | feed_publish_operation publisher _ => [publisher]
  | convert_operation owner _ _ => [owner]
  | limit_order_create_operation owner _ _ _ _ _ => [owner]
  | limit_order_create2_operation owner _ _ _ _ _ => [owner]
  | limit_order_cancel_operation owner _ => [owner]
  | request_account_recovery_operation recovery_account _ _ => [recovery_account]
  | transfer_to_savings_operation from _ _ _ => [from]
  | transfer_from_savings_operation from _ _ _ _ => [from]
  | cancel_transfer_from_savings_operation from _ => [from]
  | reset_account_operation reset_account _ _ => [reset_account]
  | delegate_vesting_shares_operation delegator _ _ => [delegator]
  | custom_json_operation required_auths _ _ _ => required_auths
  | custom_binary_operation _ required_active_auths _ _ _ _ => required_active_auths
  | recover_account_operation _ _ _ | change_recovery_account_operation _ _ | decline_voting_rights_operation _ _
  | set_reset_account_operation _ _ _ | claim_reward_balance_operation _ _ _ _
  | comment_operation _ _ _ _ _ _ _ | comment_options_operation _ _ _ _ _ _ _ | delete_comment_operation _ _
  | vote_operation _ _ _ _ | witness_set_properties_operation _ _
  | report_over_production_operation _ _ _ => []
  end.

Definition required_owner (op : operation) : list account_name_type :=
  match op with
  | account_update_operation account owner _ _ _ _ => match owner with Some _ => [account] | None => [] end
  | transfer_operation from _ amt _ => if symbol amt =? VESTS_SYMBOL then [from] else []
  | change_recovery_account_operation account_to_recover _ => [account_to_recover]
  | decline_voting_rights_operation account _ => [account]
  | set_reset_account_operation account current_reset_account _ =>
      if str_size current_reset_account =? 0 then [] else [account]
  | custom_binary_operation required_owner_auths _ _ _ _ _ => required_owner_auths
  | _ => []
  end.

Definition required_posting (op : operation) : list account_name_type :=
  match op with
  | set_reset_account_operation account current_reset_account _ =>
      if str_size current_reset_account =? 0 then [account] else []
  | claim_reward_balance_operation account _ _ _ => [account]
  | comment_operation _ _ author _ _ _ _ | comment_options_operation author _ _ _ _ _ _
  | delete_comment_operation author _ => [author]
  | vote_operation voter _ _ _ => [voter]
  | custom_json_operation _ required_posting_auths _ _ => required_posting_auths
  | custom_binary_operation _ _ required_posting_auths _ _ _ => required_posting_auths
  | _ => []
  end.

(** unpacking the key of witness_set_properties may throw *)
Definition required_authorities (op : operation) : result (list authority) :=
  match op with
  | recover_account_operation _ new_owner_authority recent_owner_authority =>
      Ok [new_owner_authority; recent_owner_authority]
  | witness_set_properties_operation _ props => a ← witness_props_authority props; Ok [a]
  | custom_binary_operation _ _ _ required_auths _ _ => Ok required_auths
  | _ => Ok []
  end.

(** ** Evaluation *)

Definition custom_evaluator (producing : bool) (db : database) (required_auths : list account_name_type)
    (data_size : Z) : result database :=
  _ ← fc_assert (negb producing || (data_size <=? 8192));
  _ ← fc_assert (Z.of_nat (List.length required_auths) <=? STEEM_MAX_AUTHORITY_MEMBERSHIP);
  Ok db.

Section evaluation.
Context `{env : environment}.

(** the try block around the interpreter: its exceptions count when a block is
    being produced, and only those of fc *)
Definition run_interpreter (producing : bool) (db : database) (id data : string) : result database :=
  match interpret db id data with
  | threw_fc_exception e => if producing then Throw e else Ok db
  | not_interpreted | interpreted | threw_other => Ok db
  end.

Definition custom_json_evaluator (producing : bool) (db : database) (required_auths required_posting_auths : list account_name_type)
    (id json : string) : result database :=
  _ ← fc_assert (negb producing || (str_size json <=? 8192));
  let num_auths := Z.of_nat (List.length required_auths + List.length required_posting_auths) in
  _ ← fc_assert (num_auths <=? STEEM_MAX_AUTHORITY_MEMBERSHIP);
  run_interpreter producing db id json.

Definition custom_binary_evaluator (producing : bool) (db : database)
    (required_owner_auths required_active_auths required_posting_auths : list account_name_type)
    (required_auths : list authority) (id data : string) : result database :=
  _ ← (if producing then _ ← fc_assert (str_size data <=? 8192); fc_assert false else Ok tt);
  let num_auths := Z.of_nat (List.length required_owner_auths + List.length required_active_auths
                             + List.length required_posting_auths) in
  let num_auths := fold_left (fun n a => n + Z.of_nat (List.length (key_auths a)) + Z.of_nat (List.length (account_auths a)))
                     required_auths num_auths in
  _ ← fc_assert (num_auths <=? STEEM_MAX_AUTHORITY_MEMBERSHIP);
  run_interpreter producing db id data.

(** Both evaluators begin with [FC_ASSERT( false )]. *)
Definition reset_account_evaluator (db : database) : result database := Throw assert_exception.
Definition set_reset_account_evaluator (db : database) : result database := Throw assert_exception.

(** the evaluator has an empty body *)
Definition report_over_production_evaluator (db : database) (reporter : account_name_type) (first_block second_block : block)
    : result database := Ok db.

Definition apply_operation (producing : bool) (db : database) (op : operation) : result database :=
  match op with
  | account_create_operation fee creator new_account_name owner active posting memo_key json_metadata =>
      account_create_evaluator producing db fee creator new_account_name owner active posting memo_key json_metadata
  | account_create_with_delegation_operation fee delegation creator name owner active posting memo_key json_metadata =>
      account_create_with_delegation_evaluator producing db fee delegation creator name owner active posting
        memo_key json_metadata
  | account_update_operation account owner active posting memo_key json_metadata =>
      account_update_evaluator db account owner active posting memo_key json_metadata
  | claim_account_operation creator fee _ => claim_account_evaluator db creator fee
  | create_claimed_account_operation creator name owner active posting memo_key json_metadata _ =>
      create_claimed_account_evaluator db creator name owner active posting memo_key json_metadata
  | transfer_operation from to amt _ => transfer_evaluator db from to amt
  | escrow_transfer_operation from to agent escrow_id sbd_amount steem_amount fee deadline expiration _ =>
      escrow_transfer_evaluator db from to sbd_amount steem_amount escrow_id agent fee deadline expiration
  | escrow_approve_operation from to agent who escrow_id approve =>
      escrow_approve_evaluator db from to agent who escrow_id approve
  | escrow_dispute_operation from to agent _ escrow_id => escrow_dispute_evaluator db from to agent escrow_id
  | escrow_release_operation from to agent who receiver escrow_id sbd_amount steem_amount =>
      escrow_release_evaluator db from to agent who receiver escrow_id sbd_amount steem_amount
  | transfer_to_vesting_operation from to amt => transfer_to_vesting_evaluator db from to amt
  | withdraw_vesting_operation account vesting_shares => withdraw_vesting_evaluator db account vesting_shares
  | set_withdraw_vesting_route_operation from_account to_account percent auto_vest =>
      set_withdraw_vesting_route_evaluator db from_account to_account percent auto_vest
  | witness_update_operation owner url key props _ => witness_update_evaluator producing db owner url key props
  | account_witness_vote_operation account witness approve =>
      account_witness_vote_evaluator db account witness approve
  | account_witness_proxy_operation account proxy => account_witness_proxy_evaluator db account proxy
  | custom_operation required_auths _ data_size => custom_evaluator producing db required_auths data_size
  | feed_publish_operation publisher exchange_rate => feed_publish_evaluator db publisher exchange_rate
  | convert_operation owner requestid amt => convert_evaluator db owner requestid amt
  | limit_order_create_operation owner orderid amount_to_sell min_to_receive fill_or_kill expiration =>
      limit_order_create_evaluator db owner orderid amount_to_sell min_to_receive fill_or_kill expiration
  | limit_order_create2_operation owner orderid amount_to_sell fill_or_kill exchange_rate expiration =>
      limit_order_create2_evaluator db owner orderid amount_to_sell fill_or_kill exchange_rate expiration
  | limit_order_cancel_operation owner orderid => limit_order_cancel_evaluator db owner orderid
  | request_account_recovery_operation recovery_account account_to_recover new_owner_authority =>
      request_account_recovery_evaluator db recovery_account account_to_recover new_owner_authority
  | recover_account_operation account_to_recover new_owner_authority recent_owner_authority =>
      recover_account_evaluator db account_to_recover new_owner_authority recent_owner_authority
  | change_recovery_account_operation account_to_recover new_recovery_account =>
      change_recovery_account_evaluator db account_to_recover new_recovery_account
  | transfer_to_savings_operation from to amt _ => transfer_to_savings_evaluator db from to amt
  | transfer_from_savings_operation from request_id to amt memo =>
      transfer_from_savings_evaluator db from request_id to amt memo
  | cancel_transfer_from_savings_operation from request_id =>
      cancel_transfer_from_savings_evaluator db from request_id
  | decline_voting_rights_operation account decline => decline_voting_rights_evaluator db account decline
  | reset_account_operation _ _ _ => reset_account_evaluator db
  | set_reset_account_operation _ _ _ => set_reset_account_evaluator db
  | claim_reward_balance_operation account reward_steem reward_sbd reward_vests =>
      claim_reward_balance_evaluator db account reward_steem reward_sbd reward_vests
  | delegate_vesting_shares_operation delegator delegatee vesting_shares =>
      delegate_vesting_shares_evaluator db delegator delegatee vesting_shares
  | comment_operation parent_author parent_permlink author permlink title body json_metadata =>
      comment_evaluator patch_body db parent_author parent_permlink author permlink title body json_metadata
  | comment_options_operation author permlink max_accepted_payout percent allow_votes allow_curation extensions =>
      comment_options_evaluator db author permlink max_accepted_payout percent allow_votes allow_curation extensions
  | delete_comment_operation author permlink => delete_comment_evaluator db author permlink
  | vote_operation voter author permlink weight => vote_evaluator db voter author permlink weight
  | witness_set_properties_operation owner props => witness_set_properties_evaluator db owner props
  | custom_json_operation required_auths required_posting_auths id json =>
      custom_json_evaluator producing db required_auths required_posting_auths id json
  | custom_binary_operation owner_auths active_auths posting_auths required_auths id data =>
      custom_binary_evaluator producing db owner_auths active_auths posting_auths required_auths id data
  | report_over_production_operation reporter first_block second_block =>
      report_over_production_evaluator db reporter first_block second_block
  end.
End evaluation.

(** ** Every operation keeps the books *)

Lemma steem_sbd_liquid a b : steem_sbd a b = true -> liquid_symbol (symbol a) /\ liquid_symbol (symbol b).
Proof.
  unfold steem_sbd, is_asset_type, liquid_symbol.
  destruct (Z.eqb_spec (symbol a) STEEM_SYMBOL), (Z.eqb_spec (symbol b) SBD_SYMBOL), (Z.eqb_spec (symbol a) SBD_SYMBOL),
    (Z.eqb_spec (symbol b) STEEM_SYMBOL); simpl; intros; auto; discriminate.
Qed.

Section conservation.
Context `{env : environment}.

Lemma custom_evaluators_keep producing db db' :
  (forall ra rp id js, custom_json_evaluator producing db ra rp id js = Ok db' -> db' = db) /\
  (forall ro rac rp ras id d, custom_binary_evaluator producing db ro rac rp ras id d = Ok db' -> db' = db).
Proof.
  assert (forall id d, run_interpreter producing db id d = Ok db' -> db' = db) as R.
  { intros id d H. unfold run_interpreter in H. destruct (interpret db id d), producing; congruence. }
  split; intros *; unfold custom_json_evaluator, custom_binary_evaluator; intros H.
  - bind H as u1 U1. bind H as u2 U2. by apply R in H.
  - bind H as u1 U1. bind H as u2 U2. by apply R in H.
Qed.

Lemma witness_set_properties_conserves db owner props db' :
  wf db -> witness_set_properties_evaluator db owner props = Ok db' -> conserves db db'.
Proof.
  intros Hwf H. apply same_ledger_conserves; [done|]. unfold witness_set_properties_evaluator in H.
  bind H as w Hw. bind H as v Hv. bind H as sk Hsk. bind H as u1 U1. bind H as fee F. bind H as size_ S. bind H as rate R.
  bind H as limit L. bind H as key K. bind H as ex E. bind H as url U. by apply modify_witness_inv in H as (? & ? & _ & _ & ->).
Qed.

#[local] Hint Resolve witness_set_properties_conserves : conserves.

(** an operation that passed [validate] and was applied conserves every asset *)
Lemma valid_operation_conserves producing db op db' :
  wf db -> proxies_ok db -> fees_paid db -> validate op = Ok tt ->
  apply_operation producing db op = Ok db' -> conserves db db'.
Proof.
  intros Hwf Hp Hf V H. destruct op; simpl in H; try done; eauto 3 with conserves.
  - eapply account_create_conserves; [done| |done]. simpl in V. bind V as u1 V1. bind V as u2 V2. bind V as u3 V3.
    bind V as u4 V4. bind V as u5 V5. by apply assert_geb_Ok in V as [_ ?].
  - eapply account_create_with_delegation_conserves; [done| |done]. simpl in V. bind V as u1 V1. bind V as u2 V2.
    bind V as u3 V3. bind V as u4 V4. bind V as u5 V5. bind V as u6 V6. bind V as u7 V7. bind V as u8 V8.
    bind V as u9 V9. by apply assert_geb_Ok in V9 as [_ ?].
  - by eapply (proj1 witness_evaluators_conserve).
  - unfold custom_evaluator in H. result_inv. by apply moves_refl.
  - by eapply (proj1 (proj2 witness_evaluators_conserve)).
  - eapply convert_conserves; [done| |done]. simpl in V. bind V as u1 V1. bind V as u2 V2.
    apply fc_assert_Ok in V2. by apply Z.eqb_eq.
  - eapply limit_order_create_conserves; [done| |done]. simpl in V. bind V as u1 V1. bind V as u2 V2.
    apply fc_assert_Ok in V2. by apply steem_sbd_liquid in V2 as [_ ?].
  - simpl in V. bind V as u1 V1. bind V as u2 V2. bind V as u3 V3. bind V as u4 V4.
    apply fc_assert_Ok in V2, V4. apply Z.eqb_eq in V2. apply steem_sbd_liquid in V4 as [_ ?].
    by eapply limit_order_create2_conserves.
  - by eapply (proj1 recovery_evaluators_conserve).
  - by eapply (proj1 (proj2 recovery_evaluators_conserve)).
  - by eapply (proj2 (proj2 recovery_evaluators_conserve)).
  - by eapply (proj2 (proj2 witness_evaluators_conserve)).
  - apply custom_evaluators_keep in H as ->. by apply moves_refl.
  - apply custom_evaluators_keep in H as ->. by apply moves_refl.
  - injection H as <-. by apply moves_refl.
Qed.
End conservation.
