(* ===== verification/Invariant.v ===== *)
(** Invariant: the ledger invariant is inductive.

    [ledger_ok] collects what validate_invariants checks with what the proofs of
    the single operations rely on: the type invariant, the forest of proxies, and
    the fees of approved escrows.  [keeps] says that a piece of code touches
    neither escrows nor proxies; every evaluator but the escrow and proxy ones
    is of that kind, so that [ledger_ok] holds after any sequence of
    transactions. *)
From Stdlib Require Import ZArith Lia String Ascii.
From stdpp Require Import base gmap strings list sorting.
From S2P Require Import Prelude.
From S2P Require Import Safe.
From S2P Require Import Asset.
From S2P Require Import Authority.
From S2P Require Import Objects.
From S2P Require Import Balance.
From S2P Require Import Supply.
From S2P Require Import Transfers.
From S2P Require Import Market.
From S2P Require Import Vesting.
From S2P Require Import Accounts.
From S2P Require Import Voting.
From S2P Require Import WitnessProps.
From S2P Require Import Comments.
From S2P Require Import Operation.
Local Open Scope string_scope.
Local Open Scope Z_scope.
Local Open Scope fc_scope.

(** ** Code that touches neither escrows nor proxies *)

(** accounts keep their proxies, and new ones vote for themselves *)
Definition same_proxies (db db' : database) : Prop :=
  forall m, match Db.accounts db' !! m, Db.accounts db !! m with
            | Some a', Some a => Account.proxy a' = Account.proxy a
            | Some a', None => Account.proxy a' = STEEM_PROXY_TO_SELF_ACCOUNT
            | None, Some _ => False
            | None, None => True
            end.

#[export] Instance same_proxies_preorder : PreOrder same_proxies.
Proof.
  split; [intros db m; by destruct (_ !! m)|].
  intros x y z A1 A2 m. specialize (A1 m). specialize (A2 m).
  destruct (Db.accounts x !! m), (Db.accounts y !! m), (Db.accounts z !! m); try done; congruence.
Qed.

(** the time, the number and the id of the head block, which only a new block changes *)
Definition head_block_id (db : database) : Z := Gpo.head_block_id (Db.gpo db).
Definition same_clock (db db' : database) : Prop :=
  head_block_time db' = head_block_time db /\ head_block_num db' = head_block_num db /\ head_block_id db' = head_block_id db.

#[export] Instance same_clock_preorder : PreOrder same_clock.
Proof. split; [done|]. intros x y z (?&?&?) (?&?&?). split_and!; congruence. Qed.

Definition keeps (db db' : database) : Prop :=
  Db.escrows db' = Db.escrows db /\ same_proxies db db' /\ same_clock db db'.

#[export] Instance keeps_preorder : PreOrder keeps.
Proof. split; [done|]. intros x y z (E1 & A1 & C1) (E2 & A2 & C2). split; [congruence|split; by etrans]. Qed.

Lemma frame_keeps db db' : frame db db' -> same_clock db db' -> keeps db db'.
Proof.
  intros F C. split; [by apply frame_escrows|]. split; [|done]. destruct F as [_ F]. intros m. specialize (F m).
  destruct (Db.accounts db' !! m), (Db.accounts db !! m); simplify_eq/=; done.
Qed.

Lemma same_proxies_ok db db' : same_proxies db db' -> proxies_ok db -> proxies_ok db'.
Proof.
  intros K Hok.
  assert (forall m, reaches_self db m -> reaches_self db' m) as Hall.
  { induction 1 as [m a Ha Hp|m a Ha Hp _ IH]; specialize (K m); rewrite Ha in K;
      destruct (Db.accounts db' !! m) as [b|] eqn:Hb; try done.
    - eapply reaches_here; [done|congruence].
    - eapply reaches_next; [done|congruence|by rewrite K]. }
  intros m b Hb. destruct (Db.accounts db !! m) as [a|] eqn:Ha; [apply Hall; by eapply Hok|].
  specialize (K m). rewrite Ha, Hb in K. by eapply reaches_here.
Qed.

(** the primitives *)
Lemma modify_account_clock db n f db' : modify_account db n f = Ok db' -> same_clock db db'.
Proof. by intros (a & a' & _ & _ & ->)%modify_account_inv. Qed.
Lemma modify_gpo_clock db f db' :
  modify_gpo db f = Ok db' ->
  (forall g g', f g = Ok g' -> Gpo.time g' = Gpo.time g /\ Gpo.head_block_number g' = Gpo.head_block_number g /\
     Gpo.head_block_id g' = Gpo.head_block_id g) ->
  same_clock db db'.
Proof. intros (g & Hg & ->)%modify_gpo_inv Hf. by apply Hf in Hg. Qed.

Ltac keeps_time := cbv beta; intros; result_case; done.
Ltac clock_run :=
  intros; result_case;
  repeat match goal with
  | H : pay_interest _ ?i = Ok _ |- _ => destruct i; simpl in H; result_inv
  | H : modify_account _ _ _ = Ok _ |- _ => apply modify_account_clock in H
  | H : modify_gpo _ _ = Ok _ |- _ => apply modify_gpo_clock in H; [|keeps_time]
  end; first [done|by etrans].

Lemma adjust_balance_keeps db n d db' : adjust_balance db n d = Ok db' -> keeps db db'.
Proof.
  intros H. apply frame_keeps; [by eapply modify_balance_frame|]. revert H. unfold adjust_balance, modify_balance. clock_run.
Qed.
Lemma adjust_savings_keeps db n d db' : adjust_savings_balance db n d = Ok db' -> keeps db db'.
Proof.
  intros H. apply frame_keeps; [by eapply adjust_savings_balance_frame|]. revert H. unfold adjust_savings_balance. clock_run.
Qed.
Lemma adjust_reward_keeps db n v s db' : adjust_reward_balance db n v s = Ok db' -> keeps db db'.
Proof.
  intros H. apply frame_keeps; [by eapply adjust_reward_balance_frame|]. revert H.
  unfold adjust_reward_balance, modify_reward_balance. clock_run.
Qed.
Lemma modify_gpo_keeps db f db' :
  modify_gpo db f = Ok db' ->
  (forall g g', f g = Ok g' -> Gpo.time g' = Gpo.time g /\ Gpo.head_block_number g' = Gpo.head_block_number g /\
     Gpo.head_block_id g' = Gpo.head_block_id g) ->
  keeps db db'.
Proof. intros H Hf. apply frame_keeps; [by eapply modify_gpo_frame|by eapply modify_gpo_clock]. Qed.
Lemma modify_witness_keeps db n f db' : modify_witness db n f = Ok db' -> keeps db db'.
Proof. intros (w & w' & _ & _ & ->)%modify_witness_inv. by apply frame_keeps. Qed.
Lemma modify_account_keeps db n f db' :
  modify_account db n f = Ok db' -> (forall a a', f a = Ok a' -> Account.proxy a' = Account.proxy a) -> keeps db db'.
Proof. intros H Hf. apply frame_keeps; [by eapply modify_account_frame|by eapply modify_account_clock]. Qed.
Lemma adjust_witness_votes_keeps db n d db' : adjust_witness_votes db n d = Ok db' -> keeps db db'.
Proof.
  intros [L F]%adjust_witness_votes_ledger. apply frame_keeps; [done|].
  destruct L as (_&_&_&_&_&_&_&_&E). unfold same_clock, head_block_time, head_block_num, head_block_id. by rewrite E.
Qed.

Lemma adjust_proxied_at_keeps togo : forall db n d db', adjust_proxied_at togo db n d = Ok db' -> keeps db db'.
Proof.
  induction togo as [|togo IH]; intros db n d db' H; simpl in H; bind H as a Ha; destruct (decide _);
    try (by eapply adjust_witness_votes_keeps).
  - by injection H as <-.
  - bind H as db1 H1. etrans; [|by eapply IH]. eapply modify_account_keeps; [exact H1|keeps_proxy].
Qed.
Lemma adjust_proxied_keeps db n d db' : adjust_proxied_witness_votes db n d = Ok db' -> keeps db db'.
Proof. apply adjust_proxied_at_keeps. Qed.

Lemma create_keeps {K V} `{Countable K} idx (field : database -> gmap K V) `{!Setter field} key c db db' :
  create idx field key c db = Ok db' ->
  (forall g d, Db.escrows (d <| field ::= g |>) = Db.escrows d /\ Db.accounts (d <| field ::= g |>) = Db.accounts d /\
     Db.gpo (d <| field ::= g |>) = Db.gpo d) ->
  keeps db db'.
Proof.
  intros (_ & ids & ->)%create_inv Hf. destruct (Hf (<[key := c (Db.next_id db idx)]>) (db <| Db.next_id := ids |>)) as (E1 & E2 & E3).
  split; [by rewrite E1|]. unfold same_clock, head_block_time, head_block_num, head_block_id. rewrite E3. split; [|done].
  intros m. rewrite E2. simpl. by destruct (Db.accounts db !! m).
Qed.

Lemma modify_obj_keeps {K V} `{Countable K} (field : database -> gmap K V) `{!Setter field} key f db db' :
  modify_obj field key f db = Ok db' ->
  (forall g d, Db.escrows (d <| field ::= g |>) = Db.escrows d /\ Db.accounts (d <| field ::= g |>) = Db.accounts d /\
     Db.gpo (d <| field ::= g |>) = Db.gpo d) ->
  keeps db db'.
Proof.
  intros (v & v' & _ & _ & ->)%modify_obj_inv Hf. destruct (Hf (<[key := v']>) db) as (E1 & E2 & E3).
  split; [by rewrite E1|]. unfold same_clock, head_block_time, head_block_num, head_block_id. rewrite E3. split; [|done].
  intros m. rewrite E2. by destruct (Db.accounts db !! m).
Qed.

Lemma create_account_keeps db key c db' :
  create account_index Db.accounts key c db = Ok db' ->
  (forall i, Account.proxy (c i) = STEEM_PROXY_TO_SELF_ACCOUNT) -> keeps db db'.
Proof.
  intros (N & ids & ->)%create_inv Hc. split; [done|]. split; [|done]. intros m. simpl. destruct (decide (m = key)) as [->|Nm].
  - rewrite lookup_insert_eq, N. apply Hc.
  - rewrite lookup_insert_ne by done. by destruct (Db.accounts db !! m).
Qed.

(** Every successful primitive of the context as a [keeps] fact. *)
Ltac keeps_facts :=
  repeat match goal with
  | H : adjust_balance _ _ _ = Ok _ |- _ => apply adjust_balance_keeps in H
  | H : adjust_savings_balance _ _ _ = Ok _ |- _ => apply adjust_savings_keeps in H
  | H : adjust_reward_balance _ _ _ _ = Ok _ |- _ => apply adjust_reward_keeps in H
  | H : modify_gpo _ _ = Ok _ |- _ => apply modify_gpo_keeps in H; [|keeps_time]
  | H : modify_witness _ _ _ = Ok _ |- _ => apply modify_witness_keeps in H
  | H : adjust_witness_votes _ _ _ = Ok _ |- _ => apply adjust_witness_votes_keeps in H
  | H : adjust_proxied_witness_votes _ _ _ = Ok _ |- _ => apply adjust_proxied_keeps in H
  | H : modify_account _ _ _ = Ok _ |- _ => apply modify_account_keeps in H;
      [|first [keeps_proxy|cbv beta; intros; result_inv; repeat case_match; reflexivity]]
  | H : create _ _ _ _ _ = Ok _ |- _ => apply create_keeps in H; [|done]
  | H : modify_obj _ _ _ _ = Ok _ |- _ => apply modify_obj_keeps in H; [|done]
  end.

Ltac field_keeps := split; [reflexivity|]; split; [|done]; let m := fresh in intros m; simpl; by destruct (Db.accounts _ !! m).

(** Chains the [keeps] facts from the first database to the last. *)
Ltac keeps_chain :=
  first
    [ reflexivity
    | eassumption
    | match goal with
      | H : keeps ?c ?b |- keeps ?a ?b => transitivity c; [clear H; keeps_chain|exact H]
      | |- keeps _ (remove _ _ ?d) => transitivity d; [keeps_chain|field_keeps]
      | |- keeps _ (modify_field _ _ ?d) => transitivity d; [keeps_chain|field_keeps]
      end ].

Ltac keeps_run := intros; result_case; keeps_facts; keeps_chain.

Lemma create_vesting_keeps db n liquid reward db' v : create_vesting db n liquid reward = Ok (db', v) -> keeps db db'.
Proof. unfold create_vesting. destruct reward; keeps_run. Qed.

Lemma cancel_order_keeps db k db' : cancel_order db k = Ok db' -> keeps db db'.
Proof. unfold cancel_order. keeps_run. Qed.

Lemma fill_order_keeps db k p r db' b : fill_order db k p r = Ok (db', b) -> keeps db db'.
Proof.
  unfold fill_order. intros. result_case; keeps_facts;
    repeat match goal with H : cancel_order _ _ = Ok _ |- _ => apply cancel_order_keeps in H end; keeps_chain.
Qed.

Lemma match_orders_keeps db nk ok p db' r : match_orders db nk ok p = Ok (db', r) -> keeps db db'.
Proof.
  intros H. unfold match_orders in H. bind H as n Hn. bind H as o Ho. bind H as u1 U1. bind H as u2 U2.
  bind H as u3 U3. bind H as u4 U4. bind H as u5 U5. bind H as [nr or] Hm. bind H as u6 U6.
  bind H as [db1 f1] H1. bind H as [db2 f2] H2. bind H as u7 U7. injection H as <- _.
  etrans; by eapply fill_order_keeps.
Qed.

Lemma match_all_keeps nk l : forall db db', match_all db nk l = Ok db' -> keeps db db'.
Proof.
  induction l as [|[k o] l IH]; intros db db' H; simpl in H; [by injection H as <-|].
  bind H as [db1 [f g]] H1. apply match_orders_keeps in H1. destruct f; [by injection H as <-|].
  etrans; [exact H1|by apply IH].
Qed.

Lemma create_limit_order_keeps db owner orderid amt rate fok expiration db' :
  create_limit_order db owner orderid amt rate fok expiration = Ok db' -> keeps db db'.
Proof.
  unfold create_limit_order, apply_order. intros H. result_case.
  repeat match goal with H : match_all _ _ _ = Ok _ |- _ => apply match_all_keeps in H end. keeps_facts. keeps_chain.
Qed.

(** ** The evaluators *)

Lemma create_account_objects_keeps db creator name owner active posting key json received db' :
  create_account_objects db creator name owner active posting key json received = Ok db' -> keeps db db'.
Proof.
  unfold create_account_objects. intros H. bind H as db1 H1. apply create_account_keeps in H1; [keeps_facts; keeps_chain|].
  intros i. unfold initialize_account_object. by destruct (decide _).
Qed.

Lemma update_owner_authority_keeps db n auth db' : update_owner_authority db n auth = Ok db' -> keeps db db'.
Proof. unfold update_owner_authority. keeps_run. Qed.

Lemma content_keeps db db' : content_only db db' -> keeps db db'.
Proof.
  intros [E A]. split; [by rewrite E|]. split; [|by rewrite E]. intros m. specialize (A m).
  destruct (Db.accounts db !! m), (Db.accounts db' !! m); try done. by rewrite A.
Qed.

(** the facts of the composed operations, then the primitives *)
Ltac keeps_ops :=
  repeat match goal with
  | H : create_vesting _ _ _ _ = Ok (_, _) |- _ => apply create_vesting_keeps in H
  | H : create_account_objects _ _ _ _ _ _ _ _ _ = Ok _ |- _ => apply create_account_objects_keeps in H
  | H : update_owner_authority _ _ _ = Ok _ |- _ => apply update_owner_authority_keeps in H
  | H : cancel_order _ _ = Ok _ |- _ => apply cancel_order_keeps in H
  end;
  keeps_facts; keeps_chain.

Definition touches_escrow_or_proxy (op : operation) : bool :=
  match op with
  | escrow_transfer_operation _ _ _ _ _ _ _ _ _ _ | escrow_approve_operation _ _ _ _ _ _
  | escrow_dispute_operation _ _ _ _ _ | escrow_release_operation _ _ _ _ _ _ _ _
  | account_witness_proxy_operation _ _ => true
  | _ => false
  end.

Lemma operation_keeps `{env : environment} producing db op db' :
  touches_escrow_or_proxy op = false -> apply_operation producing db op = Ok db' -> keeps db db'.
Proof.
  intros Ht H. destruct op; try done; clear Ht; simpl in H.
  - unfold account_create_evaluator in H. result_case; keeps_ops.
  - unfold account_create_with_delegation_evaluator in H. result_case; keeps_ops.
  - unfold account_update_evaluator in H. result_case; keeps_ops.
  - unfold claim_account_evaluator in H. result_case; keeps_ops.
  - unfold create_claimed_account_evaluator in H. result_case; keeps_ops.
  - unfold transfer_evaluator in H. result_case; keeps_ops.
  - unfold transfer_to_vesting_evaluator in H. result_case; keeps_ops.
  - unfold withdraw_vesting_evaluator in H. result_case; keeps_ops.
  - unfold set_withdraw_vesting_route_evaluator in H. result_case; keeps_ops.
  - unfold witness_update_evaluator in H. result_case; keeps_ops.
  - unfold account_witness_vote_evaluator, adjust_witness_vote in H. result_case; keeps_ops.
  - unfold custom_evaluator in H. result_case; keeps_ops.
  - unfold feed_publish_evaluator in H. result_case; keeps_ops.
  - unfold convert_evaluator in H. result_case; keeps_ops.
  - by eapply create_limit_order_keeps.
  - by eapply create_limit_order_keeps.
  - unfold limit_order_cancel_evaluator in H. result_case; keeps_ops.
  - unfold request_account_recovery_evaluator in H. result_case; keeps_ops.
  - unfold recover_account_evaluator in H. result_case; keeps_ops.
  - unfold change_recovery_account_evaluator in H. result_case; keeps_ops.
  - unfold transfer_to_savings_evaluator in H. result_case; keeps_ops.
  - unfold transfer_from_savings_evaluator in H. result_case; keeps_ops.
  - unfold cancel_transfer_from_savings_evaluator in H. result_case; keeps_ops.
  - unfold decline_voting_rights_evaluator in H. result_case; keeps_ops.
  - unfold claim_reward_balance_evaluator in H. result_case; keeps_ops.
  - unfold delegate_vesting_shares_evaluator, add_delegated, add_received, sub_received in H.
    result_case; keeps_ops.
  - by eapply content_keeps, comment_content.
  - by eapply content_keeps, comment_options_content.
  - by eapply content_keeps, delete_comment_content.
  - by eapply content_keeps, vote_content.
  - unfold witness_set_properties_evaluator in H. bind H as w Hw. bind H as v Hv. bind H as sk Hsk. bind H as u1 U1.
    bind H as fee F. bind H as size_ S. bind H as rate R. bind H as limit L. bind H as key K. bind H as ex E. bind H as url U.
    by eapply modify_witness_keeps.
  - by apply custom_evaluators_keep in H as ->.
  - by apply custom_evaluators_keep in H as ->.
  - by injection H as <-.
Qed.

(** ** The escrow evaluators *)

(** the code works on the escrow [k] only *)
Definition escrow_local (k : account_name_type * Z) (db db' : database) : Prop :=
  (same_proxies db db' /\ same_clock db db') /\ delete k (Db.escrows db') = delete k (Db.escrows db).

#[export] Instance escrow_local_preorder k : PreOrder (escrow_local k).
Proof. split; [done|]. intros x y z [[P1 C1] E1] [[P2 C2] E2]. split; [split; by etrans|congruence]. Qed.

Lemma keeps_local k db db' : keeps db db' -> escrow_local k db db'.
Proof. intros (E & P & C). split; [done|by rewrite E]. Qed.

Lemma modify_escrow_local k f db db' : modify_obj Db.escrows k f db = Ok db' -> escrow_local k db db'.
Proof.
  intros (v & v' & _ & _ & ->)%modify_obj_inv. split; [split; [|done]; intros m; simpl; by destruct (_ !! m)|]. apply delete_insert_eq.
Qed.

Lemma remove_escrow_local k db : escrow_local k db (remove Db.escrows k db).
Proof. split; [split; [|done]; intros m; simpl; by destruct (_ !! m)|]. apply delete_delete_eq. Qed.

Lemma fees_local k db db' :
  escrow_local k db db' -> fees_paid db ->
  (forall e, Db.escrows db' !! k = Some e -> is_approved e = true -> amount (Escrow.pending_fee e) = 0) -> fees_paid db'.
Proof.
  intros [_ E] Hf Hk j e He Ha. destruct (decide (j = k)) as [->|N]; [by apply Hk|].
  assert (Db.escrows db !! j = Some e) as He0; [|by eapply (Hf j e)].
  rewrite <- (lookup_delete_ne _ k), <- E, lookup_delete_ne; done.
Qed.

Lemma adjust_balance_local k db n d db' : adjust_balance db n d = Ok db' -> escrow_local k db db'.
Proof. intros H. by eapply keeps_local, adjust_balance_keeps. Qed.

Lemma create_escrow_local k c db db' : create escrow_index Db.escrows k c db = Ok db' -> escrow_local k db db'.
Proof.
  intros (_ & ids & ->)%create_inv. split; [split; [|done]; intros m; simpl; by destruct (_ !! m)|]. apply delete_insert_eq.
Qed.

Lemma get_escrow_inv db n i e : get_escrow db n i = Ok e -> Db.escrows db !! (n, i) = Some e.
Proof. unfold get_escrow, find_escrow. intros H. by result_inv. Qed.

Lemma escrow_transfer_fees db from to sbd steem id agent fee rd ee db' :
  fees_paid db -> escrow_transfer_evaluator db from to sbd steem id agent fee rd ee = Ok db' ->
  (same_proxies db db' /\ same_clock db db') /\ fees_paid db'.
Proof.
  intros Hf H. unfold escrow_transfer_evaluator in H. bind H as a Ha. bind H as a2 Ha2. bind H as a3 Ha3.
  bind H as u1 U1. bind H as u2 U2. bind H as [ss sd] Hs. bind H as u3 U3. bind H as u4 U4. bind H as d1 D1.
  bind H as db1 H1. bind H as d2 D2. bind H as db2 H2.
  apply (adjust_balance_local (from, id)) in H1, H2. pose proof (create_escrow_local _ _ _ _ H) as H3.
  assert (escrow_local (from, id) db db') as L by (etrans; [exact H1|by etrans]).
  split; [apply L|]. eapply fees_local; [exact L|done|]. apply create_inv in H as (_ & ids & ->).
  intros e He. simpl in He. rewrite lookup_insert_eq in He. by injection He as <-.
Qed.

Lemma escrow_dispute_fees db from to agent id db' :
  fees_paid db -> escrow_dispute_evaluator db from to agent id = Ok db' -> (same_proxies db db' /\ same_clock db db') /\ fees_paid db'.
Proof.
  intros Hf H. unfold escrow_dispute_evaluator in H. bind H as a Ha. bind H as e He. bind H as u1 U1. bind H as u2 U2.
  bind H as u3 U3. bind H as u4 U4. bind H as u5 U5. pose proof (modify_escrow_local _ _ _ _ H) as L.
  split; [apply L|]. eapply fees_local; [exact L|done|]. apply modify_obj_inv in H as (v & v' & Hv & [= <-] & ->).
  intros e' He'. simpl in He'. rewrite lookup_insert_eq in He'. injection He' as <-. exact (Hf _ _ Hv).
Qed.

Lemma escrow_release_fees db from to agent who receiver id sbd steem db' :
  fees_paid db -> escrow_release_evaluator db from to agent who receiver id sbd steem = Ok db' ->
  (same_proxies db db' /\ same_clock db db') /\ fees_paid db'.
Proof.
  intros Hf H. unfold escrow_release_evaluator in H. bind H as a Ha. bind H as e He. bind H as u1 U1. bind H as u2 U2.
  bind H as u3 U3. bind H as u4 U4. bind H as u5 U5. bind H as u6 U6. bind H as u7 U7. bind H as db1 H1. bind H as db2 H2.
  bind H as db3 H3. bind H as e3 He3. apply adjust_balance_keeps in H1, H2.
  assert (keeps db db2) as (E2 & P2 & C2) by (by etrans). apply modify_escrow_local in H3 as L3.
  assert (escrow_local (from, id) db db3) as L by (etrans; [|exact L3]; by apply keeps_local).
  match type of H with (if ?b then _ else _) = _ => destruct b end; injection H as <-.
  - assert (escrow_local (from, id) db (remove Db.escrows (from, id) db3)) as L' by (etrans; [exact L|apply remove_escrow_local]).
    split; [apply L'|]. eapply fees_local; [exact L'|done|]. intros e' He'. simpl in He'. by rewrite lookup_delete_eq in He'.
  - split; [apply L|]. eapply fees_local; [exact L|done|]. apply modify_obj_inv in H3 as (v & v' & Hv & Hv' & ->).
    rewrite E2 in Hv. result_inv. intros e' He'. simpl in He'. rewrite lookup_insert_eq in He'. injection He' as <-.
    exact (Hf _ _ Hv).
Qed.

(** an approval flag may be set, nothing else of the escrow moves *)
Lemma approval_local (P : Prop) (c : Decision P) (approve : bool) u k f db db' :
  (if c then _ ← (u : result unit); if approve then modify_obj Db.escrows k f db else Ok db else Ok db) = Ok db' ->
  escrow_local k db db'.
Proof.
  destruct c; intros H; [|by injection H as <-]. bind H as x Hx.
  destruct approve; [by eapply modify_escrow_local|by injection H as <-].
Qed.

Lemma escrow_approve_fees db from to agent who id approve db' :
  fees_paid db -> escrow_approve_evaluator db from to agent who id approve = Ok db' ->
  (same_proxies db db' /\ same_clock db db') /\ fees_paid db'.
Proof.
  intros Hf H. unfold escrow_approve_evaluator in H. bind H as e0 E0. bind H as u1 U1. bind H as u2 U2. bind H as u3 U3.
  bind H as db1 H1. bind H as e1 E1. bind H as db2 H2. bind H as e2 E2. apply get_escrow_inv in E2.
  assert (escrow_local (from, id) db db2) as L.
  { etrans; [eapply approval_local; exact H1|eapply approval_local; exact H2]. }
  destruct (negb approve).
  - bind H as db3 H3. bind H as db4 H4. bind H as db5 H5. injection H as <-.
    apply (adjust_balance_local (from, id)) in H3, H4, H5.
    assert (escrow_local (from, id) db (remove Db.escrows (from, id) db5)) as L'
      by (do 4 (etrans; [eassumption|]); apply remove_escrow_local).
    split; [apply L'|]. eapply fees_local; [exact L'|done|]. intros e' He'. simpl in He'. by rewrite lookup_delete_eq in He'.
  - destruct (Escrow.to_approved e2 && Escrow.agent_approved e2) eqn:Hb.
    + bind H as db3 H3. apply (adjust_balance_local (from, id)) in H3. pose proof (modify_escrow_local _ _ _ _ H) as L3.
      assert (escrow_local (from, id) db db') as L' by (do 2 (etrans; [eassumption|]); exact L3).
      split; [apply L'|]. eapply fees_local; [exact L'|done|]. apply modify_obj_inv in H as (v & v' & Hv & [= <-] & ->).
      intros e' He'. simpl in He'. rewrite lookup_insert_eq in He'. by injection He' as <-.
    + injection H as <-. split; [apply L|]. eapply fees_local; [exact L|done|]. rewrite E2. intros e' [= <-].
      unfold is_approved. by rewrite Hb.
Qed.

(** ** The proxy evaluator leaves the escrows alone *)

Lemma adjust_array_keeps togo : forall db n delta db',
  adjust_proxied_array_at togo db n delta = Ok db' -> keeps db db'.
Proof.
  induction togo as [|togo IH]; intros db n delta db' H; simpl in H; bind H as a Ha; destruct (decide _);
    try (bind H as t Ht; by eapply adjust_witness_votes_keeps).
  - by injection H as <-.
  - bind H as db1 H1. etrans; [|by eapply IH]. eapply modify_account_keeps; [exact H1|keeps_proxy].
Qed.

Lemma modify_account_escrows db n f db' : modify_account db n f = Ok db' -> Db.escrows db' = Db.escrows db.
Proof. by intros (a & a' & _ & _ & ->)%modify_account_inv. Qed.

Lemma account_witness_proxy_escrows db n p db' :
  account_witness_proxy_evaluator db n p = Ok db' -> Db.escrows db' = Db.escrows db.
Proof.
  intros H. unfold account_witness_proxy_evaluator in H. bind H as a Ha. bind H as u1 U1. bind H as u2 U2.
  bind H as delta Hd. bind H as db1 H1. apply adjust_array_keeps in H1 as (E1 & _). rewrite <- E1.
  destruct (decide (p = "")); [by eapply modify_account_escrows|].
  bind H as np Hnp. bind H as u3 U3. bind H as db2 H2. bind H as db3 H3. bind H as delta2 Hd2.
  apply adjust_array_keeps in H as (-> & _). apply modify_account_escrows in H3 as ->. by apply modify_account_escrows in H2 as ->.
Qed.

(** ** The invariant *)

Record ledger_ok (db : database) : Prop := mk_ledger {
  ledger_wf : wf db;
  ledger_supply : supply_ok db;
  ledger_proxies : proxies_ok db;
  ledger_fees : fees_paid db
}.

Section invariant.
Context `{env : environment}.

Lemma operation_ledger producing db op db' :
  ledger_ok db -> validate op = Ok tt -> apply_operation producing db op = Ok db' -> ledger_ok db'.
Proof.
  intros [Hwf Hs Hp Hf] V H. pose proof (valid_operation_conserves _ _ _ _ Hwf Hp Hf V H) as C.
  assert (proxies_ok db' /\ fees_paid db') as [Hp' Hf']; [|by split; [apply C|eapply conserves_supply| |]].
  destruct (touches_escrow_or_proxy op) eqn:Ht.
  - destruct op; try discriminate; simpl in H.
    + eapply escrow_transfer_fees in H as [[P _] F]; [|done]. split; [by eapply same_proxies_ok|done].
    + eapply escrow_approve_fees in H as [[P _] F]; [|done]. split; [by eapply same_proxies_ok|done].
    + eapply escrow_dispute_fees in H as [[P _] F]; [|done]. split; [by eapply same_proxies_ok|done].
    + eapply escrow_release_fees in H as [[P _] F]; [|done]. split; [by eapply same_proxies_ok|done].
    + simpl in V. bind V as u1 V1. bind V as u2 V2. apply fc_assert_Ok, negb_true_iff, bool_decide_eq_false in V.
      split; [eapply account_witness_proxy_forest; [done|done| |exact H]; congruence|]. unfold fees_paid. by rewrite (account_witness_proxy_escrows _ _ _ _ H).
  - apply operation_keeps in H as K; [|done]. split; [eapply same_proxies_ok; [apply K|done]|].
    destruct K as (E & _). unfold fees_paid. by rewrite E.
Qed.
End invariant.

(** ** No operation moves the head block *)

Ltac clock_facts :=
  repeat match goal with
  | H : adjust_balance _ _ _ = Ok _ |- _ => apply adjust_balance_keeps in H as (_ & _ & H)
  | H : adjust_proxied_witness_votes_array _ _ _ = Ok _ |- _ => apply adjust_array_keeps in H as (_ & _ & H)
  | H : clear_witness_votes _ _ = Ok _ |- _ => apply modify_account_clock in H
  | H : modify_account _ _ _ = Ok _ |- _ => apply modify_account_clock in H
  | H : modify_obj Db.escrows _ _ _ = Ok _ |- _ => apply modify_escrow_local in H as [[_ H] _]
  | H : create escrow_index _ _ _ _ = Ok _ |- _ => apply create_escrow_local in H as [[_ H] _]
  end.
Ltac clock_chain :=
  unfold same_clock, head_block_time, head_block_num, head_block_id in *; simpl in *; destruct_and?; split_and!; congruence.

Lemma operation_clock `{env : environment} producing db op db' : apply_operation producing db op = Ok db' -> same_clock db db'.
Proof.
  intros H. destruct (touches_escrow_or_proxy op) eqn:Ht; [|by apply operation_keeps in H as (_ & _ & ?)].
  destruct op; try discriminate; clear Ht; simpl in H.
  - unfold escrow_transfer_evaluator in H. result_case; clock_facts; clock_chain.
  - unfold escrow_approve_evaluator in H. result_case; clock_facts; clock_chain.
  - unfold escrow_dispute_evaluator in H. result_case; clock_facts; clock_chain.
  - unfold escrow_release_evaluator in H. result_case; clock_facts; clock_chain.
  - unfold account_witness_proxy_evaluator in H. result_case; clock_facts; clock_chain.
Qed.
