(* ===== verification/OperationFrame.v ===== *)
(** OperationFrame: what an operation leaves alone.

    No operation changes the witness schedule, the number of the current slot or the
    maximum size of a block, and only five kinds of operations change authorities: those
    of the account they name ([subject]).  The plugin that indexes keys and the making of
    blocks rely on it. *)
From Stdlib Require Import ZArith Lia String Ascii.
From stdpp Require Import base gmap strings list sorting.
From S2P Require Import Prelude.
From S2P Require Import Asset.
From S2P Require Import Authority.
From S2P Require Import Objects.
From S2P Require Import Balance.
From S2P Require Import Supply.
From S2P Require Import WitnessProps.
From S2P Require Import Transfers.
From S2P Require Import Comments.
From S2P Require Import Market.
From S2P Require Import Vesting.
From S2P Require Import Accounts.
From S2P Require Import Voting.
From S2P Require Import Operation.
From S2P Require Import Invariant.
Local Open Scope string_scope.
Local Open Scope Z_scope.
Local Open Scope fc_scope.

(** ** What is left alone *)

(** the numbers of the chain that decide who produces a block and how large it may be *)
Definition steering (g : dynamic_global_property_object) : Z * Z := (Gpo.current_aslot g, Gpo.maximum_block_size g).
Definition steered (db db' : database) : Prop := Db.wso db' = Db.wso db /\ steering (Db.gpo db') = steering (Db.gpo db).

#[export] Instance steered_preorder : PreOrder steered.
Proof. split; [done|]. intros x y z [H1 H2] [H3 H4]. split; congruence. Qed.

Definition auths_at (who : option account_name_type) (db db' : database) : Prop :=
  forall m, who <> Some m -> Db.account_authorities db' !! m = Db.account_authorities db !! m.

Definition leaves (who : option account_name_type) (db db' : database) : Prop := steered db db' /\ auths_at who db db'.

#[export] Instance leaves_preorder who : PreOrder (leaves who).
Proof. split; [done|]. intros x y z [S1 H1] [S2 H2]. split; [by etrans|]. intros m Hm. by rewrite H2, H1. Qed.

Lemma leaves_same who db db' : steered db db' /\ Db.account_authorities db' = Db.account_authorities db -> leaves who db db'.
Proof. intros [S E]. split; [done|]. intros m _. by rewrite E. Qed.
Lemma frame_leaves who db db' : frame db db' -> steering (Db.gpo db') = steering (Db.gpo db) -> leaves who db db'.
Proof. intros [E _] S. apply leaves_same. split; [split; [by rewrite E|done]|by rewrite E]. Qed.
Lemma content_leaves who db db' : content_only db db' -> leaves who db db'.
Proof. intros [E _]. apply leaves_same. split; [split|]; by rewrite E. Qed.

Lemma modify_account_leaves who db n f db' : modify_account db n f = Ok db' -> leaves who db db'.
Proof. by intros (a & a' & _ & _ & ->)%modify_account_inv. Qed.
Lemma modify_gpo_leaves who db f db' :
  modify_gpo db f = Ok db' -> (forall g g', f g = Ok g' -> steering g' = steering g) -> leaves who db db'.
Proof. intros (g & Hg & ->)%modify_gpo_inv Hf. apply leaves_same. split; [split; [done|by apply Hf]|done]. Qed.
Lemma modify_witness_leaves who db n f db' : modify_witness db n f = Ok db' -> leaves who db db'.
Proof. by intros (w & w' & _ & _ & ->)%modify_witness_inv. Qed.

(** a function on the properties that writes other fields *)
Ltac keeps_steering := cbv beta; intros; result_case; done.
Ltac steer_run :=
  intros; result_case;
  repeat match goal with
  | H : pay_interest _ ?i = Ok _ |- _ => destruct i; simpl in H; result_inv
  | H : modify_account _ _ _ = Ok _ |- _ => apply (modify_account_leaves None) in H as [[_ H] _]
  | H : modify_gpo _ _ = Ok _ |- _ => apply (modify_gpo_leaves None) in H as [[_ H] _]; [|keeps_steering]
  end; first [done|by etrans].

Lemma adjust_balance_leaves who db n d db' : adjust_balance db n d = Ok db' -> leaves who db db'.
Proof. intros H. apply frame_leaves; [by eapply modify_balance_frame|]. revert H. unfold adjust_balance, modify_balance. steer_run. Qed.
Lemma adjust_savings_leaves who db n d db' : adjust_savings_balance db n d = Ok db' -> leaves who db db'.
Proof. intros H. apply frame_leaves; [by eapply adjust_savings_balance_frame|]. revert H. unfold adjust_savings_balance. steer_run. Qed.
Lemma adjust_reward_leaves who db n v s db' : adjust_reward_balance db n v s = Ok db' -> leaves who db db'.
Proof. intros H. apply frame_leaves; [by eapply adjust_reward_balance_frame|]. revert H. unfold adjust_reward_balance, modify_reward_balance. steer_run. Qed.
Lemma adjust_witness_votes_leaves who db n d db' : adjust_witness_votes db n d = Ok db' -> leaves who db db'.
Proof.
  unfold adjust_witness_votes, adjust_witness_vote. apply foldM_preorder; [apply _|]. intros x w y H. by eapply modify_witness_leaves.
Qed.
Lemma adjust_proxied_at_leaves who togo : forall db n d db', adjust_proxied_at togo db n d = Ok db' -> leaves who db db'.
Proof.
  induction togo as [|togo IH]; intros db n d db' H; simpl in H; bind H as a Ha; destruct (decide _); try (by eapply adjust_witness_votes_leaves).
  - by injection H as <-.
  - bind H as db1 H1. etrans; [by eapply modify_account_leaves|by eapply IH].
Qed.
Lemma adjust_array_leaves who togo : forall db n delta db', adjust_proxied_array_at togo db n delta = Ok db' -> leaves who db db'.
Proof.
  induction togo as [|togo IH]; intros db n delta db' H; simpl in H; bind H as a Ha; destruct (decide _);
    try (bind H as t Ht; by eapply adjust_witness_votes_leaves).
  - by injection H as <-.
  - bind H as db1 H1. etrans; [by eapply modify_account_leaves|by eapply IH].
Qed.

Lemma create_leaves who {K V} `{Countable K} idx (field : database -> gmap K V) `{!Setter field} key c db db' :
  create idx field key c db = Ok db' -> (forall g d, steered d (d <| field ::= g |>) /\ Db.account_authorities (d <| field ::= g |>) = Db.account_authorities d) -> leaves who db db'.
Proof. intros (_ & ids & ->)%create_inv Hf. transitivity (db <| Db.next_id := ids |>); [done|]. apply leaves_same, Hf. Qed.
Lemma modify_obj_leaves who {K V} `{Countable K} (field : database -> gmap K V) `{!Setter field} key f db db' :
  modify_obj field key f db = Ok db' -> (forall g d, steered d (d <| field ::= g |>) /\ Db.account_authorities (d <| field ::= g |>) = Db.account_authorities d) -> leaves who db db'.
Proof. intros (v & v' & _ & _ & ->)%modify_obj_inv Hf. apply leaves_same. apply Hf. Qed.

(** the calls that write authorities *)
Lemma modify_auth_leaves n f db db' : modify_obj Db.account_authorities n f db = Ok db' -> leaves (Some n) db db'.
Proof. intros (v & v' & _ & _ & ->)%modify_obj_inv. split; [done|]. intros m Hm. simpl. apply lookup_insert_ne. congruence. Qed.
Lemma create_auth_leaves n idx c db db' : create idx Db.account_authorities n c db = Ok db' -> leaves (Some n) db db'.
Proof. intros (_ & ids & ->)%create_inv. split; [done|]. intros m Hm. simpl. apply lookup_insert_ne. congruence. Qed.

Ltac leaves_facts who :=
  repeat match goal with
  | H : adjust_balance _ _ _ = Ok _ |- _ => apply (adjust_balance_leaves who) in H
  | H : adjust_savings_balance _ _ _ = Ok _ |- _ => apply (adjust_savings_leaves who) in H
  | H : adjust_reward_balance _ _ _ _ = Ok _ |- _ => apply (adjust_reward_leaves who) in H
  | H : modify_gpo _ _ = Ok _ |- _ => apply (modify_gpo_leaves who) in H; [|keeps_steering]
  | H : modify_witness _ _ _ = Ok _ |- _ => apply (modify_witness_leaves who) in H
  | H : adjust_witness_votes _ _ _ = Ok _ |- _ => apply (adjust_witness_votes_leaves who) in H
  | H : adjust_proxied_witness_votes _ _ _ = Ok _ |- _ => apply (adjust_proxied_at_leaves who) in H
  | H : modify_account _ _ _ = Ok _ |- _ => apply (modify_account_leaves who) in H
  | H : create _ Db.account_authorities _ _ _ = Ok _ |- _ => apply create_auth_leaves in H
  | H : modify_obj Db.account_authorities _ _ _ = Ok _ |- _ => apply modify_auth_leaves in H
  | H : create _ _ _ _ _ = Ok _ |- _ => apply (create_leaves who) in H; [|done]
  | H : modify_obj _ _ _ _ = Ok _ |- _ => apply (modify_obj_leaves who) in H; [|done]
  end.

Ltac leaves_chain :=
  first
    [ reflexivity
    | eassumption
    | match goal with
      | H : leaves _ ?c ?b |- leaves _ ?a ?b => transitivity c; [clear H; leaves_chain|exact H]
      | |- leaves _ _ (remove _ _ ?d) => transitivity d; [leaves_chain|by apply leaves_same]
      | |- leaves _ _ (modify_field _ _ ?d) => transitivity d; [leaves_chain|by apply leaves_same]
      end ].
Ltac leaves_run who := intros; result_case; leaves_facts who; leaves_chain.

Lemma create_vesting_leaves who db n liquid reward db' v : create_vesting db n liquid reward = Ok (db', v) -> leaves who db db'.
Proof. unfold create_vesting. destruct reward; leaves_run who. Qed.

Lemma cancel_order_leaves who db k db' : cancel_order db k = Ok db' -> leaves who db db'.
Proof. unfold cancel_order. leaves_run who. Qed.
Lemma fill_order_leaves who db k p r db' b : fill_order db k p r = Ok (db', b) -> leaves who db db'.
Proof.
  unfold fill_order. intros. result_case; leaves_facts who;
    repeat match goal with H : cancel_order _ _ = Ok _ |- _ => apply (cancel_order_leaves who) in H end; leaves_chain.
Qed.
Lemma match_orders_leaves who db nk ok p db' r : match_orders db nk ok p = Ok (db', r) -> leaves who db db'.
Proof.
  intros H. unfold match_orders in H. bind H as n Hn. bind H as o Ho. bind H as u1 U1. bind H as u2 U2.
  bind H as u3 U3. bind H as u4 U4. bind H as u5 U5. bind H as [nr or] Hm. bind H as u6 U6.
  bind H as [db1 f1] H1. bind H as [db2 f2] H2. bind H as u7 U7. injection H as <- _.
  etrans; by eapply fill_order_leaves.
Qed.
Lemma match_all_leaves who nk l : forall db db', match_all db nk l = Ok db' -> leaves who db db'.
Proof.
  induction l as [|[k o] l IH]; intros db db' H; simpl in H; [by injection H as <-|].
  bind H as [db1 [f g]] H1. apply (match_orders_leaves who) in H1. destruct f; [by injection H as <-|].
  etrans; [exact H1|by apply IH].
Qed.
Lemma create_limit_order_leaves who db owner orderid amt rate fok expiration db' :
  create_limit_order db owner orderid amt rate fok expiration = Ok db' -> leaves who db db'.
Proof.
  unfold create_limit_order, apply_order. intros H. result_case.
  repeat match goal with H : match_all _ _ _ = Ok _ |- _ => apply (match_all_leaves who) in H end. leaves_facts who. leaves_chain.
Qed.

Lemma create_account_objects_leaves db creator name owner active posting key json received db' :
  create_account_objects db creator name owner active posting key json received = Ok db' -> leaves (Some name) db db'.
Proof. unfold create_account_objects. leaves_run (Some name). Qed.
Lemma update_owner_authority_leaves db n auth db' : update_owner_authority db n auth = Ok db' -> leaves (Some n) db db'.
Proof. unfold update_owner_authority. leaves_run (Some n). Qed.

Ltac leaves_ops who :=
  repeat match goal with
  | H : create_vesting _ _ _ _ = Ok (_, _) |- _ => apply (create_vesting_leaves who) in H
  | H : create_account_objects _ _ _ _ _ _ _ _ _ = Ok _ |- _ => apply create_account_objects_leaves in H
  | H : update_owner_authority _ _ _ = Ok _ |- _ => apply update_owner_authority_leaves in H
  | H : cancel_order _ _ = Ok _ |- _ => apply (cancel_order_leaves who) in H
  | H : adjust_proxied_witness_votes_array _ _ _ = Ok _ |- _ => apply (adjust_array_leaves who) in H
  end;
  leaves_facts who; leaves_chain.

(** the account whose authorities an operation may change *)
Definition subject (op : operation) : option account_name_type :=
  match op with
  | account_create_operation _ _ n _ _ _ _ _ | account_create_with_delegation_operation _ _ _ n _ _ _ _ _
  | create_claimed_account_operation _ n _ _ _ _ _ _ | account_update_operation n _ _ _ _ _ | recover_account_operation n _ _ => Some n
  | _ => None
  end.

Lemma operation_leaves `{env : environment} producing db op db' :
  apply_operation producing db op = Ok db' -> leaves (subject op) db db'.
Proof.
  intros H. destruct op; simpl in H; cbn [subject]; try discriminate H.
  - unfold account_create_evaluator in H. result_case; leaves_ops (Some new_account_name).
  - unfold account_create_with_delegation_evaluator in H. result_case; leaves_ops (Some new_account_name).
  - unfold account_update_evaluator in H. result_case; leaves_ops (Some account).
  - unfold claim_account_evaluator in H. result_case; leaves_ops (@None account_name_type).
  - unfold create_claimed_account_evaluator in H. result_case; leaves_ops (Some new_account_name).
  - unfold transfer_evaluator in H. result_case; leaves_ops (@None account_name_type).
  - unfold escrow_transfer_evaluator in H. result_case; leaves_ops (@None account_name_type).
  - unfold escrow_approve_evaluator in H. result_case; leaves_ops (@None account_name_type).
  - unfold escrow_dispute_evaluator in H. result_case; leaves_ops (@None account_name_type).
  - unfold escrow_release_evaluator in H. result_case; leaves_ops (@None account_name_type).
  - unfold transfer_to_vesting_evaluator in H. result_case; leaves_ops (@None account_name_type).
  - unfold withdraw_vesting_evaluator in H. result_case; leaves_ops (@None account_name_type).
  - unfold set_withdraw_vesting_route_evaluator in H. result_case; leaves_ops (@None account_name_type).
  - unfold witness_update_evaluator in H. result_case; leaves_ops (@None account_name_type).
  - unfold account_witness_vote_evaluator, adjust_witness_vote in H. result_case; leaves_ops (@None account_name_type).
  - unfold account_witness_proxy_evaluator, clear_witness_votes in H. result_case; leaves_ops (@None account_name_type).
  - unfold custom_evaluator in H. result_case; leaves_ops (@None account_name_type).
  - unfold feed_publish_evaluator in H. result_case; leaves_ops (@None account_name_type).
  - unfold convert_evaluator in H. result_case; leaves_ops (@None account_name_type).
  - by eapply create_limit_order_leaves.
  - by eapply create_limit_order_leaves.
  - unfold limit_order_cancel_evaluator in H. result_case; leaves_ops (@None account_name_type).
  - unfold request_account_recovery_evaluator in H. result_case; leaves_ops (@None account_name_type).
  - unfold recover_account_evaluator in H. result_case; leaves_ops (Some account_to_recover).
  - unfold change_recovery_account_evaluator in H. result_case; leaves_ops (@None account_name_type).
  - unfold transfer_to_savings_evaluator in H. result_case; leaves_ops (@None account_name_type).
  - unfold transfer_from_savings_evaluator in H. result_case; leaves_ops (@None account_name_type).
  - unfold cancel_transfer_from_savings_evaluator in H. result_case; leaves_ops (@None account_name_type).
  - unfold decline_voting_rights_evaluator in H. result_case; leaves_ops (@None account_name_type).
  - unfold claim_reward_balance_evaluator in H. result_case; leaves_ops (@None account_name_type).
  - unfold delegate_vesting_shares_evaluator, add_delegated, add_received, sub_received in H. result_case; leaves_ops (@None account_name_type).
  - by eapply content_leaves, comment_content.
  - by eapply content_leaves, comment_options_content.
  - by eapply content_leaves, delete_comment_content.
  - by eapply content_leaves, vote_content.
  - unfold witness_set_properties_evaluator in H. bind H as w Hw. bind H as v Hv. bind H as sk Hsk. bind H as u1 U1.
    bind H as fee F. bind H as size_ S. bind H as rate R. bind H as limit L. bind H as key K. bind H as ex E. bind H as url U.
    by eapply modify_witness_leaves.
  - by apply custom_evaluators_keep in H as ->.
  - by apply custom_evaluators_keep in H as ->.
  - by injection H as <-.
Qed.
