(* ===== verification/KeyLookup.v ===== *)
(** KeyLookup: which accounts a key belongs to.

    From account_by_key_plugin.cpp: an index from public keys to the accounts that name
    them in an authority.  The plugin looks at an account before and after the operations
    that change authorities, and adds and removes the keys by which they differ. *)
From Stdlib Require Import ZArith Lia String Ascii.
From stdpp Require Import base gmap strings list sorting.
From S2P Require Import Prelude.
From S2P Require Import Asset.
From S2P Require Import Authority.
From S2P Require Import Objects.
From S2P Require Import Balance.
From S2P Require Import Supply.
From S2P Require Import WitnessProps.
From S2P Require Import Transfers.
From S2P Require Import Comments.
From S2P Require Import Market.
From S2P Require Import Vesting.
From S2P Require Import Accounts.
From S2P Require Import Voting.
From S2P Require Import Operation.
From S2P Require Import Invariant.
From S2P Require Import OperationFrame.
Local Open Scope string_scope.
Local Open Scope Z_scope.
Local Open Scope fc_scope.

Record key_plugin : Type := mk_plugin {
  key_lookup : gset (public_key_type * account_name_type);
  cached_keys : gset public_key_type
}.
#[export] Instance key_plugin_rebuild : Rebuild key_plugin := fun r => mk_plugin (key_lookup r) (cached_keys r).

(** the keys of the three authorities *)
Definition keys_of (a : account_authority_object) : gset public_key_type :=
  list_to_set (map fst (key_auths (AccountAuthority.owner a)) ++ map fst (key_auths (AccountAuthority.active a)) ++
               map fst (key_auths (AccountAuthority.posting a))).

Definition clear_cache (p : key_plugin) : key_plugin := p <| cached_keys := ∅ |>.
Definition cache_auths (a : account_authority_object) (p : key_plugin) : key_plugin := p <| cached_keys ::= union (keys_of a) |>.

(** a key of the authorities after the operation *)
Definition add_key (n : account_name_type) (p : key_plugin) (key : public_key_type) : key_plugin :=
  if decide (key ∈ cached_keys p) then p <| cached_keys ::= fun c => c ∖ {[key]} |>
  else if decide ((key, n) ∈ key_lookup p) then p
  else p <| key_lookup ::= union {[(key, n)]} |>.

(** a key of before that is gone *)
Definition drop_key (n : account_name_type) (p : key_plugin) (key : public_key_type) : key_plugin :=
  if decide ((key, n) ∈ key_lookup p) then p <| key_lookup ::= fun l => l ∖ {[(key, n)]} |> else p.

Definition update_key_lookup (a : account_authority_object) (p : key_plugin) : key_plugin :=
  let p := fold_left (add_key (AccountAuthority.account a)) (elements (keys_of a)) p in
  let p := fold_left (drop_key (AccountAuthority.account a)) (elements (cached_keys p)) p in
  clear_cache p.

Definition cache_account (db : database) (n : account_name_type) (p : key_plugin) : key_plugin :=
  match Db.account_authorities db !! n with Some a => cache_auths a (clear_cache p) | None => clear_cache p end.
Definition look_up_account (db : database) (n : account_name_type) (p : key_plugin) : key_plugin :=
  match Db.account_authorities db !! n with Some a => update_key_lookup a p | None => p end.

Definition on_pre_apply_operation (db : database) (op : operation) (p : key_plugin) : key_plugin :=
  match op with
  | account_create_operation _ _ _ _ _ _ _ _ | account_create_with_delegation_operation _ _ _ _ _ _ _ _ _ => clear_cache p
  | account_update_operation account _ _ _ _ _ => cache_account db account p
  | recover_account_operation account_to_recover _ _ => cache_account db account_to_recover p
  | _ => p
  end.

Definition on_post_apply_operation (db : database) (op : operation) (p : key_plugin) : key_plugin :=
  match op with
  | account_create_operation _ _ new_account_name _ _ _ _ _
  | account_create_with_delegation_operation _ _ _ new_account_name _ _ _ _ _ => look_up_account db new_account_name p
  | account_update_operation account _ _ _ _ _ => look_up_account db account p
  | recover_account_operation account_to_recover _ _ => look_up_account db account_to_recover p
  | _ => p
  end.

(** ** The update of the index *)

Lemma add_key_spec n p key k m :
  (k ∈ cached_keys (add_key n p key) <-> k ∈ cached_keys p /\ k <> key) /\
  ((k, m) ∈ key_lookup (add_key n p key) <-> (k, m) ∈ key_lookup p \/ m = n /\ k = key /\ k ∉ cached_keys p).
Proof.
  unfold add_key. destruct (decide (key ∈ cached_keys p)) as [Hc|Hc]; [|destruct (decide ((key, n) ∈ key_lookup p)) as [Hl|Hl]]; simpl.
  - rewrite elem_of_difference, elem_of_singleton. split; [done|]. split; [by left|]. intros [?|(-> & -> & ?)]; done.
  - split; [split; [|tauto]; intros ?; split; [done|by intros ->]|]. split; [by left|]. intros [?|(-> & -> & ?)]; done.
  - split; [split; [|tauto]; intros ?; split; [done|by intros ->]|]. rewrite elem_of_union, elem_of_singleton. split.
    + intros [[= -> ->]|?]; [by right|by left].
    + intros [?|(-> & -> & ?)]; [by right|by left].
Qed.

Lemma add_keys_spec n l : forall p k m, NoDup l ->
  (k ∈ cached_keys (fold_left (add_key n) l p) <-> k ∈ cached_keys p /\ k ∉ l) /\
  ((k, m) ∈ key_lookup (fold_left (add_key n) l p) <-> (k, m) ∈ key_lookup p \/ m = n /\ k ∈ l /\ k ∉ cached_keys p).
Proof.
  induction l as [|key l IH]; intros p k m Hnd; cbn [fold_left]; [rewrite elem_of_nil; tauto|].
  apply NoDup_cons in Hnd as [Hk Hnd]. destruct (IH (add_key n p key) k m Hnd) as [E1 E2].
  destruct (add_key_spec n p key k m) as [A1 A2]. rewrite E1, E2, A1, A2, elem_of_cons.
  split; [tauto|]. destruct (decide (k = key)) as [->|]; tauto.
Qed.

Lemma drop_keys_spec n l : forall p k m,
  (k, m) ∈ key_lookup (fold_left (drop_key n) l p) <-> (k, m) ∈ key_lookup p /\ ~ (m = n /\ k ∈ l).
Proof.
  induction l as [|key l IH]; intros p k m; cbn [fold_left]; [rewrite elem_of_nil; tauto|]. rewrite IH, elem_of_cons.
  assert ((k, m) ∈ key_lookup (drop_key n p key) <-> (k, m) ∈ key_lookup p /\ ~ (m = n /\ k = key)) as ->; [|tauto].
  unfold drop_key. destruct (decide ((key, n) ∈ key_lookup p)) as [Hl|Hl]; simpl.
  - rewrite elem_of_difference, elem_of_singleton. split; (intros [H1 H2]; split; [done|]); [intros [-> ->]; by apply H2|intros [= -> ->]; by apply H2].
  - split; [|tauto]. intros H. split; [done|]. by intros [-> ->].
Qed.

(** the keys that were cached and are no more are removed, the new ones are added *)
Lemma update_key_lookup_spec a p k m :
  (k, m) ∈ key_lookup (update_key_lookup a p) <->
  ((k, m) ∈ key_lookup p \/ m = AccountAuthority.account a /\ k ∈ keys_of a /\ k ∉ cached_keys p) /\
  ~ (m = AccountAuthority.account a /\ k ∈ cached_keys p /\ k ∉ keys_of a).
Proof.
  unfold update_key_lookup, clear_cache. simpl.
  destruct (add_keys_spec (AccountAuthority.account a) (elements (keys_of a)) p k m (NoDup_elements _)) as [E1 E2].
  rewrite drop_keys_spec, elem_of_elements, E1, E2, elem_of_elements. tauto.
Qed.

(** ** The index agrees with the authorities *)

(** the index holds exactly the keys of the account, whose object is filed under its name *)
Definition synced (n : account_name_type) (db : database) (p : key_plugin) : Prop :=
  (forall a, Db.account_authorities db !! n = Some a -> AccountAuthority.account a = n) /\
  forall k, (k, n) ∈ key_lookup p <-> exists a, Db.account_authorities db !! n = Some a /\ k ∈ keys_of a.

Definition handled (op : operation) : bool :=
  match op with create_claimed_account_operation _ _ _ _ _ _ _ _ => false | _ => true end.

(** what the writing calls leave of an authority object *)
Definition files (n : account_name_type) (db : database) : Prop :=
  forall a, Db.account_authorities db !! n = Some a -> AccountAuthority.account a = n.

Lemma look_up_synced n db db' p c :
  synced n db p -> files n db' ->
  (Db.account_authorities db !! n = None /\ c = ∅ \/ exists a, Db.account_authorities db !! n = Some a /\ c = keys_of a) ->
  is_Some (Db.account_authorities db' !! n) -> synced n db' (look_up_account db' n (p <| cached_keys := c |>)).
Proof.
  intros [Hf Hs] Hf' Hc [a' Ha']. split; [done|]. intros k. unfold look_up_account. rewrite Ha', update_key_lookup_spec. simpl.
  rewrite (Hf' a' Ha'), Hs.
  assert ((exists a, Db.account_authorities db !! n = Some a /\ k ∈ keys_of a) <-> k ∈ c) as ->.
  { destruct Hc as [[E ->]|(a & E & ->)]; rewrite E.
    - split; [by intros (x & ? & _)|]. intros H. by apply elem_of_empty in H.
    - split; [by intros (x & [= <-] & ?)|]. by exists a. }
  assert ((exists a, Some a' = Some a /\ k ∈ keys_of a) <-> k ∈ keys_of a') as -> by (split; [by intros (x & [= <-] & ?)|by exists a']).
  destruct (decide (k ∈ c)), (decide (k ∈ keys_of a')); tauto.
Qed.

(** the object of an account stays and stays filed under its name *)
Definition kept (n : account_name_type) (db db' : database) : Prop :=
  (files n db -> files n db') /\ (is_Some (Db.account_authorities db !! n) -> is_Some (Db.account_authorities db' !! n)).

#[export] Instance kept_preorder n : PreOrder (kept n).
Proof. split; [done|]. intros x y z [] []. split; auto. Qed.

Lemma leaves_kept n db db' : leaves None db db' -> kept n db db'.
Proof. intros [_ H]. unfold kept, files. by rewrite H. Qed.

Lemma modify_auth_kept n f db db' :
  modify_obj Db.account_authorities n f db = Ok db' -> (forall a a', f a = Ok a' -> AccountAuthority.account a' = AccountAuthority.account a) ->
  kept n db db'.
Proof.
  intros (v & v' & Hv & Hf & ->)%modify_obj_inv Hacc. split; simpl; [|rewrite lookup_insert_eq; by eexists].
  intros Hn a Ha. simpl in Ha. rewrite lookup_insert_eq in Ha. injection Ha as <-. rewrite (Hacc _ _ Hf). by apply Hn.
Qed.

Lemma update_owner_kept n db auth db' : update_owner_authority db n auth = Ok db' -> kept n db db' /\ is_Some (Db.account_authorities db !! n).
Proof.
  unfold update_owner_authority. intros H. bind H as db1 H1.
  assert (leaves None db db1) as A by (clear H; result_case; leaves_facts (@None account_name_type); leaves_chain).
  split; [|apply modify_obj_inv in H as (v & _ & Hv & _); rewrite (proj2 A) in Hv by done; by exists v].
  transitivity db1; [by apply leaves_kept|]. eapply modify_auth_kept; [exact H|by intros a a' [= <-]].
Qed.

Lemma account_update_kept db n o a p k j db' : account_update_evaluator db n o a p k j = Ok db' ->
  kept n db db' /\ is_Some (Db.account_authorities db !! n).
Proof.
  intros H. unfold account_update_evaluator, get_account_authority in H. result_case;
    repeat match goal with
    | H : modify_obj Db.account_authorities _ _ _ = Ok _ |- _ => apply modify_auth_kept in H; [|intros ? ? [= <-]; by repeat case_match]
    | H : update_owner_authority _ _ _ = Ok _ |- _ => apply update_owner_kept in H as [H _]
    | H : modify_account _ _ _ = Ok _ |- _ => apply (modify_account_leaves None), (leaves_kept n) in H
    end; (split; [|by eexists]); repeat (etrans; [eassumption|]); done.
Qed.

Lemma recover_account_kept db n o r db' : recover_account_evaluator db n o r = Ok db' ->
  kept n db db' /\ is_Some (Db.account_authorities db !! n).
Proof.
  intros H. unfold recover_account_evaluator in H. bind H as a Ha. bind H as u1 U1. destruct (_ !! n) as [req|]; [|done].
  bind H as u2 U2. bind H as u3 U3. cbv zeta in H. bind H as db1 H1. apply update_owner_kept in H1 as [H1 Hsome].
  split; [|exact Hsome]. apply (modify_account_leaves None), (leaves_kept n) in H. by etrans.
Qed.

(** a new account, around which nothing else happens to authorities *)
Definition made (n : account_name_type) (db db' : database) : Prop :=
  Db.account_authorities db !! n = None /\ files n db' /\ is_Some (Db.account_authorities db' !! n).

Lemma create_objects_made creator n owner active posting key json received db0 db db' db1 :
  create_account_objects db creator n owner active posting key json received = Ok db' -> leaves None db0 db -> leaves None db' db1 -> made n db0 db1.
Proof.
  unfold create_account_objects. intros H [_ A0] [_ A1]. bind H as db2 H1. apply (create_leaves None) in H1 as [_ H1]; [|done]. apply create_inv in H as (E & ids & ->).
  rewrite H1, A0 in E by done. split; [done|]. unfold files. rewrite A1 by done. simpl. rewrite lookup_insert_eq. split; [|by eexists].
  by intros a [= <-].
Qed.

Ltac made_run :=
  repeat match goal with
  | H : create_vesting _ _ _ _ = Ok (_, _) |- _ => apply (create_vesting_leaves None) in H
  end; leaves_facts (@None account_name_type);
  match goal with H : create_account_objects _ _ _ _ _ _ _ _ _ = Ok _ |- _ => eapply create_objects_made; [exact H|clear H; leaves_chain|clear H; leaves_chain] end.

Lemma account_create_made producing db fee c n o a p k j db' :
  account_create_evaluator producing db fee c n o a p k j = Ok db' -> made n db db'.
Proof. intros H. unfold account_create_evaluator in H. result_case; made_run. Qed.

Lemma account_create_with_delegation_made producing db fee d c n o a p k j db' :
  account_create_with_delegation_evaluator producing db fee d c n o a p k j = Ok db' -> made n db db'.
Proof. intros H. unfold account_create_with_delegation_evaluator in H. result_case; made_run. Qed.

Lemma create_claimed_account_made db c n o a p k j db' :
  create_claimed_account_evaluator db c n o a p k j = Ok db' -> made n db db'.
Proof. intros H. unfold create_claimed_account_evaluator in H. result_case; made_run. Qed.

Definition filed (db : database) : Prop := forall n, files n db.

Lemma operation_filed `{env : environment} producing db op db' : apply_operation producing db op = Ok db' -> filed db -> filed db'.
Proof.
  intros H Hf n. pose proof (operation_leaves producing db op db' H) as [_ Ha]. destruct (decide (subject op = Some n)) as [E|E].
  - destruct op; simpl in E, H; try done; injection E as ->.
    + by eapply account_create_made.
    + by eapply account_create_with_delegation_made.
    + apply account_update_kept in H as [[K _] _]. by apply K.
    + by eapply create_claimed_account_made.
    + apply recover_account_kept in H as [[K _] _]. by apply K.
  - intros a Hn. rewrite Ha in Hn by done. by apply Hf.
Qed.

Lemma cache_account_cached db n p :
  exists c, cache_account db n p = p <| cached_keys := c |> /\
    (Db.account_authorities db !! n = None /\ c = ∅ \/ exists a, Db.account_authorities db !! n = Some a /\ c = keys_of a).
Proof.
  unfold cache_account. destruct (Db.account_authorities db !! n) as [a|]; [|by exists ∅; eauto].
  exists (keys_of a). split; [|right; by exists a]. unfold cache_auths, clear_cache. destruct p. unfold modify_field. simpl. f_equal. apply union_empty_r_L.
Qed.

Lemma look_up_other db m p n k : files m db -> n <> m -> (k, n) ∈ key_lookup (look_up_account db m p) <-> (k, n) ∈ key_lookup p.
Proof.
  intros Hf Hne. unfold look_up_account. destruct (Db.account_authorities db !! m) as [a|] eqn:E; [|done].
  rewrite update_key_lookup_spec, (Hf a E). tauto.
Qed.

(** C26: The index of keys agrees with the authorities.  When an operation was applied, with
    the handlers of the plugin before and after it, the index holds for every account
    exactly the keys of its authorities, if it did so before: also for accounts that the
    operation created, changed or recovered.  Only an account that is created from a
    claim is not handled. *)
Theorem key_lookup_in_sync `{env : environment} producing db op db' n p :
  apply_operation producing db op = Ok db' -> filed db -> handled op = true \/ subject op <> Some n -> synced n db p ->
  filed db' /\ synced n db' (on_post_apply_operation db' op (on_pre_apply_operation db op p)).
Proof.
  intros H Hf Hh Hs. pose proof (operation_filed producing db op db' H Hf) as Hf'. split; [done|].
  pose proof (operation_leaves producing db op db' H) as [_ Ha]. destruct (decide (subject op = Some n)) as [E|E].
  - destruct Hh as [Hh|?]; [|done]. destruct op; try done; injection E as ->; simpl in H; cbn [on_pre_apply_operation on_post_apply_operation].
    + apply account_create_made in H as (E & _ & Hsome). eapply (look_up_synced n db); eauto.
    + apply account_create_with_delegation_made in H as (E & _ & Hsome). eapply (look_up_synced n db); eauto.
    + apply account_update_kept in H as [[_ K] Hsome]. destruct (cache_account_cached db n p) as (c & -> & Hc). eapply (look_up_synced n db); eauto.
    + apply recover_account_kept in H as [[_ K] Hsome]. destruct (cache_account_cached db n p) as (c & -> & Hc). eapply (look_up_synced n db); eauto.
  - split; [exact (Hf' n)|]. intros k. rewrite Ha by done. destruct Hs as [_ Hs]. rewrite <- Hs.
    destruct op; try done; cbn [on_pre_apply_operation on_post_apply_operation subject] in *;
      (rewrite look_up_other; [|by apply Hf'|congruence]); try done;
      match goal with |- context [cache_account db ?m p] => destruct (cache_account_cached db m p) as (c & -> & _); done end.
Qed.

(** C32: An account created from a claim is missed.  The plugin has no handler for
    create_claimed_account_operation: after it the account exists with its authorities, and
    the index holds none of their keys. *)
Theorem claimed_account_missed `{env : environment} producing db c n o a pst mk j e db' p k :
  let op := create_claimed_account_operation c n o a pst mk j e in
  apply_operation producing db op = Ok db' -> synced n db p ->
  is_Some (Db.account_authorities db' !! n) /\ (k, n) ∉ key_lookup (on_post_apply_operation db' op (on_pre_apply_operation db op p)).
Proof.
  intros op H [_ Hs]. apply create_claimed_account_made in H as (E & _ & Hsome). split; [done|]. simpl. rewrite Hs, E. by intros (x & ? & _).
Qed.
