(* ===== verification/Cashout.v ===== *)
(** Cashout: the payout of comments.

    database::process_comment_cashout with pay_curators and
    cashout_comment_helper (database.cpp).  In a block, every comment whose
    cashout time has come is paid from a snapshot of its reward fund in proportion
    to its claim; the curators get their part of the reward in proportion to the
    weights of their votes, the beneficiaries theirs, and the author the rest in
    vesting shares and SBD.  The virtual operations, which report the payouts to
    plugins, are not part of the state. *)
From Stdlib Require Import ZArith Lia String Ascii.
From stdpp Require Import base gmap strings list sorting.
From S2P Require Import Prelude.
From S2P Require Import Safe.
From S2P Require Import Asset.
From S2P Require Import Authority.
From S2P Require Import Objects.
From S2P Require Import Balance.
From S2P Require Import Supply.
From S2P Require Import Transfers.
From S2P Require Import Reward.
From S2P Require Import Comments.
From S2P Require Import Market.
From S2P Require Import Vesting.
From S2P Require Import Accounts.
From S2P Require Import Voting.
From S2P Require Import Operation.
From S2P Require Import Invariant.
Local Open Scope string_scope.
Local Open Scope Z_scope.
Local Open Scope fc_scope.

(** STEEM_RECENT_RSHARES_DECAY_TIME, in seconds *)
Definition STEEM_RECENT_RSHARES_DECAY_TIME : Z := 60 * 60 * 24 * 15.

Definition adjust_total_payout (db : database) (k : comment_key) (sbd_created curator_sbd_value beneficiary_value : asset)
    : result database :=
  modify_comment db k (fun c =>
    t ← Asset.add (Comment.total_payout_value c) sbd_created;
    u ← Asset.add (Comment.curator_payout_value c) curator_sbd_value;
    b ← Asset.add (Comment.beneficiary_payout_value c) beneficiary_value;
    Ok (c <| Comment.total_payout_value := t |> <| Comment.curator_payout_value := u |>
          <| Comment.beneficiary_payout_value := b |>)).

(** ** pay_curators *)

(** the order of proxy_set: by weight, heaviest first, then by voter *)
Definition vote_le (x y : comment_vote_object) : Prop :=
  CommentVote.weight y < CommentVote.weight x \/
  (CommentVote.weight x = CommentVote.weight y /\ CommentVote.voter x <= CommentVote.voter y).
#[export] Instance vote_le_dec : RelDecision vote_le.
Proof. unfold vote_le. intros x y. apply _. Defined.

Definition proxy_set (db : database) (c : comment_object) : list comment_vote_object :=
  merge_sort vote_le (map snd (votes_on db (Comment.id c))).

Definition pay_curator (max_rewards total_weight : Z) (st : database * Z) (item : comment_vote_object)
    : result (database * Z) :=
  let '(db, unclaimed_rewards) := st in
  q ← div128 (u128 (max_rewards * CommentVote.weight item)) total_weight;
  claim ← to_uint64 q;
  if 0 <? claim then
    unclaimed_rewards ← Safe.sub unclaimed_rewards (i64 claim);
    '(n, _) ← account_by_id db (CommentVote.voter item);
    '(db, _) ← create_vesting db n (mk_asset (i64 claim) STEEM_SYMBOL) true;
    db ← modify_account db n (fun a =>
           r ← Safe.add (Account.curation_rewards a) (i64 claim);
           Ok (a <| Account.curation_rewards := r |>));
    Ok (db, unclaimed_rewards)
  else Ok (db, unclaimed_rewards).

(** returns the unclaimed rewards and what is left of [max_rewards], which the
    code passes by reference *)
Definition pay_curators (db : database) (c : comment_object) (max_rewards : Z) : result (database * Z * Z) :=
  '(db, unclaimed_rewards, max_rewards) ←
    (if negb (Comment.allow_curation_rewards c) then Ok (db, 0, 0)
     else if 0 <? Comment.total_vote_weight c then
       '(db, unclaimed) ← foldM (pay_curator max_rewards (Comment.total_vote_weight c)) (db, max_rewards) (proxy_set db c);
       Ok (db, unclaimed, max_rewards)
     else Ok (db, max_rewards, max_rewards));
  max_rewards ← Safe.sub max_rewards unclaimed_rewards;
  Ok (db, unclaimed_rewards, max_rewards).

(** ** cashout_comment_helper *)

Definition pay_beneficiary (author_tokens : Z) (st : database * Z) (b : account_name_type * Z) : result (database * Z) :=
  let '(db, total_beneficiary) := st in
  m ← Safe.mul author_tokens (snd b);
  benefactor_tokens ← Safe.div m STEEM_100_PERCENT;
  _ ← get_account db (fst b);
  '(db, _) ← create_vesting db (fst b) (mk_asset benefactor_tokens STEEM_SYMBOL) true;
  total_beneficiary ← Safe.add total_beneficiary benefactor_tokens;
  Ok (db, total_beneficiary).

(** what the author gets after the beneficiaries, and the statistics of the comment *)
Definition pay_author (db : database) (k : comment_key) (c : comment_object)
    (author_tokens curation_tokens total_beneficiary claimed_reward : Z) : result database :=
  author_tokens ← Safe.sub author_tokens total_beneficiary;
  m ← Safe.mul author_tokens (Comment.percent_steem_dollars c);
  sbd_steem ← Safe.div m (2 * STEEM_100_PERCENT);
  vesting_steem ← Safe.sub author_tokens sbd_steem;
  _ ← get_account db (Comment.author c);
  '(db, _) ← create_vesting db (Comment.author c) (mk_asset vesting_steem STEEM_SYMBOL) true;
  '(db, (sbd, steem)) ← create_sbd db (Comment.author c) (mk_asset sbd_steem STEEM_SYMBOL) true;
  let median := FeedHistory.current_median_history (Db.feed_history db) in
  s ← Asset.add steem (mk_asset vesting_steem STEEM_SYMBOL);
  s ← to_sbd median s;
  s ← Asset.add sbd s;
  u ← to_sbd median (mk_asset curation_tokens STEEM_SYMBOL);
  b ← to_sbd median (mk_asset total_beneficiary STEEM_SYMBOL);
  db ← adjust_total_payout db k s u b;
  _ ← to_sbd median (mk_asset claimed_reward STEEM_SYMBOL);
  db ← modify_comment db k (fun c =>
         r ← Safe.add (Comment.author_rewards c) author_tokens; Ok (c <| Comment.author_rewards := r |>));
  modify_account db (Comment.author c) (fun a =>
    r ← Safe.add (Account.posting_rewards a) author_tokens; Ok (a <| Account.posting_rewards := r |>)).

(** the payout of [reward_tokens]; returns the claimed reward *)
Definition pay_reward (db : database) (k : comment_key) (c : comment_object) (reward_tokens : Z)
    (forward_curation_remainder : bool) : result (database * Z) :=
  percent ← get_curation_rewards_percent db;
  let curation_tokens := u128 (reward_tokens * percent) / STEEM_100_PERCENT in
  curation_tokens ← to_uint64 curation_tokens;
  author_tokens ← Safe.sub reward_tokens (i64 curation_tokens);
  '(db, curation_remainder, curation_tokens) ← pay_curators db c (i64 curation_tokens);
  author_tokens ← (if forward_curation_remainder then Safe.add author_tokens curation_remainder else Ok author_tokens);
  claimed_reward ← Safe.add author_tokens curation_tokens;
  '(db, total_beneficiary) ← foldM (pay_beneficiary author_tokens) (db, 0) (Comment.beneficiaries c);
  db ← pay_author db k c author_tokens curation_tokens total_beneficiary claimed_reward;
  Ok (db, claimed_reward).

Definition reset_comment (now : Z) (c : comment_object) : comment_object :=
  c <| Comment.net_rshares ::= (fun n => if 0 <? n then 0 else n) |> <| Comment.children_abs_rshares := 0 |>
    <| Comment.abs_rshares := 0 |> <| Comment.vote_rshares := 0 |> <| Comment.total_vote_weight := 0 |>
    <| Comment.max_cashout_time := time_maximum |> <| Comment.cashout_time := time_maximum |>
    <| Comment.last_payout := now |>.

(** the context a comment fills in *)
Definition fill_context (ctx : comment_reward_context) (c : comment_object) (rf : reward_fund_object) : comment_reward_context :=
  mk_context (Comment.net_rshares c) (Comment.reward_weight c) (Comment.max_accepted_payout c)
    (ctx_total_reward_shares2 ctx) (ctx_total_reward_fund_steem ctx) (ctx_current_steem_price ctx)
    (RewardFund.author_reward_curve rf) (RewardFund.content_constant rf).

(** the votes are removed: the cashout time has just been set to the maximum *)
Definition cashout_comment_helper (ctx : comment_reward_context) (db : database) (k : comment_key) (c : comment_object)
    (forward_curation_remainder : bool) : result (database * Z) :=
  '(db, claimed_reward) ←
    (if 0 <? Comment.net_rshares c then
       rf ← get_reward_fund db;
       reward ← get_rshare_reward (fill_context ctx c rf);
       if 0 <? reward then pay_reward db k c reward forward_curation_remainder else Ok (db, 0)
     else Ok (db, 0));
  db ← modify_comment db k (fun c => Ok (reset_comment (head_block_time db) c));
  let db := fold_left (fun db kv => remove Db.comment_votes (fst kv) db) (votes_on db (Comment.id c)) db in
  Ok (db, claimed_reward).

(** ** process_comment_cashout *)

Record reward_fund_context : Type := mk_fund_context {
  rf_recent_claims : Z;
  rf_reward_balance : asset;
  rf_steem_awarded : Z
}.
#[export] Instance reward_fund_context_rebuild : Rebuild reward_fund_context := fun r =>
  mk_fund_context (rf_recent_claims r) (rf_reward_balance r) (rf_steem_awarded r).

Definition decay (now : Z) (r : reward_fund_object) : reward_fund_object :=
  r <| RewardFund.recent_claims ::= (fun c =>
         u128 (c - u128 (c * u128 (now - RewardFund.last_update r)) / STEEM_RECENT_RSHARES_DECAY_TIME)) |>
    <| RewardFund.last_update := now |>.

(** the reward funds in the order of their ids *)
Definition fund_le (x y : string * reward_fund_object) : Prop := RewardFund.id (snd x) <= RewardFund.id (snd y).
#[export] Instance fund_le_dec : RelDecision fund_le.
Proof. unfold fund_le. intros x y. apply _. Defined.
Definition funds_by_id (db : database) : list (string * reward_fund_object) :=
  merge_sort fund_le (map_to_list (Db.reward_funds db)).

Definition decay_funds (db : database) : result (database * list reward_fund_context) :=
  foldM (fun st kr =>
      let '(db, funds) := st in
      db ← modify_obj Db.reward_funds (fst kr) (fun r => Ok (decay (head_block_time db) r)) db;
      r ← get_or out_of_range (Db.reward_funds db !! fst kr);
      Ok (db, (funds ++ [mk_fund_context (RewardFund.recent_claims r) (RewardFund.reward_balance r) 0])%list))
    (db, []) (funds_by_id db).

(** [f( funds[ i ] )]: the index is in range when the ids are 0, 1, 2, ... *)
Definition modify_fund (funds : list reward_fund_context) (i : Z) (f : reward_fund_context -> result reward_fund_context)
    : result (list reward_fund_context) :=
  x ← get_or out_of_range (funds !! Z.to_nat i);
  x ← f x;
  Ok (<[Z.to_nat i := x]> funds).

(** the begin() of by_cashout_time, while its time has come *)
Definition cashout_lt (x y : comment_object) : bool :=
  lt_of (lex (Comment.cashout_time x ?= Comment.cashout_time y) (Comment.id x ?= Comment.id y)).
Definition due_comment (db : database) : option (comment_key * comment_object) :=
  match first_by cashout_lt (Db.comments db) with
  | Some (k, c) => if Comment.cashout_time c <=? head_block_time db then Some (k, c) else None
  | None => None
  end.

(** The comments that are about to be cashed out.  Their claims are summed in the
    order of the map; the sum modulo 2^128 does not depend on the order. *)
Definition due_comments (db : database) : list (comment_key * comment_object) :=
  filter (fun kc => Comment.cashout_time (snd kc) <= head_block_time db) (map_to_list (Db.comments db)).

Definition add_claim (db : database) (funds : list reward_fund_context) (kc : comment_key * comment_object)
    : result (list reward_fund_context) :=
  let c := snd kc in
  if 0 <? Comment.net_rshares c then
    rf ← get_reward_fund db;
    x ← evaluate_reward_curve (u128 (Comment.net_rshares c)) (RewardFund.author_reward_curve rf) (RewardFund.content_constant rf);
    modify_fund funds (RewardFund.id rf) (fun f => Ok (f <| rf_recent_claims ::= fun r => u128 (r + x) |>))
  else Ok funds.

Definition cashout_next (st : database * list reward_fund_context) (kc : comment_key * comment_object)
    : result (database * list reward_fund_context) :=
  let '(db, funds) := st in
  let '(k, c) := kc in
  rf ← get_reward_fund db;
  f ← get_or out_of_range (funds !! Z.to_nat (RewardFund.id rf));
  let ctx := mk_context 0 0 (mk_asset 0 STEEM_SYMBOL) (rf_recent_claims f) (rf_reward_balance f)
               (FeedHistory.current_median_history (Db.feed_history db)) quadratic STEEM_CONTENT_CONSTANT in
  '(db, claimed) ← cashout_comment_helper ctx db k c false;
  funds ← modify_fund funds (RewardFund.id rf) (fun f =>
            a ← Safe.add (rf_steem_awarded f) claimed; Ok (f <| rf_steem_awarded := a |>));
  Ok (db, funds).

Definition write_fund (db : database) (i : nat) (f : reward_fund_context) : result database :=
  '(n, _) ← by_id RewardFund.id (Db.reward_funds db) (Z.of_nat i);
  modify_obj Db.reward_funds n (fun r =>
    b ← Asset.sub (RewardFund.reward_balance r) (mk_asset (rf_steem_awarded f) STEEM_SYMBOL);
    Ok (r <| RewardFund.recent_claims := rf_recent_claims f |> <| RewardFund.reward_balance := b |>)) db.

Fixpoint write_funds (i : nat) (db : database) (funds : list reward_fund_context) : result database :=
  match funds with
  | [] => Ok db
  | f :: funds => db ← write_fund db i f; write_funds (S i) db funds
  end.

Definition process_comment_cashout (db : database) : result database :=
  '(db, funds) ← decay_funds db;
  funds ← foldM (add_claim db) funds (due_comments db);
  '(db, funds) ← while_next (size (Db.comments db)) (fun st => due_comment (fst st)) cashout_next (db, funds);
  write_funds 0 db funds.

(** ** The price of vesting shares in a payout

    create_vesting credits a reward that buys no share to the liquid rewards but
    books it as pending vesting ([shareless_reward_counted_twice]): the books stay balanced as long as one satoshi
    buys at least one share.  [ratio_ok b g] says so, and that no reward up to [b]
    buys 2^63 shares; both survive the payouts. *)

Definition vest_shares (g : dynamic_global_property_object) : Z :=
  amount (Gpo.total_vesting_shares g) + amount (Gpo.pending_rewarded_vesting_shares g).
Definition vest_steem (g : dynamic_global_property_object) : Z :=
  amount (Gpo.total_vesting_fund_steem g) + amount (Gpo.pending_rewarded_vesting_steem g).

Definition vest_fields (g : dynamic_global_property_object) : list Z :=
  [amount (Gpo.total_vesting_shares g); amount (Gpo.pending_rewarded_vesting_shares g);
   amount (Gpo.total_vesting_fund_steem g); amount (Gpo.pending_rewarded_vesting_steem g)].

Definition ratio_ok (b : Z) (g : dynamic_global_property_object) : Prop :=
  Forall (fun x => 0 <= x <= INT64_MAX) (vest_fields g) /\
  vest_steem g <= vest_shares g /\ b * vest_shares g < 2 ^ 63 * vest_steem g.

Definition vesting_kept (db db' : database) : Prop := vest_fields (Db.gpo db') = vest_fields (Db.gpo db).
#[export] Instance vesting_kept_preorder : PreOrder vesting_kept.
Proof. split; [done|]. intros x y z. unfold vesting_kept. congruence. Qed.

Lemma ratio_kept b db db' : vesting_kept db db' -> ratio_ok b (Db.gpo db) -> ratio_ok b (Db.gpo db').
Proof. unfold vesting_kept, ratio_ok. intros E. rewrite E. unfold vest_shares, vest_steem. injection E as -> -> -> ->. done. Qed.

Lemma modify_account_vesting db n f db' : modify_account db n f = Ok db' -> vesting_kept db db'.
Proof. by intros (a & a' & _ & _ & ->)%modify_account_inv. Qed.
Lemma pay_interest_vesting db i db' : pay_interest db i = Ok db' -> vesting_kept db db'.
Proof. destruct i; simpl; intros H; [|by injection H as <-]. apply modify_gpo_inv in H as (g & Hg & ->). by result_inv. Qed.
Lemma adjust_balance_vesting db n d db' : adjust_balance db n d = Ok db' -> vesting_kept db db'.
Proof.
  unfold adjust_balance, modify_balance. intros H. result_case;
    repeat match goal with
    | H : modify_account _ _ _ = Ok _ |- _ => apply modify_account_vesting in H
    | H : pay_interest _ _ = Ok _ |- _ => apply pay_interest_vesting in H
    end; try done; by etrans.
Qed.
Lemma adjust_reward_vesting db n v s db' : adjust_reward_balance db n v s = Ok db' -> vesting_kept db db'.
Proof. unfold adjust_reward_balance, modify_reward_balance. intros H. result_inv. by eapply modify_account_vesting. Qed.
Lemma adjust_supply_vesting db d db' : adjust_supply db d false = Ok db' -> vesting_kept db db'.
Proof.
  unfold adjust_supply. intros H. apply modify_gpo_inv in H as (g & Hg & ->). unfold vesting_kept, vest_fields.
  assert ((if head_block_num db <? STEEM_BLOCKS_PER_DAY * 7 then false else false) = false) as E by (by destruct (_ <? _)).
  rewrite E in Hg. simpl in Hg. destruct (symbol d =? _).
  - result_inv. asset_inv. simpl. by rewrite Z.add_0_r.
  - destruct (symbol d =? _); [|done]. by result_inv.
Qed.
Lemma create_sbd_vesting db n steem reward db' r : create_sbd db n steem reward = Ok (db', r) -> vesting_kept db db'.
Proof.
  unfold create_sbd. intros H. destruct (amount steem =? 0); [by injection H as <- _|]. destruct (Price.is_null _); simpl in H.
  - bind H as db1 H1. injection H as <- _. by eapply adjust_balance_vesting.
  - bind H as m Hm. bind H as ts Hts. bind H as tst Htst. bind H as sbd Hsbd.
    bind H as db2 Hadj. bind H as msbd Hneg. bind H as db3 Hs1. bind H as db4 Hs2. injection H as <- _.
    apply adjust_supply_vesting in Hs1, Hs2. etrans; [|etrans; [exact Hs1|exact Hs2]].
    destruct reward; bind Hadj as db1 Hadj1.
    + apply adjust_reward_vesting in Hadj1, Hadj. by etrans.
    + apply adjust_balance_vesting in Hadj1, Hadj. by etrans.
Qed.

Lemma safe_add_range a b c : 0 <= a <= INT64_MAX -> 0 <= b <= INT64_MAX -> Safe.add a b = Ok c -> c = a + b /\ 0 <= c <= INT64_MAX.
Proof.
  intros Ha Hb H. rewrite Safe.add_exact in H by (unfold Safe.valid, INT64_MIN in *; lia).
  apply Safe.exact_Ok in H as [-> [_ ?]]. lia.
Qed.

Lemma asset_add_range x y z : 0 <= amount x <= INT64_MAX -> 0 <= amount y <= INT64_MAX -> Asset.add x y = Ok z ->
  amount z = amount x + amount y /\ 0 <= amount z <= INT64_MAX.
Proof.
  intros Hx Hy H. unfold Asset.add, Asset.same_symbol in H. result_inv.
  match goal with H : Safe.add _ _ = Ok _ |- _ => apply safe_add_range in H; [|done..] end. done.
Qed.

(** what a reward buys, and that the ratio survives the purchase *)
Lemma reward_price_mul b g p x nv :
  gpo_wf g -> ratio_ok b g -> 0 <= x <= b -> x <= INT64_MAX -> get_reward_vesting_share_price g = Ok p ->
  Price.mul (mk_asset x STEEM_SYMBOL) p = Ok nv ->
  0 < vest_steem g /\ amount nv = x * vest_shares g / vest_steem g /\ x <= amount nv < 2 ^ 63.
Proof.
  intros (?&?&?&?&?&?&?&?) (Hf & Hr & Hb) Hx Hx' Hp Hm. unfold vest_fields in Hf. decompose_Forall_hyps.
  unfold get_reward_vesting_share_price in Hp. bind Hp as s Hs. bind Hp as f Hf'.
  assert (symbol s = VESTS_SYMBOL /\ symbol f = STEEM_SYMBOL) as [Es Ef].
  { apply AssetFacts.asset_add_Ok in Hs as [? ->], Hf' as [? ->]. done. }
  apply asset_add_range in Hs as [As Rs]; [|done..]. apply asset_add_range in Hf' as [Af Rf]; [|done..].
  apply make_Ok in Hp as Ep. unfold Price.make, Price.validate in Hp. result_inv. zbool. simpl in *.
  unfold Price.mul in Hm. simpl in Hm. rewrite Es, Ef in Hm. simpl in Hm. unfold Price.scale in Hm. result_inv. zbool.
  fold (vest_shares g) in As. fold (vest_steem g) in Af. rewrite As, Af in *.
  rewrite PriceFacts.u128_product in * by lia.
  assert (0 < vest_steem g) as Hpos by lia.
  assert (x * vest_shares g / vest_steem g < 2 ^ 63) by (apply Z.div_lt_upper_bound; nia).
  assert (x <= x * vest_shares g / vest_steem g) by (apply Z.div_le_lower_bound; nia).
  rewrite i64_id by (unfold INT64_MIN, INT64_MAX; lia). simpl. split; [lia|]. split; [reflexivity|]. lia.
Qed.

(** ** Payments

    [pays b db db' x]: the code between [db] and [db'] pays out [x] STEEM that it
    has not taken from anyone yet, and touches, besides accounts and global
    properties, at most the statistics of comments. *)

(** nothing of a comment changed but the statistics of its payouts *)
Definition same_terms (c c' : comment_object) : Prop :=
  c' = c <| Comment.total_payout_value := Comment.total_payout_value c' |>
         <| Comment.curator_payout_value := Comment.curator_payout_value c' |>
         <| Comment.beneficiary_payout_value := Comment.beneficiary_payout_value c' |>
         <| Comment.author_rewards := Comment.author_rewards c' |>.
#[export] Instance same_terms_preorder : PreOrder same_terms.
Proof. split; [intros c; by destruct c|]. intros x y z Hy Hz. unfold same_terms. rewrite Hz, Hy. reflexivity. Qed.

Definition terms_kept (m m' : gmap (account_name_type * string) comment_object) : Prop :=
  forall j, match m !! j, m' !! j with
            | Some c, Some c' => same_terms c c'
            | None, None => True
            | _, _ => False
            end.
#[export] Instance terms_kept_preorder : PreOrder terms_kept.
Proof.
  split; [intros m j; by destruct (m !! j)|]. intros x y z Hy Hz j. specialize (Hy j). specialize (Hz j).
  destruct (x !! j), (y !! j), (z !! j); try done. by etrans.
Qed.

Definition elsewhere (db db' : database) : Prop :=
  keeps db db' /\ Db.reward_funds db' = Db.reward_funds db /\ Db.feed_history db' = Db.feed_history db /\
  terms_kept (Db.comments db) (Db.comments db') /\ Db.comment_votes db' = Db.comment_votes db /\
  Db.next_id db' = Db.next_id db.
#[export] Instance elsewhere_preorder : PreOrder elsewhere.
Proof.
  split; [done|]. intros x y z (K1 & F1 & E1 & C1 & V1 & N1) (K2 & F2 & E2 & C2 & V2 & N2).
  split; [by etrans|]. do 2 (split; [congruence|]). split; [by etrans|split; congruence].
Qed.

Lemma frame_elsewhere db db' : frame db db' -> keeps db db' -> elsewhere db db'.
Proof. intros [E _] K. split; [done|]. rewrite E. by repeat split. Qed.

Record pays (b : Z) (db db' : database) (x : Z) : Prop := mk_pays {
  ps_moves : moves db db' (- x) 0 0 0 0;
  ps_ratio : ratio_ok b (Db.gpo db');
  ps_elsewhere : elsewhere db db'
}.

Lemma pays_trans b d1 d2 d3 x y : pays b d1 d2 x -> pays b d2 d3 y -> pays b d1 d3 (x + y).
Proof.
  intros [M1 R1 E1] [M2 R2 E2]. split; [|done|by etrans].
  eapply moves_eq; [eapply moves_trans; [exact M1|exact M2]|lia..].
Qed.
Lemma pays_eq b db db' x y : pays b db db' x -> x = y -> pays b db db' y.
Proof. by intros ? ->. Qed.
Lemma pays_refl b db : wf db -> ratio_ok b (Db.gpo db) -> pays b db db 0.
Proof. intros. split; [by apply moves_refl|done|done]. Qed.
Lemma pays_wf b db db' x : pays b db db' x -> wf db'.
Proof. intros [M _ _]. apply M. Qed.

(** an update of an account that touches no holding *)
Lemma pays_account b db n f db' :
  wf db -> ratio_ok b (Db.gpo db) -> modify_account db n f = Ok db' ->
  (forall a a', account_wf a -> f a = Ok a' -> account_wf a' /\ acc_steem a' = acc_steem a /\
     acc_sbd a' = acc_sbd a /\ acc_vests a' = acc_vests a /\ acc_pending a' = acc_pending a /\ acc_vsf a' = acc_vsf a) ->
  (forall a a', f a = Ok a' -> Account.proxy a' = Account.proxy a) -> pays b db db' 0.
Proof.
  intros Hwf Hr H Hh Hp. split.
  - by eapply modify_account_conserves.
  - eapply ratio_kept; [by eapply modify_account_vesting|done].
  - apply frame_elsewhere; [by eapply modify_account_frame|by eapply modify_account_keeps].
Qed.

Lemma pays_comment b k db f db' :
  wf db -> ratio_ok b (Db.gpo db) -> modify_comment db k f = Ok db' -> (forall c c', f c = Ok c' -> same_terms c c') ->
  pays b db db' 0.
Proof.
  intros Hwf Hr H Hf. pose proof (content_comment _ _ _ _ H) as C. apply modify_obj_inv in H as (c & c' & Hc & Hf' & ->). split.
  - by apply content_conserves.
  - done.
  - split; [by apply content_keeps|]. split; [done|]. split; [done|]. split; [|done]. intros j. simpl.
    destruct (decide (j = k)) as [->|N]; [rewrite Hc, lookup_insert_eq; by apply Hf|].
    rewrite lookup_insert_ne by done. by destruct (_ !! j).
Qed.

Ltac keeps_terms := let c := fresh "c" in intros c ? ?; result_inv; by destruct c.

(** a reward paid in vesting shares *)
Lemma create_vesting_reward b db n x db' nv :
  wf db -> ratio_ok b (Db.gpo db) -> 0 <= x <= b -> x <= INT64_MAX ->
  create_vesting db n (mk_asset x STEEM_SYMBOL) true = Ok (db', nv) -> pays b db db' x.
Proof.
  intros Hwf Hr Hx Hx' H. pose proof (create_vesting_keeps _ _ _ _ _ _ H) as K.
  pose proof H as H0. unfold create_vesting in H. bind H as u1 U1. bind H as p Hp. bind H as nv' Hnv.
  bind H as db1 Hadj. bind H as db2 Hgpo. injection H as <- <-. simpl in Hp.
  destruct (reward_price_mul b _ p x nv' (wf_gpo _ Hwf) Hr Hx Hx' Hp Hnv) as (Hpos & En & Hlo & Hhi).
  apply create_vesting_moves in H0 as (M & F & _); [|done|intros _; simpl; destruct (Z.eq_dec x 0); [by right|left; lia]].
  split; [exact M| |by apply frame_elsewhere]. pose proof (adjust_reward_vesting _ _ _ _ _ Hadj) as V.
  pose proof (ratio_kept b _ _ V Hr) as (Hf & Hr1 & Hr2). apply modify_gpo_inv in Hgpo as (g & Hg & ->). simpl. bind Hg as s Hs.
  bind Hg as f Hf'. injection Hg as <-. unfold vest_fields in Hf. decompose_Forall_hyps.
  apply asset_add_range in Hs as [As Rs]; [|done|unfold INT64_MAX; lia]. apply asset_add_range in Hf' as [Af Rf]; [|done|simpl; lia].
  assert (vest_shares (Db.gpo db1) = vest_shares (Db.gpo db) /\ vest_steem (Db.gpo db1) = vest_steem (Db.gpo db)) as [E1 E2].
  { unfold vesting_kept, vest_fields in V. injection V. intros. unfold vest_shares, vest_steem. lia. }
  unfold ratio_ok, vest_shares, vest_steem, vest_fields in *. simpl in *. split; [repeat (apply Forall_cons_2; [done|]); by apply Forall_nil|].
  set (S := amount (Gpo.total_vesting_shares (Db.gpo db)) + amount (Gpo.pending_rewarded_vesting_shares (Db.gpo db))) in *.
  set (T := amount (Gpo.total_vesting_fund_steem (Db.gpo db)) + amount (Gpo.pending_rewarded_vesting_steem (Db.gpo db))) in *.
  pose proof (Z.mul_div_le (x * S) T Hpos). rewrite <- En in *. split; [lia|].
  replace (amount (Gpo.total_vesting_shares (Db.gpo db1)) + amount s) with (S + amount nv') by lia.
  replace (amount (Gpo.total_vesting_fund_steem (Db.gpo db1)) + amount f) with (T + x) by lia.
  rewrite E1, E2 in Hr2. clearbody S T. nia.
Qed.

(** ** Who gets what *)

Definition weights (l : list comment_vote_object) : Z := zsum (map CommentVote.weight l).

#[export] Instance zsum_perm : Proper (Permutation ==> eq) zsum.
Proof. intros l l' P. induction P; simpl; lia. Qed.

Lemma weights_perm l l' : Permutation l l' -> weights l = weights l'.
Proof. intros P. unfold weights. by rewrite P. Qed.

Lemma weights_nonneg l : Forall (fun v => 0 <= CommentVote.weight v) l -> 0 <= weights l.
Proof. unfold weights. induction 1; simpl; lia. Qed.

Lemma weights_bound l :
  Forall (fun v => 0 <= CommentVote.weight v) l -> Forall (fun v => 0 <= CommentVote.weight v <= weights l) l.
Proof.
  intros Hl. induction Hl as [|v l Hv Hl IH]; [done|]. pose proof (weights_nonneg l Hl) as Hn. unfold weights in *. simpl.
  constructor; [lia|]. eapply Forall_impl; [exact IH|]. simpl. intros ? [? ?]. lia.
Qed.

Section curators.
Context (b max_rewards total_weight : Z)
        (Hmax : 0 <= max_rewards <= b) (Hint : max_rewards <= INT64_MAX) (Htotal : 0 < total_weight < 2 ^ 64).

Lemma pay_curator_pays db u item db' u' :
  wf db -> ratio_ok b (Db.gpo db) -> 0 <= CommentVote.weight item <= total_weight ->
  pay_curator max_rewards total_weight (db, u) item = Ok (db', u') ->
  pays b db db' (u - u') /\ u' <= u /\ (u - u') * total_weight <= max_rewards * CommentVote.weight item.
Proof.
  intros Hwf Hr Hw H. unfold pay_curator in H. unfold INT64_MAX in Hint. bind H as q Hq. bind H as claim Hc.
  unfold div128 in Hq. destruct (Z.eqb_spec total_weight 0) as [|_]; [lia|]. injection Hq as <-. rewrite u128_id in Hc by nia.
  unfold to_uint64 in Hc. bind Hc as u1 U1. injection Hc as <-. set (claim := max_rewards * CommentVote.weight item / total_weight) in *.
  pose proof (Z.mul_div_le (max_rewards * CommentVote.weight item) total_weight ltac:(lia)) as Hle. fold claim in Hle.
  assert (0 <= claim <= max_rewards) by (split; [apply Z.div_pos; nia|apply Z.div_le_upper_bound; nia]).
  destruct (Z.ltb_spec 0 claim) as [L|L].
  - rewrite i64_id in H by (unfold INT64_MIN, INT64_MAX; lia). bind H as un Hun. apply Safe.sub_Ok in Hun as ->.
    bind H as [n a] Ha. bind H as [db1 nv] H1. bind H as db2 H2. injection H as <- <-.
    apply (create_vesting_reward b) in H1; [|done|done|lia|unfold INT64_MAX; lia].
    assert (pays b db1 db2 0) as H2'.
    { eapply pays_account; [by eapply pays_wf|apply H1|exact H2|keeps_holdings|keeps_proxy]. }
    split; [|split; [lia|nia]]. eapply pays_eq; [eapply pays_trans; [exact H1|exact H2']|lia].
  - injection H as <- <-. split; [|split; [lia|nia]]. eapply pays_eq; [by apply pays_refl|lia].
Qed.

Lemma pay_curators_fold l : forall db u db' u',
  wf db -> ratio_ok b (Db.gpo db) -> Forall (fun v => 0 <= CommentVote.weight v <= total_weight) l ->
  foldM (pay_curator max_rewards total_weight) (db, u) l = Ok (db', u') ->
  pays b db db' (u - u') /\ u' <= u /\ (u - u') * total_weight <= max_rewards * weights l.
Proof.
  induction l as [|v l IH]; intros db u db' u' Hwf Hr Hl H; simpl in H.
  - injection H as <- <-. split; [|unfold weights; simpl; lia]. eapply pays_eq; [by apply pays_refl|lia].
  - inversion Hl; subst. bind H as [db1 u1] H1. apply pay_curator_pays in H1 as (P1 & L1 & W1); [|done..].
    apply IH in H as (P2 & L2 & W2); [|by eapply pays_wf|apply P1|done].
    split; [eapply pays_eq; [eapply pays_trans; [exact P1|exact P2]|lia]|]. split; [lia|].
    unfold weights in *. simpl. nia.
Qed.
End curators.

(** the curators' share is never overspent *)
Lemma pay_curators_pays b db c max_rewards db' rem spent :
  wf db -> ratio_ok b (Db.gpo db) -> 0 <= max_rewards <= b -> max_rewards <= INT64_MAX ->
  Forall (fun v => 0 <= CommentVote.weight v) (map snd (votes_on db (Comment.id c))) ->
  weights (map snd (votes_on db (Comment.id c))) <= Comment.total_vote_weight c < 2 ^ 64 ->
  pay_curators db c max_rewards = Ok (db', rem, spent) ->
  pays b db db' spent /\ 0 <= spent <= max_rewards /\ 0 <= rem.
Proof.
  intros Hwf Hr Hm Hi Hpos Hw H. unfold pay_curators in H. bind H as [[db1 un] mr] H1. bind H as sp Hsp. injection H as <- <- <-.
  apply Safe.sub_Ok in Hsp as ->. destruct (Comment.allow_curation_rewards c); simpl in H1.
  2: { injection H1 as <- <- <-. split; [|lia]. eapply pays_eq; [by apply pays_refl|lia]. }
  destruct (Z.ltb_spec 0 (Comment.total_vote_weight c)) as [L|L].
  2: { injection H1 as <- <- <-. split; [|lia]. eapply pays_eq; [by apply pays_refl|lia]. }
  bind H1 as [db2 u] H2. injection H1 as <- <- <-.
  assert (proxy_set db c ≡ₚ map snd (votes_on db (Comment.id c))) as P by apply merge_sort_Permutation.
  apply (pay_curators_fold b max_rewards _) in H2 as (Py & L1 & W1); [|lia|lia|lia|done|done|].
  - rewrite (weights_perm _ _ P) in W1. split; [done|]. split; [split; [lia|nia]|]. nia.
  - rewrite P. eapply Forall_impl; [by apply weights_bound|]. simpl. intros v [? ?]. lia.
Qed.

Lemma quot_part x w n : 0 <= x -> 0 <= w -> 0 < n -> Z.quot (x * w) n * n <= x * w /\ 0 <= Z.quot (x * w) n.
Proof.
  intros. rewrite Z.quot_div_nonneg by nia. pose proof (Z.mul_div_le (x * w) n ltac:(lia)).
  split; [lia|]. apply Z.div_pos; nia.
Qed.

Definition benefits (bs : list (account_name_type * Z)) : Z := zsum (map snd bs).

Lemma pay_beneficiaries b tokens bs : forall db t db' t',
  wf db -> ratio_ok b (Db.gpo db) -> 0 <= tokens <= b -> tokens <= INT64_MAX ->
  Forall (fun x => 0 <= snd x <= STEEM_100_PERCENT) bs ->
  foldM (pay_beneficiary tokens) (db, t) bs = Ok (db', t') ->
  pays b db db' (t' - t) /\ t <= t' /\ (t' - t) * STEEM_100_PERCENT <= tokens * benefits bs.
Proof.
  unfold STEEM_100_PERCENT. induction bs as [|[n w] bs IH]; intros db t db' t' Hwf Hr Ht Hi Hb H; simpl in H.
  - injection H as <- <-. split; [|unfold benefits; simpl; lia]. eapply pays_eq; [by apply pays_refl|lia].
  - inversion Hb as [|? ? Hw Hbs]; subst. simpl in Hw. bind H as [db1 t1] H1. bind H1 as m Hm. bind H1 as x Hx. bind H1 as a Ha.
    bind H1 as [db2 nv] H2. bind H1 as t2 Ht2. injection H1 as <- <-. simpl in Hm, H2.
    apply Safe.mul_Ok in Hm as ->. apply Safe.div_Ok in Hx as [-> _]. apply Safe.add_Ok in Ht2 as ->.
    destruct (quot_part tokens w 10000) as [Q1 Q2]; [lia..|]. unfold STEEM_100_PERCENT in *.
    assert (Z.quot (tokens * w) 10000 <= tokens) by nia.
    apply (create_vesting_reward b) in H2; [|done|done|lia|lia].
    apply IH in H as (P2 & L2 & W2); [|by eapply pays_wf|apply H2|done..].
    split; [eapply pays_eq; [eapply pays_trans; [exact H2|exact P2]|lia]|]. split; [lia|]. unfold benefits in *. simpl. nia.
Qed.

Lemma create_sbd_keeps db n steem reward db' r : create_sbd db n steem reward = Ok (db', r) -> keeps db db'.
Proof.
  unfold create_sbd. intros H. destruct (amount steem =? 0); [by injection H as <- _|]. destruct (Price.is_null _); simpl in H.
  - bind H as db1 H1. injection H as <- _. by eapply adjust_balance_keeps.
  - bind H as m Hm. bind H as ts Hts. bind H as tst Htst. bind H as sbd Hsbd.
    bind H as db2 Hadj. bind H as msbd Hneg. bind H as db3 Hs1. bind H as db4 Hs2. injection H as <- _.
    unfold adjust_supply in Hs1, Hs2. apply modify_gpo_keeps in Hs1, Hs2; [|keeps_time..].
    etrans; [|etrans; [exact Hs1|exact Hs2]]. destruct reward; bind Hadj as db1 Hadj1.
    + apply adjust_reward_keeps in Hadj1, Hadj. by etrans.
    + apply adjust_balance_keeps in Hadj1, Hadj. by etrans.
Qed.

Lemma create_sbd_pays b db n x reward db' r :
  wf db -> ratio_ok b (Db.gpo db) -> create_sbd db n (mk_asset x STEEM_SYMBOL) reward = Ok (db', r) -> pays b db db' x.
Proof.
  intros Hwf Hr H. pose proof (create_sbd_keeps _ _ _ _ _ _ H) as K. pose proof (create_sbd_vesting _ _ _ _ _ _ H) as V.
  apply create_sbd_moves in H as [M F]; [|done|done]. split; [exact M|by eapply ratio_kept|by apply frame_elsewhere].
Qed.

Lemma pay_author_pays b k db c author_tokens cur tb claimed db' :
  wf db -> ratio_ok b (Db.gpo db) -> 0 <= tb <= author_tokens -> author_tokens <= b -> author_tokens <= INT64_MAX ->
  0 <= Comment.percent_steem_dollars c <= STEEM_100_PERCENT ->
  pay_author db k c author_tokens cur tb claimed = Ok db' -> pays b db db' (author_tokens - tb).
Proof.
  unfold STEEM_100_PERCENT. intros Hwf Hr Htb Hb Hi Hp H. unfold pay_author in H. bind H as a Ha. bind H as m Hm. bind H as s Hs. bind H as v Hv.
  bind H as u1 U1. bind H as [db1 nv] H1. bind H as [db2 [sbd st]] H2. bind H as s1 S1. bind H as s2 S2. bind H as s3 S3.
  bind H as s4 S4. bind H as s5 S5. bind H as db3 H3. bind H as s6 S6. bind H as db4 H4.
  apply Safe.sub_Ok in Ha as ->. apply Safe.mul_Ok in Hm as ->. apply Safe.div_Ok in Hs as [-> _]. apply Safe.sub_Ok in Hv as ->.
  destruct (quot_part (author_tokens - tb) (Comment.percent_steem_dollars c) (2 * STEEM_100_PERCENT)) as [Q1 Q2];
    [lia|lia|unfold STEEM_100_PERCENT; lia|]. unfold STEEM_100_PERCENT in *.
  set (q := Z.quot _ _) in *. assert (q <= author_tokens - tb) by nia.
  apply (create_vesting_reward b) in H1; [|done|done|lia|lia].
  apply (create_sbd_pays b) in H2; [|by eapply pays_wf|apply H1].
  apply (pays_comment b) in H3; [|by eapply pays_wf|apply H2|keeps_terms].
  apply (pays_comment b) in H4; [|by eapply pays_wf|apply H3|keeps_terms].
  eapply (pays_account b) in H; [|by eapply pays_wf|apply H4|keeps_holdings|keeps_proxy].
  eapply pays_eq; [eapply pays_trans; [exact H1|eapply pays_trans; [exact H2|eapply pays_trans; [exact H3|eapply pays_trans; [exact H4|exact H]]]]|lia].
Qed.

(** ** One comment *)

(** the weights of the votes on the comment [i] *)
Definition weights_on (m : gmap (Z * Z) comment_vote_object) (i : Z) : Z :=
  msum (fun v => if decide (CommentVote.comment v = i) then CommentVote.weight v else 0) m.

Lemma weights_on_votes db i : weights (map snd (votes_on db i)) = weights_on (Db.comment_votes db) i.
Proof.
  unfold weights_on, votes_on, weights. rewrite msum_list. induction (map_to_list (Db.comment_votes db)) as [|[k v] l IH]; [done|].
  rewrite filter_cons. simpl. destruct (decide _); simpl; lia.
Qed.

Lemma votes_on_values db i (P : comment_vote_object -> Prop) :
  map_Forall (fun _ v => P v) (Db.comment_votes db) -> Forall P (map snd (votes_on db i)).
Proof.
  intros H. apply Forall_map, Forall_forall. intros [k v] Hv. unfold votes_on in Hv. apply list_elem_of_filter in Hv as [_ Hv].
  apply elem_of_map_to_list in Hv. by apply (H k).
Qed.

(** what the votes and options leave on a comment: the curators' weights are
    covered by the total weight, the beneficiaries share at most the whole *)
Record comment_ok (votes : gmap (Z * Z) comment_vote_object) (c : comment_object) : Prop := mk_comment_ok {
  co_weights : weights_on votes (Comment.id c) <= Comment.total_vote_weight c < 2 ^ 64;
  co_shares : Forall (fun x => 0 <= snd x <= STEEM_100_PERCENT) (Comment.beneficiaries c);
  co_benefits : benefits (Comment.beneficiaries c) <= STEEM_100_PERCENT;
  co_percent : 0 <= Comment.percent_steem_dollars c <= STEEM_100_PERCENT;
  co_reward_weight : 0 <= Comment.reward_weight c <= STEEM_100_PERCENT;
  co_rshares : Comment.net_rshares c <= INT64_MAX
}.

Definition votes_ok (votes : gmap (Z * Z) comment_vote_object) : Prop :=
  map_Forall (fun _ v => 0 <= CommentVote.weight v) votes.

Lemma pay_reward_pays b k db c rf reward db' claimed :
  wf db -> ratio_ok b (Db.gpo db) -> votes_ok (Db.comment_votes db) -> comment_ok (Db.comment_votes db) c ->
  get_reward_fund db = Ok rf -> 0 <= RewardFund.percent_curation_rewards rf <= STEEM_100_PERCENT ->
  0 <= reward <= b -> reward <= INT64_MAX ->
  pay_reward db k c reward false = Ok (db', claimed) -> pays b db db' claimed /\ 0 <= claimed <= reward.
Proof.
  intros Hwf Hr Hv [Cw Cs Cb Cp _ _] Hrf Hpc Hre Hi H. unfold pay_reward in H. bind H as pct Hpct.
  unfold get_curation_rewards_percent in Hpct. rewrite Hrf in Hpct. simpl in Hpct. injection Hpct as <-.
  unfold STEEM_100_PERCENT, INT64_MAX in *. rewrite u128_id in H by nia. bind H as ct Hct. unfold to_uint64 in Hct. bind Hct as u1 U1. injection Hct as <-.
  set (p := RewardFund.percent_curation_rewards rf) in *.
  assert (0 <= reward * p / 10000 <= reward) as Hm by (split; [apply Z.div_pos; nia|apply Z.div_le_upper_bound; nia]).
  set (m := reward * p / 10000) in *. rewrite i64_id in H by (unfold INT64_MIN, INT64_MAX; lia).
  bind H as at_ Hat. apply Safe.sub_Ok in Hat as ->. bind H as [[db1 rem] spent] H1. cbn [mbind result_bind] in H.
  bind H as cl Hcl. apply Safe.add_Ok in Hcl as ->. bind H as [db2 tb] H2. bind H as db3 H3. injection H as <- <-.
  apply (pay_curators_pays b) in H1 as (P1 & S1 & R1); [|done|done|lia|unfold INT64_MAX; lia|by apply votes_on_values|by rewrite weights_on_votes].
  apply (pay_beneficiaries b) in H2 as (P2 & L2 & W2); [|by eapply pays_wf|apply P1|lia|unfold INT64_MAX; lia|done].
  unfold STEEM_100_PERCENT in W2.
  apply (pay_author_pays b) in H3; [|by eapply pays_wf|apply P2|nia|lia|unfold INT64_MAX; lia|done].
  split; [|lia]. eapply pays_eq; [eapply pays_trans; [exact P1|eapply pays_trans; [exact P2|exact H3]]|lia].
Qed.

(** removing the votes of a comment one by one leaves the others *)
Lemma remove_votes_eq db i :
  fold_left (fun db kv => remove Db.comment_votes (fst kv) db) (votes_on db i) db =
  db <| Db.comment_votes := filter (fun kv => CommentVote.comment (snd kv) <> i) (Db.comment_votes db) |>.
Proof.
  assert (forall (l : list ((Z * Z) * comment_vote_object)) d, fold_left (fun db kv => remove Db.comment_votes (fst kv) db) l d =
    d <| Db.comment_votes := fold_left (fun m kv => delete (fst kv) m) l (Db.comment_votes d) |>) as F.
  { induction l as [|kv l IH]; intros d; [by destruct d|]. simpl. by rewrite IH. }
  rewrite F. set (m' := fold_left _ _ _). set (m2 := filter _ _). enough (m' = m2) as -> by done. unfold m', m2. clear m' m2. apply map_eq. intros k.
  assert (forall (l : list ((Z * Z) * comment_vote_object)) (m : gmap (Z * Z) comment_vote_object),
    fold_left (fun m kv => delete (fst kv) m) l m !! k = if decide (k ∈ l.*1) then None else m !! k) as G.
  { induction l as [|kv l IH]; intros m; [done|]. cbn [fold_left]. rewrite IH. change ((kv :: l).*1) with (kv.1 :: l.*1).
    destruct (decide (k ∈ l.*1)) as [A|A], (decide (k ∈ kv.1 :: l.*1)) as [B|B]; [done|destruct B; by right| |].
    - apply elem_of_cons in B as [->|?]; [apply lookup_delete_eq|done].
    - apply lookup_delete_ne. intros <-. apply B. by left. }
  rewrite G. destruct (Db.comment_votes db !! k) as [v|] eqn:Hk.
  - destruct (decide (k ∈ (votes_on db i).*1)) as [Hin|Hin].
    + symmetry. apply map_lookup_filter_None. right. intros v' Hv'. simplify_eq.
      apply list_elem_of_fmap in Hin as ([k' v'] & -> & Hin). unfold votes_on in Hin. apply list_elem_of_filter in Hin as [Hc Hin].
      apply elem_of_map_to_list in Hin. simpl in *. simplify_eq. by intros [].
    + symmetry. apply map_lookup_filter_Some. split; [done|]. simpl. intros E. apply Hin.
      apply list_elem_of_fmap. exists (k, v). split; [done|]. unfold votes_on. apply list_elem_of_filter. split; [done|].
      by apply elem_of_map_to_list.
  - destruct (decide _); symmetry; apply map_lookup_filter_None; by left.
Qed.

Lemma weights_on_filter m i j :
  weights_on (filter (fun kv => CommentVote.comment (snd kv) <> i) m) j = if decide (j = i) then 0 else weights_on m j.
Proof.
  unfold weights_on.
  pose proof (msum_filter (fun v => if decide (CommentVote.comment v = j) then CommentVote.weight v else 0)
    (fun v => CommentVote.comment v <> i) m) as E.
  rewrite E. clear E. destruct (decide (j = i)) as [->|N].
  - etrans; [apply (msum_ext _ (fun _ => 0))|apply msum_0]. intros k v _.
    destruct (decide (CommentVote.comment v <> i)), (decide (CommentVote.comment v = i)); done.
  - apply msum_ext. intros k v _. destruct (decide (CommentVote.comment v <> i)) as [|A]; [done|].
    rewrite decide_False; [done|]. intros B. apply A. congruence.
Qed.

Definition claim_of (rf : reward_fund_object) (c : comment_object) : Z :=
  if 0 <? Comment.net_rshares c then
    match evaluate_reward_curve (u128 (Comment.net_rshares c)) (RewardFund.author_reward_curve rf) (RewardFund.content_constant rf) with
    | Ok x => x
    | Throw _ => 0
    end
  else 0.

Lemma claim_range rf c : 0 <= claim_of rf c < 2 ^ 128.
Proof.
  unfold claim_of. destruct (0 <? _); [|lia]. destruct (evaluate_reward_curve _ _ _) as [x|] eqn:E; [|lia].
  apply curve_range in E; [done|apply u128_range].
Qed.

(** what the payout of one comment does *)
Record cashed (b : Z) (k : comment_key) (c : comment_object) (db db' : database) (claimed : Z) : Prop := mk_cashed {
  ca_moves : moves db db' (- claimed) 0 0 0 0;
  ca_ratio : ratio_ok b (Db.gpo db');
  ca_keeps : keeps db db';
  ca_funds : Db.reward_funds db' = Db.reward_funds db;
  ca_comments : exists m c', terms_kept (Db.comments db) m /\ same_terms c c' /\
    Db.comments db' = <[k := reset_comment (head_block_time db) c']> m;
  ca_votes : Db.comment_votes db' = filter (fun kv => CommentVote.comment (snd kv) <> Comment.id c) (Db.comment_votes db);
  ca_ids : Db.next_id db' = Db.next_id db
}.

(** the end of the helper: the comment is reset and its votes are removed *)
Lemma close_comment b k c db db1 db2 claimed :
  pays b db db1 claimed -> Db.comments db !! k = Some c ->
  modify_comment db1 k (fun c => Ok (reset_comment (head_block_time db1) c)) = Ok db2 ->
  cashed b k c db (fold_left (fun db kv => remove Db.comment_votes (fst kv) db) (votes_on db2 (Comment.id c)) db2) claimed.
Proof.
  intros [M R (K & Ef & Eh & Et & Ev & En)] Hc H. rewrite remove_votes_eq. pose proof (content_comment _ _ _ _ H) as C.
  apply modify_obj_inv in H as (c1 & c2 & Hc1 & [= <-] & E2).
  set (db3 := db2 <| Db.comment_votes := _ |>). assert (content_only db1 db3) as C3.
  { etrans; [exact C|]. split; [by destruct db2|done]. }
  assert (same_terms c c1) as S by (specialize (Et k); by rewrite Hc, Hc1 in Et).
  assert (head_block_time db1 = head_block_time db) as Ht by apply K.
  split.
  - eapply moves_eq; [eapply moves_trans; [exact M|apply content_conserves; [apply M|exact C3]]|lia..].
  - unfold db3. rewrite E2. exact R.
  - etrans; [exact K|by apply content_keeps].
  - unfold db3. rewrite E2. simpl. exact Ef.
  - exists (Db.comments db1), c1. split; [done|]. split; [done|]. unfold db3. rewrite E2, Ht. done.
  - unfold db3. rewrite E2. simpl. by rewrite Ev.
  - unfold db3. rewrite E2. simpl. exact En.
Qed.

Lemma helper_cashed b k db c rf ctx db' claimed :
  wf db -> ratio_ok b (Db.gpo db) -> votes_ok (Db.comment_votes db) -> comment_ok (Db.comment_votes db) c ->
  Db.comments db !! k = Some c -> get_reward_fund db = Ok rf ->
  0 <= RewardFund.percent_curation_rewards rf <= STEEM_100_PERCENT ->
  0 <= amount (ctx_total_reward_fund_steem ctx) <= INT64_MAX -> amount (ctx_total_reward_fund_steem ctx) <= b ->
  claim_of rf c <= ctx_total_reward_shares2 ctx ->
  cashout_comment_helper ctx db k c false = Ok (db', claimed) ->
  cashed b k c db db' claimed /\ 0 <= claimed /\
  claimed * ctx_total_reward_shares2 ctx <= amount (ctx_total_reward_fund_steem ctx) * claim_of rf c /\
  (ctx_total_reward_shares2 ctx = 0 -> claimed = 0).
Proof.
  intros Hwf Hr Hv Hok Hc Hrf Hp Hf Hb Hcl H. unfold cashout_comment_helper in H. bind H as [db1 cl] H1. bind H as db2 H2.
  injection H as <- <-. pose proof (claim_range rf c) as Hcr.
  assert (pays b db db1 cl /\ 0 <= cl /\
    cl * ctx_total_reward_shares2 ctx <= amount (ctx_total_reward_fund_steem ctx) * claim_of rf c /\
    (ctx_total_reward_shares2 ctx = 0 -> cl = 0)) as (P & L & W).
  2: { split; [by eapply close_comment|done]. }
  destruct (Z.ltb_spec 0 (Comment.net_rshares c)) as [Ln|Ln].
  2: { injection H1 as <- <-. split; [by apply pays_refl|]. split; [lia|]. split; [nia|done]. }
  rewrite Hrf in H1. cbn [mbind result_bind] in H1. bind H1 as reward Hre. pose proof Hre as Hre'. unfold get_rshare_reward in Hre'.
  bind Hre' as u1 U1. bind Hre' as u2 U2. bind Hre' as x Hx. clear Hre' U1. apply fc_assert_Ok, Z.ltb_lt in U2. simpl in U2, Hx.
  assert (claim_of rf c = x) as Ecl by (unfold claim_of; rewrite (proj2 (Z.ltb_lt _ _) Ln); by rewrite Hx). rewrite Ecl in *.
  eapply rshare_reward_share in Hre as [Rr Rs]; [|exact Hx|lia|exact Hf|apply Hok]. simpl in Rs.
  assert (reward <= b) by nia.
  destruct (Z.ltb_spec 0 reward) as [Lr|Lr]; [|injection H1 as <- <-; split; [by apply pays_refl|]; split; [lia|]; split; [nia|done]].
  eapply pay_reward_pays in H1 as [P Q]; [|done..|lia|lia]. split; [done|]. split; [lia|]. split; [nia|lia].
Qed.

(** ** All the comments of a block *)

(** the sum of [h] over the comments that are due *)
Definition due_sum (h : comment_object -> Z) (now : Z) (m : gmap comment_key comment_object) : Z :=
  msum (fun c => if Comment.cashout_time c <=? now then h c else 0) m.

Definition due_claims (rf : reward_fund_object) : Z -> gmap comment_key comment_object -> Z := due_sum (claim_of rf).

Lemma due_claims_list rf db :
  zsum (map (fun kc => claim_of rf (snd kc)) (due_comments db)) = due_claims rf (head_block_time db) (Db.comments db).
Proof.
  unfold due_claims, due_sum, due_comments. rewrite msum_list. induction (map_to_list (Db.comments db)) as [|[k c] l IH]; [done|].
  rewrite filter_cons. simpl. destruct (Z.leb_spec (Comment.cashout_time c) (head_block_time db)) as [L|L].
  - rewrite decide_True by done. simpl. lia.
  - rewrite decide_False by (simpl; lia). lia.
Qed.

Lemma due_claims_nonneg rf now m : 0 <= due_claims rf now m.
Proof. apply msum_nonneg. intros k c _. pose proof (claim_range rf c). destruct (_ <=? _); lia. Qed.

Lemma add_claims db rf l : forall f funds,
  get_reward_fund db = Ok rf -> RewardFund.id rf = 0 -> 0 <= rf_recent_claims f < 2 ^ 128 ->
  foldM (add_claim db) [f] l = Ok funds ->
  funds = [f <| rf_recent_claims := u128 (rf_recent_claims f + zsum (map (fun kc => claim_of rf (snd kc)) l)) |>].
Proof.
  induction l as [|[k c] l IH]; intros f funds Hrf Hid Hf H; simpl in H.
  - injection H as <-. simpl. rewrite Z.add_0_r, u128_id by done. by destruct f.
  - bind H as f1 H1. unfold add_claim in H1. simpl in H1.
    assert (f1 = [f <| rf_recent_claims := u128 (rf_recent_claims f + claim_of rf c) |>]) as ->.
    { unfold claim_of. destruct (0 <? Comment.net_rshares c).
      - rewrite Hrf in H1. simpl in H1. bind H1 as x Hx. unfold modify_fund in H1. rewrite Hid in H1. simpl in H1.
        injection H1 as <-. by rewrite Hx.
      - injection H1 as <-. rewrite Z.add_0_r, u128_id by done. by destruct f. }
    apply IH in H; [|done|done|apply u128_range]. rewrite H. simpl. unfold modify_field. simpl. do 2 f_equal. unfold u128. 
    by rewrite Zplus_mod_idemp_l, Z.add_assoc.
Qed.

Lemma same_terms_claim rf c c' : same_terms c c' -> claim_of rf c' = claim_of rf c.
Proof. intros ->. done. Qed.

Lemma same_terms_time c c' : same_terms c c' -> Comment.cashout_time c' = Comment.cashout_time c.
Proof. by intros ->. Qed.
Lemma same_terms_id c c' : same_terms c c' -> Comment.id c' = Comment.id c.
Proof. by intros ->. Qed.

Lemma same_terms_ok votes c c' : same_terms c c' -> comment_ok votes c -> comment_ok votes c'.
Proof. intros -> []. by split. Qed.

(** a round settles its comment and leaves the others due *)
Lemma cashed_due h b k c db db' claimed :
  (forall c c', same_terms c c' -> h c' = h c) ->
  cashed b k c db db' claimed -> Db.comments db !! k = Some c -> Comment.cashout_time c <= head_block_time db ->
  head_block_time db < time_maximum ->
  due_sum h (head_block_time db) (Db.comments db') = due_sum h (head_block_time db) (Db.comments db) - h c.
Proof.
  intros Hh [_ _ _ _ (m & c' & T & S & E) _ _] Hc Hd Ht. rewrite E. pose proof (T k) as Tk. rewrite Hc in Tk.
  destruct (m !! k) as [c1|] eqn:Hk; [|done]. unfold due_sum. rewrite (msum_insert _ _ _ _ _ Hk). simpl.
  rewrite (proj2 (Z.leb_gt time_maximum _)) by lia. rewrite (same_terms_time c c1 Tk), (proj2 (Z.leb_le _ _)) by done.
  rewrite (Hh c c1 Tk).
  enough (msum (fun c => if Comment.cashout_time c <=? head_block_time db then h c else 0) m =
          msum (fun c => if Comment.cashout_time c <=? head_block_time db then h c else 0) (Db.comments db)) by lia.
  apply msum_same. intros j. specialize (T j). destruct (Db.comments db !! j) as [x|], (m !! j) as [y|]; try done.
  simpl. by rewrite (same_terms_time x y T), (Hh x y T).
Qed.

Lemma cashed_ok b k c db db' claimed :
  cashed b k c db db' claimed -> Db.comments db !! k = Some c -> votes_ok (Db.comment_votes db) ->
  map_Forall (fun _ c => comment_ok (Db.comment_votes db) c) (Db.comments db) ->
  votes_ok (Db.comment_votes db') /\ map_Forall (fun _ c => comment_ok (Db.comment_votes db') c) (Db.comments db').
Proof.
  intros [_ _ _ _ (m & c' & T & S & E) Ev _] Hc Hv Hok. rewrite Ev, E. split.
  { intros j v Hj. apply map_lookup_filter_Some in Hj as [Hj _]. by apply (Hv j). }
  assert (forall x, comment_ok (Db.comment_votes db) x ->
    comment_ok (filter (fun kv => CommentVote.comment (snd kv) <> Comment.id c) (Db.comment_votes db)) x) as Hdec.
  { intros x [Hw ? ? ? ? ?]. split; [|done..]. rewrite weights_on_filter. destruct (decide _); [|done]. split; [|lia].
    assert (0 <= weights_on (Db.comment_votes db) (Comment.id x)); [|lia]. apply msum_nonneg. intros j v Hj. apply Hv in Hj.
    destruct (decide _); lia. }
  apply map_Forall_insert_2.
  - pose proof (Hdec c' (same_terms_ok _ _ _ S (Hok k c Hc))) as [Hw ? ? ? ? ?]. split; simpl; try done.
    + rewrite weights_on_filter, decide_True; [lia|]. by apply same_terms_id.
    + destruct (0 <? _); [unfold INT64_MAX; lia|done].
  - intros j x Hj. specialize (T j). rewrite Hj in T. destruct (Db.comments db !! j) as [y|] eqn:Hy; [|done].
    apply Hdec. eapply same_terms_ok; [exact T|by apply (Hok j)].
Qed.

(** What becomes of the content: a comment keeps its name, its number and its
    votes, or it is settled and has none. *)
Definition comment_settled (c c' : comment_object) : Prop :=
  key_of c' = key_of c /\ Comment.id c' = Comment.id c /\
  ((Comment.total_vote_weight c' = Comment.total_vote_weight c /\ Comment.vote_rshares c' = Comment.vote_rshares c) \/
   (Comment.total_vote_weight c' = 0 /\ Comment.vote_rshares c' = 0)) /\
  (Comment.net_rshares c' = Comment.net_rshares c \/ Comment.net_rshares c' = 0).
#[export] Instance comment_settled_preorder : PreOrder comment_settled.
Proof. split; [by repeat split; left|]. intros x y z (?&?&?&?) (?&?&?&?). split; [congruence|]. split; [congruence|]. intuition lia. Qed.

Definition settled (db db' : database) : Prop :=
  Db.next_id db' = Db.next_id db /\ Db.comment_votes db' ⊆ Db.comment_votes db /\
  forall j, option_relation comment_settled (fun _ => False) (fun _ => False) (Db.comments db !! j) (Db.comments db' !! j).
#[export] Instance settled_preorder : PreOrder settled.
Proof.
  split; [intros db; split_and!; [done|done|]; intros j; by destruct (_ !! j); simpl|].
  intros x y z (N1 & V1 & C1) (N2 & V2 & C2). split_and!; [congruence|by etrans|]. intros j. specialize (C1 j). specialize (C2 j).
  destruct (Db.comments x !! j), (Db.comments y !! j), (Db.comments z !! j); simpl in *; try done. by etrans.
Qed.

Lemma same_terms_settled c c' : same_terms c c' -> comment_settled c c'.
Proof. intros ->. split_and!; [done|done|by left|by left]. Qed.

Lemma cashed_settled b k c db db' claimed :
  cashed b k c db db' claimed -> Db.comments db !! k = Some c -> settled db db'.
Proof.
  intros [_ _ _ _ (m & c' & T & S & E) Ev En] Hc. split_and!; [done|rewrite Ev; apply map_filter_subseteq|].
  intros j. rewrite E. destruct (decide (j = k)) as [->|N].
  - rewrite Hc, lookup_insert_eq. simpl. etrans; [by apply same_terms_settled|].
    split_and!; [done|done|by right|]. simpl. destruct (0 <? _); [by right|by left].
  - rewrite lookup_insert_ne by done. specialize (T j). destruct (Db.comments db !! j), (m !! j); simpl; try done. by apply same_terms_settled.
Qed.

Lemma due_sum_bounds h now m : (forall c, 0 <= h c <= 1) -> 0 <= due_sum h now m <= Z.of_nat (size m).
Proof.
  intros Hh. unfold due_sum. induction m as [|k c m Hk IH] using map_ind; [done|].
  rewrite msum_insert_new, map_size_insert_None by done. specialize (Hh c). destruct (_ <=? _); lia.
Qed.

Lemma due_sum_elem h now m k c : (forall c, 0 <= h c) -> m !! k = Some c -> Comment.cashout_time c <= now -> h c <= due_sum h now m.
Proof.
  intros Hh Hk Hd. unfold due_sum. rewrite <- (insert_delete_id m k c Hk), msum_insert_new by apply lookup_delete_eq.
  rewrite (proj2 (Z.leb_le _ _)) by done. assert (0 <= due_sum h now (delete k m)); [|unfold due_sum in *; lia].
  apply msum_nonneg. intros j x _. specialize (Hh x). destruct (_ <=? _); lia.
Qed.

Lemma due_comment_Some db k c : due_comment db = Some (k, c) -> Db.comments db !! k = Some c /\ Comment.cashout_time c <= head_block_time db.
Proof.
  unfold due_comment. destruct (first_by _ _) as [[k' c']|] eqn:E; [|done].
  destruct (Z.leb_spec (Comment.cashout_time c') (head_block_time db)); intros [= <- <-]. by apply first_by_Some in E.
Qed.

Section rounds.
Context (db1 : database) (rf : reward_fund_object) (claims : Z) (balance : asset).

(** what holds after some of the due comments were paid *)
Record round_ok (awarded : Z) (st : database * list reward_fund_context) : Prop := mk_round {
  ro_funds : snd st = [mk_fund_context claims balance awarded];
  ro_moves : moves db1 (fst st) (- awarded) 0 0 0 0;
  ro_ratio : ratio_ok (amount balance) (Db.gpo (fst st));
  ro_keeps : keeps db1 (fst st);
  ro_same : Db.reward_funds (fst st) = Db.reward_funds db1;
  ro_votes : votes_ok (Db.comment_votes (fst st));
  ro_comments : map_Forall (fun _ c => comment_ok (Db.comment_votes (fst st)) c) (Db.comments (fst st));
  ro_settled : settled db1 (fst st);
  ro_range : 0 <= awarded;
  ro_none : claims = 0 -> awarded = 0;
  ro_due : due_claims rf (head_block_time db1) (Db.comments (fst st)) <= claims;
  ro_paid : awarded * claims + amount balance * due_claims rf (head_block_time db1) (Db.comments (fst st))
            <= amount balance * due_claims rf (head_block_time db1) (Db.comments db1)
}.

Lemma round_step awarded st kc st' :
  get_reward_fund db1 = Ok rf -> RewardFund.id rf = 0 ->
  0 <= RewardFund.percent_curation_rewards rf <= STEEM_100_PERCENT -> 0 <= amount balance <= INT64_MAX ->
  head_block_time db1 < time_maximum ->
  round_ok awarded st -> due_comment (fst st) = Some kc -> cashout_next st kc = Ok st' ->
  (exists claimed, round_ok (awarded + claimed) st') /\
  due_sum (fun _ => 1) (head_block_time db1) (Db.comments (fst st')) =
  due_sum (fun _ => 1) (head_block_time db1) (Db.comments (fst st)) - 1.
Proof.
  intros Hrf Hid Hpc Hb Ht [Ef M R K Es Hv Hc Hse H0 Hn Hd Hp] Hdue H. destruct st as [db funds], kc as [k c]. simpl in *.
  apply due_comment_Some in Hdue as [Hk Hdue]. assert (head_block_time db = head_block_time db1) as Ht1 by apply K.
  assert (get_reward_fund db = Ok rf) as Hrf' by (unfold get_reward_fund in *; by rewrite Es).
  rewrite Hrf' in H. cbn [mbind result_bind] in H. rewrite Hid, Ef in H. simpl in H. bind H as [db2 claimed] H1.
  assert (claim_of rf c <= claims) as Hcl.
  { etrans; [|exact Hd]. apply (due_sum_elem _ _ _ k); [intros x; apply claim_range|done|by rewrite <- Ht1]. }
  apply (helper_cashed (amount balance) k db c rf) in H1 as (C & L & W & Wn); [|apply M|done|done|by apply (Hc k)|done..]. simpl in W, Wn.
  bind H as f2 H2. unfold modify_fund in H2. simpl in H2. bind H2 as f3 H3. bind H3 as a Ha. apply Safe.add_Ok in Ha as ->.
  injection H3 as <-. simpl in H2. injection H2 as <-. injection H as <-. simpl.
  destruct (cashed_ok _ _ _ _ _ _ C Hk Hv Hc) as [Hv2 Hc2].
  pose proof (cashed_due (claim_of rf) _ _ _ _ _ _ (same_terms_claim rf) C Hk Hdue ltac:(by rewrite Ht1)) as D1.
  pose proof (cashed_due (fun _ => 1) _ _ _ _ _ _ (fun _ _ _ => eq_refl) C Hk Hdue ltac:(by rewrite Ht1)) as D2.
  rewrite Ht1 in D1, D2. split; [|lia]. exists claimed. pose proof (cashed_settled _ _ _ _ _ _ C Hk) as CS. destruct C as [CM CR CK CF CC CV CI].
  assert (due_claims rf (head_block_time db1) (Db.comments db2) = due_claims rf (head_block_time db1) (Db.comments db) - claim_of rf c) as D1' by exact D1.
  pose proof (claim_range rf c). split; simpl; try done.
  - eapply moves_eq; [eapply moves_trans; [exact M|exact CM]|lia..].
  - by etrans.
  - congruence.
  - by etrans.
  - lia.
  - intros Z0. rewrite (Hn Z0), (Wn Z0). lia.
  - lia.
  - rewrite D1'. nia.
Qed.

(** the rounds go on until nothing is due *)
Lemma cashout_rounds st db2 f2 :
  get_reward_fund db1 = Ok rf -> RewardFund.id rf = 0 ->
  0 <= RewardFund.percent_curation_rewards rf <= STEEM_100_PERCENT -> 0 <= amount balance <= INT64_MAX ->
  head_block_time db1 < time_maximum -> round_ok 0 (db1, st) ->
  while_next (size (Db.comments db1)) (fun st => due_comment (fst st)) cashout_next (db1, st) = Ok (db2, f2) ->
  due_comment db2 = None /\ exists awarded, round_ok awarded (db2, f2).
Proof.
  intros Hrf Hid Hpc Hb Ht I0 H. set (I := fun st => exists awarded, round_ok awarded st).
  set (count := fun m : gmap comment_key comment_object => due_sum (fun _ => 1) (head_block_time db1) m).
  assert (forall s x s', I s -> due_comment (fst s) = Some x -> cashout_next s x = Ok s' ->
    I s' /\ count (Db.comments (fst s')) = count (Db.comments (fst s)) - 1) as Istep.
  { intros s x s' [aw Hs] Hd Hx. destruct (round_step _ _ _ _ Hrf Hid Hpc Hb Ht Hs Hd Hx) as [[cl Hs'] E]. split; [by exists (aw + cl)|done]. }
  assert (forall s x, I s -> due_comment (fst s) = Some x -> 1 <= count (Db.comments (fst s))) as Ipos.
  { intros s [k c] [aw Hs] Hd. apply due_comment_Some in Hd as [Hk Hd].
    assert (head_block_time (fst s) = head_block_time db1) as Es by apply Hs. rewrite Es in Hd.
    exact (due_sum_elem (fun _ => 1) _ _ _ _ (fun _ => Z.le_0_1) Hk Hd). }
  split.
  - apply (while_next_done_inv (fun st => due_comment (fst st)) cashout_next I (fun st => Z.to_nat (count (Db.comments (fst st))))
      (size (Db.comments db1)) (db1, st) (db2, f2)); [by exists 0|intros; by eapply Istep| | |simpl|done].
    + intros s x Hs Hd. specialize (Ipos s x Hs Hd). lia.
    + intros s x s' Hs Hd Hx. destruct (Istep s x s' Hs Hd Hx) as [_ E]. specialize (Ipos s x Hs Hd). lia.
    + pose proof (due_sum_bounds (fun _ => 1) (head_block_time db1) (Db.comments db1) ltac:(lia)). unfold count. lia.
  - apply (while_next_inv _ _ I) in H; [done|intros; by eapply Istep|by exists 0].
Qed.
End rounds.

(** When a block may cash out: one reward fund, whose claims fit 128 bits with
    those of the comments that are due; comments and votes in order; vesting
    shares at a price the fund can buy at. *)
Record cashout_ready (db : database) (rf : reward_fund_object) : Prop := mk_ready {
  cr_wf : wf db;
  cr_time : head_block_time db < time_maximum;
  cr_fund : Db.reward_funds db = {[STEEM_POST_REWARD_FUND_NAME := rf]};
  cr_id : RewardFund.id rf = 0;
  cr_percent : 0 <= RewardFund.percent_curation_rewards rf <= STEEM_100_PERCENT;
  cr_balance : 0 <= amount (RewardFund.reward_balance rf) <= INT64_MAX;
  cr_ratio : ratio_ok (amount (RewardFund.reward_balance rf)) (Db.gpo db);
  cr_votes : votes_ok (Db.comment_votes db);
  cr_comments : map_Forall (fun _ c => comment_ok (Db.comment_votes db) c) (Db.comments db);
  cr_claims : RewardFund.recent_claims (decay (head_block_time db) rf)
              + due_claims rf (head_block_time db) (Db.comments db) < 2 ^ 128
}.

Lemma funds_keeps db m : keeps db (db <| Db.reward_funds := m |>).
Proof. split; [done|]. split; [|done]. intros n. simpl. by destruct (_ !! n). Qed.

Lemma insert_single db rf x :
  Db.reward_funds db = {[STEEM_POST_REWARD_FUND_NAME := rf]} ->
  db <| Db.reward_funds ::= <[STEEM_POST_REWARD_FUND_NAME := x]> |> =
  db <| Db.reward_funds := {[STEEM_POST_REWARD_FUND_NAME := x]} |>.
Proof.
  intros E. transitivity (db <| Db.reward_funds := <[STEEM_POST_REWARD_FUND_NAME := x]> (Db.reward_funds db) |>); [done|].
  by rewrite E, insert_singleton_eq.
Qed.

Lemma decay_single db rf db1 funds :
  Db.reward_funds db = {[STEEM_POST_REWARD_FUND_NAME := rf]} -> decay_funds db = Ok (db1, funds) ->
  let rf1 := decay (head_block_time db) rf in
  db1 = db <| Db.reward_funds := {[STEEM_POST_REWARD_FUND_NAME := rf1]} |> /\
  funds = [mk_fund_context (RewardFund.recent_claims rf1) (RewardFund.reward_balance rf) 0].
Proof.
  intros E H rf1. unfold decay_funds in H. assert (funds_by_id db = [(STEEM_POST_REWARD_FUND_NAME, rf)]) as F.
  { unfold funds_by_id. by rewrite E, map_to_list_singleton. }
  rewrite F in H. cbn [foldM] in H. bind H as [d fs] H1. injection H as <- <-. bind H1 as d1 D1. bind H1 as r R1. injection H1 as <- <-.
  apply modify_obj_inv in D1 as (r0 & r1 & Hr0 & [= <-] & ->). simpl in Hr0, R1. rewrite E, lookup_singleton_eq in Hr0.
  injection Hr0 as <-. apply get_or_Ok in R1. rewrite lookup_insert_eq in R1. injection R1 as <-.
  split; [|done]. by apply (insert_single db rf).
Qed.

(** a fund that keeps its rules *)
Definition same_fund (rf rf' : reward_fund_object) : Prop :=
  rf' = rf <| RewardFund.reward_balance := RewardFund.reward_balance rf' |>
           <| RewardFund.recent_claims := RewardFund.recent_claims rf' |>
           <| RewardFund.last_update := RewardFund.last_update rf' |>.
#[export] Instance same_fund_preorder : PreOrder same_fund.
Proof. split; [intros r; by destruct r|]. intros x y z Hy Hz. unfold same_fund. rewrite Hz, Hy. reflexivity. Qed.

Lemma write_single db rf f db' :
  Db.reward_funds db = {[STEEM_POST_REWARD_FUND_NAME := rf]} -> wf db -> write_funds 0 db [f] = Ok db' ->
  exists rf', db' = db <| Db.reward_funds := {[STEEM_POST_REWARD_FUND_NAME := rf']} |> /\
    amount (RewardFund.reward_balance rf') = amount (RewardFund.reward_balance rf) - rf_steem_awarded f /\
    same_fund rf rf' /\ moves db db' (rf_steem_awarded f) 0 0 0 0.
Proof.
  intros E Hwf H. simpl in H. bind H as d H1. injection H as <-. unfold write_fund in H1. bind H1 as [n r] Hn.
  apply modify_obj_inv in H1 as (r0 & r1 & Hr0 & Hr1 & ->). rewrite E in Hr0. apply lookup_singleton_Some in Hr0 as [<- <-].
  bind Hr1 as b Hb. injection Hr1 as <-. asset_inv.
  rewrite (insert_single db rf) by done.
  eexists. split; [done|]. split; [done|]. split; [by destruct rf|].
  assert (symbol (RewardFund.reward_balance rf) = STEEM_SYMBOL) as Es
    by (apply (wf_funds _ Hwf STEEM_POST_REWARD_FUND_NAME); by rewrite E, lookup_singleton_eq).
  eapply moves_eq; [apply funds_moves; [done|by apply map_Forall_singleton]|..]; [|lia..].
  rewrite E, !msum_singleton. unfold fund_held. simpl. lia.
Qed.

(** ** The theorem *)

Lemma decay_claims now rf : 0 <= RewardFund.recent_claims (decay now rf) < 2 ^ 128.
Proof. simpl. apply u128_range. Qed.

Lemma decay_claim_of now rf c : claim_of (decay now rf) c = claim_of rf c.
Proof. done. Qed.

(** ... and the fund is never overdrawn *)
Lemma cashout_sound db rf db' :
  cashout_ready db rf -> process_comment_cashout db = Ok db' ->
  conserves db db' /\ keeps db db' /\ due_comment db' = None /\
  settled db db' /\ votes_ok (Db.comment_votes db') /\
  map_Forall (fun _ c => comment_ok (Db.comment_votes db') c) (Db.comments db') /\
  exists rf', Db.reward_funds db' = {[STEEM_POST_REWARD_FUND_NAME := rf']} /\ same_fund rf rf' /\
    0 <= amount (RewardFund.reward_balance rf') <= amount (RewardFund.reward_balance rf).
Proof.
  intros [Hwf Ht Ef Hid Hpc Hb Hr Hv Hc Hcl] H. unfold process_comment_cashout in H. bind H as [db1 funds] H1.
  apply (decay_single _ rf) in H1 as [E1 ->]; [|done]. pose proof (decay_claims (head_block_time db) rf) as Hdc.
  assert (due_claims (decay (head_block_time db) rf) = due_claims rf) as Ed by done.
  assert (RewardFund.id (decay (head_block_time db) rf) = 0 /\
    RewardFund.percent_curation_rewards (decay (head_block_time db) rf) = RewardFund.percent_curation_rewards rf /\
    RewardFund.reward_balance (decay (head_block_time db) rf) = RewardFund.reward_balance rf) as (Hid1 & Hpc1 & Hb1) by done.
  assert (same_fund rf (decay (head_block_time db) rf)) as Hsf by (by destruct rf).
  set (rf1 := decay (head_block_time db) rf) in *. clearbody rf1. rewrite <- Hpc1 in Hpc. rewrite <- Hb1 in *. rewrite <- Ed in *. clear Ed Hpc1 Hid.
  bind H as f2 H2. assert (get_reward_fund db1 = Ok rf1) as Hrf by (rewrite E1; unfold get_reward_fund; simpl; by rewrite lookup_singleton_eq).
  apply (add_claims db1 rf1) in H2; [|done..]. subst f2. rewrite due_claims_list in H. simpl rf_recent_claims in H.
  assert (head_block_time db1 = head_block_time db) as Et by (by rewrite E1). assert (Db.comments db1 = Db.comments db) as Ec by (by rewrite E1).
  pose proof (due_claims_nonneg rf1 (head_block_time db1) (Db.comments db1)) as Hdn. rewrite <- Et, <- Ec in Hcl. rewrite u128_id in H by lia.
  set (claims := RewardFund.recent_claims rf1 + due_claims rf1 (head_block_time db1) (Db.comments db1)) in *.
  set (balance := RewardFund.reward_balance rf1) in *.
  assert (conserves db db1) as M1.
  { rewrite E1. eapply moves_eq; [apply funds_moves; [done|apply map_Forall_singleton; fold balance; rewrite Hb1;
      apply (wf_funds _ Hwf STEEM_POST_REWARD_FUND_NAME); by rewrite Ef, lookup_singleton_eq]|..]; [|lia..].
    rewrite Ef, !msum_singleton. unfold fund_held. fold balance. rewrite Hb1. lia. }
  bind H as [db2 f3] H3. change ((mk_fund_context (RewardFund.recent_claims rf1) balance 0) <| rf_recent_claims := claims |>) with (mk_fund_context claims balance 0) in H3.
  assert (round_ok db1 rf1 claims balance 0 (db1, [mk_fund_context claims balance 0])) as I0.
  { split; simpl; try done; [by apply moves_refl, M1|by rewrite E1..|lia]. }
  rewrite <- Et in Ht.
  destruct (cashout_rounds _ _ _ _ _ _ _ Hrf Hid1 Hpc Hb Ht I0 H3) as (Hnone & aw & [Ef3 M2 R2 K2 Es2 Hv2 Hc2 Hs2 H02 Hn2 Hd2 Hp2]).
  simpl in *. subst f3.
  apply (write_single db2 rf1) in H as (rf' & -> & Eb & Sf & M3); [|by rewrite Es2, E1|apply M2]. simpl in Eb, M3. fold balance in Eb.
  split; [eapply moves_eq; [eapply moves_trans; [exact M1|eapply moves_trans; [exact M2|exact M3]]|lia..]|].
  split; [etrans; [|etrans; [exact K2|apply funds_keeps]]; rewrite E1; apply funds_keeps|]. split; [done|].
  split; [rewrite E1 in Hs2; exact Hs2|]. split; [done|]. split; [done|].
  exists rf'. split; [done|]. split; [by etrans|]. rewrite Eb. pose proof (due_claims_nonneg rf1 (head_block_time db1) (Db.comments db2)).
  destruct (Z.eq_dec claims 0) as [Z0|]; [rewrite (Hn2 Z0); lia|]. assert (aw * claims <= amount balance * claims) by nia. nia.
Qed.

(** C24: The payout of a block keeps the books: what the curators, beneficiaries and
    authors receive is exactly what leaves the reward fund, the fund is never
    overdrawn, and no comment that was due is left unpaid.  [cashout_ready] is assumed:
    assets carry their symbols, the time is before the maximum, there is one reward fund
    with number 0, a curation percentage and a 63-bit balance, the claims on it fit 128
    bits, the weights of votes are not negative and add up to no more than that of their
    comment, shares and percentages of comments are at most 100 percent, and a unit of
    STEEM buys at least one unit of vesting shares, the whole fund less than 2^63
    ([ratio_ok]).  Where a reward buys no share the books part:
    [shareless_reward_counted_twice]. *)
Theorem cashout_pays_from_fund db rf db' :
  cashout_ready db rf -> process_comment_cashout db = Ok db' ->
  conserves db db' /\ due_comment db' = None /\
  exists rf', Db.reward_funds db' = {[STEEM_POST_REWARD_FUND_NAME := rf']} /\
    0 <= amount (RewardFund.reward_balance rf') <= amount (RewardFund.reward_balance rf).
Proof. intros Hr H. destruct (cashout_sound _ _ _ Hr H) as (C & _ & D & _ & _ & _ & rf' & E & _ & B). split; [done|]. split; [done|]. eauto. Qed.
