(* ===== verification/Content.v ===== *)
(** Content: what posts and votes promise to the payout.

    process_comment_cashout divides the curation reward of a comment by its
    total_vote_weight and hands out the share of each vote, the beneficiaries
    theirs, and so on; [Cashout] needs that the weights of the votes are covered by
    the total and that the beneficiaries share at most the whole.  [content_ok] is
    the invariant behind it: the total of the curation weights is bounded by the
    curation curve at the rshares of the comment, which keeps its 64-bit sum from
    wrapping; votes belong to comments that exist or existed; comment ids are
    unique.  It is shown to survive every operation and the payout. *)
From Stdlib Require Import ZArith Lia String.
From stdpp Require Import base gmap strings list sorting.
From S2P Require Import Prelude.
From S2P Require Import Safe.
From S2P Require Import Asset.
From S2P Require Import Authority.
From S2P Require Import Objects.
From S2P Require Import Reward.
From S2P Require Import Balance.
From S2P Require Import Supply.
From S2P Require Import Transfers.
From S2P Require Import Comments.
From S2P Require Import Market.
From S2P Require Import Vesting.
From S2P Require Import Accounts.
From S2P Require Import WitnessProps.
From S2P Require Import Operation.
From S2P Require Import Invariant.
From S2P Require Import Cashout.
Local Open Scope string_scope.
Local Open Scope Z_scope.
Local Open Scope fc_scope.

(** ** The invariant *)

(** the rules of the reward fund, which are fixed at genesis *)
Record fund_fine (rf : reward_fund_object) : Prop := mk_fund_fine {
  ff_id : RewardFund.id rf = 0;
  ff_percent : 0 <= RewardFund.percent_curation_rewards rf <= STEEM_100_PERCENT;
  ff_constant : 0 < RewardFund.content_constant rf < 2 ^ 60
}.

Definition curation_curve (rf : reward_fund_object) (rshares : Z) : result Z :=
  evaluate_reward_curve (u128 rshares) (RewardFund.curation_reward_curve rf) (RewardFund.content_constant rf).

Record vote_fine (next : Z) (k : Z * Z) (v : comment_vote_object) : Prop := mk_vote_fine {
  vf_key : k = (CommentVote.comment v, CommentVote.voter v);
  vf_weight : 0 <= CommentVote.weight v;
  vf_comment : CommentVote.comment v < next;
  vf_rshares : Safe.valid (CommentVote.rshares v)
}.

Record comment_fine (rf : reward_fund_object) (votes : gmap (Z * Z) comment_vote_object) (next : Z)
    (k : account_name_type * string) (c : comment_object) : Prop := mk_comment_fine {
  cf_key : key_of c = k;
  cf_id : Comment.id c < next;
  cf_ok : comment_ok votes c;
  cf_net : Safe.valid (Comment.net_rshares c);
  cf_rshares : 0 <= Comment.vote_rshares c <= INT64_MAX;
  cf_curve : forall w, curation_curve rf (Comment.vote_rshares c) = Ok w -> Comment.total_vote_weight c <= w
}.

Definition ids_unique (m : gmap (account_name_type * string) comment_object) : Prop :=
  forall k k' c c', m !! k = Some c -> m !! k' = Some c' -> Comment.id c = Comment.id c' -> k = k'.

(** the parts of the database that hold content *)
Record content : Type := mk_content {
  ct_comments : gmap (account_name_type * string) comment_object;
  ct_votes : gmap (Z * Z) comment_vote_object;
  ct_next : Z;
  ct_funds : gmap string reward_fund_object
}.
Definition content_of (db : database) : content :=
  mk_content (Db.comments db) (Db.comment_votes db) (Db.next_id db comment_index) (Db.reward_funds db).

Record content_fine (rf : reward_fund_object) (t : content) : Prop := mk_content_fine {
  cn_fund : ct_funds t = {[STEEM_POST_REWARD_FUND_NAME := rf]};
  cn_rules : fund_fine rf;
  cn_votes : map_Forall (vote_fine (ct_next t)) (ct_votes t);
  cn_comments : map_Forall (comment_fine rf (ct_votes t) (ct_next t)) (ct_comments t);
  cn_ids : ids_unique (ct_comments t)
}.
Definition content_ok (db : database) : Prop := exists rf, content_fine rf (content_of db).

(** ** Curves *)

Lemma curation_curve_total rf x : fund_fine rf -> 0 <= x <= INT64_MAX -> exists w, curation_curve rf x = Ok w /\ 0 <= w.
Proof.
  intros [_ _ Hc] Hx. unfold curation_curve. assert (0 <= x < 2 ^ 63) by (unfold INT64_MAX in Hx; lia).
  rewrite u128_id by lia. destruct (evaluate_reward_curve x (RewardFund.curation_reward_curve rf) (RewardFund.content_constant rf)) as [w|e] eqn:E.
  - exists w. split; [done|]. apply curve_range in E; lia.
  - exfalso. destruct (RewardFund.curation_reward_curve rf); simpl in E; try done. unfold div128 in E.
    rewrite !u128_id in E; rewrite ?u128_id; try lia. destruct (Z.eqb_spec (RewardFund.content_constant rf * 2 + x) 0); [lia|done].
Qed.

Lemma curation_curve_mono rf a b wa wb : fund_fine rf -> 0 <= a <= b -> b <= INT64_MAX ->
  curation_curve rf a = Ok wa -> curation_curve rf b = Ok wb -> 0 <= wa <= wb.
Proof.
  intros [_ _ Hc] Hab Hb. unfold curation_curve. assert (b < 2 ^ 63) by (unfold INT64_MAX in Hb; lia).
  rewrite !u128_id by lia. apply curve_mono; lia.
Qed.

(** ** Comments that change in other respects *)

(** what the invariant reads of a comment *)
Definition content_same (c c' : comment_object) : Prop :=
  key_of c' = key_of c /\ Comment.id c' = Comment.id c /\ Comment.total_vote_weight c' = Comment.total_vote_weight c /\
  Comment.beneficiaries c' = Comment.beneficiaries c /\ Comment.percent_steem_dollars c' = Comment.percent_steem_dollars c /\
  Comment.reward_weight c' = Comment.reward_weight c /\ Comment.net_rshares c' = Comment.net_rshares c /\
  Comment.vote_rshares c' = Comment.vote_rshares c.
#[export] Instance content_same_preorder : PreOrder content_same.
Proof. split; [done|]. unfold content_same. intros x y z. intuition congruence. Qed.

Lemma content_same_fine rf votes next k c c' : content_same c c' -> comment_fine rf votes next k c -> comment_fine rf votes next k c'.
Proof.
  intros (E1 & E2 & E3 & E4 & E5 & E6 & E7 & E8) [? ? [] ? ? ?]. split; rewrite ?E1, ?E2, ?E3, ?E7, ?E8; try done.
  split; rewrite ?E2, ?E3, ?E4, ?E5, ?E6, ?E7; done.
Qed.

Definition comments_same (m m' : gmap (account_name_type * string) comment_object) : Prop :=
  forall k, option_relation content_same (fun _ => False) (fun _ => False) (m !! k) (m' !! k).
#[export] Instance comments_same_preorder : PreOrder comments_same.
Proof.
  split; [intros m k; by destruct (m !! k); simpl|]. intros x y z Hy Hz k. specialize (Hy k). specialize (Hz k).
  destruct (x !! k), (y !! k), (z !! k); simpl in *; try done. by etrans.
Qed.

Lemma comments_same_modify m k c c' : m !! k = Some c -> content_same c c' -> comments_same m (<[k := c']> m).
Proof.
  intros Hc S j. destruct (decide (j = k)) as [->|N]; [by rewrite Hc, lookup_insert_eq|].
  rewrite lookup_insert_ne by done. by destruct (m !! j); simpl.
Qed.

(** [quiet]: nothing happened that the invariant can see *)
Definition quiet (db db' : database) : Prop :=
  comments_same (Db.comments db) (Db.comments db') /\ Db.comment_votes db' = Db.comment_votes db /\
  Db.next_id db' comment_index = Db.next_id db comment_index /\ Db.reward_funds db' = Db.reward_funds db.
#[export] Instance quiet_preorder : PreOrder quiet.
Proof. split; [done|]. intros x y z (?&?&?&?) (?&?&?&?). split; [by etrans|]. split_and!; congruence. Qed.

Lemma content_of_quiet db db' : content_of db' = content_of db -> quiet db db'.
Proof. unfold content_of. intros [= E1 E2 E3 E4]. unfold quiet. rewrite E1, E2, E3, E4. done. Qed.

Lemma quiet_fine rf db db' : quiet db db' -> content_fine rf (content_of db) -> content_fine rf (content_of db').
Proof.
  intros (C & V & N & F) [Hf Hr Hv Hc Hi]. simpl in *. split; simpl; rewrite ?V, ?N, ?F; try done.
  - intros k c' Hc'. specialize (C k). rewrite Hc' in C. destruct (Db.comments db !! k) as [c|] eqn:Hk; [|done].
    eapply content_same_fine; [exact C|by apply Hc].
  - intros k k' c c' Hk Hk' E. pose proof (C k) as C1. pose proof (C k') as C2. rewrite Hk in C1. rewrite Hk' in C2.
    destruct (Db.comments db !! k) as [d|] eqn:Hd; [|done]. destruct (Db.comments db !! k') as [d'|] eqn:Hd'; [|done].
    apply (Hi k k' d d' Hd Hd'). destruct C1 as (_ & E1 & _), C2 as (_ & E2 & _). congruence.
Qed.

(** ** Operations on other objects *)

Definition untouched (db db' : database) : Prop := content_of db' = content_of db.
#[export] Instance untouched_preorder : PreOrder untouched.
Proof. split; [done|]. intros x y z. unfold untouched. congruence. Qed.

Lemma frame_untouched db db' : frame db db' -> untouched db db'.
Proof. intros [-> _]. done. Qed.

Lemma modify_account_untouched db n f db' : modify_account db n f = Ok db' -> untouched db db'.
Proof. by intros (a & a' & _ & _ & ->)%modify_account_inv. Qed.
Lemma modify_gpo_untouched db f db' : modify_gpo db f = Ok db' -> untouched db db'.
Proof. by intros (g & _ & ->)%modify_gpo_inv. Qed.
Lemma modify_witness_untouched db n f db' : modify_witness db n f = Ok db' -> untouched db db'.
Proof. by intros (w & w' & _ & _ & ->)%modify_witness_inv. Qed.
Lemma adjust_balance_untouched db n d db' : adjust_balance db n d = Ok db' -> untouched db db'.
Proof. intros H. by eapply frame_untouched, modify_balance_frame. Qed.
Lemma adjust_savings_untouched db n d db' : adjust_savings_balance db n d = Ok db' -> untouched db db'.
Proof. intros H. by eapply frame_untouched, adjust_savings_balance_frame. Qed.
Lemma adjust_reward_untouched db n v s db' : adjust_reward_balance db n v s = Ok db' -> untouched db db'.
Proof. intros H. by eapply frame_untouched, adjust_reward_balance_frame. Qed.
Lemma adjust_votes_untouched db n d db' : adjust_witness_votes db n d = Ok db' -> untouched db db'.
Proof. intros [_ F]%adjust_witness_votes_ledger. by apply frame_untouched. Qed.

Lemma adjust_proxied_at_untouched togo : forall db n d db', adjust_proxied_at togo db n d = Ok db' -> untouched db db'.
Proof.
  induction togo as [|togo IH]; intros db n d db' H; simpl in H; bind H as a Ha; destruct (decide _); try (by eapply adjust_votes_untouched).
  - by injection H as <-.
  - bind H as db1 H1. etrans; [by eapply modify_account_untouched|by eapply IH].
Qed.
Lemma adjust_proxied_untouched db n d db' : adjust_proxied_witness_votes db n d = Ok db' -> untouched db db'.
Proof. apply adjust_proxied_at_untouched. Qed.

Lemma adjust_array_untouched togo : forall db n delta db', adjust_proxied_array_at togo db n delta = Ok db' -> untouched db db'.
Proof.
  induction togo as [|togo IH]; intros db n delta db' H; simpl in H; bind H as a Ha; destruct (decide _);
    try (bind H as t Ht; by eapply adjust_votes_untouched).
  - by injection H as <-.
  - bind H as db1 H1. etrans; [by eapply modify_account_untouched|by eapply IH].
Qed.

Lemma create_untouched {K V} `{Countable K} idx (field : database -> gmap K V) `{!Setter field} key c db db' :
  create idx field key c db = Ok db' -> idx <> comment_index -> (forall g d, untouched d (d <| field ::= g |>)) -> untouched db db'.
Proof.
  unfold create. intros E N Hf. destruct (field db !! key); [done|]. injection E as <-. etrans; [|apply Hf].
  unfold untouched, content_of. simpl. by rewrite decide_False.
Qed.
Lemma modify_obj_untouched {K V} `{Countable K} (field : database -> gmap K V) `{!Setter field} key f db db' :
  modify_obj field key f db = Ok db' -> (forall g d, untouched d (d <| field ::= g |>)) -> untouched db db'.
Proof. intros (v & v' & _ & _ & ->)%modify_obj_inv Hf. apply Hf. Qed.

Ltac untouched_facts :=
  repeat match goal with
  | H : adjust_balance _ _ _ = Ok _ |- _ => apply adjust_balance_untouched in H
  | H : adjust_savings_balance _ _ _ = Ok _ |- _ => apply adjust_savings_untouched in H
  | H : adjust_reward_balance _ _ _ _ = Ok _ |- _ => apply adjust_reward_untouched in H
  | H : adjust_witness_votes _ _ _ = Ok _ |- _ => apply adjust_votes_untouched in H
  | H : adjust_proxied_witness_votes _ _ _ = Ok _ |- _ => apply adjust_proxied_untouched in H
  | H : adjust_proxied_array_at _ _ _ _ = Ok _ |- _ => apply adjust_array_untouched in H
  | H : modify_gpo _ _ = Ok _ |- _ => apply modify_gpo_untouched in H
  | H : modify_witness _ _ _ = Ok _ |- _ => apply modify_witness_untouched in H
  | H : modify_account _ _ _ = Ok _ |- _ => apply modify_account_untouched in H
  | H : create _ _ _ _ _ = Ok _ |- _ => apply create_untouched in H; [|done|done]
  | H : modify_obj _ _ _ _ = Ok _ |- _ => apply modify_obj_untouched in H; [|done]
  end.
Ltac untouched_chain :=
  first
    [ reflexivity
    | eassumption
    | match goal with
      | H : untouched ?c ?b |- untouched ?a ?b => transitivity c; [clear H; untouched_chain|exact H]
      | |- untouched _ (remove _ _ ?d) => transitivity d; [untouched_chain|reflexivity]
      | |- untouched _ (modify_field _ _ ?d) => transitivity d; [untouched_chain|reflexivity]
      end ].

Lemma create_vesting_untouched db n liquid reward db' v : create_vesting db n liquid reward = Ok (db', v) -> untouched db db'.
Proof. unfold create_vesting. destruct reward; intros; result_case; untouched_facts; untouched_chain. Qed.
Lemma cancel_order_untouched db k db' : cancel_order db k = Ok db' -> untouched db db'.
Proof. unfold cancel_order. intros; result_case; untouched_facts; untouched_chain. Qed.
Lemma fill_order_untouched db k p r db' b : fill_order db k p r = Ok (db', b) -> untouched db db'.
Proof.
  unfold fill_order. intros. result_case; untouched_facts;
    repeat match goal with H : cancel_order _ _ = Ok _ |- _ => apply cancel_order_untouched in H end; untouched_chain.
Qed.
Lemma match_all_untouched nk l : forall db db', match_all db nk l = Ok db' -> untouched db db'.
Proof.
  induction l as [|[k o] l IH]; intros db db' H; simpl in H; [by injection H as <-|].
  bind H as [db1 [f g]] H1. assert (untouched db db1) as U.
  { unfold match_orders in H1. bind H1 as n Hn. bind H1 as o1 Ho. bind H1 as u1 U1. bind H1 as u2 U2.
    bind H1 as u3 U3. bind H1 as u4 U4. bind H1 as u5 U5. bind H1 as [nr or] Hm. bind H1 as u6 U6.
    bind H1 as [db2 f1] H2. bind H1 as [db3 f2] H3. bind H1 as u7 U7. injection H1 as <- _ _.
    etrans; by eapply fill_order_untouched. }
  destruct f; [by injection H as <-|]. etrans; [exact U|by apply IH].
Qed.
Lemma create_limit_order_untouched db owner orderid amt rate fok expiration db' :
  create_limit_order db owner orderid amt rate fok expiration = Ok db' -> untouched db db'.
Proof.
  unfold create_limit_order, apply_order. intros H. result_case.
  repeat match goal with H : match_all _ _ _ = Ok _ |- _ => apply match_all_untouched in H end. untouched_facts. untouched_chain.
Qed.
Lemma create_account_objects_untouched db creator name owner active posting key json received db' :
  create_account_objects db creator name owner active posting key json received = Ok db' -> untouched db db'.
Proof. unfold create_account_objects. intros. result_case; untouched_facts; untouched_chain. Qed.
Lemma update_owner_authority_untouched db n auth db' : update_owner_authority db n auth = Ok db' -> untouched db db'.
Proof. unfold update_owner_authority. intros. result_case; untouched_facts; untouched_chain. Qed.

Ltac untouched_ops :=
  repeat match goal with
  | H : create_vesting _ _ _ _ = Ok (_, _) |- _ => apply create_vesting_untouched in H
  | H : create_account_objects _ _ _ _ _ _ _ _ _ = Ok _ |- _ => apply create_account_objects_untouched in H
  | H : update_owner_authority _ _ _ = Ok _ |- _ => apply update_owner_authority_untouched in H
  | H : cancel_order _ _ = Ok _ |- _ => apply cancel_order_untouched in H
  end;
  untouched_facts; untouched_chain.

Definition is_content_operation (op : operation) : bool :=
  match op with
  | comment_operation _ _ _ _ _ _ _ | comment_options_operation _ _ _ _ _ _ _ | delete_comment_operation _ _
  | vote_operation _ _ _ _ => true
  | _ => false
  end.

Lemma account_witness_proxy_untouched db n p db' : account_witness_proxy_evaluator db n p = Ok db' -> untouched db db'.
Proof.
  intros H. unfold account_witness_proxy_evaluator in H. bind H as a Ha. bind H as u1 U1. bind H as u2 U2.
  bind H as delta Hd. bind H as db1 H1. apply adjust_array_untouched in H1. etrans; [exact H1|].
  destruct (decide (p = "")); [by eapply modify_account_untouched|].
  bind H as np Hnp. bind H as u3 U3. bind H as db2 H2. bind H as db3 H3. bind H as delta2 Hd2.
  apply adjust_array_untouched in H. apply modify_account_untouched in H2, H3. untouched_chain.
Qed.

Lemma escrow_approve_untouched db from to agent who id approve db' :
  escrow_approve_evaluator db from to agent who id approve = Ok db' -> untouched db db'.
Proof.
  intros H. unfold escrow_approve_evaluator in H. bind H as e0 E0. bind H as u1 U1. bind H as u2 U2. bind H as u3 U3.
  bind H as db1 H1. bind H as e1 E1. bind H as db2 H2. bind H as e2 E2.
  assert (forall (P : Prop) (c : Decision P) (b : bool) u k f (d d' : database),
    (if c then _ ← (u : result unit); if b then modify_obj Db.escrows k f d else Ok d else Ok d) = Ok d' -> untouched d d') as A.
  { intros P c b u k f d d'. destruct c; intros A; [|by injection A as <-]. bind A as x Hx.
    destruct b; [by apply modify_obj_untouched in A|by injection A as <-]. }
  apply A in H1, H2. clear A. result_case; untouched_ops.
Qed.

Lemma operation_untouched `{env : environment} producing db op db' :
  is_content_operation op = false -> apply_operation producing db op = Ok db' -> untouched db db'.
Proof.
  intros Ht H. destruct op; try done; clear Ht; simpl in H.
  - unfold account_create_evaluator in H. result_case; untouched_ops.
  - unfold account_create_with_delegation_evaluator in H. result_case; untouched_ops.
  - unfold account_update_evaluator in H. result_case; untouched_ops.
  - unfold claim_account_evaluator in H. result_case; untouched_ops.
  - unfold create_claimed_account_evaluator in H. result_case; untouched_ops.
  - unfold transfer_evaluator in H. result_case; untouched_ops.
  - unfold escrow_transfer_evaluator in H. result_case; untouched_ops.
  - by eapply escrow_approve_untouched.
  - unfold escrow_dispute_evaluator in H. result_case; untouched_ops.
  - unfold escrow_release_evaluator in H. bind H as a Ha. bind H as e He. bind H as u1 U1. bind H as u2 U2.
    bind H as u3 U3. bind H as u4 U4. bind H as u5 U5. bind H as u6 U6. bind H as u7 U7. bind H as db1 H1. bind H as db2 H2.
    bind H as db3 H3. bind H as e3 He3. match type of H with (if ?b then _ else _) = _ => destruct b end; injection H as <-; untouched_ops.
  - unfold transfer_to_vesting_evaluator in H. result_case; untouched_ops.
  - unfold withdraw_vesting_evaluator in H. result_case; untouched_ops.
  - unfold set_withdraw_vesting_route_evaluator in H. result_case; untouched_ops.
  - unfold witness_update_evaluator in H. result_case; untouched_ops.
  - unfold account_witness_vote_evaluator, adjust_witness_vote in H. result_case; untouched_ops.
  - by eapply account_witness_proxy_untouched.
  - unfold custom_evaluator in H. result_case; untouched_ops.
  - unfold feed_publish_evaluator in H. result_case; untouched_ops.
  - unfold convert_evaluator in H. result_case; untouched_ops.
  - by eapply create_limit_order_untouched.
  - by eapply create_limit_order_untouched.
  - unfold limit_order_cancel_evaluator in H. result_case; untouched_ops.
  - unfold request_account_recovery_evaluator in H. result_case; untouched_ops.
  - unfold recover_account_evaluator in H. result_case; untouched_ops.
  - unfold change_recovery_account_evaluator in H. result_case; untouched_ops.
  - unfold transfer_to_savings_evaluator in H. result_case; untouched_ops.
  - unfold transfer_from_savings_evaluator in H. result_case; untouched_ops.
  - unfold cancel_transfer_from_savings_evaluator in H. result_case; untouched_ops.
  - unfold decline_voting_rights_evaluator in H. result_case; untouched_ops.
  - unfold claim_reward_balance_evaluator in H. result_case; untouched_ops.
  - unfold delegate_vesting_shares_evaluator in H. result_case; untouched_ops.
  - unfold witness_set_properties_evaluator in H. bind H as w Hw. bind H as v Hv. bind H as sk Hsk. bind H as u1 U1.
    bind H as fee F. bind H as size_ S. bind H as rate R. bind H as limit L. bind H as key K. bind H as ex E. bind H as url U.
    by eapply modify_witness_untouched.
  - by apply custom_evaluators_keep in H as ->.
  - by apply custom_evaluators_keep in H as ->.
  - by injection H as <-.
Qed.

(** ** Comments *)

Lemma untouched_quiet db db' : untouched db db' -> quiet db db'.
Proof. apply content_of_quiet. Qed.

Lemma modify_comment_quiet db k f db' :
  modify_comment db k f = Ok db' -> (forall c c', f c = Ok c' -> content_same c c') -> quiet db db'.
Proof.
  intros (c & c' & Hc & Hf & ->)%modify_obj_inv S. split_and!; [|done..]. simpl. eapply comments_same_modify; [exact Hc|by apply S].
Qed.

Lemma touch_parents_quiet d db k depth db' : touch_parents d db k depth = Ok db' -> quiet db db'.
Proof.
  unfold touch_parents. intros H. bind H as [db1 o] H1. injection H as <-.
  change (quiet (db, Some k).1 (db1, o).1). revert H1.
  apply (while_next_inv snd (touch_parent d) (fun st => quiet db st.1)); [|done].
  intros [s p] k' [s' p'] Hs _ Hb. simpl in *. unfold touch_parent in Hb. bind Hb as s1 H1.
  apply modify_comment_quiet in H1; [|by intros c c' [= <-]].
  bind Hb as c Hc. etrans; [exact Hs|]. result_case; done.
Qed.

Lemma add_root_rshares_quiet db c x db' : add_root_rshares db c x = Ok db' -> quiet db db'.
Proof.
  unfold add_root_rshares. intros H. bind H as [k r] Hr. eapply modify_comment_quiet; [exact H|].
  intros d d' Hd. cbv beta in Hd. bind Hd as s Hs. by injection Hd as <-.
Qed.

Lemma weights_on_none votes next i :
  map_Forall (vote_fine next) votes -> next <= i -> weights_on votes i = 0.
Proof.
  intros Hv Hi. unfold weights_on. etrans; [apply (msum_ext _ (fun _ => 0))|apply msum_0]. intros k v Hk.
  apply Hv in Hk as [_ _ ? _]. rewrite decide_False; [done|lia].
Qed.

Lemma new_comment_fine rf votes next now parent pp author permlink :
  fund_fine rf -> map_Forall (vote_fine next) votes ->
  comment_fine rf votes (next + 1) (author, c_str permlink) (new_comment now parent pp author permlink next).
Proof.
  intros Hr Hv. pose proof (weights_on_none votes next next Hv ltac:(lia)) as W.
  destruct (curation_curve_total rf 0 Hr ltac:(done)) as (w0 & E0 & H0).
  assert (forall c, Comment.id c = next -> Comment.total_vote_weight c = 0 -> Comment.beneficiaries c = [] ->
    Comment.percent_steem_dollars c = STEEM_100_PERCENT -> Comment.reward_weight c = STEEM_100_PERCENT ->
    Comment.net_rshares c = 0 -> Comment.vote_rshares c = 0 -> key_of c = (author, c_str permlink) ->
    comment_fine rf votes (next + 1) (author, c_str permlink) c) as G.
  { intros c E1 E2 E3 E4 E5 E6 E7 E8. split; [done|lia| |rewrite E6; done|rewrite E7; done|].
    - split; rewrite ?E1, ?E2, ?E3, ?E4, ?E5, ?E6, ?W; try done.
    - intros w. rewrite E7, E0, E2. by intros [= <-]. }
  destruct parent; by apply G.
Qed.

Lemma create_comment_fine rf db now parent pp author permlink db' :
  content_fine rf (content_of db) ->
  create comment_index Db.comments (author, c_str permlink) (new_comment now parent pp author permlink) db = Ok db' ->
  content_fine rf (content_of db').
Proof.
  intros [Hf Hr Hv Hc Hi] H. simpl in *. unfold create in H. destruct (Db.comments db !! _) as [|] eqn:Hk; [done|]. injection H as <-.
  set (next := Db.next_id db comment_index) in *.
  assert (map_Forall (vote_fine (next + 1)) (Db.comment_votes db)) as Hv'.
  { intros k v Hv0. apply Hv in Hv0 as []. split; [done|done|lia|done]. }
  split; simpl; fold next; rewrite ?decide_True by done; try done.
  - apply map_Forall_insert_2; [by apply new_comment_fine|]. intros k c Hkc. apply Hc in Hkc as []. split; try done. lia.
  - assert (forall k c, Db.comments db !! k = Some c -> Comment.id c <> next) as Hne by (intros k c Hkc; apply Hc in Hkc as []; lia).
    assert (Comment.id (new_comment now parent pp author permlink next) = next) as En by (by destruct parent).
    intros k k' c c' H1 H2 E. apply lookup_insert_Some in H1 as [[<- <-]|[N1 H1]], H2 as [[<- <-]|[N2 H2]]; [done| | |by eapply Hi].
    + destruct (Hne _ _ H2). congruence.
    + destruct (Hne _ _ H1). congruence.
Qed.

Lemma comment_fine_kept `{env : environment} rf patch db pa pp author permlink title body json db' :
  content_fine rf (content_of db) -> comment_evaluator patch db pa pp author permlink title body json = Ok db' ->
  content_fine rf (content_of db').
Proof.
  intros Hf H. unfold comment_evaluator in H. bind H as u1 U1. bind H as a Ha. bind H as parent Hp. bind H as u2 U2.
  destruct (find_comment db author permlink) as [c|].
  - eapply quiet_fine; [|exact Hf]. unfold edit_comment in H. bind H as db1 H1.
    apply modify_comment_quiet in H1; [|intros x x' Hx; cbv zeta in Hx; bind Hx as v1 V1; bind Hx as v2 V2; by injection Hx as <-].
    etrans; [exact H1|]. apply untouched_quiet. by apply modify_obj_untouched in H.
  - unfold create_comment in H. bind H as b Hb. bind H as u3 U3. bind H as u4 U4. bind H as db1 H1. bind H as u5 U5.
    bind H as u6 U6. bind H as db2 H2. bind H as db3 H3. apply modify_account_untouched in H1.
    apply (quiet_fine rf db db1 (untouched_quiet _ _ H1)) in Hf. apply (create_comment_fine rf) in H2; [|done].
    apply create_untouched in H3; [|done|done].
    apply (quiet_fine rf db2 db3 (untouched_quiet _ _ H3)) in H2.
    destruct parent as [p|]; [|by injection H as <-]. apply touch_parents_quiet in H. by eapply quiet_fine.
Qed.

(** ** Options *)

Definition shares_fine (bs : list (account_name_type * Z)) : Prop :=
  Forall (fun x => 0 <= snd x <= STEEM_100_PERCENT) bs /\ benefits bs <= STEEM_100_PERCENT.

Lemma validate_more_sum bs : forall sum prev, Forall (fun x => 0 <= snd x) bs -> 0 <= sum <= STEEM_100_PERCENT ->
  validate_more_beneficiaries sum prev bs = Ok tt ->
  Forall (fun x => 0 <= snd x <= STEEM_100_PERCENT) bs /\ sum + benefits bs <= STEEM_100_PERCENT.
Proof.
  induction bs as [|[n w] bs IH]; intros sum prev F Hs H; cbn [validate_more_beneficiaries] in H.
  - split; [done|]. unfold benefits. simpl. lia.
  - apply Forall_cons in F as [Fw F]. simpl in Fw. bind H as u1 U1. bind H as u2 U2. bind H as u3 U3. bind H as u4 U4.
    apply fc_assert_Ok in U2, U3. zbool. unfold STEEM_100_PERCENT in *.
    rewrite u32_id in * by lia. apply IH in H as [F' B]; [|done|lia].
    split; [constructor; [simpl; lia|done]|]. unfold benefits in *. simpl. lia.
Qed.

Lemma validate_beneficiaries_fine bs : Forall (fun x => 0 <= snd x) bs -> validate_beneficiaries bs = Ok tt -> shares_fine bs.
Proof.
  intros F H. unfold validate_beneficiaries in H. bind H as u1 U1. bind H as u2 U2. destruct bs as [|[n w] bs]; [split; done|].
  apply Forall_cons in F as [Fw F]. simpl in Fw. bind H as u3 U3. bind H as u4 U4. bind H as u5 U5. apply fc_assert_Ok in U4, U5. zbool.
  unfold STEEM_100_PERCENT in *. rewrite u32_id in * by lia. apply validate_more_sum in H as [F' B]; [|done|unfold STEEM_100_PERCENT; lia].
  split; [constructor; [unfold STEEM_100_PERCENT; simpl; lia|done]|]. unfold benefits, STEEM_100_PERCENT in *. simpl. lia.
Qed.

(** an update of one comment that stays in order *)
Lemma content_modify rf db k f db' :
  content_fine rf (content_of db) -> modify_comment db k f = Ok db' ->
  (forall c c', Db.comments db !! k = Some c ->
     comment_fine rf (Db.comment_votes db) (Db.next_id db comment_index) k c -> f c = Ok c' ->
     comment_fine rf (Db.comment_votes db) (Db.next_id db comment_index) k c' /\ Comment.id c' = Comment.id c) ->
  content_fine rf (content_of db').
Proof.
  intros [Hf Hr Hv Hc Hi] (c & c' & Hk & Hf' & ->)%modify_obj_inv Hg. simpl in *. destruct (Hg c c' Hk (Hc k c Hk) Hf') as [G E].
  split; simpl; try done.
  - apply map_Forall_insert_2; done.
  - intros k1 k2 c1 c2 H1 H2 E12. apply lookup_insert_Some in H1 as [[<- <-]|[N1 H1]], H2 as [[<- <-]|[N2 H2]]; [done| | |by eapply Hi].
    + apply (Hi k k2 c c2 Hk H2). congruence.
    + apply (Hi k1 k c1 c H1 Hk). congruence.
Qed.

Lemma add_beneficiaries_fine rf db k bs db' :
  content_fine rf (content_of db) -> shares_fine bs -> add_beneficiaries db k bs = Ok db' -> content_fine rf (content_of db').
Proof.
  intros Hf [S B] H. unfold add_beneficiaries in H. bind H as c Hc. bind H as u1 U1. bind H as u2 U2. bind H as u3 U3.
  apply get_or_Ok in Hc. apply fc_assert_Ok in U1. zbool.
  assert (Comment.beneficiaries c = []) as Eb by (destruct (Comment.beneficiaries c); [done|simpl in U1; lia]).
  eapply content_modify; [exact Hf|exact H|]. intros d d' Hd Fd [= <-]. rewrite Hc in Hd. injection Hd as <-.
  destruct Fd as [? ? [] ? ? ?]. split; [|done]. split; simpl; try done. split; simpl; rewrite ?Eb; done.
Qed.

Lemma comment_options_fine rf db author permlink mp psd av ac exts db' :
  content_fine rf (content_of db) -> 0 <= psd -> Forall shares_fine exts ->
  comment_options_evaluator db author permlink mp psd av ac exts = Ok db' -> content_fine rf (content_of db').
Proof.
  intros Hf Hp Hx H. unfold comment_options_evaluator in H. bind H as c Hc. bind H as r Hr. bind H as u1 U1. bind H as u2 U2.
  bind H as u3 U3. bind H as u4 U4. bind H as u5 U5. bind H as db1 H1. apply fc_assert_Ok in U5. zbool.
  apply get_or_Ok in Hc. unfold find_comment in Hc.
  assert (content_fine rf (content_of db1)) as Hf1.
  { eapply content_modify; [exact Hf|exact H1|]. intros d d' Hd Fd [= <-].
    pose proof (cn_comments _ _ Hf _ _ Hc) as Fc. rewrite (cf_key _ _ _ _ _ Fc) in Hd. rewrite Hc in Hd. injection Hd as <-.
    destruct Fd as [? ? [] ? ? ?]. split; [|done]. split; simpl; try done. split; simpl; try done. lia. }
  clear H1 Hf. generalize dependent db1. induction Hx as [|bs exts Hb _ IH]; intros db1 H Hf; simpl in H; [by injection H as <-|].
  bind H as db2 H2. eapply IH; [exact H|]. by eapply add_beneficiaries_fine.
Qed.

(** ** Deletion *)

Lemma votes_removed_fine rf db i :
  content_fine rf (content_of db) ->
  content_fine rf (content_of (db <| Db.comment_votes := filter (fun kv => CommentVote.comment (snd kv) <> i) (Db.comment_votes db) |>)).
Proof.
  intros [Hf Hr Hv Hc Hi]. simpl in *. split; simpl; try done.
  - intros k v Hk. apply map_lookup_filter_Some in Hk as [Hk _]. by apply Hv.
  - intros k c Hk. pose proof (Hc _ _ Hk) as [? ? [] ? ? ?]. split; try done. split; try done. rewrite weights_on_filter.
    destruct (decide _); [|done]. split; [|lia].
    assert (0 <= weights_on (Db.comment_votes db) (Comment.id c)); [|lia]. apply msum_nonneg. intros j v Hj. apply Hv in Hj as [].
    destruct (decide _); lia.
Qed.

Lemma delete_comment_fine rf db author permlink db' :
  content_fine rf (content_of db) -> delete_comment_evaluator db author permlink = Ok db' -> content_fine rf (content_of db').
Proof.
  intros Hf H. unfold delete_comment_evaluator in H. bind H as c Hc. bind H as u1 U1. bind H as u2 U2. bind H as u3 U3.
  rewrite remove_votes_eq in H. apply (votes_removed_fine rf _ (Comment.id c)) in Hf. bind H as db1 H1. injection H as <-.
  assert (content_fine rf (content_of db1)) as [? ? ? Hc1 Hi1].
  { destruct (parent_of c) as [k|]; [|by injection H1 as <-]. bind H1 as p Hp. apply touch_parents_quiet in H1. by eapply quiet_fine. }
  split; simpl; try done.
  - intros k x Hk. apply lookup_delete_Some in Hk as [_ Hk]. by apply Hc1.
  - intros k k' x x' Hk Hk'. apply lookup_delete_Some in Hk as [_ Hk], Hk' as [_ Hk']. by eapply Hi1.
Qed.

(** ** Votes *)

Lemma vote_power_range db a weight cp up ar : vote_power db a weight = Ok (cp, up, ar) -> 0 <= ar <= INT64_MAX.
Proof.
  unfold vote_power. intros H. bind H as e He. bind H as u1 U1. bind H as u2 U2. bind H as u3 U3. bind H as u4 U4. bind H as u5 U5.
  bind H as r Hr. bind H as r2 Hr2. injection H as _ _ <-. split; [lia|]. apply Z.max_lub; [done|].
  pose proof (i64_range r2). unfold STEEM_VOTE_DUST_THRESHOLD. lia.
Qed.

Lemma signed_rshares weight ar : 0 <= ar <= INT64_MAX -> Safe.valid (if weight <? 0 then - ar else ar).
Proof. unfold Safe.valid, INT64_MIN, INT64_MAX. destruct (weight <? 0); lia. Qed.

Lemma weights_on_add votes k v i : votes !! k = None ->
  weights_on (<[k := v]> votes) i = weights_on votes i + (if decide (CommentVote.comment v = i) then CommentVote.weight v else 0).
Proof. intros Hk. unfold weights_on. rewrite msum_insert_new by done. lia. Qed.

Lemma weights_on_change votes k v v' i : votes !! k = Some v -> CommentVote.comment v' = CommentVote.comment v ->
  weights_on (<[k := v']> votes) i =
  weights_on votes i + (if decide (CommentVote.comment v = i) then CommentVote.weight v' - CommentVote.weight v else 0).
Proof. intros Hk E. unfold weights_on. rewrite (msum_insert _ _ _ _ _ Hk), E. destruct (decide _); lia. Qed.

(** One comment and its votes change together: [total] and [weights] say by how
    much; everything else stays in order because the ids are unique. *)
Lemma voted_fine rf t k c c' vk v' weights :
  content_fine rf t -> ct_comments t !! k = Some c -> vote_fine (ct_next t) vk v' -> CommentVote.comment v' = Comment.id c ->
  (forall i, weights_on (<[vk := v']> (ct_votes t)) i =
     weights_on (ct_votes t) i + (if decide (Comment.id c = i) then weights else 0)) ->
  Comment.id c' = Comment.id c ->
  (comment_fine rf (ct_votes t) (ct_next t) k c -> comment_fine rf (<[vk := v']> (ct_votes t)) (ct_next t) k c') ->
  content_fine rf (mk_content (<[k := c']> (ct_comments t)) (<[vk := v']> (ct_votes t)) (ct_next t) (ct_funds t)).
Proof.
  intros [Hf Hr Hv Hc Hi] Hk Fv Ev Ew Ei Fc. split; simpl; try done.
  - by apply map_Forall_insert_2.
  - intros j x [[<- <-]|[N Hj]]%lookup_insert_Some; [by apply Fc, Hc|].
    pose proof (Hc _ _ Hj) as [? ? [] ? ? ?]. split; try done. split; try done.
    rewrite Ew, decide_False; [by rewrite Z.add_0_r|]. intros E. apply N. by eapply Hi.
  - intros k1 k2 c1 c2 H1 H2 E. apply lookup_insert_Some in H1 as [[<- <-]|[N1 H1]], H2 as [[<- <-]|[N2 H2]]; [done| | |by eapply Hi].
    + apply (Hi k k2 c c2 Hk H2). congruence.
    + apply (Hi k1 k c1 c H1 Hk). congruence.
Qed.

(** a vote on [c], whose total grows by [mw] *)
Lemma vote_added rf t k c vk v mw :
  content_fine rf t -> ct_comments t !! k = Some c -> ct_votes t !! vk = None ->
  vk = (Comment.id c, CommentVote.voter v) -> CommentVote.comment v = Comment.id c -> Safe.valid (CommentVote.rshares v) ->
  0 <= CommentVote.weight v <= mw -> Comment.total_vote_weight c + mw < 2 ^ 64 ->
  (forall n, curation_curve rf (Comment.vote_rshares c) = Ok n -> Comment.total_vote_weight c + mw <= n) ->
  content_fine rf (mk_content (<[k := c <| Comment.total_vote_weight := Comment.total_vote_weight c + mw |>]> (ct_comments t))
    (<[vk := v]> (ct_votes t)) (ct_next t) (ct_funds t)).
Proof.
  intros Hf Hk Hvk Ek Ec Hrs Hw Hmw Hn. eapply (voted_fine _ _ _ c _ _ _ (CommentVote.weight v)); try done.
  - split; [congruence|lia|rewrite Ec; by apply (cn_comments _ _ Hf _ _ Hk)|done].
  - intros i. rewrite weights_on_add, Ec by done. done.
  - intros [? ? [] ? ? ?]. split; simpl; try done. split; simpl; try done. rewrite weights_on_add, decide_True by done. lia.
Qed.

Lemma count_new_vote_spec rf votes next k c rshares ar c' :
  fund_fine rf -> comment_fine rf votes next k c -> Safe.valid rshares -> count_new_vote rshares ar c = Ok c' ->
  comment_fine rf votes next k c' /\ Comment.id c' = Comment.id c /\ Comment.total_vote_weight c' = Comment.total_vote_weight c /\
  Comment.vote_rshares c <= Comment.vote_rshares c'.
Proof.
  intros Hr [Ek Ei [] Hn Hv Hw] Hs H. unfold count_new_vote in H. bind H as net N. bind H as abs A. bind H as v V. injection H as <-.
  pose proof (Safe.add_valid _ _ _ Hn Hs N) as Vn.
  assert (Comment.vote_rshares c <= v <= INT64_MAX) as Hv'.
  { destruct (Z.ltb_spec 0 rshares); [|injection V as <-; lia].
    assert (Safe.valid (Comment.vote_rshares c)) as Vc by (unfold Safe.valid, INT64_MIN; lia).
    pose proof (Safe.add_valid _ _ _ Vc Hs V) as [? ?]. apply Safe.add_Ok in V. lia. }
  split; [|simpl; split_and!; [done|done|lia]]. split; simpl; try done; [|lia|].
  - split; simpl; try done. apply Vn.
  - intros w W. destruct (curation_curve_total rf (Comment.vote_rshares c) Hr Hv) as (w0 & W0 & _).
    pose proof (curation_curve_mono rf _ _ _ _ Hr ltac:(split; [apply Hv|apply Hv']) ltac:(lia) W0 W). specialize (Hw w0 W0). lia.
Qed.

(** the weights of a new vote *)
Lemma curation_weight_spec rf db c old rshares mw w :
  fund_fine rf -> get_reward_fund db = Ok rf -> 0 <= old <= Comment.vote_rshares c -> Comment.vote_rshares c <= INT64_MAX ->
  curation_weight db c old rshares = Ok (mw, w) ->
  0 <= w <= mw /\ (mw = 0 \/ exists o n, curation_curve rf old = Ok o /\ curation_curve rf (Comment.vote_rshares c) = Ok n /\
                     n < 2 ^ 64 /\ mw = n - o).
Proof.
  intros Hr Hf Ho Hc H. unfold curation_weight in H. destruct (_ && _ && _); [|injection H as <- <-; split; [lia|by left]].
  bind H as p Hp. destruct (0 <? p); [|injection H as <- <-; split; [lia|by left]]. rewrite Hf in H. cbn [mbind result_bind] in H.
  bind H as o Eo. bind H as o' Eo'. bind H as n En. bind H as n' En'. bind H as q Hq. bind H as q' Hq'. injection H as <- <-.
  unfold to_uint64 in *. bind Eo' as v1 V1. injection Eo' as <-. bind En' as v2 V2. injection En' as <-. bind Hq' as v3 V3. injection Hq' as <-.
  apply fc_assert_Ok in V1, V2, V3. zbool. pose proof (curation_curve_mono rf _ _ _ _ Hr Ho Hc Eo En) as M.
  rewrite (u64_id (n - o)) in * by lia.
  set (dt := Z.min _ _) in *. assert (0 <= dt <= STEEM_REVERSE_AUCTION_WINDOW_SECONDS) as Hdt.
  { unfold dt. pose proof (u64_range (head_block_time db - Comment.created c)). unfold STEEM_REVERSE_AUCTION_WINDOW_SECONDS. lia. }
  unfold div128, STEEM_REVERSE_AUCTION_WINDOW_SECONDS in *. simpl in Hq. injection Hq as <-. rewrite u128_id by nia.
  split; [|right; eauto 10]. split; [apply Z.div_pos; nia|apply Z.div_le_upper_bound; nia].
Qed.

Lemma get_fund_fine rf db : content_fine rf (content_of db) -> get_reward_fund db = Ok rf.
Proof. intros [E _ _ _ _]. simpl in E. unfold get_reward_fund. by rewrite E, lookup_singleton_eq. Qed.



Lemma new_vote_fine rf db k c voter a weight cp up ar db' :
  content_fine rf (content_of db) -> Db.comments db !! k = Some c -> 0 <= ar <= INT64_MAX ->
  new_vote db k c voter a weight cp up ar = Ok db' -> content_fine rf (content_of db').
Proof.
  intros Hf Hk Har H. unfold new_vote in H. bind H as u1 U1. cbv zeta in H. bind H as u2 U2. bind H as db1 H1. bind H as x Hx.
  bind H as u3 U3. bind H as db2 H2. bind H as db3 H3. bind H as c' Hc'. bind H as [mw w] Hw. bind H as db4 H4.
  set (rshares := if weight <? 0 then - ar else ar) in *.
  assert (Safe.valid rshares) as Vr by (by apply signed_rshares).
  pose proof (cn_rules _ _ Hf) as Hr. pose proof (cn_comments _ _ Hf _ _ Hk) as Fc. apply modify_account_untouched in H1.
  pose proof (quiet_fine rf _ _ (untouched_quiet _ _ H1) Hf) as Hf1.
  assert (Db.comments db1 !! k = Some c) as Hk1 by (injection H1 as E _ _ _; by rewrite E).
  assert (content_fine rf (content_of db2)) as Hf2.
  { apply (content_modify rf db1 k _ db2 Hf1 H2). intros d d' _ Fd Hd.
    destruct (count_new_vote_spec _ _ _ _ _ _ _ _ Hr Fd Vr Hd) as (? & ? & _). done. }
  apply modify_obj_inv in H2 as (c0 & c1 & Hc0 & Hc1 & E2). rewrite Hk1 in Hc0. injection Hc0 as <-.
  destruct (count_new_vote_spec _ _ _ _ _ _ _ _ Hr Fc Vr Hc1) as (_ & Ei & Et & Ev).
  assert (Db.comments db2 !! k = Some c1) as Hk2 by (rewrite E2; apply lookup_insert_eq).
  apply add_root_rshares_quiet in H3. pose proof (quiet_fine rf _ _ H3 Hf2) as Hf3. destruct H3 as (C3 & _).
  apply get_or_Ok in Hc'. specialize (C3 k). rewrite Hk2, Hc' in C3. destruct C3 as (_ & Ei' & Et' & _ & _ & _ & _ & Ev').
  pose proof (cn_comments _ _ Hf3 _ _ Hc') as Fc'.
  pose proof (curation_weight_spec rf db3 c' (Comment.vote_rshares c) rshares mw w Hr (get_fund_fine _ _ Hf3)
    ltac:(rewrite Ev'; split; [apply Fc|done]) ltac:(apply Fc') Hw) as [Lw Hmw].
  assert (forall n, curation_curve rf (Comment.vote_rshares c') = Ok n -> Comment.total_vote_weight c' + mw <= n /\ (mw = 0 \/ n < 2 ^ 64)) as Hcov.
  { intros n En. destruct Hmw as [->|(o & n' & Eo & En' & L & ->)].
    - pose proof (cf_curve _ _ _ _ _ Fc' n En). split; [lia|by left].
    - assert (n' = n) as -> by congruence. pose proof (cf_curve _ _ _ _ _ Fc o Eo). split; [rewrite Et', Et; lia|by right]. }
  assert (Comment.total_vote_weight c' + mw < 2 ^ 64) as Hlt.
  { destruct (curation_curve_total rf (Comment.vote_rshares c') Hr (cf_rshares _ _ _ _ _ Fc')) as (n & En & _).
    destruct (Hcov n En) as [? [->|?]]; [|lia]. pose proof (co_weights _ _ (cf_ok _ _ _ _ _ Fc')). lia. }
  unfold create in H4. destruct (Db.comment_votes db3 !! _) as [|] eqn:Hn3; [done|]. injection H4 as <-.
  set (v := CommentVote.mk _ _ _ _ _ _ _ _) in *.
  pose proof (vote_added rf (content_of db3) k c' _ v mw Hf3 Hc' Hn3 eq_refl eq_refl Vr Lw Hlt (fun n En => proj1 (Hcov n En))) as G.
  destruct (Z.eqb_spec mw 0) as [->|Nz]; cbn [negb] in H.
  - injection H as <-. simpl in G.
    replace (c' <| Comment.total_vote_weight := Comment.total_vote_weight c' + 0 |>) with c' in G by (destruct c'; unfold modify_field; simpl; by rewrite Z.add_0_r).
    rewrite insert_id in G by done. exact G.
  - apply modify_obj_inv in H as (d & d' & Hd & [= <-] & ->). simpl in Hd. rewrite Hc' in Hd. injection Hd as <-.
    replace (c' <| Comment.total_vote_weight ::= fun t => u64 (t + mw) |>) with
      (c' <| Comment.total_vote_weight := Comment.total_vote_weight c' + mw |>); [exact G|].
    pose proof (co_weights _ _ (cf_ok _ _ _ _ _ Fc')) as W.
    assert (0 <= weights_on (Db.comment_votes db3) (Comment.id c')) as W0.
    { apply msum_nonneg. intros j y Hj. apply (cn_votes _ _ Hf3) in Hj as []. destruct (decide _); lia. }
    simpl in W. destruct c'. unfold modify_field. simpl in *. by rewrite u64_id by lia.
Qed.

Lemma weights_on_nonneg next votes i : map_Forall (vote_fine next) votes -> 0 <= weights_on votes i.
Proof. intros Hv. apply msum_nonneg. intros j y Hj. apply Hv in Hj as []. destruct (decide _); lia. Qed.

(** a vote on [c] loses its weight, and the total with it *)
Lemma vote_spent rf t k c vk v v' :
  content_fine rf t -> ct_comments t !! k = Some c -> ct_votes t !! vk = Some v -> CommentVote.comment v = Comment.id c ->
  CommentVote.comment v' = CommentVote.comment v -> CommentVote.voter v' = CommentVote.voter v ->
  CommentVote.weight v' = 0 -> Safe.valid (CommentVote.rshares v') ->
  content_fine rf (mk_content
    (<[k := c <| Comment.total_vote_weight ::= fun x => u64 (x - CommentVote.weight v) |>]> (ct_comments t))
    (<[vk := v']> (ct_votes t)) (ct_next t) (ct_funds t)).
Proof.
  intros Hf Hk Hv Ec E1 E2 E3 Hr. pose proof (cn_votes _ _ Hf _ _ Hv) as Fv.
  assert (vote_fine (ct_next t) vk v') as Fv' by (split; [rewrite E1, E2; apply Fv|lia|rewrite E1; apply Fv|done]).
  assert (forall i, weights_on (<[vk := v']> (ct_votes t)) i =
     weights_on (ct_votes t) i + (if decide (Comment.id c = i) then - CommentVote.weight v else 0)) as Ew.
  { intros i. rewrite (weights_on_change _ _ _ _ _ Hv E1), Ec, E3. by destruct (decide _). }
  eapply (voted_fine _ _ _ c _ _ _ (- CommentVote.weight v)); try done; [congruence|].
  pose proof (weights_on_nonneg (ct_next t) (<[vk := v']> (ct_votes t)) (Comment.id c)
    ltac:(apply map_Forall_insert_2; [done|apply (cn_votes _ _ Hf)])) as W.
  rewrite Ew, decide_True in W by done. intros [? ? [Hw ? ? ? ? ?] ? ? Hcv]. pose proof (vf_weight _ _ _ Fv).
  assert (u64 (Comment.total_vote_weight c - CommentVote.weight v) = Comment.total_vote_weight c - CommentVote.weight v) as Eu
    by (apply u64_id; lia).
  split; simpl; rewrite ?Eu; try done.
  - split; simpl; rewrite ?Eu; try done. rewrite Ew, decide_True by done. lia.
  - intros w Hww. specialize (Hcv w Hww). lia.
Qed.

Lemma change_vote_fine rf db k c voter vk v weight cp up ar db' :
  content_fine rf (content_of db) -> Db.comments db !! k = Some c -> 0 <= ar <= INT64_MAX ->
  Db.comment_votes db !! vk = Some v -> CommentVote.comment v = Comment.id c ->
  change_vote db k c voter vk v weight cp up ar = Ok db' -> content_fine rf (content_of db').
Proof.
  intros Hf Hk Har Hv Ec H. unfold change_vote in H. bind H as u1 U1. bind H as u2 U2. cbv zeta in H. bind H as u3 U3.
  bind H as db1 H1. bind H as x Hx. bind H as db2 H2. bind H as db3 H3. bind H as db4 H4.
  set (rshares := if weight <? 0 then - ar else ar) in *.
  assert (Safe.valid rshares) as Vr by (by apply signed_rshares).
  pose proof (vf_rshares _ _ _ (cn_votes _ _ Hf _ _ Hv)) as Vv. apply modify_account_untouched in H1.
  pose proof (quiet_fine rf _ _ (untouched_quiet _ _ H1) Hf) as Hf1.
  assert (Db.comments db1 !! k = Some c) as Hk1 by (injection H1 as E _ _ _; by rewrite E).
  assert (Db.comment_votes db1 = Db.comment_votes db) as V1 by (by injection H1 as _ E _ _).
  assert (content_fine rf (content_of db2) /\ Db.comment_votes db2 = Db.comment_votes db1 /\
    exists c1, Db.comments db2 !! k = Some c1 /\ Comment.id c1 = Comment.id c) as (Hf2 & V2 & c1 & Hk2 & Ei).
  { split.
    - apply (content_modify rf db1 k _ db2 Hf1 H2). intros d d' _ [? ? [] Vn ? ?] Hd. cbv beta in Hd. bind Hd as n N. bind Hd as net N'.
      bind Hd as a A. injection Hd as <-. pose proof (Safe.sub_valid _ _ _ Vn Vv N) as W. pose proof (Safe.add_valid _ _ _ W Vr N') as W'.
      split; [|done]. split; simpl; try done. split; simpl; try done. apply W'.
    - apply modify_obj_inv in H2 as (c0 & c1 & Hc0 & Hc1 & ->). split; [done|]. exists c1. split; [apply lookup_insert_eq|].
      rewrite Hk1 in Hc0. injection Hc0 as <-. cbv beta in Hc1. bind Hc1 as n N. bind Hc1 as net N'. bind Hc1 as a A. by injection Hc1 as <-. }
  apply add_root_rshares_quiet in H3. pose proof (quiet_fine rf _ _ H3 Hf2) as Hf3. destruct H3 as (C3 & V3 & _).
  apply modify_obj_inv in H4 as (c' & c'' & Hc' & [= <-] & ->). specialize (C3 k). rewrite Hk2, Hc' in C3. destruct C3 as (_ & Ei' & _).
  apply modify_obj_inv in H as (v0 & v' & Hv0 & [= <-] & ->). simpl in Hv0. rewrite V3, V2, V1, Hv in Hv0. injection Hv0 as <-.
  eapply (vote_spent rf (content_of db3) k c' vk v); [done|done|simpl; by rewrite V3, V2, V1|congruence|done..].
Qed.

Lemma vote_fine_kept rf db voter author permlink weight db' :
  content_fine rf (content_of db) -> vote_evaluator db voter author permlink weight = Ok db' -> content_fine rf (content_of db').
Proof.
  intros Hf H. unfold vote_evaluator in H. bind H as c Hc. bind H as a Ha. bind H as u1 U1. bind H as u2 U2.
  destruct (_ =? time_maximum); [by injection H as <-|]. bind H as [[cp up] ar] Hp. apply vote_power_range in Hp.
  apply get_or_Ok in Hc. unfold find_comment in Hc. pose proof (cf_key _ _ _ _ _ (cn_comments _ _ Hf _ _ Hc)) as Ek.
  rewrite <- Ek in Hc. cbv zeta in H. destruct (Db.comment_votes db !! _) as [v|] eqn:Hv.
  - bind H as u3 U3. eapply change_vote_fine; [exact Hf|exact Hc|exact Hp|exact Hv| |exact H].
    pose proof (vf_key _ _ _ (cn_votes _ _ Hf _ _ Hv)) as E. by injection E as <- _.
  - by eapply new_vote_fine.
Qed.

(** ** The invariant survives operations, the payout and the emission *)

(** the unsigned fields of an operation, which its serialization cannot make
    negative *)
Definition op_typed (op : operation) : Prop :=
  match op with
  | comment_options_operation _ _ _ percent _ _ extensions => 0 <= percent /\ Forall (Forall (fun b => 0 <= snd b)) extensions
  | _ => True
  end.

Lemma validate_extensions (exts : list (list (account_name_type * Z))) :
  Forall (Forall (fun b => 0 <= snd b)) exts -> foldM (fun _ bs => validate_beneficiaries bs) tt exts = Ok tt -> Forall shares_fine exts.
Proof.
  induction 1 as [|bs exts Hb _ IH]; intros H; [done|]. simpl in H. bind H as u U. destruct u.
  constructor; [by apply validate_beneficiaries_fine|by apply IH].
Qed.

Lemma operation_content `{env : environment} producing rf db op db' :
  content_fine rf (content_of db) -> op_typed op -> validate op = Ok tt -> apply_operation producing db op = Ok db' ->
  content_fine rf (content_of db').
Proof.
  intros Hf Ht V H. destruct (is_content_operation op) eqn:Eo.
  - destruct op; try discriminate; simpl in H.
    + by eapply comment_fine_kept.
    + destruct Ht as [Hp Hx]. simpl in V. bind V as u1 U1. bind V as u2 U2. bind V as u3 U3. bind V as u4 U4. bind V as u5 U5.
      eapply comment_options_fine; [exact Hf|exact Hp| |exact H]. by apply validate_extensions.
    + by eapply delete_comment_fine.
    + by eapply vote_fine_kept.
  - apply operation_untouched in H; [|done]. eapply quiet_fine; [by apply untouched_quiet|done].
Qed.

Lemma same_fund_rules rf rf' : same_fund rf rf' -> fund_fine rf -> fund_fine rf'.
Proof. intros -> []. by split. Qed.
Lemma same_fund_curve rf rf' x : same_fund rf rf' -> curation_curve rf' x = curation_curve rf x.
Proof. by intros ->. Qed.

(** the fund pays or receives *)
Lemma content_fund rf rf' t :
  same_fund rf rf' -> content_fine rf t ->
  content_fine rf' (mk_content (ct_comments t) (ct_votes t) (ct_next t) {[STEEM_POST_REWARD_FUND_NAME := rf']}).
Proof.
  intros S [Hf Hr Hv Hc Hi]. split; simpl; try done; [by eapply same_fund_rules|].
  intros k c Hk. apply Hc in Hk as []. split; try done. intros w. rewrite (same_fund_curve _ _ _ S). auto.
Qed.

(** comments are settled *)
Lemma settled_fine rf db db' :
  content_fine rf (content_of db) -> settled db db' -> votes_ok (Db.comment_votes db') ->
  map_Forall (fun _ c => comment_ok (Db.comment_votes db') c) (Db.comments db') -> Db.reward_funds db' = Db.reward_funds db ->
  content_fine rf (content_of db').
Proof.
  intros [Hf Hr Hv Hc Hi] (N & V & C) Vok Cok F. simpl in *.
  assert (forall k c', Db.comments db' !! k = Some c' -> exists c, Db.comments db !! k = Some c /\ comment_settled c c') as Back.
  { intros k c' Hk. specialize (C k). rewrite Hk in C. destruct (Db.comments db !! k) as [c|]; [eauto|done]. }
  split; simpl; rewrite ?N, ?F; try done.
  - intros k v Hk. apply Hv. by eapply lookup_weaken.
  - intros k c' Hk. destruct (Back _ _ Hk) as (c & Hkc & E1 & E2 & E3 & E4). apply Hc in Hkc as [? ? ? Hn Hvr Hw].
    split; [congruence|by rewrite E2|by apply (Cok k)| |by destruct E3 as [[_ ->]|[_ ->]]|].
    + destruct E4 as [->| ->]; [done|by split].
    + destruct E3 as [[-> ->]|[-> ->]]; [done|]. intros w W. destruct (curation_curve_total rf 0 Hr) as (w' & W' & ?); [done|]. congruence.
  - intros k k' c c' Hk Hk' E. destruct (Back _ _ Hk) as (d & Hd & _ & E1 & _). destruct (Back _ _ Hk') as (d' & Hd' & _ & E2 & _).
    apply (Hi k k' d d' Hd Hd'). congruence.
Qed.

(** What the payout needs besides: the price of vesting shares is one the fund
    can pay at, and the claims on the fund do not exceed 128 bits. *)
Record economy_ok (rf : reward_fund_object) (db : database) : Prop := mk_economy {
  ec_time : head_block_time db < time_maximum;
  ec_balance : 0 <= amount (RewardFund.reward_balance rf) <= INT64_MAX;
  ec_ratio : ratio_ok (amount (RewardFund.reward_balance rf)) (Db.gpo db);
  ec_claims : RewardFund.recent_claims (decay (head_block_time db) rf)
              + due_claims rf (head_block_time db) (Db.comments db) < 2 ^ 128
}.

Lemma content_ready rf db : wf db -> content_fine rf (content_of db) -> economy_ok rf db -> cashout_ready db rf.
Proof.
  intros Hwf [Hf [] Hv Hc Hi] []. simpl in *. split; try done.
  - intros k v Hk. by apply Hv in Hk as [].
  - intros k c Hk. by apply Hc in Hk as [].
Qed.

(** the payout of a block, from the invariant *)
Lemma cashout_content rf db db' :
  wf db -> content_fine rf (content_of db) -> economy_ok rf db -> process_comment_cashout db = Ok db' ->
  conserves db db' /\ keeps db db' /\ exists rf', content_fine rf' (content_of db').
Proof.
  intros Hwf Hf He H. destruct (cashout_sound _ _ _ (content_ready _ _ Hwf Hf He) H) as (C & K & _ & S & Vo & Co & rf' & Ef & Sf & _).
  split; [done|]. split; [done|]. exists rf'.
  assert (content_fine rf (content_of (db' <| Db.reward_funds := Db.reward_funds db |>))) as G by (by eapply settled_fine).
  pose proof (content_fund _ _ _ Sf G) as G'. unfold content_of in *. simpl in G'. by rewrite Ef.
Qed.
