(* ===== verification/Transaction.v ===== *)
(** Transaction: validation, authorization, replay protection and application of
    a transaction (database::_apply_transaction, transaction::validate and
    signed_transaction::verify_authority).

    The index of recent transactions and the block summaries are the parts of the
    chain state that only transactions and block headers touch.  The digest of a transaction and the keys recovered from its
    signatures are parameters. *)
From Stdlib Require Import ZArith Lia String Ascii.
From stdpp Require Import base gmap strings list sorting.
From S2P Require Import Prelude.
From S2P Require Import Safe.
From S2P Require Import BlockId.
From S2P Require Import Asset.
From S2P Require Import Authority.
From S2P Require Import Objects.
From S2P Require Import Balance.
From S2P Require Import Supply.
From S2P Require Import Transfers.
From S2P Require Import Accounts.
From S2P Require Import Voting.
From S2P Require Import Operation.
From S2P Require Import Invariant.
Local Open Scope string_scope.
Local Open Scope Z_scope.
Local Open Scope fc_scope.

(** ** Skip flags of a node (database.hpp) *)

Definition skip_transaction_signatures : Z := Z.shiftl 1 1.
Definition skip_transaction_dupe_check : Z := Z.shiftl 1 2.
Definition skip_tapos_check : Z := Z.shiftl 1 5.
Definition skip_authority_check : Z := Z.shiftl 1 6.
Definition skip_validate : Z := Z.shiftl 1 10.
Definition flag (skip f : Z) : bool := negb (Z.land skip f =? 0).

Definition STEEM_MAX_TIME_UNTIL_EXPIRATION : Z := 60 * 60.
Definition STEEM_MAX_SIG_CHECK_DEPTH : nat := 2.
Definition STEEM_MAX_SIG_CHECK_ACCOUNTS : Z := 125.

Record transaction : Type := mk_transaction {
  ref_block_num : Z;      (* uint16_t *)
  ref_block_prefix : Z;   (* uint32_t *)
  expiration : Z;
  operations : list operation
}.

Record chain_state : Type := mk_chain {
  cs_db : database;
  transactions : gmap Z Z;          (* transaction_object: trx_id -> expiration *)
  block_summaries : Z -> option Z   (* block_summary_object: id -> block_id *)
}.
#[export] Instance chain_state_rebuild : Rebuild chain_state := fun r =>
  mk_chain (cs_db r) (transactions r) (block_summaries r).

(** a flat_set of account names: sorted, without duplicates *)
Definition flat_set (l : list account_name_type) : list account_name_type := merge_sort name_le (remove_dups l).

Section apply.
Context `{env : environment} (trx_id : transaction -> Z) (recovered_keys : transaction -> list public_key_type).

Definition validate_transaction (trx : transaction) : result unit :=
  _ ← fc_assert (0 <? Z.of_nat (List.length (operations trx)));
  foldM (fun _ op => validate op) tt (operations trx).

(** the authorities stored for an account *)
Definition getter (db : database) (field : account_authority_object -> authority) (n : account_name_type)
    : result authority :=
  a ← get_account_authority db n; Ok (field a).

Definition verify_transaction (db : database) (trx : transaction) : result unit :=
  keys ← SignState.get_signature_keys (recovered_keys trx);
  other ← foldM (fun l op => a ← required_authorities op; Ok (l ++ a)%list) [] (operations trx);
  SignState.verify_authority (getter db AccountAuthority.active) (getter db AccountAuthority.owner)
    (getter db AccountAuthority.posting)
    STEEM_MAX_SIG_CHECK_DEPTH STEEM_MAX_AUTHORITY_MEMBERSHIP STEEM_MAX_SIG_CHECK_ACCOUNTS
    (flat_set (concat (map required_active (operations trx))))
    (flat_set (concat (map required_owner (operations trx))))
    (flat_set (concat (map required_posting (operations trx))))
    other keys.

(** a missing active authority is forgiven for the blocks listed in the merkle
    exceptions *)
Definition check_signatures (cs : chain_state) (trx : transaction) : result unit :=
  match verify_transaction (cs_db cs) trx with
  | Throw tx_missing_active_auth =>
      match shared_db_merkle !! u32 (head_block_num (cs_db cs) + 1) with
      | Some _ => Ok tt
      | None => Throw tx_missing_active_auth
      end
  | r => r
  end.

Definition check_expiration (skip : Z) (cs : chain_state) (trx : transaction) : result unit :=
  let now := head_block_time (cs_db cs) in
  if 0 <? head_block_num (cs_db cs) then
    _ ← (if flag skip skip_tapos_check then Ok tt
         else
           id ← get_or out_of_range (block_summaries cs (ref_block_num trx));
           if ref_block_prefix trx =? hash_word 1 id then Ok tt else Throw transaction_tapos_exception);
    _ ← (if expiration trx <=? now + STEEM_MAX_TIME_UNTIL_EXPIRATION then Ok tt
         else Throw transaction_expiration_exception);
    if now <? expiration trx then Ok tt else Throw transaction_expiration_exception
  else Ok tt.

Definition _apply_transaction (skip : Z) (producing : bool) (cs : chain_state) (trx : transaction)
    : result chain_state :=
  _ ← (if flag skip skip_validate then Ok tt else validate_transaction trx);
  _ ← fc_assert (flag skip skip_transaction_dupe_check || bool_decide (transactions cs !! trx_id trx = None));
  _ ← (if flag skip (Z.lor skip_transaction_signatures skip_authority_check) then Ok tt
       else check_signatures cs trx);
  _ ← check_expiration skip cs trx;
  let cs := if flag skip skip_transaction_dupe_check then cs
            else cs <| transactions ::= <[trx_id trx := expiration trx]> |> in
  db ← foldM (apply_operation producing) (cs_db cs) (operations trx);
  Ok (cs <| cs_db := db |>).
End apply.

(** database::clear_expired_transactions *)
Definition expired_transaction (cs : chain_state) : option (Z * Z) :=
  match first_by Z.ltb (transactions cs) with
  | Some (k, e) => if e <? head_block_time (cs_db cs) then Some (k, e) else None
  | None => None
  end.

Definition clear_expired_transactions (cs : chain_state) : result chain_state :=
  while_next (size (transactions cs)) expired_transaction
    (fun cs x => Ok (cs <| transactions ::= delete (fst x) |>)) cs.

(** ** Theorems *)

Lemma expired_transaction_Some cs k e :
  expired_transaction cs = Some (k, e) -> transactions cs !! k = Some e /\ e < head_block_time (cs_db cs).
Proof.
  unfold expired_transaction. destruct (first_by _ _) as [[k' e']|] eqn:E; [|done].
  destruct (Z.ltb_spec e' (head_block_time (cs_db cs))); intros [= <- <-]. by apply first_by_Some in E.
Qed.

Section facts.
Context `{env : environment} (trx_id : transaction -> Z) (recovered_keys : transaction -> list public_key_type).

Abbreviation apply_trx := (_apply_transaction trx_id recovered_keys).

Lemma validate_operations ops :
  foldM (fun _ op => validate op) tt ops = Ok tt ->
  Forall (fun op => validate op = Ok tt) ops.
Proof.
  induction ops as [|op ops IH]; simpl; intros H; [constructor|].
  bind H as u Hu. destruct u. constructor; [done|by apply IH].
Qed.

Lemma operations_ledger producing ops : forall db db',
  Forall (fun op => validate op = Ok tt) ops -> ledger_ok db ->
  foldM (apply_operation producing) db ops = Ok db' -> ledger_ok db'.
Proof.
  induction ops as [|op ops IH]; simpl; intros db db' V L H; [by injection H as <-|].
  inversion V; subst. bind H as db1 H1. eapply IH; [done| |exact H]. by eapply operation_ledger.
Qed.

Lemma operations_clock producing ops db db' : foldM (apply_operation producing) db ops = Ok db' -> same_clock db db'.
Proof. apply foldM_preorder; [apply _|]. intros a op a'. apply operation_clock. Qed.

(** C5: the ledger invariant survives every transaction that is validated and
    applied: the five supply equations of validate_invariants (STEEM, SBD,
    VESTS, pending rewards, voting weight), the asset symbols, the forest of
    proxies and the paid fees of approved escrows hold after it. *)
Theorem transaction_preserves_ledger skip producing cs trx cs' :
  flag skip skip_validate = false -> ledger_ok (cs_db cs) ->
  apply_trx skip producing cs trx = Ok cs' -> ledger_ok (cs_db cs').
Proof.
  intros Hs L H. unfold _apply_transaction in H. rewrite Hs in H. bind H as u1 V. bind H as u2 U2. bind H as u3 U3.
  bind H as u4 U4. bind H as db Hdb. injection H as <-. simpl. unfold validate_transaction in V. bind V as u5 V5.
  destruct u1. apply validate_operations in V. eapply operations_ledger; [exact V| |exact Hdb].
  by destruct (flag skip skip_transaction_dupe_check).
Qed.

(** ** Replay protection *)

(** a transaction that was applied: still listed, or past its expiration *)
Definition spent (trx : transaction) (cs : chain_state) : Prop :=
  transactions cs !! trx_id trx = Some (expiration trx) \/
  (expiration trx < head_block_time (cs_db cs) /\ 0 < head_block_num (cs_db cs)).

Lemma apply_trx_inv skip producing cs trx cs' :
  flag skip skip_transaction_dupe_check = false -> apply_trx skip producing cs trx = Ok cs' ->
  transactions cs !! trx_id trx = None /\ check_expiration skip cs trx = Ok tt /\
  transactions cs' = <[trx_id trx := expiration trx]> (transactions cs) /\ same_clock (cs_db cs) (cs_db cs').
Proof.
  intros Hd H. unfold _apply_transaction in H. rewrite Hd in H. bind H as u1 V. bind H as u2 U2. bind H as u3 U3.
  bind H as u4 U4. bind H as db Hdb. injection H as <-. destruct u4. apply fc_assert_Ok in U2.
  apply bool_decide_eq_true in U2. apply operations_clock in Hdb. done.
Qed.

Lemma clear_spent trx cs cs' :
  0 < head_block_num (cs_db cs) -> clear_expired_transactions cs = Ok cs' -> spent trx cs -> spent trx cs'.
Proof.
  intros Hn H Hs. unfold clear_expired_transactions in H.
  apply (while_next_inv _ _ (fun d => spent trx d /\ cs_db d = cs_db cs)) in H as [? _]; [done| |done].
  intros d [k e] d' [Hd Ed] [Hk He]%expired_transaction_Some [= <-]. split; [|done]. unfold spent in *. simpl in *.
  rewrite Ed in *. destruct Hd as [Hd|Hd]; [|by right].
  destruct (decide (trx_id trx = k)) as [<-|N]; [right; split; [congruence|done]|left; by rewrite lookup_delete_ne].
Qed.

Lemma trx_spent trx skip producing cs t cs' :
  flag skip skip_transaction_dupe_check = false -> apply_trx skip producing cs t = Ok cs' -> spent trx cs -> spent trx cs'.
Proof.
  intros Hd H Hs. apply apply_trx_inv in H as (N & _ & E & C1 & C2 & _); [|done]. unfold spent. rewrite E, C1, C2.
  destruct Hs as [Hs|Hs]; [|by right]. left.
  rewrite lookup_insert_ne; [done|]. intros Ei. rewrite Ei, Hs in N. discriminate.
Qed.

Lemma applied_spent skip producing cs trx cs' :
  flag skip skip_transaction_dupe_check = false -> apply_trx skip producing cs trx = Ok cs' -> spent trx cs'.
Proof. intros Hd H. apply apply_trx_inv in H as (_ & _ & E & _); [|done]. left. rewrite E. apply lookup_insert_eq. Qed.

Lemma spent_rejected skip producing cs trx :
  flag skip skip_transaction_dupe_check = false -> spent trx cs -> is_ok (apply_trx skip producing cs trx) = false.
Proof.
  intros Hd Hs. destruct (apply_trx skip producing cs trx) as [cs3|] eqn:H; [|done]. exfalso.
  apply apply_trx_inv in H as (N & X & _); [|done]. destruct Hs as [Hs|[Hs Hn]]; [congruence|].
  unfold check_expiration in X. rewrite (proj2 (Z.ltb_lt _ _) Hn) in X. bind X as u1 X1. bind X as u2 X2.
  rewrite (proj2 (Z.ltb_ge _ _)) in X by lia. discriminate.
Qed.
End facts.
