(* ===== verification/Totals.v ===== *)
(** Totals: what database::validate_invariants checks.

    validate_invariants walks every index of the database and compares what it
    finds with the supplies recorded in the global properties.  Its run is related here
    to the equations of [supply_ok], which the theorems on operations preserve. *)
From Stdlib Require Import ZArith Lia String.
From stdpp Require Import base gmap strings list.
From S2P Require Import Prelude.
From S2P Require Import Safe.
From S2P Require Import Asset.
From S2P Require Import Objects.
From S2P Require Import Balance.
From S2P Require Import Supply.
Local Open Scope Z_scope.
Local Open Scope fc_scope.

(** the five running sums *)
Inductive kind : Type := k_steem | k_sbd | k_vests | k_pending | k_vsf.

Definition tally (t : totals) (i : kind) : Z :=
  match i with
  | k_steem => amount (total_supply t)
  | k_sbd => amount (total_sbd t)
  | k_vests => amount (total_vesting t)
  | k_pending => amount (pending_vesting_steem t)
  | k_vsf => total_vsf_votes t
  end.

Definition account_tally (a : account_object) (i : kind) : Z :=
  match i with
  | k_steem => acc_steem a
  | k_sbd => acc_sbd a
  | k_vests => acc_vests a
  | k_pending => acc_pending a
  | k_vsf => acc_vsf a
  end.

Definition liquid_tally (x : asset) (i : kind) : Z :=
  match i with k_steem => val STEEM_SYMBOL x | k_sbd => val SBD_SYMBOL x | _ => 0 end.

Definition escrow_tally (e : escrow_object) (i : kind) : Z :=
  match i with k_steem => escrow_steem e | k_sbd => escrow_sbd e | _ => 0 end.

Definition fund_tally (r : reward_fund_object) (i : kind) : Z :=
  match i with k_steem => fund_held r | _ => 0 end.

(** a loop that adds [h x] for every [x] *)
Lemma foldM_tally {V} (f : totals -> V -> result totals) (h : V -> kind -> Z) l :
  (forall t x t', f t x = Ok t' -> forall i, tally t' i = tally t i + h x i) ->
  forall t t', foldM f t l = Ok t' -> forall i, tally t' i = tally t i + foldr (fun x s => h x i + s) 0 l.
Proof.
  intros Hf. induction l as [|x l IH]; simpl; intros t t' H i; [injection H as <-; lia|].
  bind H as t1 H1. rewrite (IH _ _ H i), (Hf _ _ _ H1 i). lia.
Qed.

Lemma values_msum {K V} `{Countable K} (m : gmap K V) (h : V -> Z) :
  foldr (fun x s => h x + s) 0 (values m) = msum h m.
Proof. unfold values, msum. rewrite map_fold_foldr. induction (map_to_list m) as [|[k x] l IH]; [done|]. simpl. by rewrite IH. Qed.

Lemma values_tally {K V} `{Countable K} (m : gmap K V) f (h : V -> kind -> Z) t t' :
  (forall t x t', f t x = Ok t' -> forall i, tally t' i = tally t i + h x i) ->
  foldM f t (values m) = Ok t' -> forall i, tally t' i = tally t i + msum (fun x => h x i) m.
Proof. intros Hf Ht i. by rewrite (foldM_tally f h _ Hf _ _ Ht i), values_msum. Qed.

Lemma foldM_add_sum l : forall x y, foldM Safe.add x l = Ok y -> y = x + zsum l.
Proof.
  induction l as [|d l IH]; simpl; intros x y H; [injection H as <-; lia|].
  bind H as z Hz. rewrite (IH _ _ H). apply Safe.add_Ok in Hz. lia.
Qed.

Lemma vsf_votes_tally a w : vsf_votes a = Ok w -> w = acc_vsf a.
Proof.
  unfold vsf_votes, acc_vsf, self_proxied. destruct (decide _) as [Hp|Hp].
  - rewrite bool_decide_true by done. apply foldM_add_sum.
  - rewrite bool_decide_false by done. intros Hw%get_or_Ok. symmetry. by apply list_lookup_total_correct.
Qed.

Lemma count_account_tally t a t' : count_account t a = Ok t' -> forall i, tally t' i = tally t i + account_tally a i.
Proof.
  intros H. unfold count_account, add_to_supply, add_to_sbd in H. result_inv. asset_inv. simpl in *.
  match goal with H : vsf_votes a = Ok _ |- _ => apply vsf_votes_tally in H end.
  intros []; simpl; unfold acc_steem, acc_sbd, acc_vests, acc_pending; lia.
Qed.

Lemma count_liquid_tally x t t' : count_liquid x t = Ok t' -> forall i, tally t' i = tally t i + liquid_tally x i.
Proof.
  unfold count_liquid, add_to_supply, add_to_sbd, liquid_tally, val. intros H i.
  destruct (Z.eqb_spec (symbol x) STEEM_SYMBOL) as [E|E]; [|destruct (Z.eqb_spec (symbol x) SBD_SYMBOL) as [E'|E']; [|done]];
    result_inv; asset_inv; rewrite ?E, ?E'; destruct i; simpl; lia.
Qed.

Lemma count_order_tally t o t' : count_order t o = Ok t' -> forall i, tally t' i = tally t i + liquid_tally (amount_for_sale o) i.
Proof.
  unfold count_order, add_to_supply, add_to_sbd, liquid_tally, val, amount_for_sale. simpl. intros H i.
  destruct (Z.eqb_spec (symbol (base (LimitOrder.sell_price o))) STEEM_SYMBOL) as [E|E];
    [|destruct (Z.eqb_spec (symbol (base (LimitOrder.sell_price o))) SBD_SYMBOL) as [E'|E']];
    result_inv; asset_inv; rewrite ?E, ?E'; destruct i; simpl; lia.
Qed.

Lemma count_escrow_tally t e t' : count_escrow t e = Ok t' -> forall i, tally t' i = tally t i + escrow_tally e i.
Proof.
  unfold count_escrow, add_to_supply, add_to_sbd. intros H. result_inv. asset_inv.
  intros i. rewrite (count_liquid_tally _ _ _ H i). destruct i; simpl; unfold escrow_steem, escrow_sbd; lia.
Qed.

Lemma count_fund_tally t r t' :
  add_to_supply (RewardFund.reward_balance r) t = Ok t' -> forall i, tally t' i = tally t i + fund_tally r i.
Proof. unfold add_to_supply. intros H. result_inv. asset_inv. intros []; simpl; unfold fund_held; lia. Qed.

(** the virtual supply as validate_invariants checks it *)
Definition virtual_ok (db : database) : Prop :=
  let g := Db.gpo db in
  let median := FeedHistory.current_median_history (Db.feed_history db) in
  amount (Gpo.current_supply g) <= amount (Gpo.virtual_supply g) /\
  (Price.is_null median = false ->
   exists backing, Price.mul (Gpo.current_sbd_supply g) median = Ok backing /\
     amount (Gpo.virtual_supply g) = amount backing + amount (Gpo.current_supply g)).

Lemma eqb_amount a b : Asset.eqb a b = true -> amount a = amount b.
Proof. unfold Asset.eqb. by intros [_ H%Z.eqb_eq]%andb_true_iff. Qed.

Lemma foldM_asserts {V} (p : V -> bool) l : foldM (fun (_ : unit) x => fc_assert (p x)) tt l = Ok tt -> Forall (fun x => p x = true) l.
Proof.
  induction l as [|x l IH]; simpl; intros H; [constructor|]. bind H as [] Hx. apply fc_assert_Ok in Hx. constructor; auto.
Qed.

Lemma values_elem {K V} `{Countable K} (m : gmap K V) k v : m !! k = Some v -> v ∈ values m.
Proof. intros Hk. apply list_elem_of_fmap. exists (k, v). split; [done|]. by apply elem_of_map_to_list. Qed.

(** what the seven counts add up to *)
Definition counted (db : database) (i : kind) : Z :=
  let g := Db.gpo db in
  msum (fun a => account_tally a i) (Db.accounts db)
  + msum (fun c => liquid_tally (ConvertRequest.amount_ c) i) (Db.convert_requests db)
  + msum (fun o => liquid_tally (amount_for_sale o) i) (Db.limit_orders db)
  + msum (fun e => escrow_tally e i) (Db.escrows db)
  + msum (fun s => liquid_tally (SavingsWithdraw.amount_ s) i) (Db.savings_withdraws db)
  + msum (fun r => fund_tally r i) (Db.reward_funds db)
  + match i with
    | k_steem => amount (Gpo.total_vesting_fund_steem g) + amount (Gpo.total_reward_fund_steem g)
                 + amount (Gpo.pending_rewarded_vesting_steem g)
    | _ => 0
    end.

(** the equations of [supply_ok] compare the supplies with the counts *)
Lemma counted_gaps db :
  let g := Db.gpo db in
  amount (Gpo.current_supply g) = counted db k_steem -> amount (Gpo.current_sbd_supply g) = counted db k_sbd ->
  amount (Gpo.total_vesting_shares g) + amount (Gpo.pending_rewarded_vesting_shares g) = counted db k_vests ->
  amount (Gpo.pending_rewarded_vesting_steem g) = counted db k_pending ->
  amount (Gpo.total_vesting_shares g) = counted db k_vsf -> supply_ok db.
Proof.
  intros g E1 E2 E3 E4 E5. subst g. unfold counted in *. simpl in *. rewrite !msum_0 in *.
  repeat split; [unfold steem_gap|unfold sbd_gap|unfold vests_gap|unfold pending_gap|unfold vsf_gap];
    unfold order_held, fund_held in *;
    change (msum acc_steem (Db.accounts db)) with (msum (fun a => acc_steem a) (Db.accounts db));
    change (msum acc_sbd (Db.accounts db)) with (msum (fun a => acc_sbd a) (Db.accounts db));
    change (msum acc_vests (Db.accounts db)) with (msum (fun a => acc_vests a) (Db.accounts db));
    change (msum acc_pending (Db.accounts db)) with (msum (fun a => acc_pending a) (Db.accounts db));
    change (msum acc_vsf (Db.accounts db)) with (msum (fun a => acc_vsf a) (Db.accounts db));
    change (msum escrow_steem (Db.escrows db)) with (msum (fun a => escrow_steem a) (Db.escrows db));
    change (msum escrow_sbd (Db.escrows db)) with (msum (fun a => escrow_sbd a) (Db.escrows db));
    lia.
Qed.

(** C23: a database that passes validate_invariants satisfies the supply
    equations; no assumption is made on what the database holds. *)
Theorem validate_invariants_sound db :
  validate_invariants db = Ok tt ->
  supply_ok db /\ virtual_ok db /\
  forall n w, Db.witnesses db !! n = Some w -> Witness.votes w <= amount (Gpo.total_vesting_shares (Db.gpo db)).
Proof.
  intros H. unfold validate_invariants in H. bind H as u0 H0. bind H as t1 T1. bind H as t2 T2. bind H as t3 T3.
  bind H as t4 T4. bind H as t5 T5. bind H as t6 T6. bind H as x1 X1. bind H as x2 X2. bind H as t7 T7.
  bind H as u1 E1. bind H as u2 E2. bind H as v V. bind H as u3 E3. bind H as u4 E4. bind H as u5 E5.
  bind H as b B. bind H as u6 E6.
  pose proof (values_tally _ _ account_tally _ _ count_account_tally T1) as S1.
  pose proof (values_tally _ _ (fun c => liquid_tally (ConvertRequest.amount_ c)) _ _ (fun t c => count_liquid_tally _ t) T2) as S2.
  pose proof (values_tally _ _ (fun o => liquid_tally (amount_for_sale o)) _ _ count_order_tally T3) as S3.
  pose proof (values_tally _ _ escrow_tally _ _ count_escrow_tally T4) as S4.
  pose proof (values_tally _ _ (fun c => liquid_tally (SavingsWithdraw.amount_ c)) _ _ (fun t c => count_liquid_tally _ t) T5) as S5.
  pose proof (values_tally _ _ fund_tally _ _ count_fund_tally T6) as S6.
  assert (forall i, tally t7 i = tally t6 i + match i with k_steem => amount (Gpo.total_vesting_fund_steem (Db.gpo db)) +
    amount (Gpo.total_reward_fund_steem (Db.gpo db)) + amount (Gpo.pending_rewarded_vesting_steem (Db.gpo db)) | _ => 0 end) as S7.
  { unfold add_to_supply in T7. result_inv. asset_inv. intros []; simpl; lia. }
  apply fc_assert_Ok in E1, E2, E3, E4, E5, E6. apply eqb_amount in E1, E2, E3, E5. apply Z.eqb_eq in E4.
  split; [|split].
  - assert (forall i, tally t7 i = counted db i) as S.
    { intros i. rewrite S7, S6, S5, S4, S3, S2, S1. unfold counted. destruct i; simpl; lia. }
    asset_inv. apply counted_gaps; rewrite <- S; simpl in *; congruence.
  - split; [|intros Hm].
    + asset_inv. by apply Z.leb_le.
    + rewrite Hm in H. bind H as s1 M. bind H as s2 A. apply fc_assert_Ok, eqb_amount in H. exists s1. asset_inv. split; [done|].
      simpl in H. lia.
  - intros n w Hw%values_elem. destruct u0. apply foldM_asserts in H0. rewrite Forall_forall in H0. by apply Z.leb_le, H0.
Qed.
