(* ===== verification/Block.v ===== *)
(** Block: what a block does to the chain besides its transactions.

    From database.cpp: the slot arithmetic (get_slot_time, get_slot_at_time,
    get_scheduled_witness), update_global_dynamic_data, update_signing_witness,
    update_last_irreversible_block, validate_block_header, update_median_feed,
    update_virtual_supply, pay_reward_funds, process_funds and the processing of
    hardforks.
    Writing the block log and trimming the fork database, the last steps
    of update_last_irreversible_block, are not part of the chain state. *)
From Stdlib Require Import ZArith Lia String Ascii.
From stdpp Require Import base gmap strings list sorting.
From S2P Require Import Prelude.
From S2P Require Import Safe.
From S2P Require Import Uint128.
From S2P Require Import BlockId.
From S2P Require Import Asset.
From S2P Require Import Authority.
From S2P Require Import Objects.
From S2P Require Import Balance.
From S2P Require Import Supply.
From S2P Require Import Transfers.
From S2P Require Import Operation.
Local Open Scope string_scope.
Local Open Scope Z_scope.
Local Open Scope fc_scope.

Definition skip_witness_signature : Z := Z.shiftl 1 0.
Definition skip_undo_history_check : Z := Z.shiftl 1 8.
Definition skip_witness_schedule_check : Z := Z.shiftl 1 9.
Definition skips (skip f : Z) : bool := negb (Z.land skip f =? 0).

Definition STEEM_MAX_UNDO_HISTORY : Z := 10000.

(** ** Slots *)

Definition get_slot_time (db : database) (slot_num : Z) : Z :=
  if slot_num =? 0 then 0
  else if head_block_num db =? 0 then u32 (head_block_time db + u32 (slot_num * STEEM_BLOCK_INTERVAL))
  else
    let head_block_abs_slot := head_block_time db / STEEM_BLOCK_INTERVAL in
    let head_slot_time := u32 (head_block_abs_slot * STEEM_BLOCK_INTERVAL) in
    u32 (head_slot_time + u32 (slot_num * STEEM_BLOCK_INTERVAL)).

Definition get_slot_at_time (db : database) (when : Z) : Z :=
  let first_slot_time := get_slot_time db 1 in
  if when <? first_slot_time then 0 else u32 ((when - first_slot_time) / STEEM_BLOCK_INTERVAL + 1).

Definition get_scheduled_witness (db : database) (slot_num : Z) : result account_name_type :=
  let current_aslot := u64 (Gpo.current_aslot (Db.gpo db) + slot_num) in
  let n := WitnessSchedule.num_scheduled_witnesses (Db.wso db) in
  get_or out_of_range (WitnessSchedule.current_shuffled_witnesses (Db.wso db) !! Z.to_nat (current_aslot mod n)).

Definition witness_participation_rate (db : database) : Z :=
  u64 (STEEM_100_PERCENT * Uint128.popcount (Uint128.of_Z (Gpo.recent_slots_filled (Db.gpo db)))) / 128.

(** ** The block header *)

Definition validate_block_header (skip : Z) (db : database) (b : block) : result witness_object :=
  _ ← fc_assert (Gpo.head_block_id (Db.gpo db) =? previous b);
  _ ← fc_assert (head_block_time db <? timestamp b);
  w ← get_witness db (witness b);
  _ ← fc_assert (skips skip skip_witness_signature || (signee b =? Witness.signing_key w));
  _ ← (if skips skip skip_witness_schedule_check then Ok tt
       else
         let slot_num := get_slot_at_time db (timestamp b) in
         _ ← fc_assert (0 <? slot_num);
         scheduled_witness ← get_scheduled_witness db slot_num;
         fc_assert (bool_decide (Witness.owner w = scheduled_witness)));
  Ok w.

(** a slot that passed without its block *)
Definition miss_slot (b : block) (db : database) (i : nat) : result database :=
  n ← get_scheduled_witness db (Z.of_nat i + 1);
  w ← get_witness db n;
  if decide (Witness.owner w = witness b) then Ok db
  else
    modify_witness db n (fun w =>
      let w := w <| Witness.total_missed ::= fun m => u32 (m + 1) |> in
      if STEEM_BLOCKS_PER_DAY <? u64 (head_block_num db - Witness.last_confirmed_block_num w)
      then Ok (w <| Witness.signing_key := 0 |>) else Ok w).

(** one round of the loop over recent_slots_filled *)
Definition fill_slot (g : dynamic_global_property_object) (i : nat) : dynamic_global_property_object :=
  let filled := b2z (Nat.eqb i 0) in
  let dropped := b2z (Z.testbit (Gpo.recent_slots_filled g) 127) in
  g <| Gpo.participation_count ::= fun c => u8 (u8 (c - dropped) + filled) |>
    <| Gpo.recent_slots_filled ::= fun x => u128 (u128 (Z.shiftl x 1) + filled) |>.

Definition update_global_dynamic_data (skip : Z) (db : database) (b : block) : result database :=
  '(db, missed_blocks) ←
    (if head_block_time db =? 0 then Ok (db, 0)
     else
       let missed_blocks := u32 (get_slot_at_time db (timestamp b) - 1) in
       db ← foldM (miss_slot b) db (seq 0 (Z.to_nat missed_blocks));
       Ok (db, missed_blocks));
  db ← modify_gpo db (fun g =>
         let g := fold_left fill_slot (seq 0 (Z.to_nat (u32 (missed_blocks + 1)))) g in
         Ok (g <| Gpo.head_block_number := block_num b |> <| Gpo.head_block_id := block_id b |>
               <| Gpo.time := timestamp b |> <| Gpo.current_aslot ::= fun a => u64 (a + u32 (missed_blocks + 1)) |>));
  _ ← (if skips skip skip_undo_history_check
          || (u32 (head_block_num db - Gpo.last_irreversible_block_num (Db.gpo db)) <? STEEM_MAX_UNDO_HISTORY)
       then Ok tt else Throw undo_database_exception);
  Ok db.

Definition update_signing_witness (db : database) (signing_witness : account_name_type) (b : block) : result database :=
  let new_block_aslot := u64 (Gpo.current_aslot (Db.gpo db) + get_slot_at_time db (timestamp b)) in
  modify_witness db signing_witness (fun w =>
    Ok (w <| Witness.last_aslot := new_block_aslot |> <| Witness.last_confirmed_block_num := block_num b |>)).

(** ** Irreversibility *)

Definition scheduled (db : database) : list account_name_type :=
  take (Z.to_nat (WitnessSchedule.num_scheduled_witnesses (Db.wso db)))
    (WitnessSchedule.current_shuffled_witnesses (Db.wso db)).

Definition get_witnesses (db : database) (l : list account_name_type) : result (list witness_object) :=
  foldr (fun n r => w ← get_witness db n; ws ← r; Ok (w :: ws)) (Ok []) l.

(** std::nth_element puts at [offset] what a sort would put there *)
Definition nth_element (l : list Z) (offset : nat) : result Z :=
  get_or out_of_range (merge_sort Z.le l !! offset).

Definition irreversible_offset (n : Z) : Z := (STEEM_100_PERCENT - STEEM_IRREVERSIBLE_THRESHOLD) * n / STEEM_100_PERCENT.

Definition update_last_irreversible_block (db : database) : result database :=
  if head_block_num db <? STEEM_START_WITNESS_VOTING_BLOCK then
    modify_gpo db (fun g =>
      if STEEM_MAX_WITNESSES <? head_block_num db
      then Ok (g <| Gpo.last_irreversible_block_num := head_block_num db - STEEM_MAX_WITNESSES |>)
      else Ok g)
  else
    ws ← get_witnesses db (scheduled db);
    new ← nth_element (map Witness.last_confirmed_block_num ws)
            (Z.to_nat (irreversible_offset (Z.of_nat (List.length ws))));
    let new := u32 new in
    if Gpo.last_irreversible_block_num (Db.gpo db) <? new
    then modify_gpo db (fun g => Ok (g <| Gpo.last_irreversible_block_num := new |>))
    else Ok db.

(** ** The price feed *)

Definition price_le (a b : price) : Prop := Price.leb a b = true.
#[export] Instance price_le_dec : RelDecision price_le.
Proof. intros a b. unfold price_le. apply _. Defined.

Definition live_feeds (now : Z) (ws : list witness_object) : list price :=
  map Witness.sbd_exchange_rate
    (filter (fun w => (now <? u32 (Witness.last_sbd_exchange_update w + STEEM_MAX_FEED_AGE_SECONDS)) = true /\
                      Price.is_null (Witness.sbd_exchange_rate w) = false) ws).

Definition median (l : list price) : result price :=
  get_or out_of_range (merge_sort price_le l !! (List.length l / 2)%nat).

(** push_back, then pop_front when the window is full *)
Definition push_feed (p : price) (history : list price) : list price :=
  let h := (history ++ [p])%list in
  if (Z.to_nat STEEM_FEED_HISTORY_WINDOW <? List.length h)%nat then tail h else h.

Definition update_median_feed (db : database) : result database :=
  if negb (head_block_num db mod STEEM_FEED_INTERVAL_BLOCKS =? 0) then Ok db
  else
    ws ← get_witnesses db (scheduled db);
    let feeds := live_feeds (head_block_time db) ws in
    if Z.of_nat (List.length feeds) <? STEEM_MIN_FEEDS then Ok db
    else
      median_feed ← median feeds;
      let history := push_feed median_feed (FeedHistory.price_history (Db.feed_history db)) in
      m ← median history;
      n ← Safe.mul 9 (amount (Gpo.current_sbd_supply (Db.gpo db)));
      min_price ← Price.make (mk_asset n SBD_SYMBOL) (Gpo.current_supply (Db.gpo db));
      let m := if Price.gtb min_price m then min_price else m in
      Ok (db <| Db.feed_history ::= fun f =>
                f <| FeedHistory.price_history := history |> <| FeedHistory.current_median_history := m |> |>).

(** ** Virtual supply and print rate *)

Definition sbd_print_rate_of (percent_sbd : Z) : Z :=
  if percent_sbd <=? STEEM_SBD_START_PERCENT then STEEM_100_PERCENT
  else if STEEM_SBD_STOP_PERCENT <=? percent_sbd then 0
  else (STEEM_SBD_STOP_PERCENT - percent_sbd) * STEEM_100_PERCENT
       / (STEEM_SBD_STOP_PERCENT - STEEM_SBD_START_PERCENT).

Definition update_virtual_supply (db : database) : result database :=
  let median_price := FeedHistory.current_median_history (Db.feed_history db) in
  modify_gpo db (fun g =>
    backing ← (if Price.is_null median_price then Ok (mk_asset 0 STEEM_SYMBOL)
               else Price.mul (Gpo.current_sbd_supply g) median_price);
    v ← Asset.add (Gpo.current_supply g) backing;
    let g := g <| Gpo.virtual_supply := v |> in
    if Price.is_null median_price then Ok g
    else
      backing ← Price.mul (Gpo.current_sbd_supply g) median_price;
      let den := u128 (amount v) in
      _ ← (if den =? 0 then Throw divide_by_zero_exception else Ok tt);
      let q := u128 (u128 (amount backing) * STEEM_100_PERCENT) / den in
      _ ← fc_assert (q <? 2 ^ 64);
      Ok (g <| Gpo.sbd_print_rate := sbd_print_rate_of (u16 q) |>)).

(** ** Inflation *)

Definition fund_id_le (x y : string * reward_fund_object) : Prop := RewardFund.id (snd x) <= RewardFund.id (snd y).
#[export] Instance fund_id_le_dec : RelDecision fund_id_le.
Proof. intros x y. unfold fund_id_le. apply _. Defined.

(** one round of the loop over the reward funds, by id *)
Definition pay_fund (reward : Z) (st : database * Z) (x : string * reward_fund_object) : result (database * Z) :=
  let '(db, used_rewards) := st in
  p ← Safe.mul reward (RewardFund.percent_content_rewards (snd x));
  r ← Safe.div p STEEM_100_PERCENT;
  db ← modify_obj Db.reward_funds (fst x) (fun f =>
         b ← Asset.add (RewardFund.reward_balance f) (mk_asset r STEEM_SYMBOL);
         Ok (f <| RewardFund.reward_balance := b |>)) db;
  used_rewards ← Safe.add used_rewards r;
  _ ← fc_assert (used_rewards <=? reward);
  Ok (db, used_rewards).

Definition pay_reward_funds (db : database) (reward : Z) : result (database * Z) :=
  foldM (pay_fund reward) (db, 0) (merge_sort fund_id_le (map_to_list (Db.reward_funds db))).

Definition current_inflation_rate (block : Z) : Z :=
  Z.max (STEEM_INFLATION_RATE_START_PERCENT - block / STEEM_INFLATION_NARROWING_PERIOD)
        STEEM_INFLATION_RATE_STOP_PERCENT.

Definition is_bootstrap_phase (db : database) : bool :=
  amount (Gpo.current_supply (Db.gpo db)) <? STEEM_BOOTSTRAP_SUPPLY_THRESHOLD.

Definition block_emission (db : database) : result Z :=
  if is_bootstrap_phase db then Ok STEEM_BOOTSTRAP_FIXED_BLOCK_REWARD
  else
    p ← Safe.mul (amount (Gpo.virtual_supply (Db.gpo db))) (current_inflation_rate (head_block_num db));
    Safe.div p (STEEM_100_PERCENT * STEEM_BLOCKS_PER_YEAR).

(** the weighting of the witness reward after the bootstrap phase *)
Definition weigh_witness_reward (db : database) (w : witness_object) (r : Z) : result Z :=
  r ← Safe.mul r STEEM_MAX_WITNESSES;
  r ← match Witness.schedule w with
      | timeshare => Safe.mul r (WitnessSchedule.timeshare_weight (Db.wso db))
      | top20 => Safe.mul r (WitnessSchedule.top20_weight (Db.wso db))
      | none => Ok r
      end;
  Safe.div r (WitnessSchedule.witness_pay_normalization_factor (Db.wso db)).

Definition percent_of (x percent : Z) : result Z := p ← Safe.mul x percent; Safe.div p STEEM_100_PERCENT.

Definition process_funds (db : database) : result database :=
  let bootstrap := is_bootstrap_phase db in
  new_steem ← block_emission db;
  content_reward ← percent_of new_steem STEEM_CONTENT_REWARD_PERCENT;
  '(db, content_reward) ← pay_reward_funds db content_reward;
  vesting_reward ← percent_of new_steem STEEM_VESTING_FUND_PERCENT;
  let vesting_reward :=
    if amount (Gpo.total_vesting_shares (Db.gpo db)) <? STEEM_MIN_REWARD_VESTING_SHARES then 0 else vesting_reward in
  w ← Safe.sub new_steem content_reward;
  witness_reward ← Safe.sub w vesting_reward;
  cwit ← get_witness db (Gpo.current_witness (Db.gpo db));
  witness_reward ← (if bootstrap then Ok witness_reward else weigh_witness_reward db cwit witness_reward);
  s ← Safe.add content_reward vesting_reward;
  new_steem ← Safe.add s witness_reward;
  db ← modify_gpo db (fun g =>
         f ← Asset.add (Gpo.total_vesting_fund_steem g) (mk_asset vesting_reward STEEM_SYMBOL);
         c ← Asset.add (Gpo.current_supply g) (mk_asset new_steem STEEM_SYMBOL);
         v ← Asset.add (Gpo.virtual_supply g) (mk_asset new_steem STEEM_SYMBOL);
         Ok (g <| Gpo.total_vesting_fund_steem := f |> <| Gpo.current_supply := c |> <| Gpo.virtual_supply := v |>));
  _ ← get_account db (Witness.owner cwit);
  '(db, _) ← create_vesting db (Witness.owner cwit) (mk_asset witness_reward STEEM_SYMBOL) false;
  Ok db.

(** ** Hardforks *)

Definition STEEM_NUM_HARDFORKS : Z := 0.
Definition hardfork_versions : list Z := [0].
Definition hardfork_times : list Z := [STEEM_GENESIS_TIME].

Definition apply_hardfork (db : database) (hardfork : Z) : result database :=
  let h := Db.hardfork_property db in
  _ ← fc_assert (hardfork =? u32 (HardforkProperty.last_hardfork h + 1));
  _ ← fc_assert (Z.of_nat (List.length (HardforkProperty.processed_hardforks h)) =? hardfork);
  t ← get_or out_of_range (hardfork_times !! Z.to_nat hardfork);
  v ← get_or out_of_range (hardfork_versions !! Z.to_nat hardfork);
  Ok (db <| Db.hardfork_property :=
        h <| HardforkProperty.processed_hardforks ::= fun l => (l ++ [t])%list |>
          <| HardforkProperty.last_hardfork := hardfork |>
          <| HardforkProperty.current_hardfork_version := v |> |>).

Definition pending_hardfork (db : database) : option Z :=
  let h := Db.hardfork_property db in
  match hardfork_versions !! Z.to_nat (HardforkProperty.last_hardfork h) with
  | Some v =>
      if (v <? HardforkProperty.next_hardfork h) && (HardforkProperty.next_hardfork_time h <=? head_block_time db)
      then Some (HardforkProperty.last_hardfork h) else None
  | None => None
  end.

(** every round applies one of the known hardforks *)
Definition process_hardforks (db : database) : result database :=
  while_next (S (Z.to_nat STEEM_NUM_HARDFORKS)) pending_hardfork (fun db last =>
    if last <? STEEM_NUM_HARDFORKS then apply_hardfork db (last + 1) else Throw unknown_hardfork_exception) db.

Definition has_hardfork (db : database) (hardfork : Z) : bool :=
  hardfork <? Z.of_nat (List.length (HardforkProperty.processed_hardforks (Db.hardfork_property db))).

(** ** Slots: facts *)

Lemma u32_small x : 0 <= x < 2 ^ 32 -> u32 x = x.
Proof. apply Z.mod_small. Qed.

(** the slot of the time of a slot is that slot, as long as 32-bit time lasts. *)
Theorem slot_time_roundtrip db n :
  0 < n -> 0 <= head_block_time db -> head_block_time db + n * STEEM_BLOCK_INTERVAL < 2 ^ 32 ->
  get_slot_at_time db (get_slot_time db n) = n /\
  get_slot_time db n - get_slot_time db 1 = (n - 1) * STEEM_BLOCK_INTERVAL.
Proof.
  unfold STEEM_BLOCK_INTERVAL. intros Hn Ht Hb. unfold get_slot_at_time, get_slot_time, STEEM_BLOCK_INTERVAL.
  rewrite (proj2 (Z.eqb_neq n 0)) by lia. change (1 =? 0) with false. cbv beta iota.
  assert (exists t, 0 <= t <= head_block_time db /\
    (if head_block_num db =? 0 then u32 (head_block_time db + u32 (n * 3))
     else u32 (u32 (head_block_time db / 3 * 3) + u32 (n * 3))) = t + n * 3 /\
    (if head_block_num db =? 0 then u32 (head_block_time db + u32 (1 * 3))
     else u32 (u32 (head_block_time db / 3 * 3) + u32 (1 * 3))) = t + 3) as (t & Ht' & -> & ->).
  { pose proof (Z.div_mod (head_block_time db) 3 ltac:(lia)). pose proof (Z.mod_pos_bound (head_block_time db) 3 ltac:(lia)).
    destruct (head_block_num db =? 0); [exists (head_block_time db)|exists (head_block_time db / 3 * 3)];
      rewrite !u32_small by (rewrite ?u32_small by lia; lia); repeat split; lia. }
  split; [|lia]. destruct (Z.ltb_spec (t + n * 3) (t + 3)); [lia|].
  replace (t + n * 3 - (t + 3)) with ((n - 1) * 3) by lia. rewrite Z.div_mul by lia. rewrite u32_small; lia.
Qed.

(** ** Participation: facts *)

(** the counter of participation is the number of set bits of the window *)
Definition participation_ok (g : dynamic_global_property_object) : Prop :=
  0 <= Gpo.recent_slots_filled g < 2 ^ 128 /\
  Gpo.participation_count g = Uint128.bit_count 128 (Gpo.recent_slots_filled g).

Lemma window_count x (f : bool) :
  Uint128.bit_count 128 (u128 (u128 (Z.shiftl x 1) + b2z f)) = Uint128.bit_count 128 x - b2z (Z.testbit x 127) + b2z f.
Proof.
  unfold u128. rewrite Z.add_mod_idemp_l by lia. rewrite Z.shiftl_mul_pow2 by lia.
  rewrite Uint128.bit_count_mod by lia. rewrite (Z.mul_comm x). change (2 ^ 1) with 2. rewrite (Uint128.bit_count_shift 127 x f).
  rewrite (Uint128.bit_count_S 127 x); change (Z.of_nat 127) with 127. lia.
Qed.

Lemma fill_slot_ok g i : participation_ok g -> participation_ok (fill_slot g i).
Proof.
  intros [Hr Hc]. split.
  - apply Z.mod_pos_bound. lia.
  - unfold fill_slot. cbn -[Uint128.bit_count u8 u128 Z.shiftl Z.testbit b2z Nat.eqb].
    rewrite Hc. rewrite window_count.
    set (x := Gpo.recent_slots_filled g) in *. set (f := Nat.eqb i 0).
    pose proof (Uint128.bit_count_range 127 x).
    rewrite (Uint128.bit_count_S 127 x); change (Z.of_nat 127) with 127.
    unfold u8. rewrite Z.add_mod_idemp_l by lia. rewrite Z.mod_small; [lia|]. destruct (Z.testbit x 127), f; unfold b2z; lia.
Qed.

Lemma fill_slots_ok l : forall g, participation_ok g -> participation_ok (fold_left fill_slot l g).
Proof. induction l as [|i l IH]; intros g Hg; [done|]. apply IH. by apply fill_slot_ok. Qed.

Lemma miss_slots_gpo b l : forall db db', foldM (miss_slot b) db l = Ok db' -> Db.gpo db' = Db.gpo db.
Proof.
  induction l as [|i l IH]; intros db db' H; simpl in H; [by injection H as <-|]. bind H as db1 H1. rewrite (IH _ _ H).
  unfold miss_slot in H1. bind H1 as n Hn. bind H1 as w Hw. destruct (decide _); [by injection H1 as <-|].
  by apply modify_witness_inv in H1 as (x & x' & _ & _ & ->).
Qed.

Lemma fill_slots_rest l : forall g,
  let g' := fold_left fill_slot l g in
  Gpo.current_aslot g' = Gpo.current_aslot g /\ Gpo.last_irreversible_block_num g' = Gpo.last_irreversible_block_num g.
Proof. induction l as [|i l IH]; intros g; [done|]. exact (IH (fill_slot g i)). Qed.

(** a new block moves the head of the chain to it, advances the absolute slot by
    the missed slots and its own, and keeps the participation counter equal to
    the number of filled slots of the last 128. *)
Theorem new_block_head skip db b db' :
  participation_ok (Db.gpo db) -> 0 < head_block_time db ->
  0 < get_slot_at_time db (timestamp b) -> get_slot_at_time db (timestamp b) < 2 ^ 32 ->
  update_global_dynamic_data skip db b = Ok db' ->
  participation_ok (Db.gpo db') /\ head_block_time db' = timestamp b /\ head_block_num db' = block_num b /\
  Gpo.head_block_id (Db.gpo db') = block_id b /\
  Gpo.current_aslot (Db.gpo db') = u64 (Gpo.current_aslot (Db.gpo db) + get_slot_at_time db (timestamp b)).
Proof.
  intros Hp Ht Hs Hs2 H. unfold update_global_dynamic_data in H. bind H as [db1 missed] H1.
  rewrite (proj2 (Z.eqb_neq (head_block_time db) 0)) in H1 by lia. bind H1 as db2 H2. injection H1 as <- <-.
  apply miss_slots_gpo in H2. bind H as db3 H3. bind H as u1 U1. injection H as <-.
  apply modify_gpo_inv in H3 as (g & [= <-] & ->). rewrite H2. simpl.
  destruct (fill_slots_rest (seq 0 (Z.to_nat (u32 (u32 (get_slot_at_time db (timestamp b) - 1) + 1)))) (Db.gpo db)) as [E _].
  split; [by apply (fill_slots_ok _ (Db.gpo db))|]. do 3 (split; [done|]). simpl. rewrite E.
  rewrite (u32_small (get_slot_at_time db (timestamp b) - 1)) by lia. rewrite u32_small by lia.
  by rewrite Z.sub_add.
Qed.

(** ** Irreversibility: facts *)

Lemma sorted_drop_ge k : forall (l : list Z) x, StronglySorted Z.le l -> l !! k = Some x -> Forall (fun y => x <= y) (drop k l).
Proof.
  induction k as [|k IH]; intros [|y l] x Hs Hx; try done; apply StronglySorted_inv in Hs as [Hs Hy].
  - injection Hx as ->. constructor; [lia|done].
  - by apply IH.
Qed.

Lemma filter_keep {A} (P : A -> Prop) `{forall x, Decision (P x)} (l : list A) : Forall P l -> filter P l = l.
Proof. induction 1 as [|x l Hx _ IH]; [done|]. by rewrite filter_cons_True, IH. Qed.

Lemma nth_element_above l k x :
  nth_element l k = Ok x -> (k < List.length l)%nat /\
  (List.length l - k <= List.length (filter (fun y => (x <= y)%Z) l))%nat.
Proof.
  unfold nth_element. intros H. destruct (merge_sort Z.le l !! k) as [y|] eqn:E; [injection H as ->|done].
  pose proof (merge_sort_Permutation Z.le l) as P.
  assert (StronglySorted Z.le (merge_sort Z.le l)) as S by (apply (StronglySorted_merge_sort Z.le)).
  pose proof (lookup_lt_Some _ _ _ E) as Hk. rewrite P in Hk. split; [done|].
  assert (filter (fun y => x <= y) (merge_sort Z.le l) ≡ₚ filter (fun y => x <= y) l) as <- by by rewrite P.
  rewrite <- (take_drop k (merge_sort Z.le l)), filter_app, length_app.
  rewrite (filter_keep _ (drop k _)) by by apply sorted_drop_ge.
  apply Permutation_length in P. rewrite length_drop, P. lia.
Qed.

Lemma nth_element_total l k : (k < List.length l)%nat -> exists x, nth_element l k = Ok x /\ x ∈ l.
Proof.
  intros Hk. unfold nth_element. pose proof (merge_sort_Permutation Z.le l) as P.
  destruct (lookup_lt_is_Some_2 (merge_sort Z.le l) k) as [x Hx]; [by rewrite P|].
  exists x. rewrite Hx. split; [done|]. rewrite <- P. by eapply list_elem_of_lookup_2.
Qed.

Definition confirmed (n : Z) (w : witness_object) : bool := n <=? Witness.last_confirmed_block_num w.

Lemma filter_confirmed n ws :
  List.length (filter (fun y => n <= y) (map Witness.last_confirmed_block_num ws)) =
  List.length (filter (fun w => confirmed n w = true) ws).
Proof.
  assert (forall w, n <= Witness.last_confirmed_block_num w <-> confirmed n w = true) as E
    by (intros w; unfold confirmed; by rewrite Z.leb_le).
  induction ws as [|w ws IH]; [done|]. simpl map. rewrite !filter_cons.
  destruct (decide (n <= _)) as [H|H], (decide (confirmed n w = true)) as [H'|H']; rewrite E in H; try done.
  simpl. by rewrite IH.
Qed.

Lemma offset_threshold (n c : nat) :
  (n - Z.to_nat (irreversible_offset (Z.of_nat n)) <= c)%nat ->
  STEEM_IRREVERSIBLE_THRESHOLD * Z.of_nat n <= STEEM_100_PERCENT * Z.of_nat c.
Proof.
  unfold irreversible_offset. change STEEM_100_PERCENT with 10000. change STEEM_IRREVERSIBLE_THRESHOLD with 7500. intros H.
  pose proof (Z.mul_div_le ((10000 - 7500) * Z.of_nat n) 10000 ltac:(lia)).
  pose proof (Z.div_pos ((10000 - 7500) * Z.of_nat n) 10000 ltac:(lia) ltac:(lia)). lia.
Qed.

Lemma lib_self db :
  db = db <| Db.gpo ::= fun g => g <| Gpo.last_irreversible_block_num := Gpo.last_irreversible_block_num (Db.gpo db) |> |>.
Proof. destruct db. destruct gpo. reflexivity. Qed.

(** C22: What update_last_irreversible_block does to the last irreversible block.  In
    the first week of the chain, before witness voting takes over, it is set to the block
    STEEM_MAX_WITNESSES behind the head, without any confirmation, or kept while the chain
    is shorter than that.  From then on, if at least one witness is scheduled and the
    scheduled witnesses exist, it only moves forward, and only to a block that three
    quarters of the scheduled witnesses have confirmed.  Nothing else changes. *)
Theorem irreversible_supermajority db :
  let old := Gpo.last_irreversible_block_num (Db.gpo db) in
  (head_block_num db < STEEM_START_WITNESS_VOTING_BLOCK ->
   update_last_irreversible_block db =
     Ok (db <| Db.gpo ::= fun g => g <| Gpo.last_irreversible_block_num :=
           if STEEM_MAX_WITNESSES <? head_block_num db then head_block_num db - STEEM_MAX_WITNESSES else old |> |>)) /\
  forall ws,
  STEEM_START_WITNESS_VOTING_BLOCK <= head_block_num db -> get_witnesses db (scheduled db) = Ok ws -> ws <> [] ->
  Forall (fun w => 0 <= Witness.last_confirmed_block_num w < 2 ^ 32) ws ->
  exists db', update_last_irreversible_block db = Ok db' /\
    let new := Gpo.last_irreversible_block_num (Db.gpo db') in
    db' = db <| Db.gpo ::= fun g => g <| Gpo.last_irreversible_block_num := new |> |> /\ old <= new /\
    (new <> old -> STEEM_IRREVERSIBLE_THRESHOLD * Z.of_nat (List.length ws) <=
       STEEM_100_PERCENT * Z.of_nat (List.length (filter (fun w => confirmed new w = true) ws))).
Proof.
  intros old. split.
  { intros Hh. unfold update_last_irreversible_block. rewrite (proj2 (Z.ltb_lt _ _) Hh). unfold old, modify_gpo. clear Hh old.
    destruct (STEEM_MAX_WITNESSES <? _); [done|]. rewrite <- lib_self. destruct db. done. }
  intros ws. unfold old.
  intros Hh Hw Hne Hr. unfold update_last_irreversible_block. rewrite (proj2 (Z.ltb_ge _ _) Hh), Hw. simpl.
  set (k := Z.to_nat _). assert (k < List.length ws)%nat as Hk.
  { unfold k, irreversible_offset. change STEEM_100_PERCENT with 10000. change STEEM_IRREVERSIBLE_THRESHOLD with 7500.
    destruct ws as [|w ws]; [done|].
    assert (0 < Z.of_nat (List.length (w :: ws))) by (simpl List.length; lia).
    pose proof (Z.div_lt_upper_bound ((10000 - 7500) * Z.of_nat (List.length (w :: ws))) 10000
      (Z.of_nat (List.length (w :: ws))) ltac:(lia) ltac:(lia)). lia. }
  destruct (nth_element_total (map Witness.last_confirmed_block_num ws) k) as (x & Hx & Hin); [by rewrite length_map|].
  rewrite Hx. simpl. apply list_elem_of_fmap in Hin as (w & -> & Hin). rewrite Forall_forall in Hr.
  rewrite u32_small by by apply Hr. destruct (nth_element_above _ _ _ Hx) as [_ Hc]. rewrite length_map in Hc.
  destruct (Z.ltb_spec (Gpo.last_irreversible_block_num (Db.gpo db)) (Witness.last_confirmed_block_num w)) as [Hlt|Hle].
  - eexists. split; [reflexivity|]. simpl. split; [done|]. split; [lia|]. intros _. rewrite <- filter_confirmed.
    by apply offset_threshold.
  - exists db. split; [done|]. split; [apply lib_self|]. split; [lia|]. by intros [].
Qed.

(** ** Inflation: facts *)

Lemma adjust_proxied_at_gpo togo : forall db n d db', adjust_proxied_at togo db n d = Ok db' -> Db.gpo db' = Db.gpo db.
Proof.
  induction togo as [|togo IH]; intros db n d db' H; simpl in H; bind H as a Ha; destruct (decide _).
  1,3: apply adjust_witness_votes_ledger in H as [HL _]; apply HL.
  - by injection H as <-.
  - bind H as db1 H1. apply modify_account_inv in H1 as (? & ? & _ & _ & ->). by rewrite (IH _ _ _ _ H).
Qed.

(** shares bought by [create_vesting] change no supply *)
Lemma create_vesting_supplies db n liquid db' v :
  wf db -> create_vesting db n liquid false = Ok (db', v) ->
  Gpo.current_supply (Db.gpo db') = Gpo.current_supply (Db.gpo db) /\
  Gpo.virtual_supply (Db.gpo db') = Gpo.virtual_supply (Db.gpo db).
Proof.
  intros Hwf H. unfold create_vesting in H. bind H as u Hs. apply fc_assert_Ok, Z.eqb_eq in Hs.
  bind H as p Hp. bind H as nv Hnv. bind H as db1 Hadj. bind H as db2 Hgpo. bind H as db3 Hprox. injection H as <- <-.
  pose proof (vesting_price_mul false _ _ _ _ (wf_gpo db Hwf) Hp Hs Hnv) as Hsy.
  apply adjust_proxied_at_gpo in Hprox. rewrite Hprox. apply modify_gpo_inv in Hgpo as (g & Hg & ->).
  unfold adjust_balance, modify_balance in Hadj. rewrite Hsy in Hadj. simpl in Hadj.
  apply modify_account_inv in Hadj as (? & ? & _ & _ & ->). result_inv. done.
Qed.

Lemma pay_fund_moves reward db used x db' used' :
  wf db -> pay_fund reward (db, used) x = Ok (db', used') ->
  moves db db' (used - used') 0 0 0 0 /\ Db.gpo db' = Db.gpo db /\ used' <= reward.
Proof.
  intros Hwf H. unfold pay_fund in H. bind H as p Hp. bind H as r Hr. bind H as db1 H1. bind H as u Hu. bind H as a Ha.
  injection H as <- <-. apply fc_assert_Ok, Z.leb_le in Ha.
  apply modify_obj_inv in H1 as (f & f' & Hf & Hf' & ->). bind Hf' as b Hb. injection Hf' as <-. asset_inv.
  pose proof (wf_funds db Hwf _ _ Hf) as Hsym. cbv beta in Hsym. split; [|by split].
  match goal with |- context [<[fst x := ?f']>] =>
    eapply moves_eq; [apply (funds_moves db (<[fst x := f']> (Db.reward_funds db)) Hwf)|..] end.
  - apply map_Forall_insert_2; [simpl; congruence|apply Hwf].
  - rewrite (msum_insert _ _ _ _ _ Hf). unfold fund_held. simpl. lia.
  - lia.
  - lia.
  - lia.
  - lia.
Qed.

Lemma pay_funds_moves reward l : forall db used db' used',
  wf db -> foldM (pay_fund reward) (db, used) l = Ok (db', used') ->
  moves db db' (used - used') 0 0 0 0 /\ Db.gpo db' = Db.gpo db.
Proof.
  induction l as [|x l IH]; intros db used db' used' Hwf H; simpl in H.
  - injection H as <- <-. split; [|done]. eapply moves_eq; [by apply moves_refl|lia..].
  - bind H as [db1 used1] H1. apply pay_fund_moves in H1 as (M1 & E1 & _); [|done].
    apply IH in H as (M2 & E2); [|apply M1]. split; [|congruence].
    eapply moves_eq; [exact (moves_trans _ _ _ _ _ _ _ _ _ _ _ _ _ M1 M2)|lia..].
Qed.

(** the inflation rate falls from 9.78% by one basis point every 250000 blocks,
    down to 0.95%, and stays there. *)
Lemma inflation_rate_bounds block : 0 <= block ->
  STEEM_INFLATION_RATE_STOP_PERCENT <= current_inflation_rate block <= STEEM_INFLATION_RATE_START_PERCENT /\
  (220750000 <= block -> current_inflation_rate block = STEEM_INFLATION_RATE_STOP_PERCENT).
Proof.
  unfold current_inflation_rate, STEEM_INFLATION_RATE_START_PERCENT, STEEM_INFLATION_RATE_STOP_PERCENT,
    STEEM_INFLATION_NARROWING_PERIOD. intros Hb.
  pose proof (Z.div_pos block 250000 Hb ltac:(lia)). split; [lia|]. intros Hl.
  pose proof (Z.div_le_lower_bound block 250000 883 ltac:(lia) ltac:(lia)). lia.
Qed.

Lemma process_funds_moves db db' :
  wf db -> process_funds db = Ok db' ->
  conserves db db' /\ exists printed,
    amount (Gpo.current_supply (Db.gpo db')) = amount (Gpo.current_supply (Db.gpo db)) + printed /\
    amount (Gpo.virtual_supply (Db.gpo db')) = amount (Gpo.virtual_supply (Db.gpo db)) + printed /\
    (is_bootstrap_phase db = true -> printed = STEEM_BOOTSTRAP_FIXED_BLOCK_REWARD).
Proof.
  intros Hwf H. unfold process_funds in H. bind H as emitted He. bind H as content0 Hc0.
  bind H as [db1 content] H1. bind H as vest0 Hv0. bind H as w0 Hw0. bind H as w1 Hw1. bind H as cwit Hcw.
  bind H as w2 Hw2. bind H as s Hs. bind H as new Hnew. bind H as db2 H2. bind H as acc Hacc. bind H as [db3 nv] H3.
  injection H as <-. unfold pay_reward_funds in H1. set (vest := if _ <? _ then 0 else vest0) in *. clearbody vest.
  apply pay_funds_moves in H1 as (M1 & E1); [|done]. apply modify_gpo_inv in H2 as (g & Hg & ->).
  pose proof (wf_gpo db1 (mv_wf _ _ _ _ _ _ _ M1)) as (?&?&?&?&?&?&?&?).
  bind Hg as f Hf. bind Hg as c Hc. bind Hg as v Hv. injection Hg as <-. asset_inv.
  match type of H3 with create_vesting (db1 <| Db.gpo := ?g |>) _ _ _ = _ =>
    pose proof (gpo_moves db1 g (mv_wf _ _ _ _ _ _ _ M1) ltac:(unfold gpo_wf; simpl; auto 10)) as M2 end.
  pose proof (create_vesting_supplies _ _ _ _ _ (mv_wf _ _ _ _ _ _ _ M2) H3) as [Es Ev].
  apply create_vesting_moves in H3 as (M3 & _ & _); [|apply M2|done].
  split.
  - eapply moves_eq; [exact (moves_trans _ _ _ _ _ _ _ _ _ _ _ _ _ M1 (moves_trans _ _ _ _ _ _ _ _ _ _ _ _ _ M2 M3))|..];
      unfold gpo_steem, gpo_sbd, gpo_vests, gpo_pending, gpo_vsf; simpl; lia.
  - eexists. rewrite Es, Ev. simpl. rewrite <- E1. split; [done|]. split; [done|]. intros Hb.
    unfold block_emission in He. rewrite Hb in He, Hw2. injection He as <-. injection Hw2 as <-. lia.
Qed.

(** what a block prints it hands out: the totals of the ledger are kept, the
    supply and the virtual supply grow by the same amount, and in the bootstrap
    phase that amount is the fixed reward. *)
Theorem process_funds_conserves db db' :
  wf db -> process_funds db = Ok db' ->
  conserves db db' /\ exists printed,
    amount (Gpo.current_supply (Db.gpo db')) = amount (Gpo.current_supply (Db.gpo db)) + printed /\
    amount (Gpo.virtual_supply (Db.gpo db')) = amount (Gpo.virtual_supply (Db.gpo db)) + printed /\
    (is_bootstrap_phase db = true -> printed = STEEM_BOOTSTRAP_FIXED_BLOCK_REWARD).
Proof. apply process_funds_moves. Qed.

(** ** The feed and the virtual supply: facts *)

Lemma print_rate_range p : 0 <= p -> 0 <= sbd_print_rate_of p <= STEEM_100_PERCENT.
Proof.
  intros Hp. unfold sbd_print_rate_of. change STEEM_SBD_START_PERCENT with 200.
  change STEEM_SBD_STOP_PERCENT with 500. change STEEM_100_PERCENT with 10000.
  pose proof (Z.div_mod ((500 - p) * 10000) (500 - 200) ltac:(lia)).
  pose proof (Z.mod_pos_bound ((500 - p) * 10000) (500 - 200) ltac:(lia)).
  destruct (Z.leb_spec p 200), (Z.leb_spec 500 p); lia.
Qed.

(** the rate at which SBD is printed falls from 100% to 0 as SBD grows from 2% to
    5% of the market. *)
Theorem print_rate_antitone p q : 0 <= p <= q ->
  0 <= sbd_print_rate_of q <= sbd_print_rate_of p /\ sbd_print_rate_of p <= STEEM_100_PERCENT /\
  (q <= STEEM_SBD_START_PERCENT -> sbd_print_rate_of q = STEEM_100_PERCENT) /\
  (STEEM_SBD_STOP_PERCENT <= p -> sbd_print_rate_of p = 0).
Proof.
  intros Hpq. unfold sbd_print_rate_of. change STEEM_SBD_START_PERCENT with 200.
  change STEEM_SBD_STOP_PERCENT with 500. change STEEM_100_PERCENT with 10000.
  pose proof (Z.div_mod ((500 - p) * 10000) (500 - 200) ltac:(lia)).
  pose proof (Z.div_mod ((500 - q) * 10000) (500 - 200) ltac:(lia)).
  pose proof (Z.mod_pos_bound ((500 - p) * 10000) (500 - 200) ltac:(lia)).
  pose proof (Z.mod_pos_bound ((500 - q) * 10000) (500 - 200) ltac:(lia)).
  destruct (Z.leb_spec p 200), (Z.leb_spec q 200), (Z.leb_spec 500 p), (Z.leb_spec 500 q); lia.
Qed.

(** the virtual supply as validate_invariants checks it *)
Definition virtual_supply_ok (db : database) : Prop :=
  let g := Db.gpo db in
  let median := FeedHistory.current_median_history (Db.feed_history db) in
  if Price.is_null median then Gpo.virtual_supply g = Gpo.current_supply g
  else exists backing, Price.mul (Gpo.current_sbd_supply g) median = Ok backing /\
         Asset.add (Gpo.current_supply g) backing = Ok (Gpo.virtual_supply g).

(** update_virtual_supply establishes the virtual supply from the supplies and
    the feed, and changes nothing but it and the print rate, which stays a percentage. *)
Theorem update_virtual_supply_ok db db' :
  wf db -> 0 <= Gpo.sbd_print_rate (Db.gpo db) <= STEEM_100_PERCENT ->
  update_virtual_supply db = Ok db' ->
  virtual_supply_ok db' /\ 0 <= Gpo.sbd_print_rate (Db.gpo db') <= STEEM_100_PERCENT /\ conserves db db' /\
  db' = db <| Db.gpo ::= fun g => g <| Gpo.virtual_supply := Gpo.virtual_supply (Db.gpo db') |>
                                   <| Gpo.sbd_print_rate := Gpo.sbd_print_rate (Db.gpo db') |> |>.
Proof.
  intros Hwf Hr H. unfold update_virtual_supply in H. apply modify_gpo_inv in H as (g & Hg & ->).
  pose proof (wf_gpo db Hwf) as (Hc&?&?&?&?&?&?&?).
  set (m := FeedHistory.current_median_history (Db.feed_history db)) in *. unfold virtual_supply_ok. simpl.
  change (FeedHistory.current_median_history (Db.feed_history db)) with m.
  bind Hg as b Hb. bind Hg as v Hv.
  assert (symbol v = symbol (Gpo.current_supply (Db.gpo db))) as Hsv by (by asset_inv).
  assert (g = (Db.gpo db) <| Gpo.virtual_supply := v |> <| Gpo.sbd_print_rate := Gpo.sbd_print_rate g |> /\
    0 <= Gpo.sbd_print_rate g <= STEEM_100_PERCENT) as [Eg Hrg].
  { destruct (Price.is_null m); [injection Hg as <-; split; [by destruct (Db.gpo db)|done]|].
    bind Hg as b2 Hb2. bind Hg as u1 U1. bind Hg as u2 U2. injection Hg as <-. split; [done|].
    match goal with |- context [sbd_print_rate_of ?p] => destruct (print_rate_range p) end; [apply Z.mod_pos_bound; lia|done]. }
  clear Hg. rewrite Eg. simpl. split; [|split; [done|split; [|done]]].
  - destruct (Price.is_null m); [|eauto]. injection Hb as <-. asset_inv.
    destruct (Gpo.current_supply (Db.gpo db)). simpl. f_equal. lia.
  - eapply moves_eq; [apply gpo_moves; [done|unfold gpo_wf; simpl; repeat split; congruence]|..];
      unfold gpo_steem, gpo_sbd, gpo_vests, gpo_pending, gpo_vsf; simpl; lia.
Qed.

Lemma median_total l : l <> [] -> exists p, median l = Ok p /\ p ∈ l.
Proof.
  intros Hl. unfold median. pose proof (merge_sort_Permutation price_le l) as P.
  destruct (lookup_lt_is_Some_2 (merge_sort price_le l) (List.length l / 2)%nat) as [p Hp].
  { rewrite P. destruct l; [done|]. apply Nat.div_lt; simpl; lia. }
  exists p. rewrite Hp. split; [done|]. rewrite <- P. by eapply list_elem_of_lookup_2.
Qed.

Lemma push_feed_spec p h : (List.length h <= Z.to_nat STEEM_FEED_HISTORY_WINDOW)%nat ->
  p ∈ push_feed p h /\ (List.length (push_feed p h) <= Z.to_nat STEEM_FEED_HISTORY_WINDOW)%nat.
Proof.
  unfold push_feed. intros Hl. rewrite length_app. simpl List.length.
  destruct (Nat.ltb_spec (Z.to_nat STEEM_FEED_HISTORY_WINDOW) (List.length h + 1)).
  - destruct h as [|q h]; [simpl in *; unfold STEEM_FEED_HISTORY_WINDOW in *; lia|]. simpl in *.
    rewrite length_app. simpl. split; [set_solver|lia].
  - rewrite length_app. simpl. split; [set_solver|lia].
Qed.

(** the smallest price the feed may take: SBD worth a tenth of the market *)
Definition feed_floor (db : database) : price :=
  mk_price (mk_asset (9 * amount (Gpo.current_sbd_supply (Db.gpo db))) SBD_SYMBOL) (Gpo.current_supply (Db.gpo db)).

Lemma gtb_irrefl p : Price.gtb p p = false.
Proof. unfold Price.gtb, Price.compare, Price.bq_compare. by rewrite !Z.compare_refl. Qed.

Section feeds.
Context (db : database) (ws : list witness_object).
Hypothesis at_interval : head_block_num db mod STEEM_FEED_INTERVAL_BLOCKS = 0.
Hypothesis the_witnesses : get_witnesses db (scheduled db) = Ok ws.
Let feeds := live_feeds (head_block_time db) ws.
Hypothesis enough : STEEM_MIN_FEEDS <= Z.of_nat (List.length feeds).
Let history := FeedHistory.price_history (Db.feed_history db).
Hypothesis window : (List.length history <= Z.to_nat STEEM_FEED_HISTORY_WINDOW)%nat.

Lemma update_median_feed_eq : exists f m,
  f ∈ feeds /\ m ∈ push_feed f history /\
  update_median_feed db =
    (n ← Safe.mul 9 (amount (Gpo.current_sbd_supply (Db.gpo db)));
     min_price ← Price.make (mk_asset n SBD_SYMBOL) (Gpo.current_supply (Db.gpo db));
     let m := if Price.gtb min_price m then min_price else m in
     Ok (db <| Db.feed_history ::= fun h =>
           h <| FeedHistory.price_history := push_feed f history |> <| FeedHistory.current_median_history := m |> |>)).
Proof.
  destruct (median_total feeds) as (f & Hf & Hin).
  { intros E. rewrite E in enough. unfold STEEM_MIN_FEEDS in enough. vm_compute in enough. done. }
  destruct (push_feed_spec f history window) as [Hp _].
  destruct (median_total (push_feed f history)) as (m & Hm & Hmin); [by intros E; rewrite E in Hp; apply not_elem_of_nil in Hp|].
  exists f, m. split; [done|]. split; [done|]. unfold update_median_feed.
  rewrite at_interval, the_witnesses. simpl. fold feeds. rewrite (proj2 (Z.ltb_ge _ _) enough), Hf. simpl.
  fold history. by rewrite Hm.
Qed.

(** C33: while there is no SBD, a block that finds enough price feeds cannot be applied:
    the limit price is built from nine times the SBD supply, and the
    constructor of price refuses a zero amount.  SBD is only created once there is
    a feed, so a chain that starts without SBD never gets one. *)
Theorem median_feed_fails_without_sbd :
  amount (Gpo.current_sbd_supply (Db.gpo db)) = 0 -> update_median_feed db = Throw assert_exception.
Proof. destruct update_median_feed_eq as (f & m & _ & _ & ->). intros ->. reflexivity. Qed.

(** with SBD in circulation the feed becomes the median of the history with the
    median of the live feeds in it, or the floor where that is larger: it never values
    SBD at more than a tenth of the market. *)
Theorem median_feed_floor :
  0 < amount (Gpo.current_sbd_supply (Db.gpo db)) -> 9 * amount (Gpo.current_sbd_supply (Db.gpo db)) < 2 ^ 63 ->
  0 < amount (Gpo.current_supply (Db.gpo db)) -> symbol (Gpo.current_supply (Db.gpo db)) = STEEM_SYMBOL ->
  exists f p, f ∈ feeds /\
    update_median_feed db = Ok (db <| Db.feed_history ::= fun h =>
      h <| FeedHistory.price_history := push_feed f history |> <| FeedHistory.current_median_history := p |> |>) /\
    (List.length (push_feed f history) <= Z.to_nat STEEM_FEED_HISTORY_WINDOW)%nat /\
    Price.gtb (feed_floor db) p = false /\ (p = feed_floor db \/ p ∈ push_feed f history).
Proof.
  intros H1 H2 H3 H4. destruct update_median_feed_eq as (f & m & Hf & Hm & ->).
  assert (Safe.mul 9 (amount (Gpo.current_sbd_supply (Db.gpo db))) =
    Ok (9 * amount (Gpo.current_sbd_supply (Db.gpo db)))) as ->.
  { rewrite Safe.mul_exact by (unfold Safe.valid, INT64_MIN, INT64_MAX; lia).
    apply Safe.exact_Ok. unfold Safe.valid, INT64_MIN, INT64_MAX. split; [done|lia]. }
  cbn [mbind result_bind]. unfold Price.make, Price.validate. cbn [base quote amount symbol].
  rewrite (proj2 (Z.ltb_lt 0 (9 * _))) by lia. rewrite (proj2 (Z.ltb_lt 0 _) H3), H4.
  change (negb (SBD_SYMBOL =? STEEM_SYMBOL)) with true. cbn [mbind result_bind fc_assert].
  fold (feed_floor db). destruct (push_feed_spec f history window) as [_ Hl].
  exists f. eexists. split; [done|]. split; [reflexivity|]. split; [done|].
  destruct (Price.gtb (feed_floor db) m) eqn:E; [|by eauto]. split; [apply gtb_irrefl|by left].
Qed.
End feeds.
