(* ===== verification/Schedule.v ===== *)
(** Schedule: the choice of the witnesses that produce the next round of blocks.

    witness_schedule.cpp: update_witness_schedule with the election of the most
    voted witnesses, the virtual-time queue of the others, the reset of the virtual
    time when it overflows, the count of the versions and of the hardfork votes,
    the shuffle, and the medians of the properties the witnesses propose.

    An iterator of the witness index is the witness it points to: the loops modify
    the field [schedule] only, which is the key of no index, or follow iterators
    that were collected before.  std::sort is not stable; the medians taken from the
    sorted witnesses are those of the field they are sorted by. *)
From Stdlib Require Import ZArith Lia String.
From stdpp Require Import base gmap strings list sorting.
From S2P Require Import Prelude.
From S2P Require Import Safe.
From S2P Require Import Asset.
From S2P Require Import Authority.
From S2P Require Import Objects.
From S2P Require Import Reward.
From S2P Require Import Balance.
From S2P Require Import Supply.
From S2P Require Import Operation.
From S2P Require Import Block.
Local Open Scope string_scope.
Local Open Scope Z_scope.
Local Open Scope fc_scope.

(** ** The orders of the witness index *)

Definition by_vote_name (x y : witness_object) : Prop :=
  Witness.votes y < Witness.votes x \/
  (Witness.votes x = Witness.votes y /\ name_le (Witness.owner x) (Witness.owner y)).
#[export] Instance by_vote_name_dec : RelDecision by_vote_name.
Proof. unfold by_vote_name. intros x y. apply _. Defined.

Definition by_schedule_time (x y : witness_object) : Prop :=
  Witness.virtual_scheduled_time x < Witness.virtual_scheduled_time y \/
  (Witness.virtual_scheduled_time x = Witness.virtual_scheduled_time y /\ Witness.id x <= Witness.id y).
#[export] Instance by_schedule_time_dec : RelDecision by_schedule_time.
Proof. unfold by_schedule_time. intros x y. apply _. Defined.

Definition by_witness_id (x y : witness_object) : Prop := Witness.id x <= Witness.id y.
#[export] Instance by_witness_id_dec : RelDecision by_witness_id.
Proof. unfold by_witness_id. intros x y. apply _. Defined.

Definition witnesses_by (le : witness_object -> witness_object -> Prop) `{!RelDecision le} (db : database)
    : list witness_object :=
  merge_sort le (map snd (map_to_list (Db.witnesses db))).

(** signing_key == public_key_type() *)
Definition no_key (w : witness_object) : bool := Witness.signing_key w =? 0.

(** ** The election *)

Definition set_schedule (s : witness_schedule_type) (w : account_name_type) (db : database) : result database :=
  modify_witness db w (fun w => Ok (w <| Witness.schedule := s |>)).

(** [selected_voted] is a set of ids, which are unique; returns it with the
    active witnesses *)
Fixpoint elect (max_voted : Z) (l : list witness_object) (selected_voted : list Z) (active : list account_name_type)
    (db : database) : result (database * list Z * list account_name_type) :=
  match l with
  | [] => Ok (db, selected_voted, active)
  | w :: l =>
      if Z.of_nat (List.length selected_voted) <? max_voted then
        if no_key w then elect max_voted l selected_voted active db
        else
          db ← set_schedule top20 (Witness.owner w) db;
          elect max_voted l (selected_voted ++ [Witness.id w])%list (active ++ [Witness.owner w])%list db
      else Ok (db, selected_voted, active)
  end.

(** the witnesses in the lead: returns the new virtual time, the witnesses that
    were processed and the active ones *)
Fixpoint add_runners (selected_voted : list Z) (witness_count new_virtual_time : Z) (l processed : list witness_object)
    (active : list account_name_type) (db : database)
    : result (database * Z * list witness_object * list account_name_type) :=
  match l with
  | [] => Ok (db, new_virtual_time, processed, active)
  | w :: l =>
      if witness_count <? STEEM_MAX_WITNESSES then
        let new_virtual_time := Witness.virtual_scheduled_time w in
        let processed := (processed ++ [w])%list in
        if no_key w || bool_decide (Witness.id w ∈ selected_voted) then
          add_runners selected_voted witness_count new_virtual_time l processed active db
        else
          db ← set_schedule timeshare (Witness.owner w) db;
          add_runners selected_voted (witness_count + 1) new_virtual_time l processed
            (active ++ [Witness.owner w])%list db
      else Ok (db, new_virtual_time, processed, active)
  end.

(** ** Virtual time *)

Definition lap_time (votes : Z) : result Z := div128 STEEM_VIRTUAL_SCHEDULE_LAP_LENGTH2 (u128 (votes + 1)).

Definition set_virtual (last_update scheduled_time : Z) (w : witness_object) : witness_object :=
  w <| Witness.virtual_position := 0 |> <| Witness.virtual_last_update := last_update |>
    <| Witness.virtual_scheduled_time := scheduled_time |>.

(** the next lap of the processed witnesses; true when the virtual time overflows *)
Fixpoint next_laps (new_virtual_time : Z) (processed : list witness_object) (db : database) : result (database * bool) :=
  match processed with
  | [] => Ok (db, false)
  | w :: processed =>
      lap ← lap_time (Witness.votes w);
      let new_virtual_scheduled_time := u128 (new_virtual_time + lap) in
      if new_virtual_scheduled_time <? new_virtual_time then Ok (db, true)
      else
        db ← modify_witness db (Witness.owner w) (fun w =>
               Ok (set_virtual new_virtual_time new_virtual_scheduled_time w));
        next_laps new_virtual_time processed db
  end.

Definition reset_virtual_schedule_time (db : database) : result database :=
  let db := db <| Db.wso ::= fun o => o <| WitnessSchedule.current_virtual_time := 0 |> |> in
  foldM (fun db w => modify_witness db (Witness.owner w) (fun w =>
           t ← lap_time (Witness.votes w);
           Ok (set_virtual (WitnessSchedule.current_virtual_time (Db.wso db)) t w)))
    db (witnesses_by by_witness_id db).

(** ** Versions and hardfork votes *)

(** [m[ k ] += 1] in a flat_map ordered by [lt], where an absent key counts 0 *)
Fixpoint tally {K} (lt : K -> K -> bool) (k : K) (m : list (K * Z)) : list (K * Z) :=
  match m with
  | [] => [(k, 1)]
  | (x, n) :: m =>
      if lt k x then (k, 1) :: (x, n) :: m
      else if lt x k then (x, n) :: tally lt k m
      else (x, u32 (n + 1)) :: m
  end.

Definition version_gt (x y : Z) : bool := y <? x.
Definition vote_lt (x y : Z * Z) : bool := lt_of (lex (fst x ?= fst y) (snd x ?= snd y)).

Definition witness_versions (ws : list witness_object) : list (Z * Z) :=
  fold_left (fun m w => tally version_gt (Witness.running_version w) m) ws [].
Definition hardfork_version_votes (ws : list witness_object) : list ((Z * Z) * Z) :=
  fold_left (fun m w => tally vote_lt (Witness.hardfork_version_vote w, Witness.hardfork_time_vote w) m) ws [].

(** the loop over the versions, the highest first *)
Fixpoint find_majority (required witnesses_on_version : Z) (m : list (Z * Z)) : option Z :=
  match m with
  | [] => None
  | (v, n) :: m =>
      if required <=? witnesses_on_version + n then Some v else find_majority required (witnesses_on_version + n) m
  end.

(** hardfork_version::operator = *)
Definition hardfork_version (v : Z) : Z := Z.land v 0xFFFF0000.

Definition count_hardfork_votes (ws : list witness_object) (db : database) : database :=
  match find (fun kn => WitnessSchedule.hardfork_required_witnesses (Db.wso db) <=? snd kn) (hardfork_version_votes ws) with
  | Some ((v, t), _) =>
      let h := Db.hardfork_property db in
      if negb (HardforkProperty.next_hardfork h =? v) || negb (HardforkProperty.next_hardfork_time h =? t) then
        db <| Db.hardfork_property ::= fun h =>
                h <| HardforkProperty.next_hardfork := hardfork_version v |> <| HardforkProperty.next_hardfork_time := t |> |>
      else db
  | None =>
      db <| Db.hardfork_property ::= fun h =>
              h <| HardforkProperty.next_hardfork := hardfork_version (HardforkProperty.current_hardfork_version h) |> |>
  end.

(** ** The shuffle *)

Definition shuffle_number (now i : Z) : Z :=
  let k := u64 (u64 (Z.shiftl now 32) + u64 (i * 2685821657736338717)) in
  let k := Z.lxor k (Z.shiftr k 12) in
  let k := Z.lxor k (u64 (Z.shiftl k 25)) in
  let k := Z.lxor k (Z.shiftr k 27) in
  u64 (k * 2685821657736338717).

Definition swap {A} (i j : nat) (l : list A) : result (list A) :=
  x ← get_or out_of_range (l !! i);
  y ← get_or out_of_range (l !! j);
  Ok (<[i := y]> (<[j := x]> l)).

Definition shuffle {A} (now n : Z) (l : list A) : result (list A) :=
  foldM (fun l i =>
      let jmax := n - Z.of_nat i in
      let j := Z.of_nat i + shuffle_number now (Z.of_nat i) mod jmax in
      swap i (Z.to_nat j) l) l (seq 0 (Z.to_nat n)).

(** the array of the scheduled witnesses before the shuffle *)
Definition fill_schedule (active : list account_name_type) : result (list account_name_type) :=
  if Z.of_nat (List.length active) <=? STEEM_MAX_WITNESSES
  then Ok (active ++ replicate (Z.to_nat STEEM_MAX_WITNESSES - List.length active) "")%list
  else Throw out_of_range.

(** ** The medians *)

Definition key_le (key : witness_object -> Z) (x y : witness_object) : Prop := key x <= key y.
#[export] Instance key_le_dec key : RelDecision (key_le key).
Proof. unfold key_le. intros x y. apply _. Defined.

Definition median_by (key : witness_object -> Z) (active : list witness_object) : result witness_object :=
  get_or out_of_range (merge_sort (key_le key) active !! (List.length active / 2)%nat).

Definition update_median_witness_props (db : database) : result database :=
  active ← get_witnesses db (scheduled db);
  f ← median_by (fun w => amount (ChainProperties.account_creation_fee (Witness.props w))) active;
  b ← median_by (fun w => ChainProperties.maximum_block_size (Witness.props w)) active;
  r ← median_by (fun w => ChainProperties.sbd_interest_rate (Witness.props w)) active;
  l ← median_by (fun w => ChainProperties.account_subsidy_limit (Witness.props w)) active;
  let db := db <| Db.wso ::= fun o => o <| WitnessSchedule.median_props ::= fun p =>
              p <| ChainProperties.account_creation_fee := ChainProperties.account_creation_fee (Witness.props f) |>
                <| ChainProperties.maximum_block_size := ChainProperties.maximum_block_size (Witness.props b) |>
                <| ChainProperties.sbd_interest_rate := ChainProperties.sbd_interest_rate (Witness.props r) |>
                <| ChainProperties.account_subsidy_limit := ChainProperties.account_subsidy_limit (Witness.props l) |> |> |> in
  modify_gpo db (fun g =>
    Ok (g <| Gpo.maximum_block_size := ChainProperties.maximum_block_size (Witness.props b) |>
          <| Gpo.sbd_interest_rate := ChainProperties.sbd_interest_rate (Witness.props r) |>)).

(** ** update_witness_schedule *)

Definition write_schedule (num_elected num_timeshare : Z) (shuffled : list account_name_type) (num new_virtual_time : Z)
    (majority_version : Z) (db : database) : database :=
  db <| Db.wso ::= fun o =>
        o <| WitnessSchedule.current_shuffled_witnesses := shuffled |>
          <| WitnessSchedule.num_scheduled_witnesses := num |>
          <| WitnessSchedule.witness_pay_normalization_factor :=
               u32 (u64 (u64 (WitnessSchedule.top20_weight o * num_elected)
                         + u64 (WitnessSchedule.timeshare_weight o * num_timeshare))) |>
          <| WitnessSchedule.current_virtual_time := new_virtual_time |>
          <| WitnessSchedule.next_shuffle_block_num := u32 (head_block_num db + num) |>
          <| WitnessSchedule.majority_version := majority_version |> |>.

Definition update_witness_schedule4 (db : database) : result database :=
  let in_time := witnesses_by by_schedule_time db in
  '(db, selected_voted, active) ←
     elect (WitnessSchedule.max_voted_witnesses (Db.wso db)) (witnesses_by by_vote_name db) [] [] db;
  let num_elected := Z.of_nat (List.length active) in
  '(db, new_virtual_time, processed, active) ←
     add_runners selected_voted (Z.of_nat (List.length selected_voted)) (WitnessSchedule.current_virtual_time (Db.wso db))
       in_time [] active db;
  let num_timeshare := Z.of_nat (List.length active) - num_elected in
  '(db, reset_virtual_time) ← next_laps new_virtual_time processed db;
  '(db, new_virtual_time) ←
     (if reset_virtual_time : bool then db ← reset_virtual_schedule_time db; Ok (db, 0) else Ok (db, new_virtual_time));
  ws ← get_witnesses db (scheduled db);
  let majority_version :=
    match find_majority (WitnessSchedule.hardfork_required_witnesses (Db.wso db)) 0 (witness_versions ws) with
    | Some v => v
    | None => WitnessSchedule.majority_version (Db.wso db)
    end in
  let db := count_hardfork_votes ws db in
  let num := Z.max (u8 (Z.of_nat (List.length active))) 1 in
  filled ← fill_schedule active;
  shuffled ← shuffle (head_block_time db) num filled;
  let db := write_schedule num_elected num_timeshare shuffled num new_virtual_time majority_version db in
  update_median_witness_props db.

Definition update_witness_schedule (db : database) : result database :=
  if head_block_num db mod STEEM_MAX_WITNESSES =? 0 then update_witness_schedule4 db else Ok db.

(** ** What the loops leave alone *)

(** a turn: nothing of the witness changed but its schedule and its virtual time *)
Definition turns (w w' : witness_object) : Prop :=
  w' = w <| Witness.schedule := Witness.schedule w' |> <| Witness.virtual_position := Witness.virtual_position w' |>
         <| Witness.virtual_last_update := Witness.virtual_last_update w' |>
         <| Witness.virtual_scheduled_time := Witness.virtual_scheduled_time w' |>.
#[export] Instance turns_preorder : PreOrder turns.
Proof. split; [intros w; by destruct w|]. intros x y z Hy Hz. unfold turns. rewrite Hz, Hy. reflexivity. Qed.

Definition turned (db db' : database) : Prop :=
  db' = db <| Db.witnesses := Db.witnesses db' |> /\
  forall n, option_relation turns (fun _ => False) (fun _ => False) (Db.witnesses db !! n) (Db.witnesses db' !! n).
#[export] Instance turned_preorder : PreOrder turned.
Proof.
  split.
  - intros db. split; [by destruct db|]. intros n. by destruct (_ !! n); simpl.
  - intros x y z [Ey Hy] [Ez Hz]. split; [rewrite Ez, Ey; reflexivity|]. intros n. specialize (Hy n). specialize (Hz n).
    destruct (Db.witnesses x !! n), (Db.witnesses y !! n), (Db.witnesses z !! n); simpl in *; try done. by etrans.
Qed.

Lemma turn_one db n f db' :
  modify_witness db n f = Ok db' -> (forall w w', f w = Ok w' -> turns w w') -> turned db db'.
Proof.
  intros (w & w' & Hw & Hf & ->)%modify_witness_inv Ht. split; [by destruct db|].
  intros m. simpl. destruct (decide (m = n)) as [->|N]; [rewrite Hw, lookup_insert_eq; simpl; eauto|].
  rewrite lookup_insert_ne by done. by destruct (_ !! m); simpl.
Qed.

(** the place of a witness in the virtual-time queue *)
Definition queue_place (w : witness_object) : Z * Z * Z :=
  (Witness.virtual_position w, Witness.virtual_last_update w, Witness.virtual_scheduled_time w).

(** only the field [schedule] changed *)
Definition scheduled_time (db : database) (n : account_name_type) : option (Z * Z * Z) :=
  queue_place <$> Db.witnesses db !! n.
Definition rescheduled (db db' : database) : Prop :=
  turned db db' /\ forall n, scheduled_time db' n = scheduled_time db n.
#[export] Instance rescheduled_preorder : PreOrder rescheduled.
Proof. split; [done|]. intros x y z [T1 E1] [T2 E2]. split; [by etrans|]. intros n. by rewrite E2, E1. Qed.

Lemma set_schedule_rescheduled s n db db' : set_schedule s n db = Ok db' -> rescheduled db db'.
Proof.
  intros H. split; [eapply turn_one; [exact H|]; intros w w' [= <-]; by destruct w|].
  apply modify_witness_inv in H as (w & w' & Hw & [= <-] & ->). intros m. unfold scheduled_time. simpl.
  destruct (decide (m = n)) as [->|N]; [by rewrite Hw, lookup_insert_eq|by rewrite lookup_insert_ne].
Qed.

Lemma set_virtual_turns a b w : turns w (set_virtual a b w).
Proof. by destruct w. Qed.

(** ** The election is a selection *)

Definition has_key (w : witness_object) : Prop := no_key w = false.

Lemma elect_spec k l : forall sel act db db' sel' act',
  elect k l sel act db = Ok (db', sel', act') ->
  let els := take (Z.to_nat k - List.length sel) (filter has_key l) in
  rescheduled db db' /\ sel' = (sel ++ map Witness.id els)%list /\ act' = (act ++ map Witness.owner els)%list.
Proof.
  induction l as [|w l IH]; intros sel act db db' sel' act' H; cbn [elect] in H.
  - injection H as <- <- <-. rewrite filter_nil, firstn_nil. simpl. by rewrite !app_nil_r.
  - destruct (Z.ltb_spec (Z.of_nat (List.length sel)) k) as [L|L].
    + destruct (no_key w) eqn:Ek.
      * rewrite filter_cons_False by (unfold has_key; congruence). by apply IH.
      * rewrite filter_cons_True by done. bind H as db1 H1. apply set_schedule_rescheduled in H1. apply IH in H as (T & -> & ->).
        replace (Z.to_nat k - List.length sel)%nat with (S (Z.to_nat k - S (List.length sel))) by lia.
        rewrite length_app, Nat.add_1_r. simpl. rewrite <- !app_assoc. split; [by etrans|done].
    + injection H as <- <- <-. replace (Z.to_nat k - List.length sel)%nat with 0%nat by lia.
      simpl. by rewrite !app_nil_r.
Qed.

Definition eligible (sel : list Z) (w : witness_object) : Prop := has_key w /\ Witness.id w ∉ sel.

Lemma add_runners_spec sel l : forall c t pr act db db' t' pr' act',
  add_runners sel c t l pr act db = Ok (db', t', pr', act') ->
  rescheduled db db' /\
  act' = (act ++ map Witness.owner (take (Z.to_nat (STEEM_MAX_WITNESSES - c)) (filter (eligible sel) l)))%list /\
  exists l1 l2, l = (l1 ++ l2)%list /\ pr' = (pr ++ l1)%list /\
    t' = List.last (map Witness.virtual_scheduled_time l1) t /\
    filter (eligible sel) l1 = take (Z.to_nat (STEEM_MAX_WITNESSES - c)) (filter (eligible sel) l) /\
    (l2 <> [] -> STEEM_MAX_WITNESSES <= c + Z.of_nat (List.length (filter (eligible sel) l1))).
Proof.
  induction l as [|w l IH]; intros c t pr act db db' t' pr' act' H; cbn [add_runners] in H.
  - injection H as <- <- <- <-. rewrite filter_nil, firstn_nil. split; [done|]. split; [by rewrite app_nil_r|].
    exists [], []. rewrite !app_nil_r. by split_and!.
  - destruct (Z.ltb_spec c STEEM_MAX_WITNESSES) as [L|L].
    + assert (forall l1, List.last (map Witness.virtual_scheduled_time (w :: l1)) t =
                List.last (map Witness.virtual_scheduled_time l1) (Witness.virtual_scheduled_time w)) as El.
      { intros l1. simpl. destruct l1 as [|x l1]; [done|]. generalize x. clear. induction l1 as [|y l1 IH]; intros x; [done|]. apply (IH y). }
      destruct (no_key w || _) eqn:Ek.
      * rewrite filter_cons_False.
        2:{ intros [K1 K2]. unfold has_key in K1. rewrite K1 in Ek. simpl in Ek. by apply bool_decide_eq_true in Ek. }
        apply IH in H as (T & -> & l1 & l2 & -> & -> & -> & Ef & Er). split; [done|]. split; [done|].
        exists (w :: l1), l2. rewrite El, <- app_assoc, filter_cons_False; [by split_and!|].
        intros [K1 K2]. unfold has_key in K1. rewrite K1 in Ek. simpl in Ek. by apply bool_decide_eq_true in Ek.
      * apply orb_false_iff in Ek as [K1 K2%bool_decide_eq_false]. rewrite filter_cons_True by done.
        bind H as db1 H1. apply set_schedule_rescheduled in H1. apply IH in H as (T & -> & l1 & l2 & -> & -> & -> & Ef & Er).
        split; [by etrans|]. split.
        -- replace (Z.to_nat (STEEM_MAX_WITNESSES - c)) with (S (Z.to_nat (STEEM_MAX_WITNESSES - (c + 1)))) by lia.
           simpl. by rewrite <- app_assoc.
        -- exists (w :: l1), l2. rewrite El, <- app_assoc, filter_cons_True, Ef by done. split_and!; [done..| |].
           ++ replace (Z.to_nat (STEEM_MAX_WITNESSES - c)) with (S (Z.to_nat (STEEM_MAX_WITNESSES - (c + 1)))) by lia. done.
           ++ intros N. apply Er in N. rewrite Ef in N. cbn [List.length]. lia.
    + injection H as <- <- <- <-. replace (Z.to_nat (STEEM_MAX_WITNESSES - c)) with 0%nat by lia.
      split; [done|]. split; [by rewrite app_nil_r|]. exists [], (w :: l). rewrite app_nil_r.
      split_and!; [done..|]. intros _. simpl. lia.
Qed.

(** ** The shuffle is a permutation *)

Lemma insert_Permutation {A} (l : list A) i x y : l !! i = Some x -> x :: <[i := y]> l ≡ₚ y :: l.
Proof.
  intros Hi. pose proof (lookup_lt_Some _ _ _ Hi).
  rewrite insert_take_drop by done. rewrite <- (take_drop_middle l i x Hi) at 3.
  rewrite <- !Permutation_middle. apply Permutation_swap.
Qed.

Lemma swap_ok {A} (l : list A) i j :
  (i < List.length l)%nat -> (j < List.length l)%nat -> exists l', swap i j l = Ok l' /\ l' ≡ₚ l.
Proof.
  intros [x Hx]%lookup_lt_is_Some [y Hy]%lookup_lt_is_Some. unfold swap. rewrite Hx, Hy. simpl. eexists. split; [done|].
  assert (<[j := x]> l !! i = Some x) as Hi.
  { destruct (decide (i = j)) as [->|N]; [by apply list_lookup_insert_eq, lookup_lt_is_Some|by rewrite list_lookup_insert_ne]. }
  apply (Permutation_cons_inv (a := x)), (Permutation_cons_inv (a := y)).
  by rewrite (insert_Permutation _ _ _ y Hi), (insert_Permutation _ _ _ x Hy).
Qed.

Lemma swap_app {A} (l r : list A) i j :
  (i < List.length l)%nat -> (j < List.length l)%nat -> swap i j (l ++ r) = (l' ← swap i j l; Ok (l' ++ r)%list).
Proof.
  intros Hi Hj. unfold swap. rewrite !lookup_app_l by done.
  destruct (lookup_lt_is_Some_2 _ _ Hi) as [x ->]. destruct (lookup_lt_is_Some_2 _ _ Hj) as [y ->]. simpl.
  by rewrite !insert_app_l by (rewrite ?length_insert; done).
Qed.

Lemma shuffle_ok {A} now (l r : list A) : 0 < Z.of_nat (List.length l) ->
  exists l', shuffle now (Z.of_nat (List.length l)) (l ++ r) = Ok (l' ++ r)%list /\ l' ≡ₚ l.
Proof.
  intros _. unfold shuffle. rewrite Nat2Z.id.
  assert (forall k s l1, l1 ≡ₚ l -> (s + k <= List.length l)%nat -> exists l',
    foldM (fun l0 i => swap i (Z.to_nat (Z.of_nat i + shuffle_number now (Z.of_nat i) mod (Z.of_nat (List.length l) - Z.of_nat i))) l0)
      (l1 ++ r)%list (seq s k) = Ok (l' ++ r)%list /\ l' ≡ₚ l) as G; [|by apply (G (List.length l) 0%nat l)].
  induction k as [|k IH]; intros s l1 Hp Hk; cbn [seq foldM]; [by exists l1|].
  pose proof (Permutation_length Hp) as El.
  pose proof (Z.mod_pos_bound (shuffle_number now (Z.of_nat s)) (Z.of_nat (List.length l) - Z.of_nat s) ltac:(lia)).
  rewrite swap_app by lia. destruct (swap_ok l1 s (Z.to_nat (Z.of_nat s + shuffle_number now (Z.of_nat s) mod (Z.of_nat (List.length l) - Z.of_nat s)))) as (l2 & -> & P2); [lia..|].
  simpl. apply IH; [by etrans|lia].
Qed.

(** ** The laps *)

Lemma next_laps_turned t pr : forall db db' b, next_laps t pr db = Ok (db', b) -> turned db db'.
Proof.
  induction pr as [|w pr IH]; intros db db' b H; cbn [next_laps] in H; [by injection H as <- <-|].
  bind H as lap H1. destruct (_ <? _); [by injection H as <- <-|]. bind H as db1 H2. etrans; [|by eapply IH].
  eapply turn_one; [exact H2|]. intros x y [= <-]. apply set_virtual_turns.
Qed.

(** the virtual time starts again *)
Definition at_zero (db : database) : database :=
  db <| Db.wso ::= fun o => o <| WitnessSchedule.current_virtual_time := 0 |> |>.

Lemma reset_turned db db' : reset_virtual_schedule_time db = Ok db' -> turned (at_zero db) db'.
Proof.
  unfold reset_virtual_schedule_time. intros H. eapply (foldM_preorder turned); [|exact H].
  intros a x a' H'. eapply turn_one; [exact H'|]. intros w w' Hw. cbv beta in Hw. bind Hw as t Ht. injection Hw as <-. apply set_virtual_turns.
Qed.

Lemma turned_witness db db' n w' : turned db db' -> Db.witnesses db' !! n = Some w' ->
  exists w, Db.witnesses db !! n = Some w /\ turns w w'.
Proof. intros [_ T] H. specialize (T n). rewrite H in T. destruct (_ !! n); simpl in T; [eauto|done]. Qed.

Lemma turned_witnesses db db' l ws' : turned db db' -> get_witnesses db' l = Ok ws' ->
  exists ws, get_witnesses db l = Ok ws /\ Forall2 turns ws ws'.
Proof.
  intros T. revert ws'. unfold get_witnesses. induction l as [|n l IH]; intros ws' H; cbn [foldr] in H |- *.
  - injection H as <-. by exists [].
  - bind H as w' H1. bind H as r H2. injection H as <-. apply IH in H2 as (ws & -> & F).
    unfold get_witness, find_witness in *. apply get_or_Ok in H1. apply (turned_witness _ _ _ _ T) in H1 as (w & -> & Hw).
    simpl. eexists. split; [done|]. by constructor.
Qed.

Lemma turned_scheduled db db' : turned db db' -> scheduled db' = scheduled db.
Proof. intros [-> _]. done. Qed.

Lemma hardfork_votes_gpo ws db : Db.witnesses (count_hardfork_votes ws db) = Db.witnesses db /\
  Db.wso (count_hardfork_votes ws db) = Db.wso db /\ Db.gpo (count_hardfork_votes ws db) = Db.gpo db.
Proof. unfold count_hardfork_votes. destruct (find _ _) as [[[v t] n]|]; [destruct (_ || _)|]; done. Qed.

(** ** Who is scheduled *)

(** the most voted witnesses that have a signing key *)
Definition elected (db : database) : list witness_object :=
  take (Z.to_nat (WitnessSchedule.max_voted_witnesses (Db.wso db))) (filter has_key (witnesses_by by_vote_name db)).

(** of the others, those first in virtual time *)
Definition runners (db : database) : list witness_object :=
  take (Z.to_nat (STEEM_MAX_WITNESSES - Z.of_nat (List.length (elected db))))
    (filter (eligible (map Witness.id (elected db))) (witnesses_by by_schedule_time db)).

(** the index by_name: a witness is kept under the name of its owner *)
Record witnesses_ok (db : database) : Prop := mk_witnesses_ok {
  wk_owner : map_Forall (fun n w => Witness.owner w = n) (Db.witnesses db);
  wk_named : Db.witnesses db !! "" = None
}.

Lemma witnesses_by_elem le `{!RelDecision le} db w : witnesses_ok db -> w ∈ witnesses_by le db ->
  Db.witnesses db !! Witness.owner w = Some w.
Proof.
  intros [Ho _]. unfold witnesses_by. rewrite merge_sort_Permutation. intros ([n w'] & -> & H)%list_elem_of_fmap. simpl.
  apply elem_of_map_to_list in H. by rewrite (Ho _ _ H).
Qed.

Lemma witnesses_by_NoDup le `{!RelDecision le} db : witnesses_ok db -> NoDup (map Witness.owner (witnesses_by le db)).
Proof.
  intros [Ho _]. unfold witnesses_by. rewrite merge_sort_Permutation, map_map.
  replace (map _ (map_to_list (Db.witnesses db))) with (map fst (map_to_list (Db.witnesses db))).
  - apply NoDup_fst_map_to_list.
  - apply map_ext_in. intros [n w] Hin. simpl. symmetry. apply Ho. apply elem_of_map_to_list, list_elem_of_In. done.
Qed.

Lemma NoDup_map_sublist {A B} (f : A -> B) l l' : sublist l l' -> NoDup (map f l') -> NoDup (map f l).
Proof. intros S N. eapply sublist_NoDup; [exact N|]. by apply fmap_sublist. Qed.

Lemma take_filter_sublist {A} (P : A -> Prop) `{!forall x, Decision (P x)} n l : sublist (take n (filter P l)) l.
Proof. etrans; [apply sublist_take|apply sublist_filter]. Qed.

Lemma chosen_elem (P : witness_object -> Prop) `{!forall x, Decision (P x)} le `{!RelDecision le} n db w :
  witnesses_ok db -> w ∈ take n (filter P (witnesses_by le db)) -> P w /\ Db.witnesses db !! Witness.owner w = Some w.
Proof.
  intros Hok Hw. apply elem_of_take in Hw as (i & Hw & _). apply list_elem_of_lookup_2 in Hw.
  apply list_elem_of_filter in Hw as [? Hw]. split; [done|]. by eapply witnesses_by_elem.
Qed.

Lemma chosen_NoDup db : witnesses_ok db -> NoDup (map Witness.owner (elected db ++ runners db)).
Proof.
  intros Hok. rewrite map_app. apply NoDup_app. split_and!.
  - eapply NoDup_map_sublist; [apply take_filter_sublist|]. by apply witnesses_by_NoDup.
  - intros n (w & -> & Hw)%list_elem_of_fmap (w' & E & Hw')%list_elem_of_fmap.
    apply chosen_elem in Hw' as [[_ Hne] H']; [|done]. apply Hne, list_elem_of_fmap.
    exists w. split; [|done]. unfold elected in Hw. apply chosen_elem in Hw as [_ H]; [|done]. congruence.
  - eapply NoDup_map_sublist; [apply take_filter_sublist|]. by apply witnesses_by_NoDup.
Qed.

Lemma get_witnesses_elem db l ws : get_witnesses db l = Ok ws -> Forall (fun n => is_Some (Db.witnesses db !! n)) l.
Proof.
  revert ws. unfold get_witnesses. induction l as [|n l IH]; intros ws H; cbn [foldr] in H; [done|].
  unfold get_witness, find_witness in H. bind H as w H1. bind H as r H2. apply get_or_Ok in H1. constructor; eauto.
Qed.

Lemma median_props_schedule db db' : update_median_witness_props db = Ok db' ->
  Db.witnesses db' = Db.witnesses db /\ scheduled db' = scheduled db /\ Db.hardfork_property db' = Db.hardfork_property db /\
  WitnessSchedule.num_scheduled_witnesses (Db.wso db') = WitnessSchedule.num_scheduled_witnesses (Db.wso db) /\
  WitnessSchedule.current_virtual_time (Db.wso db') = WitnessSchedule.current_virtual_time (Db.wso db) /\
  exists ws, get_witnesses db (scheduled db) = Ok ws.
Proof. unfold update_median_witness_props, modify_gpo. intros H. result_inv. split_and!; eauto. Qed.

(** the scheduled number of witnesses: one even when there is none *)
Definition num_active (ws : list witness_object) : Z := Z.max (Z.of_nat (List.length ws)) 1.

(** a run of update_witness_schedule4 in its phases: the queue advances, the
    scheduled witnesses are counted, the new schedule is written *)
Lemma schedule_phases db db' :
  update_witness_schedule4 db = Ok db' ->
  let ws := (elected db ++ runners db)%list in
  exists db1 pr rest t0 db2 reset db3 t voters shuffled filled a b v,
    rescheduled db db1 /\ witnesses_by by_schedule_time db = (pr ++ rest)%list /\
    t0 = List.last (map Witness.virtual_scheduled_time pr) (WitnessSchedule.current_virtual_time (Db.wso db)) /\
    (filter (eligible (map Witness.id (elected db))) pr = runners db /\
     (rest <> [] -> STEEM_MAX_WITNESSES <= Z.of_nat (List.length ws))) /\
    next_laps t0 pr db1 = Ok (db2, reset) /\
    (if reset : bool then reset_virtual_schedule_time db2 = Ok db3 /\ t = 0 else db3 = db2 /\ t = t0) /\
    get_witnesses db3 (scheduled db3) = Ok voters /\ (List.length ws <= Z.to_nat STEEM_MAX_WITNESSES)%nat /\
    fill_schedule (map Witness.owner ws) = Ok filled /\
    shuffle (head_block_time db3) (num_active ws) filled = Ok shuffled /\
    v = match find_majority (WitnessSchedule.hardfork_required_witnesses (Db.wso db3)) 0 (witness_versions voters) with
        | Some v => v | None => WitnessSchedule.majority_version (Db.wso db3) end /\
    update_median_witness_props (write_schedule a b shuffled (num_active ws) t v (count_hardfork_votes voters db3)) = Ok db'.
Proof.
  unfold update_witness_schedule4. intros H. bind H as [[db0 sel] act] H1.
  apply elect_spec in H1 as (T1 & -> & ->). rewrite !app_nil_l, Nat.sub_0_r in H. change (take _ _) with (elected db) in H.
  replace (WitnessSchedule.current_virtual_time (Db.wso db0)) with (WitnessSchedule.current_virtual_time (Db.wso db)) in H
    by (destruct T1 as [[-> _] _]; done).
  bind H as [[[db1 t0] pr] act] H2. apply add_runners_spec in H2 as (T2 & -> & pr' & rest & Ew & -> & -> & Ef & Er).
  rewrite app_nil_l, !length_map in H. rewrite length_map in Ef, Er. change (take _ _) with (runners db) in H, Ef.
  rewrite Ef in Er. rewrite <- map_app in H.
  bind H as [db2 reset] H3. bind H as [db3 t] H4. bind H as voters H5. bind H as filled H6. bind H as shuffled H7.
  assert (List.length (elected db ++ runners db) <= Z.to_nat STEEM_MAX_WITNESSES)%nat as L.
  { unfold fill_schedule in H6. rewrite length_map in H6. destruct (Z.leb_spec (Z.of_nat (List.length (elected db ++ runners db))) STEEM_MAX_WITNESSES); [lia|done]. }
  rewrite length_map in H7, H. unfold u8 in H7, H. rewrite (Z.mod_small _ (2 ^ 8)) in H7, H by (unfold STEEM_MAX_WITNESSES in L; lia).
  pose proof (hardfork_votes_gpo voters db3) as (_ & Eo & Eg). unfold head_block_time in H7. rewrite Eg in H7.
  exists db1, pr', rest. eexists. exists db2, reset, db3, t, voters, shuffled, filled. do 3 eexists.
  split_and!; [by etrans|done|reflexivity|exact Ef|by rewrite length_app, Nat2Z.inj_add|exact H3| |exact H5|exact L|exact H6|exact H7|reflexivity|exact H].
  destruct reset; [by result_inv|by injection H4 as -> ->].
Qed.

(** either way the witnesses have turned *)
Lemma laps_turned (b : bool) t pr db1 db2 db3 t3 :
  next_laps t pr db1 = Ok (db2, b) ->
  (if b then reset_virtual_schedule_time db2 = Ok db3 /\ t3 = 0 else db3 = db2 /\ t3 = t) ->
  turned (if b then at_zero db1 else db1) db3.
Proof.
  intros H1%next_laps_turned H2. destruct b; [|by destruct H2 as [-> _]]. destruct H2 as [H2%reset_turned _].
  etrans; [|exact H2]. destruct H1 as [-> H1]. split; [by destruct db1|exact H1].
Qed.

Lemma write_scheduled a b l num t v db :
  scheduled (write_schedule a b l num t v db) = take (Z.to_nat num) l.
Proof. done. Qed.

(** The shuffled array is the selection in some order, then empty names. *)
Lemma shuffled_schedule now (ws : list witness_object) filled shuffled :
  ws <> [] -> fill_schedule (map Witness.owner ws) = Ok filled -> shuffle now (num_active ws) filled = Ok shuffled ->
  take (Z.to_nat (num_active ws)) shuffled ≡ₚ map Witness.owner ws.
Proof.
  unfold fill_schedule. intros N H1 H2. destruct (_ <=? _); [|done]. injection H1 as <-.
  assert (num_active ws = Z.of_nat (List.length (map Witness.owner ws))) as En.
  { rewrite length_map. unfold num_active. destruct ws; [done|simpl; lia]. }
  rewrite En in *. destruct (shuffle_ok now (map Witness.owner ws)
    (replicate (Z.to_nat STEEM_MAX_WITNESSES - List.length (map Witness.owner ws)) "")) as (l' & E & P).
  { rewrite length_map. destruct ws; [done|simpl; lia]. }
  rewrite E in H2. injection H2 as <-. by rewrite Nat2Z.id, take_app_length' by (by rewrite P).
Qed.

(** C17: A round is produced by the witnesses that were elected: those with a
    signing key that have the most votes, and for the remaining places those that
    are first in the virtual-time queue, each of them once, in shuffled order. *)
Theorem schedule_elects db db' :
  witnesses_ok db -> update_witness_schedule4 db = Ok db' ->
  let ws := (elected db ++ runners db)%list in
  scheduled db' ≡ₚ map Witness.owner ws /\ NoDup (scheduled db') /\
  Forall (fun w => Witness.signing_key w <> 0 /\ Db.witnesses db !! Witness.owner w = Some w) ws /\
  WitnessSchedule.num_scheduled_witnesses (Db.wso db') = Z.of_nat (List.length ws) /\
  0 < Z.of_nat (List.length ws) <= STEEM_MAX_WITNESSES.
Proof.
  intros Hok H ws.
  destruct (schedule_phases _ _ H) as (db1 & pr & rest & t0 & db2 & reset & db3 & t & voters & shuffled & filled & a & b & v &
    [T1 _] & _ & _ & _ & H2 & H3 & _ & L & H4 & H5 & _ & H6). fold ws in L, H4, H5, H6.
  pose proof (laps_turned _ _ _ _ _ _ _ H2 H3) as T3.
  apply median_props_schedule in H6 as (_ & Es & _ & En & _ & voters' & G). rewrite write_scheduled in Es, G.
  assert (ws <> []) as Hne.
  { intros E. rewrite E in *. unfold fill_schedule in H4. simpl in H4. injection H4 as <-.
    destruct (shuffle_ok (head_block_time db3) [""] (replicate 20 "")) as (l' & E' & P); [done|].
    change (shuffle (head_block_time db3) 1 (replicate 21 "") = Ok (l' ++ replicate 20 "")%list) in E'.
    change (shuffle (head_block_time db3) 1 (replicate 21 "") = Ok shuffled) in H5.
    apply Permutation_singleton_r in P as ->. assert (shuffled = replicate 21 "") as -> by (rewrite E' in H5; by injection H5 as <-).
    apply get_witnesses_elem in G. simpl in G. apply Forall_cons in G as [[w Hw] _].
    rewrite (proj1 (hardfork_votes_gpo voters db3)) in Hw. apply (turned_witness _ _ _ _ T3) in Hw as (w1 & Hw & _).
    assert (Db.witnesses db1 !! "" = Some w1) as Hw1 by (by destruct reset).
    apply (turned_witness _ _ _ _ T1) in Hw1 as (w0 & Hw0 & _). by rewrite (wk_named _ Hok) in Hw0. }
  pose proof (shuffled_schedule _ _ _ _ Hne H4 H5) as P. rewrite <- Es in P.
  split; [done|]. split; [rewrite P; by apply chosen_NoDup|]. split.
  - apply Forall_forall. intros w [Hw|Hw]%elem_of_app; apply chosen_elem in Hw as [K Hw]; try done;
      (split; [|done]); [|destruct K as [K _]]; unfold has_key, no_key in K; zbool; done.
  - rewrite En. cbn [write_schedule]. change (WitnessSchedule.num_scheduled_witnesses _) with (num_active ws).
    unfold num_active, STEEM_MAX_WITNESSES in *. destruct ws; [done|]. simpl List.length in *. lia.
Qed.

(** ** Counting votes *)

Section tally.
Context {K : Type} (lt : K -> K -> bool).
Context (lt_trans : forall x y z, lt x y = true -> lt y z = true -> lt x z = true)
  (lt_irrefl : forall x, lt x x = false) (lt_total : forall x y, lt x y = false -> lt y x = false -> x = y).

(** the votes for the keys that satisfy [P] *)
Definition tallied (P : K -> bool) (m : list (K * Z)) : Z := zsum (map (fun kn => if P (fst kn) then snd kn else 0) m).
Definition sorted_tally (m : list (K * Z)) : Prop := StronglySorted (fun x y => lt (fst x) (fst y) = true) m.
Definition bounded_tally (b : Z) (m : list (K * Z)) : Prop := Forall (fun kn => 0 <= snd kn <= b) m.

Lemma tallied_nonneg P b m : bounded_tally b m -> 0 <= tallied P m.
Proof.
  unfold tallied. induction 1 as [|[k n] m Hn _ IH]; [done|]. cbn [map zsum fst snd] in *. simpl in Hn.
  destruct (P k); simpl; lia.
Qed.

Lemma tally_tallied P b k m : bounded_tally b m -> 0 <= b < 2 ^ 32 - 1 ->
  tallied P (tally lt k m) = tallied P m + (if P k then 1 else 0) /\ bounded_tally (b + 1) (tally lt k m).
Proof.
  intros H Hb. unfold tallied. induction H as [|[x n] m Hn Hm IH]; simpl in *.
  - split; [lia|]. constructor; [simpl; lia|done].
  - destruct IH as [IH1 IH2].
    assert (bounded_tally (b + 1) m) as Hm' by (eapply Forall_impl; [exact Hm|]; simpl; lia).
    destruct (lt k x) eqn:E1; [|destruct (lt x k) eqn:E2]; simpl.
    + split; [lia|]. constructor; [simpl; lia|]. constructor; [simpl; lia|done].
    + split; [lia|]. constructor; [simpl; lia|done].
    + rewrite (lt_total _ _ E1 E2). rewrite u32_id by lia. split; [destruct (P x); lia|]. constructor; [simpl; lia|done].
Qed.

Lemma tally_keys (Q : K -> Prop) k m : Forall (fun kn => Q (fst kn)) m -> Q k -> Forall (fun kn => Q (fst kn)) (tally lt k m).
Proof.
  induction 1 as [|[x n] m Hx Hm IH]; intros Hk; simpl in *; [by constructor|].
  destruct (lt k x); [|destruct (lt x k)]; repeat constructor; simpl; auto.
Qed.

Lemma tally_sorted k m : sorted_tally m -> sorted_tally (tally lt k m).
Proof.
  induction 1 as [|[x n] m Hm IH Hx]; simpl in *; [repeat constructor|].
  destruct (lt k x) eqn:E1; [|destruct (lt x k) eqn:E2].
  - constructor; [by constructor|]. constructor; [done|]. eapply Forall_impl; [exact Hx|]. simpl. eauto.
  - constructor; [done|]. by apply (tally_keys (fun y => lt x y = true)).
  - by constructor.
Qed.

(** the tally of a list of voters *)
Lemma tally_count {A} (key : A -> K) P ws : Z.of_nat (List.length ws) < 2 ^ 32 - 1 ->
  let m := fold_left (fun m w => tally lt (key w) m) ws [] in
  tallied P m = Z.of_nat (List.length (filter (fun w => P (key w) = true) ws)) /\
  sorted_tally m /\ bounded_tally (Z.of_nat (List.length ws)) m.
Proof.
  induction ws as [|w ws IH] using rev_ind; intros L; [split; [done|]; split; constructor|].
  rewrite length_app in *. simpl List.length in *. rewrite fold_left_app, filter_app. cbn [fold_left].
  destruct IH as (T & S & B); [lia|]. destruct (tally_tallied P _ (key w) _ B) as [T' B']; [lia|].
  split; [|split; [by apply tally_sorted|]].
  - rewrite T', T, length_app, filter_cons. destruct (P (key w)) eqn:E; [rewrite decide_True by done|rewrite decide_False by done]; simpl; lia.
  - eapply Forall_impl; [exact B'|]. simpl. lia.
Qed.

Lemma tallied_entry `{!EqDecision K} k n m : sorted_tally m -> (k, n) ∈ m -> tallied (fun x => bool_decide (x = k)) m = n.
Proof.
  unfold tallied. induction 1 as [|[x c] m Hm IH Hx]; intros Hin; [by apply not_elem_of_nil in Hin|]. simpl.
  assert (forall y, Forall (fun kn => lt y (fst kn) = true) m -> zsum (map (fun kn => if bool_decide (fst kn = y) then snd kn else 0) m) = 0) as Z0.
  { intros y. clear -lt_irrefl. induction 1 as [|[z d] m Hz _ IH]; [done|]. simpl in *.
    rewrite bool_decide_eq_false_2 by (intros ->; by rewrite lt_irrefl in Hz). simpl. lia. }
  apply elem_of_cons in Hin as [[= <- <-]|Hin].
  - rewrite bool_decide_eq_true_2 by done. rewrite (Z0 k Hx). simpl. lia.
  - rewrite bool_decide_eq_false_2; [rewrite (IH Hin); simpl; lia|]. intros ->.
    rewrite Forall_forall in Hx. specialize (Hx _ Hin). simpl in Hx. by rewrite lt_irrefl in Hx.
Qed.
End tally.

Lemma vote_lt_spec x y : vote_lt x y = true <-> fst x < fst y \/ (fst x = fst y /\ snd x < snd y).
Proof.
  unfold vote_lt, lex, lt_of. destruct (Z.compare_spec (fst x) (fst y)), (Z.compare_spec (snd x) (snd y));
    (split; [intros; try discriminate; lia|intros; try done; lia]).
Qed.
Lemma vote_lt_trans x y z : vote_lt x y = true -> vote_lt y z = true -> vote_lt x z = true.
Proof. rewrite !vote_lt_spec. lia. Qed.
Lemma vote_lt_irrefl x : vote_lt x x = false.
Proof. apply not_true_iff_false. rewrite vote_lt_spec. lia. Qed.
Lemma vote_lt_total x y : vote_lt x y = false -> vote_lt y x = false -> x = y.
Proof.
  rewrite <- !not_true_iff_false, !vote_lt_spec. destruct x as [a b], y as [c d]. simpl. intros H1 H2.
  assert (a = c) as -> by lia. f_equal. lia.
Qed.

(** those among [ws] that vote for hardfork [v] at time [t] *)
Definition voting_for (v t : Z) (ws : list witness_object) : list witness_object :=
  filter (fun w => bool_decide ((Witness.hardfork_version_vote w, Witness.hardfork_time_vote w) = (v, t)) = true) ws.

Lemma hardfork_votes_entry ws v t n : Z.of_nat (List.length ws) < 2 ^ 32 - 1 ->
  ((v, t), n) ∈ hardfork_version_votes ws -> n = Z.of_nat (List.length (voting_for v t ws)).
Proof.
  intros L Hin. destruct (tally_count vote_lt vote_lt_trans vote_lt_total
    (fun w => (Witness.hardfork_version_vote w, Witness.hardfork_time_vote w)) (fun x => bool_decide (x = (v, t))) ws L) as (T & S & _).
  rewrite <- (tallied_entry vote_lt vote_lt_irrefl _ _ _ S Hin). exact T.
Qed.

Lemma tallied_in {K} `{!EqDecision K} (m : list (K * Z)) k : 0 < tallied (fun x => bool_decide (x = k)) m ->
  exists n, (k, n) ∈ m.
Proof.
  unfold tallied. induction m as [|[x c] m IH]; simpl; [lia|]. case_bool_decide as E.
  - intros _. subst. exists c. left.
  - simpl. intros (n & Hn)%IH. exists n. by right.
Qed.

Lemma hardfork_votes_in ws v t : Z.of_nat (List.length ws) < 2 ^ 32 - 1 ->
  0 < Z.of_nat (List.length (voting_for v t ws)) -> exists n, ((v, t), n) ∈ hardfork_version_votes ws.
Proof.
  intros L Hp. destruct (tally_count vote_lt vote_lt_trans vote_lt_total
    (fun w => (Witness.hardfork_version_vote w, Witness.hardfork_time_vote w)) (fun x => bool_decide (x = (v, t))) ws L) as (T & _).
  apply tallied_in. unfold hardfork_version_votes. rewrite T. exact Hp.
Qed.

Lemma turns_votes ws ws' : Forall2 turns ws ws' -> hardfork_version_votes ws' = hardfork_version_votes ws.
Proof.
  unfold hardfork_version_votes. generalize (@nil ((Z * Z) * Z)). intros m H. revert m.
  induction H as [|w w' ws ws' Hw _ IH]; intros m; [done|]. cbn [fold_left]. rewrite IH. by rewrite Hw.
Qed.

Lemma get_witnesses_length db l ws : get_witnesses db l = Ok ws -> List.length ws = List.length l.
Proof.
  revert ws. unfold get_witnesses. induction l as [|n l IH]; intros ws H; cbn [foldr] in H; [by injection H as <-|].
  bind H as w H1. bind H as r H2. injection H as <-. simpl. by rewrite (IH _ H2).
Qed.

Lemma get_witnesses_Forall (P : witness_object -> Prop) db l ws :
  map_Forall (fun _ w => P w) (Db.witnesses db) -> get_witnesses db l = Ok ws -> Forall P ws.
Proof.
  intros HP. revert ws. unfold get_witnesses. induction l as [|n l IH]; intros ws H; cbn [foldr] in H; [by injection H as <-|].
  unfold get_witness, find_witness in H. bind H as w H1. bind H as r H2. injection H as <-. apply get_or_Ok in H1.
  constructor; [by apply (HP n)|by apply IH].
Qed.

Lemma voting_for_typed v t ws : Forall (fun w => hardfork_version (Witness.hardfork_version_vote w) = Witness.hardfork_version_vote w) ws ->
  0 < Z.of_nat (List.length (voting_for v t ws)) -> hardfork_version v = v.
Proof.
  intros F Hp. destruct (voting_for v t ws) as [|w l] eqn:E; [done|]. assert (w ∈ voting_for v t ws) as Hw by (rewrite E; left).
  unfold voting_for in Hw. apply list_elem_of_filter in Hw as [B Hw]. apply bool_decide_eq_true in B. injection B as <- _.
  rewrite Forall_forall in F. by apply F.
Qed.

(** what count_hardfork_votes decides from the votes of [ws] *)
Lemma count_hardfork_votes_spec ws db :
  Forall (fun w => hardfork_version (Witness.hardfork_version_vote w) = Witness.hardfork_version_vote w) ws ->
  Z.of_nat (List.length ws) < 2 ^ 32 - 1 -> 0 < WitnessSchedule.hardfork_required_witnesses (Db.wso db) ->
  let h := Db.hardfork_property (count_hardfork_votes ws db) in
  let required := WitnessSchedule.hardfork_required_witnesses (Db.wso db) in
  required <= Z.of_nat (List.length (voting_for (HardforkProperty.next_hardfork h) (HardforkProperty.next_hardfork_time h) ws)) \/
  (forall v t, Z.of_nat (List.length (voting_for v t ws)) < required) /\
  HardforkProperty.next_hardfork h = hardfork_version (HardforkProperty.current_hardfork_version (Db.hardfork_property db)).
Proof.
  intros F L R h required. unfold h, count_hardfork_votes. clear h.
  destruct (find _ (hardfork_version_votes ws)) as [[[v t] n]|] eqn:E.
  - left. apply find_some in E as [Hin Hn]. simpl in Hn. zbool. apply list_elem_of_In in Hin. apply hardfork_votes_entry in Hin; [|done].
    assert (hardfork_version v = v) as Hv by (apply (voting_for_typed v t ws F); lia).
    destruct (_ || _) eqn:B; [simpl; rewrite Hv; lia|]. apply orb_false_iff in B as [B1 B2]. zbool. rewrite B1, B2. lia.
  - right. split; [|done]. intros v t. destruct (Z.lt_ge_cases 0 (Z.of_nat (List.length (voting_for v t ws)))) as [P|]; [|lia].
    destruct (hardfork_votes_in _ _ _ L P) as (n & Hn). pose proof (hardfork_votes_entry _ _ _ _ L Hn) as En.
    apply list_elem_of_In in Hn. apply (find_none _ _ E) in Hn. simpl in Hn. zbool. unfold required. lia.
Qed.

(** C19: A hardfork is scheduled when and only when enough of the producing
    witnesses vote for it and for its time; otherwise no hardfork is pending. *)
Theorem hardfork_needs_majority db db' voters :
  map_Forall (fun _ w => hardfork_version (Witness.hardfork_version_vote w) = Witness.hardfork_version_vote w) (Db.witnesses db) ->
  List.length (WitnessSchedule.current_shuffled_witnesses (Db.wso db)) = Z.to_nat STEEM_MAX_WITNESSES ->
  0 < WitnessSchedule.hardfork_required_witnesses (Db.wso db) ->
  get_witnesses db (scheduled db) = Ok voters -> update_witness_schedule4 db = Ok db' ->
  let h := Db.hardfork_property db' in
  let required := WitnessSchedule.hardfork_required_witnesses (Db.wso db) in
  required <= Z.of_nat (List.length (voting_for (HardforkProperty.next_hardfork h) (HardforkProperty.next_hardfork_time h) voters)) \/
  (forall v t, Z.of_nat (List.length (voting_for v t voters)) < required) /\
  HardforkProperty.next_hardfork h = hardfork_version (HardforkProperty.current_hardfork_version (Db.hardfork_property db)).
Proof.
  intros HP HL HR HG H.
  destruct (schedule_phases _ _ H) as (db1 & pr & rest & t0 & db2 & reset & db3 & t & voters' & shuffled & filled & a & b & v &
    [T1 _] & _ & _ & _ & H2 & H3 & G & _ & _ & _ & _ & H6).
  pose proof (laps_turned _ _ _ _ _ _ _ H2 H3) as T3. apply median_props_schedule in H6 as (_ & _ & -> & _).
  assert (scheduled db3 = scheduled db) as Es.
  { rewrite (turned_scheduled _ _ T3). destruct reset; by rewrite <- (turned_scheduled _ _ T1). }
  rewrite Es in G. apply (turned_witnesses _ _ _ _ T3) in G as (vs & G & F3).
  assert (get_witnesses db1 (scheduled db) = Ok vs) as G1 by (by destruct reset).
  apply (turned_witnesses _ _ _ _ T1) in G1 as (vs0 & G1 & F1). rewrite HG in G1. injection G1 as <-.
  assert (count_hardfork_votes voters' db3 = count_hardfork_votes voters db3) as ->.
  { unfold count_hardfork_votes. by rewrite (turns_votes _ _ F3), (turns_votes _ _ F1). }
  assert (Db.hardfork_property db3 = Db.hardfork_property db /\
    WitnessSchedule.hardfork_required_witnesses (Db.wso db3) = WitnessSchedule.hardfork_required_witnesses (Db.wso db)) as [Eh Er].
  { destruct T3 as [-> _], T1 as [-> _]. by destruct reset. }
  cbn [write_schedule]. change (Db.hardfork_property (modify_field _ _ ?d)) with (Db.hardfork_property d).
  rewrite <- Eh, <- Er. apply count_hardfork_votes_spec; [by eapply get_witnesses_Forall| |lia].
  rewrite (get_witnesses_length _ _ _ HG). unfold scheduled. rewrite length_take, HL. unfold STEEM_MAX_WITNESSES. lia.
Qed.

(** ** The virtual-time queue *)

Definition lap_range (lo : Z) (w : witness_object) : Prop := lo <= Witness.virtual_scheduled_time w < 2 ^ 128.

(** no witness is behind the current virtual time *)
Definition virtual_ok (db : database) : Prop :=
  0 <= WitnessSchedule.current_virtual_time (Db.wso db) /\
  map_Forall (fun _ w => lap_range (WitnessSchedule.current_virtual_time (Db.wso db)) w) (Db.witnesses db).

(** a round goes on: the witnesses that were passed get the place one lap after the new
    virtual time, the others keep theirs *)
Definition advances (passed : list witness_object) (t : Z) (db db' : database) : Prop :=
  forall n w', Db.witnesses db' !! n = Some w' -> exists w, Db.witnesses db !! n = Some w /\
    ((n ∈ map Witness.owner passed /\
      exists lap, lap_time (Witness.votes w) = Ok lap /\ t + lap < 2 ^ 128 /\ queue_place w' = (0, t, t + lap)) \/
     (~ n ∈ map Witness.owner passed /\ queue_place w' = queue_place w)).

(** the queue starts again: every witness is one lap after time zero *)
Definition restarts (db' : database) : Prop :=
  forall n w', Db.witnesses db' !! n = Some w' ->
    exists lap, lap_time (Witness.votes w') = Ok lap /\ queue_place w' = (0, 0, lap).

Lemma lap_time_range v t : lap_time v = Ok t -> 0 <= t < 2 ^ 128.
Proof.
  unfold lap_time, div128. destruct (_ =? 0) eqn:E; [done|]. zbool. intros [= <-]. pose proof (u128_range (v + 1)).
  assert (STEEM_VIRTUAL_SCHEDULE_LAP_LENGTH2 < 2 ^ 128) by done.
  assert (0 <= STEEM_VIRTUAL_SCHEDULE_LAP_LENGTH2) by done.
  split; [apply Z.div_pos; lia|]. apply Z.div_lt_upper_bound; [lia|nia].
Qed.

Lemma turned_ok db db' : turned db db' -> witnesses_ok db -> witnesses_ok db'.
Proof.
  intros T [Ho Hn]. split.
  - intros n w' Hw'. apply (turned_witness _ _ _ _ T) in Hw' as (w & Hw & E). rewrite E. exact (Ho n w Hw).
  - destruct T as [_ T]. specialize (T ""). rewrite Hn in T. by destruct (Db.witnesses db' !! "").
Qed.

Lemma u128_wraps t lap : 0 <= t < 2 ^ 128 -> 0 <= lap < 2 ^ 128 ->
  if u128 (t + lap) <? t then 2 ^ 128 <= t + lap else t + lap < 2 ^ 128 /\ u128 (t + lap) = t + lap.
Proof.
  intros Ht Hl. unfold u128. destruct (Z.lt_ge_cases (t + lap) (2 ^ 128)) as [L|L].
  - rewrite (Z.mod_small (t + lap)) by lia. destruct (Z.ltb_spec (t + lap) t); lia.
  - replace ((t + lap) mod 2 ^ 128) with (t + lap - 2 ^ 128) by (apply (Z.mod_unique_pos _ _ 1); lia).
    destruct (Z.ltb_spec (t + lap - 2 ^ 128) t); lia.
Qed.

(** the loop over the witnesses that were passed, [all] of them with [pr] to come *)
Lemma next_laps_spec t pr : forall db db' b,
  witnesses_ok db -> NoDup (map Witness.owner pr) ->
  (forall w, w ∈ pr -> exists w0, Db.witnesses db !! Witness.owner w = Some w0 /\ Witness.votes w0 = Witness.votes w) ->
  (pr <> [] -> 0 <= t < 2 ^ 128) -> next_laps t pr db = Ok (db', b) ->
  if b then exists w lap, w ∈ pr /\ lap_time (Witness.votes w) = Ok lap /\ 2 ^ 128 <= t + lap
  else advances pr t db db'.
Proof.
  induction pr as [|w pr IH]; intros db db' b Hok Hnd Hin Ht H; cbn [next_laps] in H.
  - injection H as <- <-. intros n w' Hn. exists w'. split; [done|]. right. split; [by intros ?%not_elem_of_nil|done].
  - specialize (Ht ltac:(done)). bind H as lap Hl. pose proof (u128_wraps t lap Ht (lap_time_range _ _ Hl)) as U.
    destruct (u128 (t + lap) <? t); [injection H as <- <-; exists w, lap; split_and!; [left|done|done]|].
    destruct U as [U1 U2]. rewrite U2 in H. bind H as db1 H1.
    assert (turned db db1) as T by (eapply turn_one; [exact H1|]; intros ? ? [= <-]; apply set_virtual_turns).
    apply modify_witness_inv in H1 as (w1 & w2 & Hw & [= <-] & ->). apply NoDup_cons in Hnd as [Hni Hnd].
    destruct (Hin w ltac:(left)) as (w0 & Hw0 & Ev). rewrite Hw in Hw0. injection Hw0 as ->.
    eapply IH in H; [|by eapply turned_ok|done| |done].
    2:{ intros x Hx. destruct (Hin x ltac:(by right)) as (x0 & Hx0 & Ex). exists x0. split; [|done]. simpl.
        rewrite lookup_insert_ne; [done|]. intros E. apply Hni. rewrite E. by apply list_elem_of_fmap_2. }
    destruct b.
    + destruct H as (x & l & Hx & Hlx & Ho). exists x, l. split_and!; [by right|done|done].
    + intros n w' Hn. destruct (H n w' Hn) as (x & Hx & C). simpl in Hx. destruct (decide (n = Witness.owner w)) as [->|N].
      * rewrite lookup_insert_eq in Hx. injection Hx as <-. exists w0. split; [done|]. left. split; [left|].
        destruct C as [[C _]|[_ C]]; [done|]. exists lap. rewrite Ev. by split_and!.
      * rewrite lookup_insert_ne in Hx by done. exists x. split; [done|]. destruct C as [[C1 C2]|[C1 C2]].
        -- left. split; [by right|done].
        -- right. split; [|done]. by intros [?|?]%elem_of_cons.
Qed.

Lemma reset_restarts db db' : witnesses_ok db -> reset_virtual_schedule_time db = Ok db' -> restarts db'.
Proof.
  intros Hok H. pose proof (reset_turned _ _ H) as T. unfold reset_virtual_schedule_time in H.
  assert (forall l d d', WitnessSchedule.current_virtual_time (Db.wso d) = 0 ->
    foldM (fun db w => modify_witness db (Witness.owner w) (fun w =>
           t ← lap_time (Witness.votes w);
           Ok (set_virtual (WitnessSchedule.current_virtual_time (Db.wso db)) t w))) d l = Ok d' ->
    forall n w', Db.witnesses d' !! n = Some w' ->
    (n ∈ map Witness.owner l -> exists lap, lap_time (Witness.votes w') = Ok lap /\ queue_place w' = (0, 0, lap)) /\
    (n ∉ map Witness.owner l -> Db.witnesses d !! n = Some w')) as G.
  { induction l as [|w l IH]; intros d d' E0 Hd n w' Hn; cbn [foldM] in Hd.
    - injection Hd as <-. split; [by intros ?%not_elem_of_nil|done].
    - bind Hd as d1 H1. rewrite E0 in H1. apply modify_witness_inv in H1 as (w1 & w2 & Hw & Hf & ->).
      pose proof (fun E => IH _ _ E Hd _ _ Hn) as I. destruct (I E0) as [I1 I2]. clear I.
      cbv beta in Hf. bind Hf as t Ht. injection Hf as <-. simpl in I2.
      destruct (decide (n ∈ map Witness.owner l)) as [Hin|Hin]; [split; [auto|intros N; destruct N; by right]|].
      specialize (I2 Hin). destruct (decide (n = Witness.owner w)) as [->|N].
      + rewrite lookup_insert_eq in I2. injection I2 as <-. split; [intros _; by exists t|intros N; destruct N; left].
      + rewrite lookup_insert_ne in I2 by done. split; [|done]. simpl. by intros [?|?]%elem_of_cons. }
  intros n w' Hn. pose proof (fun E => G _ _ _ E H n w' Hn) as I. apply (I eq_refl). clear I. apply (turned_witness _ _ _ _ T) in Hn as (w & Hw & _). simpl in Hw.
  apply list_elem_of_fmap. exists w. split; [symmetry; by apply (wk_owner _ Hok)|]. unfold witnesses_by.
  rewrite merge_sort_Permutation. apply list_elem_of_fmap. exists (n, w). split; [done|]. by apply elem_of_map_to_list.
Qed.

Lemma restarts_ok db' : restarts db' -> map_Forall (fun _ w => lap_range 0 w) (Db.witnesses db').
Proof.
  intros R n w Hw. destruct (R n w Hw) as (lap & Hl & E). apply lap_time_range in Hl. unfold queue_place in E.
  injection E as _ _ E. unfold lap_range. lia.
Qed.

#[export] Instance by_schedule_time_trans : Transitive by_schedule_time.
Proof. intros x y z. unfold by_schedule_time. lia. Qed.
#[export] Instance by_schedule_time_total : Total by_schedule_time.
Proof. intros x y. unfold by_schedule_time. lia. Qed.

Lemma sorted_last (pr rest : list witness_object) t w :
  StronglySorted by_schedule_time (pr ++ rest) -> w ∈ rest -> pr <> [] ->
  List.last (map Witness.virtual_scheduled_time pr) t <= Witness.virtual_scheduled_time w.
Proof.
  intros S Hw. induction pr as [|x pr IH] using rev_ind; [done|]. intros _. rewrite map_app. simpl. rewrite last_last.
  apply StronglySorted_app_1_elem_of with (x1 := x) (x2 := w) in S; [unfold by_schedule_time in S; lia|set_solver|done].
Qed.

Lemma rescheduled_place db db' n w' : rescheduled db db' -> Db.witnesses db' !! n = Some w' ->
  exists w, Db.witnesses db !! n = Some w /\ queue_place w' = queue_place w /\ Witness.votes w' = Witness.votes w.
Proof.
  intros [T E] H. specialize (E n). unfold scheduled_time in E. rewrite H in E. simpl in E.
  apply (turned_witness _ _ _ _ T) in H as (w & Hw & Ht). rewrite Hw in E. injection E as E. exists w. split_and!; [done| |by rewrite Ht].
  unfold queue_place. congruence.
Qed.

Lemma advances_rescheduled pr t db db1 db' : rescheduled db db1 -> advances pr t db1 db' -> advances pr t db db'.
Proof.
  intros R A n w' Hn. destruct (A n w' Hn) as (w1 & H1 & C). apply (rescheduled_place _ _ _ _ R) in H1 as (w & Hw & Ep & Ev).
  exists w. split; [done|]. by rewrite <- Ev, <- Ep.
Qed.

(** the witnesses before [pr ++ rest] was split are no earlier than the new time *)
Lemma advances_ok db db' pr rest now :
  witnesses_ok db -> witnesses_by by_schedule_time db = (pr ++ rest)%list ->
  map_Forall (fun _ w => lap_range now w) (Db.witnesses db) ->
  let t := List.last (map Witness.virtual_scheduled_time pr) now in
  advances pr t db db' -> map_Forall (fun _ w => lap_range t w) (Db.witnesses db').
Proof.
  intros Hok Ew Hv t A n w' Hn. destruct (A n w' Hn) as (w & Hw & C). unfold queue_place in C. destruct C as [[_ (lap & Hl & Hb & E)]|[Hni E]].
  - injection E as _ _ E. apply lap_time_range in Hl. unfold lap_range. lia.
  - injection E as _ _ E. unfold lap_range. rewrite E. destruct (Hv _ _ Hw) as [? ?]. split; [|done].
    assert (w ∈ witnesses_by by_schedule_time db) as Hin.
    { unfold witnesses_by. rewrite merge_sort_Permutation. apply list_elem_of_fmap. exists (n, w). split; [done|]. by apply elem_of_map_to_list. }
    assert (StronglySorted by_schedule_time (pr ++ rest)) as S by (rewrite <- Ew; apply (StronglySorted_merge_sort _)).
    rewrite Ew in Hin. apply elem_of_app in Hin as [Hin|Hin].
    + destruct Hni. apply list_elem_of_fmap. exists w. split; [symmetry; by apply (wk_owner _ Hok)|done].
    + destruct pr as [|x pr]; [done|]. by eapply sorted_last.
Qed.

(** C18: The virtual-time queue.  A round passes a prefix of the queue, up to the
    witness that takes the last free place: the eligible witnesses of the prefix are the
    ones scheduled from the queue.  Let t be the scheduled time of the last witness that
    was passed.  Either one lap after t fits the 128-bit time for every witness that was
    passed: then t, which is not before the old virtual time, is the new one, the
    witnesses that were passed get the place one lap after it and all the others keep
    their place.  Or the lap of one of them overflows: only then the time is set to zero,
    and every witness is put one lap after zero.  In both cases no witness is behind the
    virtual time, if none was before. *)
Theorem schedule_keeps_queue db db' :
  witnesses_ok db -> virtual_ok db -> update_witness_schedule4 db = Ok db' ->
  let now := WitnessSchedule.current_virtual_time (Db.wso db) in
  let now' := WitnessSchedule.current_virtual_time (Db.wso db') in
  virtual_ok db' /\
  exists passed rest, witnesses_by by_schedule_time db = (passed ++ rest)%list /\
    filter (eligible (map Witness.id (elected db))) passed = runners db /\
    (rest <> [] -> Z.of_nat (List.length (elected db ++ runners db)) = STEEM_MAX_WITNESSES) /\
    let t := List.last (map Witness.virtual_scheduled_time passed) now in
    now <= t /\
    (now' = t /\ advances passed t db db' \/
     now' = 0 /\ restarts db' /\
     exists w lap, w ∈ passed /\ lap_time (Witness.votes w) = Ok lap /\ 2 ^ 128 <= t + lap).
Proof.
  intros Hok [H0 Hv] H now now'.
  destruct (schedule_phases _ _ H) as (db1 & pr & rest & t0 & db2 & reset & db3 & t & voters & shuffled & filled & a & b & v &
    R1 & Ew & -> & [Ef Er] & H2 & H3 & _ & L & _ & _ & _ & H6).
  fold now in H0, Hv, H2, H3. set (t0 := List.last (map Witness.virtual_scheduled_time pr) now) in *.
  apply median_props_schedule in H6 as (Ewit & _ & _ & _ & Et & _). fold now' in Et.
  change (now' = t) in Et. change (Db.witnesses (write_schedule _ _ _ _ _ _ ?d)) with (Db.witnesses d) in Ewit.
  rewrite (proj1 (hardfork_votes_gpo voters db3)) in Ewit.
  assert (forall w, w ∈ pr -> lap_range now w /\ Db.witnesses db !! Witness.owner w = Some w) as Hge.
  { intros w Hw. assert (Db.witnesses db !! Witness.owner w = Some w) as Hin; [|split; [exact (Hv _ _ Hin)|done]].
    eapply witnesses_by_elem; [done|]. rewrite Ew. apply elem_of_app. by left. }
  assert (now <= t0 /\ (pr <> [] -> 0 <= t0 < 2 ^ 128)) as [Ht Htr].
  { unfold t0. destruct pr as [|x pr _] using rev_ind; [done|]. rewrite map_app. simpl. rewrite last_last.
    destruct (Hge x ltac:(apply elem_of_app; right; left)) as [[? ?] _]. lia. }
  assert (NoDup (map Witness.owner pr)) as Hnd.
  { eapply NoDup_map_sublist; [|by apply (witnesses_by_NoDup by_schedule_time)]. rewrite Ew. by apply sublist_inserts_r. }
  assert (forall w, w ∈ pr -> exists w0, Db.witnesses db1 !! Witness.owner w = Some w0 /\ Witness.votes w0 = Witness.votes w) as Hin.
  { intros w Hw. destruct (Hge w Hw) as [_ Hin]. destruct R1 as [[_ T] _]. specialize (T (Witness.owner w)). rewrite Hin in T.
    destruct (Db.witnesses db1 !! Witness.owner w) as [w0|]; [|done]. exists w0. split; [done|]. simpl in T. by rewrite T. }
  pose proof (next_laps_spec _ _ _ _ _ (turned_ok _ _ (proj1 R1) Hok) Hnd Hin Htr H2) as N.
  assert (virtual_ok db' /\ (now' = t0 /\ advances pr t0 db db' \/ now' = 0 /\ restarts db' /\
     exists w lap, w ∈ pr /\ lap_time (Witness.votes w) = Ok lap /\ 2 ^ 128 <= t0 + lap)) as [V C].
  2:{ split; [done|]. exists pr, rest. split; [done|]. split; [done|]. split; [|by split]. intros Hr. apply Er in Hr. unfold STEEM_MAX_WITNESSES in *. lia. }
  unfold virtual_ok. fold now'. rewrite Et. destruct reset.
  - destruct H3 as [H3 ->]. eapply reset_restarts in H3.
    2:{ eapply turned_ok; [by eapply next_laps_turned|]. eapply turned_ok; [apply R1|done]. }
    assert (restarts db') as R by (unfold restarts; by rewrite Ewit).
    split; [split; [done|by apply restarts_ok]|right; done].
  - destruct H3 as [-> ->]. apply (advances_rescheduled _ _ _ _ _ R1) in N.
    assert (advances pr t0 db db') as A by (unfold advances; by rewrite Ewit).
    split; [split; [lia|by eapply advances_ok]|left; done].
Qed.

(** a change of votes keeps the queue as well *)
Lemma adjust_witness_vote_queue db n delta db' :
  virtual_ok db -> WitnessSchedule.current_virtual_time (Db.wso db) < 2 ^ 128 ->
  adjust_witness_vote db n delta = Ok db' -> virtual_ok db'.
Proof.
  intros [H0 Hv] Hr H. apply modify_witness_inv in H as (w & w' & Hw & Hf & ->). split; [done|]. simpl.
  intros m x Hx. destruct (decide (m = n)) as [->|N]; [|rewrite lookup_insert_ne in Hx by done; by apply (Hv m)].
  rewrite lookup_insert_eq in Hx. injection Hx as <-. cbv zeta in Hf. bind Hf as votes H1. bind Hf as u2 H2. bind Hf as u3 H3. injection Hf as <-.
  clear H1 H2 H3. unfold lap_range. cbn [Witness.virtual_scheduled_time modify_field].
  case_match eqn:E; zbool; [split; [unfold UINT128_MAX; lia|done]|]. split; [done|apply u128_range].
Qed.

(** ** The schedule is no part of the ledger *)

Definition schedules (db db' : database) : Prop :=
  db' = db <| Db.witnesses := Db.witnesses db' |> <| Db.wso := Db.wso db' |>
           <| Db.hardfork_property := Db.hardfork_property db' |> <| Db.gpo := Db.gpo db' |> /\
  Db.gpo db' = (Db.gpo db) <| Gpo.maximum_block_size := Gpo.maximum_block_size (Db.gpo db') |>
                           <| Gpo.sbd_interest_rate := Gpo.sbd_interest_rate (Db.gpo db') |>.
#[export] Instance schedules_preorder : PreOrder schedules.
Proof.
  split; [intros db; split; [by destruct db|by destruct (Db.gpo db)]|]. intros x y z [E1 G1] [E2 G2].
  split; [rewrite E2, E1; reflexivity|rewrite G2, G1; reflexivity].
Qed.

Lemma turned_schedules db db' : turned db db' -> schedules db db'.
Proof. intros [-> _]. split; [by destruct db|simpl; by destruct (Db.gpo db)]. Qed.
Lemma wso_schedules db o : schedules db (db <| Db.wso := o |>).
Proof. split; [by destruct db|simpl; by destruct (Db.gpo db)]. Qed.
Lemma hardfork_schedules ws db : schedules db (count_hardfork_votes ws db).
Proof.
  unfold count_hardfork_votes. destruct (find _ _) as [[[? ?] ?]|]; [destruct (_ || _)|]; try done;
    (split; [by destruct db|simpl; by destruct (Db.gpo db)]).
Qed.
Lemma median_schedules db db' : update_median_witness_props db = Ok db' -> schedules db db'.
Proof.
  unfold update_median_witness_props, modify_gpo. intros H. result_inv. split; [by destruct db|simpl; by destruct (Db.gpo db)].
Qed.

Lemma update_witness_schedule_schedules db db' : update_witness_schedule db = Ok db' -> schedules db db'.
Proof.
  unfold update_witness_schedule. destruct (_ =? 0); [|by intros [= <-]].
  intros H. destruct (schedule_phases _ _ H) as (db1 & pr & rest & t0 & db2 & reset & db3 & t & voters & shuffled & filled & a & b & v &
    [T1 _] & _ & _ & _ & H2 & H3 & _ & _ & _ & _ & _ & H6).
  apply laps_turned with (1 := H2) in H3. etrans; [by apply turned_schedules|].
  trans db3; [etrans; [|by apply turned_schedules]; destruct reset; [apply wso_schedules|done]|].
  etrans; [apply hardfork_schedules|]. etrans; [apply wso_schedules|]. exact (median_schedules _ _ H6).
Qed.
