(* ===== verification/Chain.v ===== *)
(** Chain: the genesis state and the application of a block.

    database::init_genesis, process_header_extensions, create_block_summary,
    set_hardfork, apply_block and _apply_block: the checks of a block, its
    transactions, and the steps of the block in their order.  The size of a
    serialized block and the hash functions are parameters; notifications to
    plugins and the flushing of the shared memory file are not part of the chain
    state. *)
From Stdlib Require Import ZArith Lia String Ascii.
From stdpp Require Import base gmap strings list sorting pretty.
From S2P Require Import Prelude.
From S2P Require Import Safe.
From S2P Require Import BlockId.
From S2P Require Import Asset.
From S2P Require Import Raw.
From S2P Require Import Authority.
From S2P Require Import Objects.
From S2P Require Import Reward.
From S2P Require Import Balance.
From S2P Require Import Supply.
From S2P Require Import Transfers.
From S2P Require Import Comments.
From S2P Require Import Market.
From S2P Require Import Vesting.
From S2P Require Import Accounts.
From S2P Require Import Voting.
From S2P Require Import Operation.
From S2P Require Import Invariant.
From S2P Require Import Cashout.
From S2P Require Import Content.
From S2P Require Import Transaction.
From S2P Require Import Block.
From S2P Require Import Schedule.
Local Open Scope string_scope.
Local Open Scope Z_scope.
Local Open Scope fc_scope.

(** ** The genesis state *)

Definition STEEM_GENESIS_WITNESS_NAME : account_name_type := "genesis".
Definition STEEM_NUM_GENESIS_WITNESSES : Z := 1.
Definition STEEM_MAX_TRANSACTION_SIZE : Z := 1024 * 64.
Definition STEEM_MAX_BLOCK_SIZE : Z := STEEM_MAX_TRANSACTION_SIZE * STEEM_BLOCK_INTERVAL * 2000.
Definition STEEM_REDUCED_VOTE_POWER_RATE : Z := 10.

Definition genesis_name (i : nat) : account_name_type :=
  STEEM_GENESIS_WITNESS_NAME ++ (if (i =? 0)%nat then "" else pretty (N.of_nat i)).

(** an account without keys *)
Definition create_special (n : account_name_type) (threshold : Z) (db : database) : result database :=
  db ← create account_index Db.accounts n (fun id => Account.default <| Account.id := id |> <| Account.name := n |>) db;
  create account_authority_index Db.account_authorities n (fun id =>
    AccountAuthority.default <| AccountAuthority.id := id |> <| AccountAuthority.account := n |>
      <| AccountAuthority.owner := mk_authority threshold [] [] |>
      <| AccountAuthority.active := mk_authority threshold [] [] |>
      <| AccountAuthority.posting := mk_authority 1 [] [] |>) db.

Definition create_genesis_witness (init_key : public_key_type) (init_supply : Z) (db : database) (i : nat)
    : result database :=
  let n := genesis_name i in
  let auth := mk_authority 1 [] [(init_key, 1)] in
  db ← create account_index Db.accounts n (fun id =>
         Account.default <| Account.id := id |> <| Account.name := n |> <| Account.memo_key := init_key |>
           <| Account.balance := mk_asset (if (i =? 0)%nat then i64 init_supply else 0) STEEM_SYMBOL |>) db;
  db ← create account_authority_index Db.account_authorities n (fun id =>
         AccountAuthority.default <| AccountAuthority.id := id |> <| AccountAuthority.account := n |>
           <| AccountAuthority.owner := auth |> <| AccountAuthority.active := auth |> <| AccountAuthority.posting := auth |>) db;
  create witness_index Db.witnesses n (fun id =>
    Witness.default <| Witness.id := id |> <| Witness.owner := n |> <| Witness.signing_key := init_key |>
      <| Witness.schedule := timeshare |>) db.

Definition genesis_gpo (init_supply : Z) : dynamic_global_property_object :=
  let supply := mk_asset (i64 init_supply) STEEM_SYMBOL in
  Gpo.default <| Gpo.current_witness := STEEM_GENESIS_WITNESS_NAME |> <| Gpo.time := STEEM_GENESIS_TIME |>
    <| Gpo.recent_slots_filled := UINT128_MAX |> <| Gpo.participation_count := 128 |>
    <| Gpo.current_supply := supply |> <| Gpo.virtual_supply := supply |>
    <| Gpo.maximum_block_size := STEEM_MAX_BLOCK_SIZE |>
    <| Gpo.vote_power_reserve_rate := STEEM_REDUCED_VOTE_POWER_RATE |>
    <| Gpo.delegation_return_period := STEEM_DELEGATION_RETURN_PERIOD |>.

Definition genesis_schedule : witness_schedule_object :=
  WitnessSchedule.default
    <| WitnessSchedule.current_shuffled_witnesses ::= <[0%nat := STEEM_GENESIS_WITNESS_NAME]> |>
    <| WitnessSchedule.max_voted_witnesses := STEEM_MAX_VOTED_WITNESSES |>
    <| WitnessSchedule.max_runner_witnesses := STEEM_MAX_RUNNER_WITNESSES |>.

Definition genesis_fund (id : Z) : reward_fund_object :=
  RewardFund.default <| RewardFund.id := id |> <| RewardFund.name := STEEM_POST_REWARD_FUND_NAME |>
    <| RewardFund.last_update := STEEM_GENESIS_TIME |> <| RewardFund.content_constant := STEEM_CONTENT_CONSTANT |>
    <| RewardFund.percent_curation_rewards := STEEM_1_PERCENT * 25 |>
    <| RewardFund.percent_content_rewards := STEEM_100_PERCENT |>
    <| RewardFund.reward_balance := mk_asset 0 STEEM_SYMBOL |> <| RewardFund.recent_claims := 0 |>
    <| RewardFund.author_reward_curve := linear |> <| RewardFund.curation_reward_curve := square_root |>.

(** the loop creates an empty summary for each id below 0x10000 *)
Definition genesis_summaries (i : Z) : option Z := if (0 <=? i) && (i <? 0x10000) then Some 0 else None.

(** The key is the constant STEEM_INIT_PUBLIC_KEY in its decoded form. *)
Definition init_genesis (init_key : public_key_type) (init_supply : Z) : result chain_state :=
  db ← create_special STEEM_NULL_ACCOUNT 1 Db.empty;
  db ← create_special STEEM_TEMP_ACCOUNT 0 db;
  db ← foldM (create_genesis_witness init_key init_supply) db (seq 0 (Z.to_nat STEEM_NUM_GENESIS_WITNESSES));
  let db := db <| Db.gpo := genesis_gpo init_supply |> <| Db.feed_history := FeedHistory.default |>
               <| Db.hardfork_property := HardforkProperty.default
                    <| HardforkProperty.processed_hardforks := [STEEM_GENESIS_TIME] |> |>
               <| Db.wso := genesis_schedule |> in
  db ← create reward_fund_index Db.reward_funds STEEM_POST_REWARD_FUND_NAME genesis_fund db;
  post_rf ← get_or out_of_range (Db.reward_funds db !! STEEM_POST_REWARD_FUND_NAME);
  _ ← fc_assert (RewardFund.id post_rf =? 0);
  Ok (mk_chain db ∅ genesis_summaries).

(** ** Blocks *)

Definition skip_fork_db : Z := Z.shiftl 1 3.
Definition skip_block_size_check : Z := Z.shiftl 1 4.
Definition skip_merkle_check : Z := Z.shiftl 1 7.
Definition skip_validate_invariants : Z := Z.shiftl 1 11.

Inductive block_header_extensions : Type :=
| ext_void
| ext_version (reported_version : Z)
| ext_hardfork_version_vote (hf_version hf_time : Z).

Record signed_block : Type := mk_signed_block {
  header : block;
  transaction_merkle_root : Z;
  extensions : list block_header_extensions;
  block_transactions : list transaction
}.

(** ** The size of a packed block

    fc::raw::pack_size.  A static_variant is packed as its index and its value, a container
    as its size and its elements, and the size and the index as variable-length integers.
    The size of a packed transaction is a parameter. *)
Definition packed_unsigned_int (v : Z) : Z := Z.of_nat (List.length (pack_unsigned_int v)).

Definition packed_extension (e : block_header_extensions) : Z :=
  match e with
  | ext_void => packed_unsigned_int 0
  | ext_version _ => packed_unsigned_int 1 + 4
  | ext_hardfork_version_vote _ _ => packed_unsigned_int 2 + (4 + 4)
  end.

Definition packed_vector {A} (size : A -> Z) (l : list A) : Z :=
  packed_unsigned_int (u32 (Z.of_nat (List.length l))) + zsum (map size l).

(** previous, timestamp, witness, transaction_merkle_root, extensions, witness_signature
    and the transactions *)
Definition pack_size (trx_pack_size : transaction -> Z) (b : signed_block) : Z :=
  20 + 4 + Z.of_nat (List.length (pack_string (witness (header b)))) + 20 + packed_vector packed_extension (extensions b)
  + 65 + packed_vector trx_pack_size (block_transactions b).

Definition process_header_extension (n : account_name_type) (db : database) (e : block_header_extensions)
    : result database :=
  match e with
  | ext_void => Ok db
  | ext_version v =>
      w ← get_witness db n;
      if negb (v =? Witness.running_version w)
      then modify_witness db n (fun w => Ok (w <| Witness.running_version := v |>)) else Ok db
  | ext_hardfork_version_vote v t =>
      w ← get_witness db n;
      if negb (v =? Witness.hardfork_version_vote w) || negb (t =? Witness.hardfork_time_vote w)
      then modify_witness db n (fun w => Ok (w <| Witness.hardfork_version_vote := hardfork_version v |>
                                               <| Witness.hardfork_time_vote := t |>))
      else Ok db
  end.

Definition process_header_extensions (db : database) (b : signed_block) : result database :=
  foldM (process_header_extension (witness (header b))) db (extensions b).

Definition create_block_summary (cs : chain_state) (b : block) : result chain_state :=
  let sid := Z.land (block_num b) 0xffff in
  _ ← get_or out_of_range (block_summaries cs sid);
  Ok (cs <| block_summaries ::= fun m i => if i =? sid then Some (block_id b) else m i |>).

Definition set_hardfork (db : database) (hardfork : Z) (apply_now : bool) : result database :=
  let first := HardforkProperty.last_hardfork (Db.hardfork_property db) + 1 in
  foldM (fun db k =>
      let i := first + Z.of_nat k in
      v ← get_or out_of_range (hardfork_versions !! Z.to_nat i);
      let db := db <| Db.hardfork_property ::= fun h =>
                  h <| HardforkProperty.next_hardfork := v |> <| HardforkProperty.next_hardfork_time := head_block_time db |> |> in
      if apply_now then apply_hardfork db i else Ok db)
    db (seq 0 (Z.to_nat (Z.min hardfork STEEM_NUM_HARDFORKS + 1 - first))).

(** how many of the hardforks, in their order, are not later than [timestamp] *)
Definition genesis_hardfork_count (timestamp : Z) : nat :=
  match find (fun n => match hardfork_times !! (n + 1)%nat with Some t => timestamp <? t | None => true end)
          (seq 0 (Z.to_nat STEEM_NUM_HARDFORKS)) with
  | Some n => n
  | None => Z.to_nat STEEM_NUM_HARDFORKS
  end.

Definition apply_genesis_hardforks (db : database) (b : block) : result database :=
  if negb (block_num b =? 1) then Ok db
  else
    let n := genesis_hardfork_count (timestamp b) in
    if (n =? 0)%nat then Ok db
    else
      db ← set_hardfork db (Z.of_nat n) true;
      v ← get_or out_of_range (hardfork_versions !! n);
      t ← get_or out_of_range (hardfork_times !! n);
      _ ← fc_assert (HardforkProperty.current_hardfork_version (Db.hardfork_property db) =? v);
      foldM (fun db w => modify_witness db (Witness.owner w) (fun w =>
          Ok (w <| Witness.running_version := v |> <| Witness.hardfork_version_vote := hardfork_version v |>
                <| Witness.hardfork_time_vote := t |>)))
        db (witnesses_by by_witness_id db).

Definition on_db (f : database -> result database) (cs : chain_state) : result chain_state :=
  db ← f (cs_db cs); Ok (cs <| cs_db := db |>).

Section apply_block.
Context `{env : environment} (trx_id : transaction -> Z) (recovered_keys : transaction -> list public_key_type).
Context (merkle_digest : transaction -> Z) (hash_pair : Z -> Z -> Z) (hash : Z -> Z) (trx_pack_size : transaction -> Z).

Definition check_merkle (b : signed_block) : result unit :=
  let merkle_root := calculate_merkle_root hash_pair hash (map merkle_digest (block_transactions b)) in
  if transaction_merkle_root b =? merkle_root then Ok tt
  else match shared_db_merkle !! block_num (header b) with
       | Some r => fc_assert (r =? merkle_root)
       | None => Throw assert_exception
       end.

(** the checks of a block before its transactions; returns the owner of the
    signing witness *)
Definition apply_header (skip : Z) (db : database) (b : signed_block) : result (database * account_name_type) :=
  db ← apply_genesis_hardforks db (header b);
  _ ← (if skips skip skip_merkle_check then Ok tt else check_merkle b);
  signing_witness ← validate_block_header skip db (header b);
  _ ← fc_assert (pack_size trx_pack_size b <=? Gpo.maximum_block_size (Db.gpo db));
  db ← modify_gpo db (fun g => Ok (g <| Gpo.current_witness := witness (header b) |>));
  db ← process_header_extensions db b;
  w ← get_witness db (witness (header b));
  _ ← fc_assert (HardforkProperty.current_hardfork_version (Db.hardfork_property db) <=? Witness.running_version w);
  Ok (db, Witness.owner signing_witness).

(** the block becomes the head *)
Definition advance_head (skip : Z) (signing_witness : account_name_type) (cs : chain_state) (b : block)
    : result chain_state :=
  cs ← on_db (fun db =>
         db ← update_global_dynamic_data skip db b;
         db ← update_signing_witness db signing_witness b;
         update_last_irreversible_block db) cs;
  cs ← create_block_summary cs b;
  clear_expired_transactions cs.

(** the steps of the block up to the burning of what the null account holds *)
Definition before_burn (db : database) : result database :=
  db ← clear_expired_orders db;
  db ← clear_expired_delegations db;
  db ← update_witness_schedule db;
  db ← update_median_feed db;
  update_virtual_supply db.

(** the steps that burn, print and convert *)
Definition burn_and_print (db : database) : result database :=
  db ← clear_null_account_balance db;
  db ← process_funds db;
  process_conversions db.

(** the steps after the payout of comments *)
Definition after_payout (db : database) : result database :=
  db ← process_vesting_withdrawals db;
  db ← process_savings_withdraws db;
  db ← update_virtual_supply db;
  db ← account_recovery_processing db;
  db ← expire_escrow_ratification db;
  db ← process_decline_voting_rights db;
  process_hardforks db.

(** everything before money moves at the end of the block *)
Definition start_block (skip : Z) (producing : bool) (cs : chain_state) (b : signed_block) : result chain_state :=
  '(db, signing_witness) ← apply_header skip (cs_db cs) b;
  cs ← foldM (_apply_transaction trx_id recovered_keys skip producing) (cs <| cs_db := db |>) (block_transactions b);
  cs ← advance_head skip signing_witness cs (header b);
  on_db before_burn cs.

Definition _apply_block (skip : Z) (producing : bool) (cs : chain_state) (b : signed_block) : result chain_state :=
  cs ← start_block skip producing cs b;
  cs ← on_db burn_and_print cs;
  cs ← on_db process_comment_cashout cs;
  on_db after_payout cs.

(** ** Checkpoints *)

Definition checkpoint_skip : Z :=
  fold_left Z.lor [skip_transaction_signatures; skip_transaction_dupe_check; skip_fork_db; skip_block_size_check;
    skip_tapos_check; skip_authority_check; skip_undo_history_check; skip_witness_schedule_check; skip_validate;
    skip_validate_invariants] skip_witness_signature.

(** the flags a block is applied with; a flat_map holds the checkpoints in the order
    of their numbers *)
Definition block_skip (checkpoints : list (Z * Z)) (skip : Z) (b : signed_block) : result Z :=
  let num := block_num (header b) in
  match last checkpoints with
  | Some (last_num, last_id) =>
      if last_id =? 0 then Ok skip
      else
        _ ← match find (fun c => fst c =? num) checkpoints with
            | Some c => fc_assert (block_id (header b) =? snd c)
            | None => Ok tt
            end;
        Ok (if num <=? last_num then checkpoint_skip else skip)
  | None => Ok skip
  end.

Definition apply_block (checkpoints : list (Z * Z)) (skip : Z) (producing : bool) (cs : chain_state) (b : signed_block)
    : result chain_state :=
  skip ← block_skip checkpoints skip b;
  _apply_block skip producing cs b.
End apply_block.
