(* ===== verification/BlockInvariant.v ===== *)
(** BlockInvariant: the invariants of the chain survive a block.

    Every step of _apply_block conserves the supplies, keeps the escrows and the
    proxies as they must be, and leaves posts and votes alone, but for the payout of
    comments, which [Cashout] and [Content] treat.  [carries] is that promise of a
    step; [chain_ok] collects the invariants, which hold at genesis and after every
    block. *)
From Stdlib Require Import ZArith Lia String Ascii.
From stdpp Require Import base gmap strings list sorting.
From S2P Require Import Prelude.
From S2P Require Import Safe.
From S2P Require Import BlockId.
From S2P Require Import Asset.
From S2P Require Import Authority.
From S2P Require Import Objects.
From S2P Require Import Reward.
From S2P Require Import Balance.
From S2P Require Import Supply.
From S2P Require Import Transfers.
From S2P Require Import Comments.
From S2P Require Import Market.
From S2P Require Import Vesting.
From S2P Require Import Accounts.
From S2P Require Import Voting.
From S2P Require Import Operation.
From S2P Require Import Invariant.
From S2P Require Import Cashout.
From S2P Require Import Content.
From S2P Require Import Transaction.
From S2P Require Import Block.
From S2P Require Import Schedule.
From S2P Require Import Chain.
Local Open Scope string_scope.
Local Open Scope Z_scope.
Local Open Scope fc_scope.

(** ** What a step of a block promises *)

(** the null account, which no key controls, votes for itself *)
Definition null_self (db : database) : Prop :=
  forall a, Db.accounts db !! STEEM_NULL_ACCOUNT = Some a -> Account.proxy a = STEEM_PROXY_TO_SELF_ACCOUNT.

Record chain_ok (db : database) : Prop := mk_chain_ok {
  ch_ledger : ledger_ok db;
  ch_null : null_self db;
  ch_content : content_ok db
}.

Definition carries (db db' : database) : Prop := chain_ok db -> chain_ok db'.
#[export] Instance carries_preorder : PreOrder carries.
Proof. split; [by intros db H|]. intros x y z H1 H2 H. by apply H2, H1. Qed.

Lemma untouched_content db db' : untouched db db' -> content_ok db -> content_ok db'.
Proof. intros U [rf Hf]. exists rf. eapply quiet_fine; [by apply untouched_quiet|done]. Qed.

Lemma null_self_proxies db db' : same_proxies db db' -> null_self db -> null_self db'.
Proof.
  intros P N a Ha. specialize (P STEEM_NULL_ACCOUNT). rewrite Ha in P. destruct (Db.accounts db !! _) as [b|] eqn:E; [|done].
  rewrite P. by apply N.
Qed.

Lemma sound_carries db db' :
  (wf db -> null_self db -> conserves db db') -> Db.escrows db' = Db.escrows db -> same_proxies db db' ->
  (content_ok db -> content_ok db') -> carries db db'.
Proof.
  intros S E P U [[Hwf Hs Hp Hf] N C]. specialize (S Hwf N). split; [|by eapply null_self_proxies|auto].
  split; [apply S|by eapply conserves_supply|by eapply same_proxies_ok|]. unfold fees_paid. by rewrite E.
Qed.

(** code that touches neither escrows, nor proxies, nor posts *)
Definition steady (db db' : database) : Prop := keeps db db' /\ untouched db db'.
#[export] Instance steady_preorder : PreOrder steady.
Proof. split; [done|]. intros x y z [] []. split; by etrans. Qed.

Lemma steady_carries db db' : sound db db' -> steady db db' -> carries db db'.
Proof. intros S [(E & P & _) U]. apply sound_carries; [auto|done|done|by apply untouched_content]. Qed.

Lemma while_steady {V} (next : database -> option V) body fuel db db' :
  (forall d x d', body d x = Ok d' -> steady d d') -> while_next fuel next body db = Ok db' -> steady db db'.
Proof. intros Hb. apply while_next_preorder; [apply _|]. intros d x d' _. apply Hb. Qed.

(** a few primitives in a row *)
Ltac steady_run :=
  intros; result_case; (split; [keeps_facts; keeps_chain|untouched_facts; untouched_chain]).

(** ** Steps beside the ledger *)

Definition gpo_side (g g' : dynamic_global_property_object) : Prop :=
  Gpo.current_supply g' = Gpo.current_supply g /\ Gpo.current_sbd_supply g' = Gpo.current_sbd_supply g /\
  Gpo.total_vesting_fund_steem g' = Gpo.total_vesting_fund_steem g /\ Gpo.total_vesting_shares g' = Gpo.total_vesting_shares g /\
  Gpo.total_reward_fund_steem g' = Gpo.total_reward_fund_steem g /\
  Gpo.pending_rewarded_vesting_shares g' = Gpo.pending_rewarded_vesting_shares g /\
  Gpo.pending_rewarded_vesting_steem g' = Gpo.pending_rewarded_vesting_steem g /\
  Gpo.virtual_supply g' = Gpo.virtual_supply g.
#[export] Instance gpo_side_preorder : PreOrder gpo_side.
Proof. split; [done|]. unfold gpo_side. intros x y z. intuition congruence. Qed.

(** witnesses, their schedule, the feed, the hardforks and the head block *)
Definition side (db db' : database) : Prop :=
  db' = db <| Db.witnesses := Db.witnesses db' |> <| Db.wso := Db.wso db' |> <| Db.feed_history := Db.feed_history db' |>
           <| Db.hardfork_property := Db.hardfork_property db' |> <| Db.gpo := Db.gpo db' |> /\
  gpo_side (Db.gpo db) (Db.gpo db').
#[export] Instance side_preorder : PreOrder side.
Proof.
  split; [intros db; split; [by destruct db|done]|]. intros x y z [E1 G1] [E2 G2].
  split; [rewrite E2, E1; reflexivity|by etrans].
Qed.

Lemma side_sound db db' : side db db' -> sound db db'.
Proof.
  intros [E G] Hwf.
  assert (conserves db (db' <| Db.gpo := Db.gpo db |>)) as M1 by (apply same_ledger_conserves; [done|by rewrite E]).
  pose proof (wf_gpo db Hwf) as Wg. destruct G as (G1 & G2 & G3 & G4 & G5 & G6 & G7 & G8).
  assert (gpo_wf (Db.gpo db')) as Wg' by (unfold gpo_wf; rewrite G1, G2, G3, G4, G5, G6, G7, G8; exact Wg).
  pose proof (gpo_moves (db' <| Db.gpo := Db.gpo db |>) (Db.gpo db') (mv_wf _ _ _ _ _ _ _ M1) Wg') as M2.
  change (modify_field Db.gpo _ (modify_field Db.gpo _ db')) with (db' <| Db.gpo := Db.gpo db' |>) in M2.
  replace (db' <| Db.gpo := Db.gpo db' |>) with db' in M2 by (by destruct db').
  eapply moves_eq; [eapply moves_trans; [exact M1|exact M2]|..]; simpl;
    unfold gpo_steem, gpo_sbd, gpo_vests, gpo_pending, gpo_vsf; rewrite ?G1, ?G2, ?G3, ?G4, ?G5, ?G6, ?G7; lia.
Qed.

Lemma side_carries db db' : side db db' -> carries db db'.
Proof.
  intros S. apply sound_carries; [intros ? _; by apply side_sound| | |]; destruct S as [-> _]; [done| |by apply untouched_content].
  intros m. simpl. by destruct (Db.accounts db !! m).
Qed.

Lemma modify_witness_side db n f db' : modify_witness db n f = Ok db' -> side db db'.
Proof. intros (w & w' & _ & _ & ->)%modify_witness_inv. split; [by destruct db|done]. Qed.
Lemma modify_gpo_side db f db' : modify_gpo db f = Ok db' -> (forall g g', f g = Ok g' -> gpo_side g g') -> side db db'.
Proof. intros (g & Hg & ->)%modify_gpo_inv Hf. split; [by destruct db|by apply Hf]. Qed.
Lemma schedules_side db db' : schedules db db' -> side db db'.
Proof. intros [E G]. split; [rewrite E; by destruct db|]. rewrite G. done. Qed.

Lemma fill_slots_side l : forall g, gpo_side g (fold_left fill_slot l g).
Proof. induction l as [|i l IH]; intros g; [done|]. simpl. etrans; [|apply IH]. done. Qed.

Lemma update_global_dynamic_data_side skip db b db' : update_global_dynamic_data skip db b = Ok db' -> side db db'.
Proof.
  intros H. unfold update_global_dynamic_data in H. bind H as [db1 missed] H1. bind H as db2 H2. bind H as u1 U1. injection H as <-.
  trans db1; [|eapply modify_gpo_side; [exact H2|]].
  - destruct (_ =? 0); [by injection H1 as <- _|]. bind H1 as db3 H3. injection H1 as <- _.
    revert H3. apply foldM_preorder; [apply _|]. intros d i d' H. unfold miss_slot in H. bind H as n N. bind H as w W.
    destruct (decide _); [by injection H as <-|by eapply modify_witness_side].
  - intros g g' [= <-]. etrans; [apply fill_slots_side|done].
Qed.

Lemma update_last_irreversible_side db db' : update_last_irreversible_block db = Ok db' -> side db db'.
Proof.
  unfold update_last_irreversible_block. intros H. destruct (_ <? _); [|bind H as ws W; bind H as x X; destruct (_ <? _); [|by injection H as <-]].
  - eapply modify_gpo_side; [exact H|]. intros g g' Hg. destruct (_ <? _); by injection Hg as <-.
  - eapply modify_gpo_side; [exact H|]. by intros g g' [= <-].
Qed.

Lemma update_median_feed_side db db' : update_median_feed db = Ok db' -> side db db'.
Proof.
  unfold update_median_feed. intros H. destruct (negb _); [by injection H as <-|]. bind H as ws W. cbv zeta in H.
  destruct (_ <? _); [by injection H as <-|]. bind H as f F. bind H as m M. bind H as n N. bind H as p P. injection H as <-.
  split; [by destruct db|done].
Qed.

Lemma apply_hardfork_side db h db' : apply_hardfork db h = Ok db' -> side db db'.
Proof.
  unfold apply_hardfork. intros H. bind H as u1 U1. bind H as u2 U2. bind H as t T. bind H as v V. injection H as <-.
  split; [by destruct db|done].
Qed.
Lemma process_hardforks_side db db' : process_hardforks db = Ok db' -> side db db'.
Proof.
  apply while_next_preorder; [apply _|]. intros d x d' _ H. destruct (_ <? _); [by eapply apply_hardfork_side|done].
Qed.

Lemma header_extensions_side db b db' : process_header_extensions db b = Ok db' -> side db db'.
Proof.
  apply foldM_preorder; [apply _|]. intros d e d' H. destruct e as [|v|v t]; simpl in H; [by injection H as <-|..];
    bind H as w W; (destruct (_ : bool); [by eapply modify_witness_side|by injection H as <-]).
Qed.

Lemma genesis_hardforks_side db b db' : apply_genesis_hardforks db b = Ok db' -> side db db'.
Proof.
  unfold apply_genesis_hardforks. intros H. destruct (negb _); [by injection H as <-|]. cbv zeta in H.
  destruct (_ =? 0)%nat; [by injection H as <-|]. bind H as db1 H1. bind H as v V. bind H as t T. bind H as u U.
  trans db1.
  - revert H1. unfold set_hardfork. apply foldM_preorder; [apply _|]. intros d i d' Hd. bind Hd as x X. cbv zeta in Hd.
    eapply apply_hardfork_side in Hd. etrans; [|exact Hd]. split; [by destruct d|done].
  - revert H. apply foldM_preorder; [apply _|]. intros d w d' Hd. by eapply modify_witness_side.
Qed.

(** ** The steps that pay *)

Lemma apply_header_side merkle_digest hash_pair hash trx_pack_size skip db b db' n :
  apply_header merkle_digest hash_pair hash trx_pack_size skip db b = Ok (db', n) -> side db db'.
Proof.
  intros H. unfold apply_header in H. bind H as db1 H1. bind H as u1 U1. bind H as w W. bind H as u2 U2. bind H as db2 H2.
  bind H as db3 H3. bind H as w' W'. bind H as u3 U3. injection H as <- _.
  etrans; [by eapply genesis_hardforks_side|]. etrans; [eapply modify_gpo_side; [exact H2|]; by intros g g' [= <-]|].
  by eapply header_extensions_side.
Qed.

Lemma advance_head_side skip n cs b cs' : advance_head skip n cs b = Ok cs' -> side (cs_db cs) (cs_db cs').
Proof.
  intros H. unfold advance_head, on_db in H. bind H as cs1 H0. bind H0 as db1 H1. injection H0 as <-. bind H1 as db2 H2. bind H1 as db3 H3.
  bind H as cs2 H4. unfold create_block_summary in H4. bind H4 as x X. injection H4 as <-.
  assert (cs_db cs' = db1) as ->.
  { apply (while_next_inv _ _ (fun d => cs_db d = db1)) in H; [done| |done]. intros d y d' Hd _ [= <-]. done. }
  etrans; [by eapply update_global_dynamic_data_side|]. etrans; [by eapply modify_witness_side|by eapply update_last_irreversible_side].
Qed.

Lemma clear_expired_orders_steady db db' : clear_expired_orders db = Ok db' -> steady db db'.
Proof. apply while_steady. intros d x d'. unfold cancel_order. steady_run. Qed.

Lemma clear_expired_delegations_steady db db' : clear_expired_delegations db = Ok db' -> steady db db'.
Proof. apply while_steady. intros d [k e] d'. unfold return_delegation, sub_delegated. steady_run. Qed.

Lemma update_virtual_supply_carries db db' : update_virtual_supply db = Ok db' -> carries db db'.
Proof.
  intros H. pose proof (modify_gpo_untouched _ _ _ H) as U. unfold update_virtual_supply in H. apply modify_gpo_inv in H as (g & Hg & ->).
  bind Hg as b B. bind Hg as v V.
  assert (exists r, g = (Db.gpo db) <| Gpo.virtual_supply := v |> <| Gpo.sbd_print_rate := r |>) as [r ->].
  { destruct (Price.is_null _); [injection Hg as <-; exists (Gpo.sbd_print_rate (Db.gpo db)); by destruct (Db.gpo db)|].
    bind Hg as b2 B2. bind Hg as u1 U1. bind Hg as u2 U2. injection Hg as <-. by eexists. }
  apply sound_carries; [|done|intros m; simpl; by destruct (Db.accounts db !! m)|by apply untouched_content].
  intros Hwf _. pose proof (wf_gpo db Hwf) as (?&?&?&?&?&?&?&?).
  assert (symbol v = symbol (Gpo.current_supply (Db.gpo db))) as Hsv by (by asset_inv).
  eapply moves_eq; [apply gpo_moves; [done|unfold gpo_wf; simpl; repeat split; congruence]|..];
    unfold gpo_steem, gpo_sbd, gpo_vests, gpo_pending, gpo_vsf; simpl; lia.
Qed.

Lemma convert_one_steady st x st' : convert_one st x = Ok st' -> steady st.1.1 st'.1.1.
Proof. destruct st as [[db a] b], x as [k c]. unfold convert_one. steady_run. Qed.

Lemma process_conversions_steady db db' : process_conversions db = Ok db' -> steady db db'.
Proof.
  intros H. unfold process_conversions in H. cbv zeta in H.
  destruct (Price.is_null _); [by injection H as <-|]. bind H as [[db1 a] b] H1.
  apply (while_next_inv _ _ (fun st => steady db st.1.1)) in H1 as S1; [| |done].
  2:{ intros d x d' S _ S'%convert_one_steady. by etrans. }
  simpl in S1. etrans; [exact S1|]. clear H1 S1. revert H. steady_run.
Qed.

Lemma process_savings_withdraws_steady db db' : process_savings_withdraws db = Ok db' -> steady db db'.
Proof. apply while_steady. intros d [k e] d'. unfold process_savings_withdraw. steady_run. Qed.

Lemma account_recovery_processing_steady db db' : account_recovery_processing db = Ok db' -> steady db db'.
Proof.
  intros H. unfold account_recovery_processing in H.
  bind H as db1 H1. bind H as db2 H2. apply while_steady in H1, H2, H; [by do 2 (etrans; [eassumption|])|..].
  - intros d [k e] d'. unfold apply_recovery_change. steady_run.
  - intros d x d' [= <-]. steady_run.
  - intros d x d' [= <-]. steady_run.
Qed.

Lemma deposit_vests_steady w st r st' : deposit_vests w st r = Ok st' -> steady st.1 st'.1.
Proof. destruct st as [db a]. unfold deposit_vests. steady_run. Qed.
Lemma shrink_fund_steady db v s db' : shrink_fund db v s = Ok db' -> steady db db'.
Proof. unfold shrink_fund. steady_run. Qed.
Lemma deposit_steem_steady w st r st' : deposit_steem w st r = Ok st' -> steady st.1.1 st'.1.1.
Proof. destruct st as [[db a] b]. unfold deposit_steem, shrink_fund. steady_run. Qed.
Lemma foldM_steady {S B} (proj : S -> database) (f : S -> B -> result S) l s s' :
  (forall s x s', f s x = Ok s' -> steady (proj s) (proj s')) -> foldM f s l = Ok s' -> steady (proj s) (proj s').
Proof.
  intros Hf. revert s. induction l as [|x l IH]; intros s H; simpl in H; [by injection H as <-|]. bind H as s1 H1.
  etrans; [by eapply Hf|by apply IH].
Qed.

Lemma withdraw_from_steady db n db' : withdraw_from db n = Ok db' -> steady db db'.
Proof.
  intros H. unfold withdraw_from in H. bind H as a Ha. bind H as w W. bind H as [db1 av] H1. bind H as [[db2 as_] t] H2.
  bind H as c C. bind H as tc TC. bind H as u U. bind H as p P. bind H as cs CS. bind H as db3 H3. bind H as db4 H4.
  apply (foldM_steady fst) in H1; [|apply deposit_vests_steady]. apply (foldM_steady (fun st => st.1.1)) in H2; [|apply deposit_steem_steady].
  simpl in *. do 2 (etrans; [eassumption|]). clear - H3 H4 H. unfold shrink_fund in H4.
  assert (forall a a', settle_withdrawal w cs a = Ok a' -> Account.proxy a' = Account.proxy a) as Hp.
  { intros x x' X. unfold settle_withdrawal in X. result_case; done. }
  trans db3; [split; [by eapply modify_account_keeps|by eapply modify_account_untouched]|]. clear H3.
  revert H H4. steady_run.
Qed.

Lemma process_vesting_withdrawals_steady db db' : process_vesting_withdrawals db = Ok db' -> steady db db'.
Proof.
  intros H. unfold process_vesting_withdrawals in H. bind H as [db1 c] H1. injection H as <-.
  apply (while_next_inv _ _ (fun st => steady db st.1)) in H1; [done| |done].
  intros [d c1] n [d' c2] S _ Hd. simpl in *. bind Hd as d1 D1. injection Hd as <- _. etrans; [exact S|by eapply withdraw_from_steady].
Qed.

Lemma refund_escrow_local db k e db' : refund_escrow db (k, e) = Ok db' ->
  escrow_local k db db' /\ Db.escrows db' !! k = None /\ untouched db db'.
Proof.
  unfold refund_escrow. intros H. bind H as db1 H1. bind H as db2 H2. bind H as db3 H3. injection H as <-.
  split; [|split; [apply lookup_delete_eq|untouched_facts; untouched_chain]].
  do 3 (etrans; [by eapply adjust_balance_local|]). apply remove_escrow_local.
Qed.

Lemma expire_escrow_ratification_carries db db' : expire_escrow_ratification db = Ok db' -> carries db db'.
Proof.
  apply while_next_preorder; [apply _|]. clear. intros db [k e] db' Hn%unratified_escrow_Some H.
  assert (sound db db') as S.
  { intros Hwf. unfold refund_escrow in H. result_inv. eapply refund_conserves; done. }
  apply refund_escrow_local in H as (L & E & U). intros [[Hwf Hs Hp Hf] N C]. split.
  - specialize (S Hwf). split; [apply S|by eapply conserves_supply|by eapply same_proxies_ok; [apply L|]|].
    eapply fees_local; [exact L|done|]. by rewrite E.
  - eapply null_self_proxies; [apply L|done].
  - by eapply untouched_content.
Qed.

Lemma decline_one_carries db x db' : decline_one db x = Ok db' -> carries db db'.
Proof.
  intros H. destruct x as [k r]. pose proof H as H0. unfold decline_one in H0. bind H0 as a Ha. bind H0 as delta Hd.
  bind H0 as db1 H1. bind H0 as db2 H2. bind H0 as db3 H3. injection H0 as <-.
  apply adjust_array_keeps in H1 as K1. apply adjust_array_untouched in H1 as U1.
  intros [[Hwf Hs Hp Hf] N Ct]. split.
  - pose proof (decline_one_conserves _ _ _ Hwf Hp H) as C.
    split; [apply C|by eapply conserves_supply|by eapply decline_one_forest|]. unfold fees_paid. simpl.
    apply modify_account_escrows in H3. unfold clear_witness_votes in H2. apply modify_account_escrows in H2. rewrite H3, H2. simpl.
    destruct K1 as (-> & _). done.
  - apply (null_self_proxies db db1) in N; [|apply K1]. unfold null_self in *. simpl.
    apply modify_account_inv in H2 as (b & b' & Hb & [= <-] & ->). apply modify_account_inv in H3 as (c & c' & Hc & [= <-] & ->).
    simpl in *. intros x Hx. apply lookup_insert_Some in Hx as [[_ <-]|[Nx Hx]]; [done|].
    rewrite lookup_insert_ne in Hx by done. by apply N.
  - apply (untouched_content db); [|done]. apply modify_account_untouched in H3. unfold clear_witness_votes in H2.
    apply modify_account_untouched in H2. etrans; [exact U1|]. trans db3; [etrans; [|exact H3]; exact H2|done].
Qed.

Lemma process_decline_carries db db' : process_decline_voting_rights db = Ok db' -> carries db db'.
Proof. apply while_next_preorder; [apply _|]. intros d x d' _. apply decline_one_carries. Qed.

(** ** Burning *)

Definition account_vests (a : account_object) : asset * asset * asset :=
  (Account.vesting_shares a, Account.reward_vesting_balance a, Account.reward_vesting_steem a).

(** the vesting shares of the null account and the vesting funds stay as they are *)
Definition vests_kept (db db' : database) : Prop :=
  account_vests <$> Db.accounts db' !! STEEM_NULL_ACCOUNT = account_vests <$> Db.accounts db !! STEEM_NULL_ACCOUNT /\
  vesting_kept db db'.
#[export] Instance vests_kept_preorder : PreOrder vests_kept.
Proof. split; [done|]. intros x y z [E1 V1] [E2 V2]. split; [congruence|by etrans]. Qed.

Lemma modify_account_vests db n f db' :
  modify_account db n f = Ok db' -> (forall a a', f a = Ok a' -> account_vests a' = account_vests a) -> vests_kept db db'.
Proof.
  intros H Hf. split; [|by eapply modify_account_vesting]. apply modify_account_inv in H as (a & a' & Ha & Hfa & ->). simpl.
  destruct (decide (STEEM_NULL_ACCOUNT = n)) as [<-|N]; [|by rewrite lookup_insert_ne].
  rewrite lookup_insert_eq, Ha. simpl. by rewrite (Hf _ _ Hfa).
Qed.

Lemma pay_interest_vests db i db' : pay_interest db i = Ok db' -> vests_kept db db'.
Proof.
  intros H. split; [|by eapply pay_interest_vesting]. destruct i; simpl in H; [|by injection H as <-].
  by apply modify_gpo_inv in H as (g & _ & ->).
Qed.

Ltac vests_run :=
  result_case;
  repeat match goal with
  | H : pay_interest _ _ = Ok _ |- _ => apply pay_interest_vests in H
  | H : modify_account _ _ _ = Ok _ |- _ => apply modify_account_vests in H; [|cbv beta; intros; result_case; done]
  end; first [done|by etrans].

Lemma adjust_balance_vests db n d db' : liquid_symbol (symbol d) -> adjust_balance db n d = Ok db' -> vests_kept db db'.
Proof.
  unfold adjust_balance, modify_balance. intros Hl H.
  destruct (Z.eqb_spec (symbol d) STEEM_ASSET_NUM_STEEM) as [E|N1]; [vests_run|].
  destruct (Z.eqb_spec (symbol d) STEEM_ASSET_NUM_SBD) as [E|N2]; [vests_run|]. by destruct Hl.
Qed.
Lemma adjust_savings_vests db n d db' : adjust_savings_balance db n d = Ok db' -> vests_kept db db'.
Proof. unfold adjust_savings_balance. intros H. vests_run. Qed.
Lemma adjust_reward_vests db n d db' : adjust_reward db n d = Ok db' -> vests_kept db db'.
Proof. unfold adjust_reward, adjust_reward_balance, modify_reward_balance. intros H. vests_run. Qed.

(** what an adjust function does to the null account *)
Definition takes (s : asset_symbol_type) (adjust : database -> account_name_type -> asset -> result database) : Prop :=
  forall db d db', wf db -> symbol d = s -> adjust db STEEM_NULL_ACCOUNT d = Ok db' ->
    moves db db' (- val STEEM_SYMBOL d) (- val SBD_SYMBOL d) 0 0 0 /\ steady db db' /\ vests_kept db db'.

Lemma balance_takes s : liquid_symbol s -> takes s adjust_balance.
Proof.
  intros Hl db d db' Hwf <- H. split; [by eapply adjust_balance_moves|].
  split; [split; [by eapply adjust_balance_keeps|by eapply adjust_balance_untouched]|by eapply adjust_balance_vests].
Qed.
Lemma savings_takes s : takes s adjust_savings_balance.
Proof.
  intros db d db' Hwf <- H. split; [by eapply adjust_savings_balance_moves|].
  split; [split; [by eapply adjust_savings_keeps|by eapply adjust_savings_untouched]|by eapply adjust_savings_vests].
Qed.
Lemma reward_takes s : takes s adjust_reward.
Proof.
  intros db d db' Hwf <- H. split; [|split; [split; [by eapply adjust_reward_keeps|by eapply adjust_reward_untouched]|by eapply adjust_reward_vests]].
  exact (adjust_reward_balance_moves _ _ _ _ _ Hwf H).
Qed.

(** a total that has grown by what was taken out of the books *)
Definition burns (s : asset_symbol_type) (db db' : database) (total total' : asset) : Prop :=
  moves db db' (val STEEM_SYMBOL total' - val STEEM_SYMBOL total) (val SBD_SYMBOL total' - val SBD_SYMBOL total) 0 0 0 /\
  steady db db' /\ symbol total' = s /\ amount total <= amount total'.

Lemma burn_burns s field adjust db total db' total' :
  takes s adjust -> (forall a, account_wf a -> symbol (field a) = s) -> wf db -> symbol total = s ->
  burn field adjust db total = Ok (db', total') -> burns s db db' total total' /\ vests_kept db db'.
Proof.
  intros T S Hwf Ht H. unfold burn in H. bind H as a Ha. apply get_account_Ok in Ha. pose proof (S _ (wf_account _ _ _ Hwf Ha)) as Sa.
  destruct (Z.ltb_spec 0 (amount (field a))) as [P|P].
  - bind H as t Ht'. bind H as d Hd. bind H as db1 H1. injection H as <- <-. asset_inv.
    destruct (T db (mk_asset (- amount (field a)) (symbol (field a))) db1 Hwf Sa H1) as (M & K & V). split; [|done].
    split; [|split; [done|split; [done|simpl; lia]]].
    eapply moves_eq; [exact M|..]; unfold val; simpl; rewrite ?Sa; try lia; destruct (symbol total =? _); lia.
  - injection H as <- <-. split; [|done]. split; [|split; [done|split; [done|lia]]].
    eapply moves_eq; [by apply moves_refl|lia..].
Qed.

(** the vesting shares the null account can hold *)
Definition burn_ok (db : database) : Prop :=
  forall a, Db.accounts db !! STEEM_NULL_ACCOUNT = Some a ->
    0 <= amount (Account.vesting_shares a) <= amount (Gpo.total_vesting_shares (Db.gpo db)) /\
    amount (Gpo.total_vesting_shares (Db.gpo db)) <= INT64_MAX /\
    0 <= amount (Gpo.total_vesting_fund_steem (Db.gpo db)) <= INT64_MAX /\
    0 <= amount (Account.reward_vesting_steem a).

Lemma vests_kept_burn db db' : vests_kept db db' -> burn_ok db -> burn_ok db'.
Proof.
  intros [E V] B a' Ha'. rewrite Ha' in E. destruct (Db.accounts db !! STEEM_NULL_ACCOUNT) as [a|] eqn:Ha; [|done].
  injection E as E1 E2 E3. injection V as V1 V2 V3 V4. rewrite E1, E3, V1, V3. by apply B.
Qed.

(** the shares of one holder are worth at most the whole fund *)
Lemma share_value g p n c :
  gpo_wf g -> 0 <= amount n <= amount (Gpo.total_vesting_shares g) -> amount (Gpo.total_vesting_shares g) <= INT64_MAX ->
  0 <= amount (Gpo.total_vesting_fund_steem g) <= INT64_MAX -> symbol n = VESTS_SYMBOL ->
  get_vesting_share_price g = Ok p -> Price.mul n p = Ok c -> symbol c = STEEM_SYMBOL /\ 0 <= amount c.
Proof.
  intros (?&?&?&Sf&Ss&?&?&?) Hn HS HF Sn Hp Hc. unfold get_vesting_share_price in Hp.
  unfold Price.mul in Hc. rewrite Sn in Hc. unfold INT64_MAX in *.
  assert (forall q b s, 0 <= q <= 9223372036854775807 -> 0 < b -> amount n * q <= 9223372036854775807 * b ->
    Price.scale (amount n) q b s = Ok c -> symbol c = s /\ 0 <= amount c) as A.
  { intros q b s Hq Hb Hle HA. unfold Price.scale in HA. result_inv. zbool. simpl. split; [done|].
    rewrite (u128_id (amount n)), (u128_id q), (u128_id (amount n * q)) by nia. rewrite i64_id; [apply Z.div_pos; nia|].
    unfold INT64_MIN, INT64_MAX. pose proof (Z.div_pos (amount n * q) b ltac:(nia) ltac:(lia)).
    pose proof (Z.div_le_upper_bound (amount n * q) b 9223372036854775807 ltac:(lia) ltac:(nia)). lia. }
  destruct (_ || _) eqn:E.
  - apply make_Ok in Hp as ->. simpl in Hc. apply (A 1000 1000000); [lia|lia|lia|exact Hc].
  - apply orb_false_iff in E as [E1 E2]. zbool. apply make_Ok in Hp as ->. simpl in Hc. rewrite Ss in Hc. simpl in Hc.
    rewrite Sf in Hc. apply (A (amount (Gpo.total_vesting_fund_steem g)) (amount (Gpo.total_vesting_shares g))); [lia|lia|nia|exact Hc].
Qed.

(** the null account loses shares: its liquid holdings stay *)
Lemma burn_vesting_burns db total db' total' :
  wf db -> null_self db -> burn_ok db -> symbol total = STEEM_SYMBOL ->
  burn_vesting db total = Ok (db', total') ->
  burns STEEM_SYMBOL db db' total total' /\
  forall a', Db.accounts db' !! STEEM_NULL_ACCOUNT = Some a' -> 0 <= amount (Account.reward_vesting_steem a').
Proof.
  intros Hwf N B Ht H. unfold burn_vesting in H. bind H as a Ha. apply get_account_Ok in Ha.
  pose proof (wf_account _ _ _ Hwf Ha) as Wa. destruct (B _ Ha) as (B1 & B2 & B3 & B4). specialize (N _ Ha).
  destruct (Z.ltb_spec 0 (amount (Account.vesting_shares a))) as [P|P].
  2:{ injection H as <- <-. split; [|intros a'; rewrite Ha; by intros [= <-]].
      split; [|split; [done|split; [done|lia]]]. eapply moves_eq; [by apply moves_refl|lia..]. }
  bind H as p Hp. bind H as c Hc. bind H as db1 H1. bind H as db2 H2. bind H as t Ht2. injection H as <- <-.
  destruct (share_value _ _ _ _ (wf_gpo db Hwf) B1 B2 B3 ltac:(apply Wa) Hp Hc) as [Sc Pc].
  assert (steady db db2) as K by (revert H1 H2; steady_run).
  apply modify_gpo_inv in H1 as (g & Hg & ->). bind Hg as s Hs. bind Hg as f Hf. injection Hg as <-.
  pose proof (wf_gpo db Hwf) as (?&?&?&?&?&?&?&?). asset_inv.
  match type of H2 with modify_account (db <| Db.gpo := ?g |>) _ _ = _ =>
    pose proof (gpo_moves db g Hwf ltac:(unfold gpo_wf; simpl; repeat split; congruence)) as M1; set (db1 := db <| Db.gpo := g |>) in * end.
  apply modify_account_inv in H2 as (a1 & a2 & Ha1 & [= <-] & ->). assert (a1 = a) as -> by (simpl in Ha1; congruence).
  match goal with |- context [<[STEEM_NULL_ACCOUNT := ?b]>] =>
    pose proof (account_moves db1 STEEM_NULL_ACCOUNT a b (mv_wf _ _ _ _ _ _ _ M1) Ha1 ltac:(solve_account_wf)) as M2 end.
  split; [|intros a'; simpl; rewrite lookup_insert_eq; by intros [= <-]].
  split; [|split; [exact K|split; [done|simpl; lia]]].
  eapply moves_eq; [exact (moves_trans _ _ _ _ _ _ _ _ _ _ _ _ _ M1 M2)|..];
    unfold gpo_steem, gpo_sbd, gpo_vests, gpo_pending, gpo_vsf, val; acc_unfold; rewrite ?bool_decide_true by done;
    repeat match goal with E : symbol _ = _ |- _ => rewrite E end; simpl; lia.
Qed.

Lemma burn_reward_vesting_burns db total db' total' :
  wf db -> (forall a, Db.accounts db !! STEEM_NULL_ACCOUNT = Some a -> 0 <= amount (Account.reward_vesting_steem a)) ->
  symbol total = STEEM_SYMBOL -> burn_reward_vesting db total = Ok (db', total') -> burns STEEM_SYMBOL db db' total total'.
Proof.
  intros Hwf B Ht H. unfold burn_reward_vesting in H. bind H as a Ha. apply get_account_Ok in Ha.
  pose proof (wf_account _ _ _ Hwf Ha) as Wa. specialize (B _ Ha).
  assert (symbol (Account.reward_vesting_steem a) = STEEM_SYMBOL) as Sr by apply Wa.
  destruct (_ <? _).
  2:{ injection H as <- <-. split; [|split; [done|split; [done|lia]]]. eapply moves_eq; [by apply moves_refl|lia..]. }
  bind H as t Ht2. bind H as db1 H1. bind H as db2 H2. injection H as <- <-.
  assert (steady db db2) as K by (revert H1 H2; steady_run).
  apply modify_gpo_inv in H1 as (g & Hg & ->). bind Hg as s Hs. bind Hg as f Hf. injection Hg as <-.
  pose proof (wf_gpo db Hwf) as (?&?&?&?&?&?&?&?). asset_inv.
  match type of H2 with modify_account (db <| Db.gpo := ?g |>) _ _ = _ =>
    pose proof (gpo_moves db g Hwf ltac:(unfold gpo_wf; simpl; repeat split; congruence)) as M1; set (db1 := db <| Db.gpo := g |>) in * end.
  apply modify_account_inv in H2 as (a1 & a2 & Ha1 & [= <-] & ->). assert (a1 = a) as -> by (simpl in Ha1; congruence).
  match goal with |- context [<[STEEM_NULL_ACCOUNT := ?b]>] =>
    pose proof (account_moves db1 STEEM_NULL_ACCOUNT a b (mv_wf _ _ _ _ _ _ _ M1) Ha1 ltac:(solve_account_wf)) as M2 end.
  split; [|split; [exact K|split; [done|simpl; lia]]].
  eapply moves_eq; [exact (moves_trans _ _ _ _ _ _ _ _ _ _ _ _ _ M1 M2)|..];
    unfold gpo_steem, gpo_sbd, gpo_vests, gpo_pending, gpo_vsf, val; acc_unfold;
    repeat match goal with E : symbol _ = _ |- _ => rewrite E end; simpl; lia.
Qed.

(** the final correction of a supply *)
Lemma correct_supply s db total db' :
  wf db -> s = STEEM_SYMBOL \/ s = SBD_SYMBOL -> symbol total = s -> 0 <= amount total ->
  (if 0 <? amount total then d ← Asset.neg total; adjust_supply db d false else Ok db) = Ok db' ->
  moves db db' (- val STEEM_SYMBOL total) (- val SBD_SYMBOL total) 0 0 0 /\ steady db db'.
Proof.
  intros Hwf Hs St Ht H. destruct (Z.ltb_spec 0 (amount total)) as [P|P].
  - bind H as d Hd. asset_inv. split; [|revert H; unfold adjust_supply; steady_run].
    apply adjust_supply_moves in H; [|done]. eapply moves_eq; [exact H|..]; unfold val; simpl; try lia;
      destruct Hs as [E | E]; rewrite E; simpl; lia.
  - injection H as <-. assert (amount total = 0) as E by lia. split; [|done].
    eapply moves_eq; [by apply moves_refl|..]; unfold val; rewrite ?E; try lia; destruct (_ =? _); lia.
Qed.

(** the books around the burning: what was taken out is what the supplies lose *)
Lemma clear_null_conserves db db' :
  burn_ok db -> clear_null_account_balance db = Ok db' -> (wf db -> null_self db -> conserves db db' /\ steady db db').
Proof.
  intros B H Hwf N. unfold clear_null_account_balance in H. cbv zeta in H.
  set (z1 := mk_asset 0 STEEM_SYMBOL) in *. set (z2 := mk_asset 0 SBD_SYMBOL) in *.
  bind H as [db1 t1] H1. bind H as [db2 t2] H2. bind H as [db3 d3] H3. bind H as [db4 d4] H4. bind H as [db5 t5] H5.
  bind H as [db6 t6] H6. bind H as [db7 d7] H7. bind H as [db8 t8] H8. bind H as db9 H9.
  apply (burn_burns STEEM_SYMBOL) in H1 as [(M1 & K1 & S1 & L1) V1];
    [|apply balance_takes; by left|by intros a W; apply W|done|done].
  apply (burn_burns STEEM_SYMBOL) in H2 as [(M2 & K2 & S2 & L2) V2];
    [|apply savings_takes|by intros a W; apply W|wf_of|done].
  apply (burn_burns SBD_SYMBOL) in H3 as [(M3 & K3 & S3 & L3) V3];
    [|apply balance_takes; by right|by intros a W; apply W|wf_of|done].
  apply (burn_burns SBD_SYMBOL) in H4 as [(M4 & K4 & S4 & L4) V4];
    [|apply savings_takes|by intros a W; apply W|wf_of|done].
  assert (steady db db4) as K by (by do 3 (etrans; [eassumption|])).
  assert (vests_kept db db4) as V by (by do 3 (etrans; [eassumption|])).
  apply burn_vesting_burns in H5 as [(M5 & K5 & S5 & L5) R5];
    [|wf_of|by eapply null_self_proxies; [apply K|]|by eapply vests_kept_burn|done].
  apply (burn_burns STEEM_SYMBOL) in H6 as [(M6 & K6 & S6 & L6) V6];
    [|apply reward_takes|by intros a W; apply W|wf_of|done].
  apply (burn_burns SBD_SYMBOL) in H7 as [(M7 & K7 & S7 & L7) V7];
    [|apply reward_takes|by intros a W; apply W|wf_of|done].
  apply burn_reward_vesting_burns in H8 as (M8 & K8 & S8 & L8); [|wf_of| |done].
  2:{ assert (vests_kept db5 db7) as [E _] by (by etrans). intros a Ha. rewrite Ha in E.
      destruct (Db.accounts db5 !! STEEM_NULL_ACCOUNT) as [a5|] eqn:E5; [|done]. injection E as _ _ ->. by apply R5. }
  simpl in L1, L3. apply (correct_supply STEEM_SYMBOL) in H9 as [M9 K9]; [|wf_of|by left|done|lia].
  apply (correct_supply SBD_SYMBOL) in H as [M10 K10]; [|wf_of|by right|done|lia].
  split; [|etrans; [exact K|]; clear K K1 K2 K3 K4; by do 5 (etrans; [eassumption|])].
  assert (val STEEM_SYMBOL z1 = 0 /\ val SBD_SYMBOL z1 = 0 /\ val STEEM_SYMBOL z2 = 0 /\ val SBD_SYMBOL z2 = 0) as (Z1 & Z2 & Z3 & Z4) by done.
  rewrite Z1, Z2 in M1. rewrite Z3, Z4 in M3. clear - M1 M2 M3 M4 M5 M6 M7 M8 M9 M10. conserve.
Qed.

Lemma clear_null_carries db db' : burn_ok db -> clear_null_account_balance db = Ok db' -> carries db db'.
Proof.
  intros B H C. destruct (clear_null_conserves _ _ B H (ledger_wf _ (ch_ledger _ C)) (ch_null _ C)) as [S K].
  by eapply steady_carries; [intros _|..].
Qed.

(** ** Printing *)

Lemma pay_fund_keeps reward st x st' : pay_fund reward st x = Ok st' -> keeps st.1 st'.1.
Proof. destruct st as [db used]. unfold pay_fund. keeps_run. Qed.

Lemma pay_fund_content reward st x st' : pay_fund reward st x = Ok st' -> content_ok st.1 -> content_ok st'.1.
Proof.
  destruct st as [db used]. unfold pay_fund. intros H [rf Hf]. bind H as p P. bind H as r R. bind H as db1 H1. bind H as u U.
  bind H as u2 U2. injection H as <-. simpl. apply modify_obj_inv in H1 as (f & f' & F & Ff & ->). bind Ff as b B. injection Ff as <-.
  pose proof (cn_fund _ _ Hf) as E. simpl in E, F. rewrite E in F. apply lookup_singleton_Some in F as [Ek <-].
  set (rf' := rf <| RewardFund.reward_balance := b |>). exists rf'.
  assert (content_of (db <| Db.reward_funds ::= <[x.1 := rf']> |>) =
    mk_content (Db.comments db) (Db.comment_votes db) (Db.next_id db comment_index) {[STEEM_POST_REWARD_FUND_NAME := rf']}) as ->.
  { unfold content_of. simpl. by rewrite E, <- Ek, insert_singleton_eq. }
  apply (content_fund rf rf' (content_of db)); [by destruct rf|exact Hf].
Qed.

Lemma process_funds_kept db db' : process_funds db = Ok db' -> keeps db db' /\ (content_ok db -> content_ok db').
Proof.
  intros H0. unfold process_funds in H0. bind H0 as emitted He. bind H0 as content0 Hc0.
  bind H0 as [db1 content] H1. bind H0 as vest0 Hv0. bind H0 as w0 Hw0. bind H0 as w1 Hw1. bind H0 as cwit Hcw.
  bind H0 as w2 Hw2. bind H0 as s Hs. bind H0 as new Hnew. bind H0 as db2 H2. bind H0 as acc Hacc. bind H0 as [db3 nv] H3.
  injection H0 as <-.
  assert (keeps db db1 /\ (content_ok db -> content_ok db1)) as [K1 C1].
  { unfold pay_reward_funds in H1. clear - H1. revert H1. generalize (merge_sort fund_id_le (map_to_list (Db.reward_funds db))) as l.
    intros l. generalize 0 at 1 as u. revert db. induction l as [|x l IH]; intros db u H; cbn [foldM] in H; [by injection H as <- _|].
    bind H as [d u1] Hd. apply IH in H as [K C]. apply pay_fund_keeps in Hd as Kd. pose proof (pay_fund_content _ _ _ _ Hd) as Cd.
    simpl in *. split; [by etrans|auto]. }
  assert (steady db1 db2) as K2 by (revert H2; steady_run).
  assert (steady db2 db3) as K3 by (split; [by eapply create_vesting_keeps|by eapply create_vesting_untouched]).
  split; [etrans; [exact K1|]; etrans; [apply K2|apply K3]|].
  intros C. eapply untouched_content; [etrans; [apply K2|apply K3]|auto].
Qed.

Lemma process_funds_carries db db' : process_funds db = Ok db' -> carries db db'.
Proof.
  intros H. destruct (process_funds_kept _ _ H) as [(E & P & _) C]. apply sound_carries; [intros Hwf _; by eapply process_funds_moves|done..].
Qed.

(** ** Transactions *)

(** What the content of an operation must satisfy besides its validation: the
    unsigned fields are not negative, and the null account, whose authority
    nobody can satisfy, sets no proxy. *)
Definition op_fine (op : operation) : Prop :=
  op_typed op /\
  match op with account_witness_proxy_operation account _ => account <> STEEM_NULL_ACCOUNT | _ => True end.

Section transactions.
Context `{env : environment} (trx_id : transaction -> Z) (recovered_keys : transaction -> list public_key_type).

Lemma proxy_operation_null db n p db' :
  wf db -> n <> STEEM_NULL_ACCOUNT -> account_witness_proxy_evaluator db n p = Ok db' -> null_self db -> null_self db'.
Proof.
  intros Hwf Hn H N. unfold account_witness_proxy_evaluator in H. bind H as a Ha. bind H as u1 U1. bind H as u2 U2.
  bind H as delta Hd. bind H as db1 H1. apply adjust_array_keeps in H1 as (_ & P1 & _). apply (null_self_proxies _ _ P1) in N.
  assert (forall d d' f, modify_account d n f = Ok d' -> null_self d -> null_self d') as M.
  { intros d d' f (x & x' & _ & _ & ->)%modify_account_inv Nd y Hy. simpl in Hy. rewrite lookup_insert_ne in Hy by done. by apply Nd. }
  destruct (decide (p = "")); [by eapply M|].
  bind H as np Hnp. bind H as u3 U3. bind H as db2 H2. bind H as db3 H3. bind H as delta2 Hd2.
  apply adjust_array_keeps in H as (_ & P2 & _). eapply null_self_proxies; [exact P2|].
  eapply M; [exact H3|]. unfold clear_witness_votes in H2. by eapply (M _ _ _ H2).
Qed.

Lemma operation_null producing db op db' :
  wf db -> fees_paid db -> op_fine op -> apply_operation producing db op = Ok db' -> null_self db -> null_self db'.
Proof.
  intros Hwf Hf [_ Ho] H. destruct (touches_escrow_or_proxy op) eqn:Ht.
  - destruct op; try discriminate; simpl in H; clear Ht.
    + eapply escrow_transfer_fees in H as [[P _] _]; [|done]. by apply null_self_proxies.
    + eapply escrow_approve_fees in H as [[P _] _]; [|done]. by apply null_self_proxies.
    + eapply escrow_dispute_fees in H as [[P _] _]; [|done]. by apply null_self_proxies.
    + eapply escrow_release_fees in H as [[P _] _]; [|done]. by apply null_self_proxies.
    + by eapply proxy_operation_null.
  - apply operation_keeps in H as (_ & P & _); [|done]. by apply null_self_proxies.
Qed.

Lemma operation_carries producing db op db' :
  op_fine op -> validate op = Ok tt -> apply_operation producing db op = Ok db' -> carries db db'.
Proof.
  intros Ho V H [L N [rf C]]. split; [by eapply operation_ledger|by eapply operation_null; [apply L|apply L|..]|].
  exists rf. eapply operation_content; [exact C|apply Ho|done|exact H].
Qed.

Lemma transaction_carries skip producing cs trx cs' :
  flag skip skip_validate = false -> Forall op_fine (operations trx) ->
  _apply_transaction trx_id recovered_keys skip producing cs trx = Ok cs' -> carries (cs_db cs) (cs_db cs').
Proof.
  intros Hs Ho H. unfold _apply_transaction in H. rewrite Hs in H. bind H as u1 V. bind H as u2 U2. bind H as u3 U3.
  bind H as u4 U4. bind H as db Hdb. injection H as <-. cbn [cs_db modify_field]. unfold validate_transaction in V. bind V as u5 V5.
  destruct u1. apply validate_operations in V.
  assert (cs_db (if flag skip skip_transaction_dupe_check then cs else cs <| transactions ::= <[trx_id trx := expiration trx]> |>) = cs_db cs)
    as E by (by destruct (flag skip skip_transaction_dupe_check)).
  rewrite E in Hdb. clear - V Ho Hdb. revert Hdb. generalize (cs_db cs) as d. induction V as [|op ops Hv _ IH]; intros d H; cbn [foldM] in H.
  - by injection H as <-.
  - inversion Ho; subst. bind H as d1 H1. etrans; [by eapply operation_carries|by apply IH].
Qed.

Lemma transactions_carries skip producing trxs : forall cs cs',
  flag skip skip_validate = false -> Forall (fun trx => Forall op_fine (operations trx)) trxs ->
  foldM (_apply_transaction trx_id recovered_keys skip producing) cs trxs = Ok cs' -> carries (cs_db cs) (cs_db cs').
Proof.
  intros cs cs' Hs F. revert cs. induction F as [|t ts Ht _ IH]; intros cs H; cbn [foldM] in H; [by injection H as <-|].
  bind H as cs1 H1. etrans; [by eapply transaction_carries|by apply IH].
Qed.
End transactions.

(** ** Blocks *)

Lemma before_burn_carries db db' : before_burn db = Ok db' -> carries db db'.
Proof.
  intros H. unfold before_burn in H. bind H as db1 H1. bind H as db2 H2. bind H as db3 H3. bind H as db4 H4.
  etrans; [apply steady_carries; [by apply clear_expired_orders_conserves|by apply clear_expired_orders_steady]|].
  etrans; [apply steady_carries; [by apply clear_expired_delegations_conserves|by apply clear_expired_delegations_steady]|].
  etrans; [apply side_carries, schedules_side; by eapply update_witness_schedule_schedules|].
  etrans; [by apply side_carries, update_median_feed_side|by apply update_virtual_supply_carries].
Qed.

Lemma burn_and_print_carries db db' : burn_ok db -> burn_and_print db = Ok db' -> carries db db'.
Proof.
  intros B H. unfold burn_and_print in H. bind H as db1 H1. bind H as db2 H2.
  etrans; [by apply clear_null_carries|]. etrans; [by apply process_funds_carries|].
  apply steady_carries; [by apply process_conversions_conserves|by apply process_conversions_steady].
Qed.

Lemma after_payout_carries db db' : power_downs_ok db -> after_payout db = Ok db' -> carries db db'.
Proof.
  intros P H. unfold after_payout in H. bind H as db1 H1. bind H as db2 H2. bind H as db3 H3. bind H as db4 H4. bind H as db5 H5. bind H as db6 H6.
  etrans; [apply steady_carries; [intros Hwf; by eapply process_vesting_withdrawals_conserves|by apply process_vesting_withdrawals_steady]|].
  etrans; [apply steady_carries; [by apply process_savings_withdraws_conserves|by apply process_savings_withdraws_steady]|].
  etrans; [by apply update_virtual_supply_carries|].
  etrans; [apply steady_carries; [by apply account_recovery_processing_conserves|by apply account_recovery_processing_steady]|].
  etrans; [by apply expire_escrow_ratification_carries|]. etrans; [by apply process_decline_carries|].
  by apply side_carries, process_hardforks_side.
Qed.

Lemma cashout_carries db db' :
  (forall rf, Db.reward_funds db = {[STEEM_POST_REWARD_FUND_NAME := rf]} -> economy_ok rf db) ->
  process_comment_cashout db = Ok db' -> carries db db'.
Proof.
  intros He H [[Hwf Hs Hp Hf] N [rf C]]. pose proof (He rf (cn_fund _ _ C)) as E.
  destruct (cashout_content _ _ _ Hwf C E H) as (M & (Ee & P & _) & rf' & C'). split; [|by eapply null_self_proxies|by exists rf'].
  split; [apply M|by eapply conserves_supply|by eapply same_proxies_ok|]. unfold fees_paid. by rewrite Ee.
Qed.

Section blocks.
Context `{env : environment} (trx_id : transaction -> Z) (recovered_keys : transaction -> list public_key_type).
Context (merkle_digest : transaction -> Z) (hash_pair : Z -> Z -> Z) (hash : Z -> Z) (trx_pack_size : transaction -> Z).

Abbreviation start := (start_block trx_id recovered_keys merkle_digest hash_pair hash trx_pack_size).
Abbreviation apply_blk := (_apply_block trx_id recovered_keys merkle_digest hash_pair hash trx_pack_size).

(** the ranges of the amounts a block works with: those of the null account when
    it is burnt, those of the reward fund when comments are paid, and those of the
    accounts when power downs are processed *)
Record block_in_range (skip : Z) (producing : bool) (cs : chain_state) (b : signed_block) : Prop := mk_in_range {
  br_burn cs1 : start skip producing cs b = Ok cs1 -> burn_ok (cs_db cs1);
  br_economy cs1 db2 rf : start skip producing cs b = Ok cs1 -> burn_and_print (cs_db cs1) = Ok db2 ->
    Db.reward_funds db2 = {[STEEM_POST_REWARD_FUND_NAME := rf]} -> economy_ok rf db2;
  br_power cs1 db2 db3 : start skip producing cs b = Ok cs1 -> burn_and_print (cs_db cs1) = Ok db2 ->
    process_comment_cashout db2 = Ok db3 -> power_downs_ok db3
}.

Definition block_fine (b : signed_block) : Prop :=
  Forall (fun trx => Forall op_fine (operations trx)) (block_transactions b).

Lemma start_block_carries skip producing cs b cs' :
  flag skip skip_validate = false -> block_fine b -> start skip producing cs b = Ok cs' -> carries (cs_db cs) (cs_db cs').
Proof.
  intros Hs Hb H. unfold start_block in H. bind H as [db1 n] H1. bind H as cs2 H2. bind H as cs3 H3. unfold on_db in H. bind H as db4 H4.
  injection H as <-. etrans; [by eapply side_carries, apply_header_side|].
  apply transactions_carries in H2; [|done..]. etrans; [exact H2|]. etrans; [by eapply side_carries, advance_head_side|].
  by apply before_burn_carries.
Qed.

Lemma block_chain_ok skip producing cs b cs' :
  flag skip skip_validate = false -> block_fine b -> block_in_range skip producing cs b -> chain_ok (cs_db cs) ->
  apply_blk skip producing cs b = Ok cs' -> chain_ok (cs_db cs').
Proof.
  intros Hs Hb [R1 R2 R3] C H. unfold _apply_block, on_db in H. bind H as cs1 H1. bind H as cs2 H2. bind H2 as db2 H2'. injection H2 as <-.
  bind H as cs3 H3. bind H3 as db3 H3'. injection H3 as <-. bind H as db4 H4. injection H as <-. simpl in *.
  eapply after_payout_carries; [|exact H4|]; [by eapply R3|].
  eapply cashout_carries; [|exact H3'|]; [intros rf; by apply (R2 cs1)|].
  eapply burn_and_print_carries; [|exact H2'|]; [by apply R1|]. by eapply start_block_carries.
Qed.

(** C2: The invariants of the chain survive a block whose amounts stay in range: after its
    header, its transactions and all its steps, the five supply equations hold, every asset
    field has its symbol, the proxies form a forest, approved escrows have paid their fee,
    and posts and votes are as the payout needs them.  What is assumed of the block:

    - operations are validated (skip_validate is off), their unsigned fields are not
      negative and the null account, which nobody can sign for, sets no proxy
      ([block_fine]);
    - [block_in_range]: when the null account is burnt its vesting shares are no more than
      the total and no amount exceeds 63 bits ([burn_ok]); when comments are paid the time
      is before the maximum, the fund holds a 63-bit amount, the claims on it fit 128 bits
      and a unit of STEEM buys at least one unit of vesting shares, the whole fund less
      than 2^63 of them ([economy_ok], [ratio_ok]); when power downs are processed the
      vesting shares, rates and requests of accounts are not negative and routes are
      percentages ([power_downs_ok]).

    Where a unit of STEEM buys no share the equations can fail: see
    [shareless_reward_counted_twice]. *)
Theorem block_preserves_chain skip producing cs b cs' :
  flag skip skip_validate = false -> block_fine b -> block_in_range skip producing cs b -> chain_ok (cs_db cs) ->
  apply_blk skip producing cs b = Ok cs' -> chain_ok (cs_db cs').
Proof. apply block_chain_ok. Qed.
End blocks.

(** ** Genesis *)

Lemma genesis_shape init_key init_supply cs :
  init_genesis init_key init_supply = Ok cs ->
  exists i1 i2 i3 i4, let db := cs_db cs in
  Db.accounts db = <[genesis_name 0 := Account.default <| Account.id := i3 |> <| Account.name := genesis_name 0 |>
                       <| Account.memo_key := init_key |> <| Account.balance := mk_asset (i64 init_supply) STEEM_SYMBOL |>]>
                    (<[STEEM_TEMP_ACCOUNT := Account.default <| Account.id := i2 |> <| Account.name := STEEM_TEMP_ACCOUNT |>]>
                      (<[STEEM_NULL_ACCOUNT := Account.default <| Account.id := i1 |> <| Account.name := STEEM_NULL_ACCOUNT |>]> ∅)) /\
  Db.witnesses db = {[genesis_name 0 := Witness.default <| Witness.id := i4 |> <| Witness.owner := genesis_name 0 |>
                        <| Witness.signing_key := init_key |> <| Witness.schedule := timeshare |>]} /\
  Db.reward_funds db = {[STEEM_POST_REWARD_FUND_NAME := genesis_fund 0]} /\
  Db.gpo db = genesis_gpo init_supply /\ Db.wso db = genesis_schedule /\
  Db.comments db = ∅ /\ Db.comment_votes db = ∅ /\ Db.escrows db = ∅ /\ Db.limit_orders db = ∅ /\ Db.convert_requests db = ∅ /\
  Db.savings_withdraws db = ∅ /\ Db.vesting_delegations db = ∅ /\ Db.vesting_delegation_expirations db = ∅.
Proof.
  unfold init_genesis, create_special. change (seq 0 (Z.to_nat STEEM_NUM_GENESIS_WITNESSES)) with [0%nat].
  intros H. bind H as db1 H1. bind H1 as db1' H1'. bind H as db2 H2. bind H2 as db2' H2'. bind H as db3 H3.
  cbn [foldM] in H3. bind H3 as db3' H3'. injection H3 as <-. unfold create_genesis_witness in H3'. cbv zeta in H3'.
  bind H3' as db4 H4. bind H3' as db5 H5. cbv zeta in H. bind H as db6 H6. bind H as rf Hrf. bind H as u U. injection H as <-.
  apply create_inv in H1' as (_ & j1 & ->), H1 as (_ & j2 & ->), H2' as (_ & j3 & ->), H2 as (_ & j4 & ->),
    H4 as (_ & j5 & ->), H5 as (_ & j6 & ->), H3' as (_ & j7 & ->), H6 as (_ & j8 & ->).
  apply get_or_Ok in Hrf. simpl in Hrf. rewrite lookup_insert_eq in Hrf. injection Hrf as <-. apply fc_assert_Ok in U.
  cbn [RewardFund.id genesis_fund modify_field] in U. zbool. 
  do 4 eexists. cbn [cs_db]. split_and!; try reflexivity. simpl. by rewrite U.
Qed.

Lemma genesis_ok init_key init_supply :
  exists cs, init_genesis init_key init_supply = Ok cs /\ chain_ok (cs_db cs) /\
    witnesses_ok (cs_db cs) /\ virtual_ok (cs_db cs) /\ participation_ok (Db.gpo (cs_db cs)) /\
    scheduled (cs_db cs) = [STEEM_GENESIS_WITNESS_NAME].
Proof.
  assert (is_ok (init_genesis init_key init_supply) = true) as Hok by (vm_compute; reflexivity).
  destruct (init_genesis init_key init_supply) as [cs|] eqn:H; [|done]. exists cs. split; [done|]. clear Hok.
  apply genesis_shape in H as (i1 & i2 & i3 & i4 & Ea & Ew & Ef & Eg & Es & E1 & E2 & E3 & E4 & E5 & E6 & E7 & E8).
  set (db := cs_db cs) in *. clearbody db. clear cs.
  assert (map_Forall (fun _ a => account_wf a /\ Account.proxy a = "") (Db.accounts db)) as Acc.
  { rewrite Ea. repeat apply map_Forall_insert_2; try apply map_Forall_empty; repeat split. }
  split; [|split; [|split; [|split]]].
  - split; [split| |].
    + split; rewrite ?E3, ?E4, ?E5, ?E6, ?E7, ?E8, ?Ef; try apply map_Forall_empty; [|by apply map_Forall_singleton|rewrite Eg; repeat split].
      intros m a Ha. by apply Acc in Ha as [].
    + unfold supply_ok, steem_gap, sbd_gap, vests_gap, pending_gap, vsf_gap. rewrite E3, E4, E5, E6, Ef, Eg, Ea, !msum_empty, !msum_singleton.
      rewrite !msum_insert_new by (vm_compute; reflexivity). rewrite !msum_empty. unfold genesis_gpo, genesis_fund. acc_unfold.
      repeat split; lia.
    + intros m a Ha. eapply reaches_here; [exact Ha|]. by apply Acc in Ha as [].
    + unfold fees_paid. rewrite E3. apply map_Forall_empty.
    + intros a Ha. by apply Acc in Ha as [].
    + exists (genesis_fund 0). split; simpl; rewrite ?E1, ?E2, ?Ef; try apply map_Forall_empty; [done|split; done|].
      intros k k' c c' Hk. by rewrite lookup_empty in Hk.
  - split; rewrite Ew; [by apply map_Forall_singleton|vm_compute; reflexivity].
  - unfold virtual_ok. rewrite Ew, Es. split; [done|]. apply map_Forall_singleton. split; [discriminate|reflexivity].
  - rewrite Eg. split; [split; [discriminate|reflexivity]|vm_compute; reflexivity].
  - unfold scheduled. rewrite Es. reflexivity.
Qed.

(** C20: The genesis state can be built for every initial supply, and it satisfies
    the invariants of the chain, of the witness queue and of the participation
    counter; its only witness is the one scheduled. *)
Theorem genesis_chain_ok init_key init_supply :
  exists cs, init_genesis init_key init_supply = Ok cs /\ chain_ok (cs_db cs) /\
    witnesses_ok (cs_db cs) /\ virtual_ok (cs_db cs) /\ participation_ok (Db.gpo (cs_db cs)) /\
    scheduled (cs_db cs) = [STEEM_GENESIS_WITNESS_NAME].
Proof. apply genesis_ok. Qed.

(** ** Reachable states *)

Section reachable.
Context `{env : environment} (trx_id : transaction -> Z) (recovered_keys : transaction -> list public_key_type).
Context (merkle_digest : transaction -> Z) (hash_pair : Z -> Z -> Z) (hash : Z -> Z) (trx_pack_size : transaction -> Z).

Abbreviation apply_blk := (_apply_block trx_id recovered_keys merkle_digest hash_pair hash trx_pack_size).
Abbreviation in_range := (block_in_range trx_id recovered_keys merkle_digest hash_pair hash trx_pack_size).

(** the states after genesis and any number of blocks that were applied with validation
    and whose amounts were in range *)
Inductive reachable : chain_state -> Prop :=
| reach_genesis init_key init_supply cs : init_genesis init_key init_supply = Ok cs -> reachable cs
| reach_block skip producing cs b cs' :
    reachable cs -> flag skip skip_validate = false -> block_fine b -> in_range skip producing cs b ->
    apply_blk skip producing cs b = Ok cs' -> reachable cs'.

(** C1: In every reachable state no asset has been created or lost: the supplies
    are what the accounts, orders, escrows, savings, conversions, reward funds and
    vesting funds hold together, the pending rewards and the voting weight are
    accounted for, and the other invariants of the chain hold.  Reachable are the states
    after genesis and blocks applied as block_preserves_chain requires: with operations
    validated and typed ([block_fine]) and amounts in range ([block_in_range]); in
    particular a unit of STEEM bought at least one unit of vesting shares at each payout,
    without which [shareless_reward_counted_twice] breaks the equations. *)
Theorem reachable_balanced cs : reachable cs -> supply_ok (cs_db cs) /\ chain_ok (cs_db cs).
Proof.
  intros H. assert (chain_ok (cs_db cs)) as C; [|split; [apply C|done]].
  induction H as [key supply cs H|skip producing cs b cs' _ IH Hs Hb Hr H].
  - destruct (genesis_ok key supply) as (cs' & H' & C & _). by rewrite H in H'; injection H' as <-.
  - by eapply block_chain_ok.
Qed.
End reachable.
