(* ===== verification/Head.v ===== *)
(** Head: a block becomes the head of the chain, and no transaction is applied twice.

    Every step of _apply_block after the update of the head leaves the time, the
    number and the id of the head block alone.  With that the index of recent
    transactions protects the chain against replays: a transaction stays listed
    until it expires, and the time of the head only moves forward. *)
From Stdlib Require Import ZArith Lia String Ascii.
From stdpp Require Import base gmap strings list sorting.
From S2P Require Import Prelude.
From S2P Require Import Safe.
From S2P Require Import BlockId.
From S2P Require Import Asset.
From S2P Require Import Authority.
From S2P Require Import Objects.
From S2P Require Import Reward.
From S2P Require Import Balance.
From S2P Require Import Supply.
From S2P Require Import Transfers.
From S2P Require Import Comments.
From S2P Require Import Market.
From S2P Require Import Vesting.
From S2P Require Import Accounts.
From S2P Require Import Voting.
From S2P Require Import Operation.
From S2P Require Import Invariant.
From S2P Require Import Cashout.
From S2P Require Import Content.
From S2P Require Import Transaction.
From S2P Require Import Block.
From S2P Require Import Schedule.
From S2P Require Import Chain.
From S2P Require Import BlockInvariant.
Local Open Scope string_scope.
Local Open Scope Z_scope.
Local Open Scope fc_scope.

(** ** The payout keeps the clock *)

Lemma foldM_clock {S B} (proj : S -> database) (f : S -> B -> result S) l s s' :
  (forall s x s', f s x = Ok s' -> same_clock (proj s) (proj s')) -> foldM f s l = Ok s' -> same_clock (proj s) (proj s').
Proof.
  intros Hf. revert s. induction l as [|x l IH]; intros s H; cbn [foldM] in H; [by injection H as <-|]. bind H as s1 H1.
  etrans; [by eapply Hf|by apply IH].
Qed.

Lemma keeps_clock db db' : keeps db db' -> same_clock db db'.
Proof. by intros (_ & _ & C). Qed.

Lemma modify_comment_keeps db k f db' : modify_comment db k f = Ok db' -> keeps db db'.
Proof. unfold modify_comment. intros H. by apply modify_obj_keeps in H. Qed.

Ltac clock_ops :=
  repeat match goal with
  | H : create_sbd _ _ _ _ = Ok (_, _) |- _ => apply create_sbd_keeps in H
  | H : modify_comment _ _ _ = Ok _ |- _ => apply modify_comment_keeps in H
  end; apply keeps_clock; keeps_ops.

Lemma pay_curator_clock m w st i st' : pay_curator m w st i = Ok st' -> same_clock st.1 st'.1.
Proof. destruct st as [db u]. unfold pay_curator. intros H. result_case; clock_ops. Qed.

Lemma pay_curators_clock db c m db' u m' : pay_curators db c m = Ok (db', u, m') -> same_clock db db'.
Proof.
  unfold pay_curators. intros H. bind H as [[db1 u1] m1] H1. bind H as m2 M2. injection H as <- _ _.
  destruct (negb _); [by injection H1 as <- _ _|]. destruct (0 <? _); [|by injection H1 as <- _ _].
  bind H1 as [db2 u2] H2. injection H1 as <- _ _. by apply (foldM_clock fst) in H2; [|apply pay_curator_clock].
Qed.

Lemma pay_beneficiary_clock a st b st' : pay_beneficiary a st b = Ok st' -> same_clock st.1 st'.1.
Proof. destruct st as [db u]. unfold pay_beneficiary. intros H. result_case; clock_ops. Qed.

Lemma pay_author_clock db k c a b d e db' : pay_author db k c a b d e = Ok db' -> same_clock db db'.
Proof. unfold pay_author, adjust_total_payout. intros H. result_inv. clock_ops. Qed.

Lemma pay_reward_clock db k c r f db' x : pay_reward db k c r f = Ok (db', x) -> same_clock db db'.
Proof.
  unfold pay_reward. intros H. bind H as p P. bind H as ct C. bind H as a A. bind H as [[db1 u] m] H1. bind H as a2 A2.
  bind H as cl CL. bind H as [db2 t] H2. bind H as db3 H3. injection H as <- _. apply pay_curators_clock in H1.
  apply (foldM_clock fst) in H2; [|apply pay_beneficiary_clock]. apply pay_author_clock in H3. by do 2 (etrans; [eassumption|]).
Qed.

Lemma remove_votes_clock l : forall db,
  same_clock db (fold_left (fun db (kv : (Z * Z) * comment_vote_object) => remove Db.comment_votes (fst kv) db) l db).
Proof. induction l as [|kv l IH]; intros db; [done|]. simpl. etrans; [|apply IH]. done. Qed.

Lemma cashout_helper_clock ctx db k c f db' x : cashout_comment_helper ctx db k c f = Ok (db', x) -> same_clock db db'.
Proof.
  unfold cashout_comment_helper. intros H. bind H as [db1 cl] H1. bind H as db2 H2. injection H as <- _.
  apply modify_comment_keeps, keeps_clock in H2. etrans; [|etrans; [exact H2|apply remove_votes_clock]].
  destruct (0 <? _); [|by injection H1 as <- _]. bind H1 as rf RF. bind H1 as r R.
  destruct (0 <? _); [by eapply pay_reward_clock|by injection H1 as <- _].
Qed.

Lemma write_funds_clock funds : forall i db db', write_funds i db funds = Ok db' -> same_clock db db'.
Proof.
  induction funds as [|f funds IH]; intros i db db' H; simpl in H; [by injection H as <-|]. bind H as db1 H1.
  etrans; [|by eapply IH]. unfold write_fund in H1. bind H1 as [n r] N. apply keeps_clock. by apply modify_obj_keeps in H1.
Qed.

Lemma cashout_clock db db' : process_comment_cashout db = Ok db' -> same_clock db db'.
Proof.
  unfold process_comment_cashout. intros H. bind H as [db1 f1] H1. bind H as f2 H2. bind H as [db3 f3] H3.
  apply (foldM_clock fst) in H1.
  2:{ intros [d fs] kr [d' fs'] Hd. bind Hd as d1 D1. bind Hd as r R. injection Hd as <- _. apply keeps_clock. by apply modify_obj_keeps in D1. }
  apply (while_next_inv _ _ (fun st => same_clock db1 st.1)) in H3; [| |done].
  2:{ intros [d fs] [k c] [d' fs'] Hs _ Hd. unfold cashout_next in Hd. bind Hd as rf RF. bind Hd as f F. cbv zeta in Hd.
      bind Hd as [d1 cl] D1. bind Hd as fs2 FS. injection Hd as <- _. etrans; [exact Hs|by eapply cashout_helper_clock]. }
  apply write_funds_clock in H. simpl in *. by do 2 (etrans; [eassumption|]).
Qed.

(** ** The other steps keep the clock *)

Lemma steady_clock db db' : steady db db' -> same_clock db db'.
Proof. intros [K _]. by apply keeps_clock. Qed.

Lemma gpo_clock db db' : Db.gpo db' = Db.gpo db -> same_clock db db'.
Proof. unfold same_clock, head_block_time, head_block_num, head_block_id. by intros ->. Qed.

Lemma update_median_feed_clock db db' : update_median_feed db = Ok db' -> same_clock db db'.
Proof.
  unfold update_median_feed. intros H. destruct (negb _); [by injection H as <-|]. bind H as ws W. cbv zeta in H.
  destruct (_ <? _); [by injection H as <-|]. result_inv. done.
Qed.

Lemma update_virtual_supply_clock db db' : update_virtual_supply db = Ok db' -> same_clock db db'.
Proof. unfold update_virtual_supply. intros H. apply keeps_clock. eapply modify_gpo_keeps; [exact H|]. keeps_time. Qed.

Lemma schedules_clock db db' : schedules db db' -> same_clock db db'.
Proof. intros [_ G]. unfold same_clock, head_block_time, head_block_num, head_block_id. by rewrite G. Qed.

Lemma burn_clock field adjust db t db' t' :
  (forall d n x d', adjust d n x = Ok d' -> keeps d d') -> burn field adjust db t = Ok (db', t') -> same_clock db db'.
Proof. intros A H. unfold burn in H. result_case; [|done]. apply keeps_clock. by eapply A. Qed.

Lemma clear_null_clock db db' : clear_null_account_balance db = Ok db' -> same_clock db db'.
Proof.
  intros H. unfold clear_null_account_balance in H. cbv zeta in H.
  bind H as [db1 t1] H1. bind H as [db2 t2] H2. bind H as [db3 d3] H3. bind H as [db4 d4] H4. bind H as [db5 t5] H5.
  bind H as [db6 t6] H6. bind H as [db7 d7] H7. bind H as [db8 t8] H8. bind H as db9 H9.
  apply burn_clock in H1, H2, H3, H4, H6, H7;
    try (apply adjust_balance_keeps || apply adjust_savings_keeps || (intros ? ? ? ?; apply adjust_reward_keeps)).
  assert (same_clock db4 db5) as C5 by (unfold burn_vesting in H5; result_case; clock_ops).
  assert (same_clock db7 db8) as C8 by (unfold burn_reward_vesting in H8; result_case; clock_ops).
  assert (same_clock db8 db9) as C9 by (unfold adjust_supply in H9; result_case; clock_ops).
  assert (same_clock db9 db') as C10 by (unfold adjust_supply in H; result_case; clock_ops).
  clear H5 H8 H9 H. by do 9 (etrans; [eassumption|]).
Qed.

Lemma expire_escrow_clock db db' : expire_escrow_ratification db = Ok db' -> same_clock db db'.
Proof.
  apply while_next_preorder; [apply _|]. intros d [k e] d' _ H. apply refund_escrow_local in H as ([[_ C] _] & _). exact C.
Qed.

Lemma decline_clock db db' : process_decline_voting_rights db = Ok db' -> same_clock db db'.
Proof.
  apply while_next_preorder; [apply _|]. intros d [k r] d' _ H. unfold decline_one in H. bind H as a Ha. bind H as delta Hd.
  bind H as db1 H1. bind H as db2 H2. bind H as db3 H3. injection H as <-. apply adjust_array_keeps, keeps_clock in H1.
  unfold clear_witness_votes in H2. apply modify_account_clock in H2, H3. etrans; [exact H1|]. etrans; [exact H2|exact H3].
Qed.

Lemma apply_hardfork_clock db h db' : apply_hardfork db h = Ok db' -> same_clock db db'.
Proof. unfold apply_hardfork. intros H. result_inv. done. Qed.
Lemma process_hardforks_clock db db' : process_hardforks db = Ok db' -> same_clock db db'.
Proof. apply while_next_preorder; [apply _|]. intros d x d' _ H. destruct (_ <? _); [by eapply apply_hardfork_clock|done]. Qed.

Lemma before_burn_clock db db' : before_burn db = Ok db' -> same_clock db db'.
Proof.
  intros H. unfold before_burn in H. bind H as db1 H1. bind H as db2 H2. bind H as db3 H3. bind H as db4 H4.
  etrans; [by apply steady_clock, clear_expired_orders_steady|]. etrans; [by apply steady_clock, clear_expired_delegations_steady|].
  etrans; [by apply schedules_clock, update_witness_schedule_schedules|]. etrans; [by apply update_median_feed_clock|].
  by apply update_virtual_supply_clock.
Qed.

Lemma burn_and_print_clock db db' : burn_and_print db = Ok db' -> same_clock db db'.
Proof.
  intros H. unfold burn_and_print in H. bind H as db1 H1. bind H as db2 H2.
  etrans; [by apply clear_null_clock|]. etrans; [apply keeps_clock; by eapply process_funds_kept|].
  by apply steady_clock, process_conversions_steady.
Qed.

Lemma after_payout_clock db db' : after_payout db = Ok db' -> same_clock db db'.
Proof.
  intros H. unfold after_payout in H. bind H as db1 H1. bind H as db2 H2. bind H as db3 H3. bind H as db4 H4. bind H as db5 H5. bind H as db6 H6.
  etrans; [by apply steady_clock, process_vesting_withdrawals_steady|]. etrans; [by apply steady_clock, process_savings_withdraws_steady|].
  etrans; [by apply update_virtual_supply_clock|]. etrans; [by apply steady_clock, account_recovery_processing_steady|].
  etrans; [by apply expire_escrow_clock|]. etrans; [by apply decline_clock|]. by apply process_hardforks_clock.
Qed.

(** ** A block becomes the head *)

Lemma head_extensions_clock db b db' : process_header_extensions db b = Ok db' -> same_clock db db'.
Proof.
  apply foldM_preorder; [apply _|]. intros d e d' H. apply keeps_clock. destruct e as [|v|v t]; simpl in H; [by injection H as <-|..];
    bind H as w W; (destruct (_ : bool); [by eapply modify_witness_keeps|by injection H as <-]).
Qed.

Lemma genesis_hardforks_clock db b db' : apply_genesis_hardforks db b = Ok db' -> same_clock db db'.
Proof.
  unfold apply_genesis_hardforks. intros H. destruct (negb _); [by injection H as <-|]. cbv zeta in H.
  destruct (_ =? 0)%nat; [by injection H as <-|]. bind H as db1 H1. bind H as v V. bind H as t T. bind H as u U.
  trans db1.
  - revert H1. unfold set_hardfork. apply foldM_preorder; [apply _|]. intros d i d' Hd. bind Hd as x X. cbv zeta in Hd.
    eapply apply_hardfork_clock in Hd. etrans; [|exact Hd]. done.
  - revert H. apply foldM_preorder; [apply _|]. intros d w d' Hd. apply keeps_clock. by eapply modify_witness_keeps.
Qed.

Lemma validate_header_links skip db b w :
  validate_block_header skip db b = Ok w -> head_block_id db = previous b /\ head_block_time db < timestamp b.
Proof.
  unfold validate_block_header. intros H. bind H as u1 U1. bind H as u2 U2. apply fc_assert_Ok in U1, U2. zbool. done.
Qed.

Lemma apply_header_links merkle_digest hash_pair hash trx_pack_size skip db b db' n :
  apply_header merkle_digest hash_pair hash trx_pack_size skip db b = Ok (db', n) ->
  same_clock db db' /\ head_block_id db = previous (header b) /\ head_block_time db < timestamp (header b).
Proof.
  intros H. unfold apply_header in H. bind H as db1 H1. bind H as u1 U1. bind H as w W. bind H as u2 U2. bind H as db2 H2.
  bind H as db3 H3. bind H as w' W'. bind H as u3 U3. injection H as <- _.
  apply genesis_hardforks_clock in H1. pose proof H1 as (E1 & _ & E2). apply validate_header_links in W. rewrite E1, E2 in W. split; [|done].
  etrans; [exact H1|]. etrans; [|by eapply head_extensions_clock]. apply modify_gpo_inv in H2 as (g & [= <-] & ->). done.
Qed.

Lemma update_head_fields skip db b db' :
  update_global_dynamic_data skip db b = Ok db' ->
  head_block_time db' = timestamp b /\ head_block_num db' = block_num b /\ head_block_id db' = block_id b.
Proof.
  intros H. unfold update_global_dynamic_data in H. bind H as [db1 missed] H1. bind H as db2 H2. bind H as u1 U1. injection H as <-.
  apply modify_gpo_inv in H2 as (g & [= <-] & ->). done.
Qed.

Lemma advance_head_fields skip n cs b cs' :
  advance_head skip n cs b = Ok cs' ->
  head_block_time (cs_db cs') = timestamp b /\ head_block_num (cs_db cs') = block_num b /\ head_block_id (cs_db cs') = block_id b /\
  exists cs1, clear_expired_transactions cs1 = Ok cs' /\ cs_db cs1 = cs_db cs' /\ transactions cs1 = transactions cs.
Proof.
  intros H. unfold advance_head, on_db in H. bind H as cs1 H0. bind H0 as db1 H1. injection H0 as <-. bind H1 as db2 H2. bind H1 as db3 H3.
  bind H as cs2 H4. unfold create_block_summary in H4. bind H4 as x X. injection H4 as <-.
  assert (cs_db cs' = db1) as E.
  { apply (while_next_inv _ _ (fun d => cs_db d = db1)) in H; [done| |done]. by intros d y d' Hd _ [= <-]. }
  apply update_head_fields in H2.
  assert (same_clock db2 db1) as (C1 & C2 & C3).
  { etrans; [apply keeps_clock; by eapply modify_witness_keeps|]. unfold update_last_irreversible_block in H1.
    apply keeps_clock. result_case; keeps_facts; keeps_chain. }
  rewrite E, C1, C2, C3. split_and!; try apply H2. eexists. split; [exact H|]. by rewrite <- E.
Qed.

Section head.
Context `{env : environment} (trx_id : transaction -> Z) (recovered_keys : transaction -> list public_key_type).
Context (merkle_digest : transaction -> Z) (hash_pair : Z -> Z -> Z) (hash : Z -> Z) (trx_pack_size : transaction -> Z).

Abbreviation apply_trx := (_apply_transaction trx_id recovered_keys).
Abbreviation apply_blk := (_apply_block trx_id recovered_keys merkle_digest hash_pair hash trx_pack_size).

Lemma transactions_clock skip producing trxs cs cs' :
  foldM (apply_trx skip producing) cs trxs = Ok cs' -> same_clock (cs_db cs) (cs_db cs').
Proof.
  apply (foldM_clock cs_db). intros s t s' H. unfold _apply_transaction in H. bind H as u1 V. bind H as u2 U2. bind H as u3 U3.
  bind H as u4 U4. bind H as db Hdb. injection H as <-. apply operations_clock in Hdb. by destruct (flag skip skip_transaction_dupe_check).
Qed.

(** a block in its phases, as far as clock and transactions go *)
Lemma block_phases skip producing cs b cs' :
  apply_blk skip producing cs b = Ok cs' ->
  head_block_id (cs_db cs) = previous (header b) /\ head_block_time (cs_db cs) < timestamp (header b) /\
  exists db0 cs1 cs2 cs3,
    same_clock (cs_db cs) db0 /\ foldM (apply_trx skip producing) (cs <| cs_db := db0 |>) (block_transactions b) = Ok cs1 /\
    transactions cs2 = transactions cs1 /\ clear_expired_transactions cs2 = Ok cs3 /\
    cs_db cs2 = cs_db cs3 /\ transactions cs' = transactions cs3 /\ same_clock (cs_db cs3) (cs_db cs') /\
    head_block_time (cs_db cs3) = timestamp (header b) /\ head_block_num (cs_db cs3) = block_num (header b) /\
    head_block_id (cs_db cs3) = block_id (header b).
Proof.
  intros H. unfold _apply_block, on_db in H. bind H as csa H1. bind H as csb H2. bind H2 as db2 H2'. injection H2 as <-.
  bind H as csc H3. bind H3 as db3 H3'. injection H3 as <-. bind H as db4 H4. injection H as <-. simpl in *.
  unfold start_block, on_db in H1. bind H1 as [db0 n] H0. bind H1 as cs1 Ht. bind H1 as cs3 Ha. bind H1 as db1 Hb. injection H1 as <-. simpl in *.
  apply apply_header_links in H0 as (C0 & L1 & L2). do 2 (split; [done|]).
  destruct (advance_head_fields _ _ _ _ _ Ha) as (F1 & F2 & F3 & cs2 & Hc & E1 & E2).
  exists db0, cs1, cs2, cs3. split_and!; try done. simpl.
  etrans; [by apply before_burn_clock|]. etrans; [by apply burn_and_print_clock|]. etrans; [by apply cashout_clock|by apply after_payout_clock].
Qed.

(** C4: A block that is applied extends the chain: it names the old head as its
    predecessor and is later than it, it becomes the head with its number, id and
    time, and the number of the head is the number stored in its id. *)
Theorem block_extends_head skip producing cs b cs' :
  num_from_id (head_block_id (cs_db cs)) = head_block_num (cs_db cs) ->
  _apply_block trx_id recovered_keys merkle_digest hash_pair hash trx_pack_size skip producing cs b = Ok cs' ->
  previous (header b) = head_block_id (cs_db cs) /\ head_block_time (cs_db cs) < head_block_time (cs_db cs') /\
  head_block_time (cs_db cs') = timestamp (header b) /\ head_block_id (cs_db cs') = block_id (header b) /\
  head_block_num (cs_db cs') = u32 (head_block_num (cs_db cs) + 1) /\
  num_from_id (head_block_id (cs_db cs')) = head_block_num (cs_db cs').
Proof.
  intros Hn H. destruct (block_phases _ _ _ _ _ H) as (L1 & L2 & db0 & cs1 & cs2 & cs3 & _ & _ & _ & _ & _ & _ & (E1 & E2 & E3) & F1 & F2 & F3).
  rewrite E1, E2, E3, F1, F2, F3. split; [done|]. split; [done|]. split; [done|]. split; [done|].
  assert (block_num (header b) = u32 (head_block_num (cs_db cs) + 1)) as En by (unfold block_num; by rewrite <- L1, Hn).
  split; [done|]. apply id_num. unfold block_num. apply Z.mod_pos_bound. lia.
Qed.

(** ** Replay protection *)

(** what happens to the chain between two transactions: another transaction that
    is pushed, or a block *)
Inductive chain_step : chain_state -> chain_state -> Prop :=
| step_transaction skip producing cs trx cs' :
    flag skip skip_transaction_dupe_check = false -> apply_trx skip producing cs trx = Ok cs' -> chain_step cs cs'
| step_block skip producing cs b cs' :
    flag skip skip_transaction_dupe_check = false -> 0 < block_num (header b) ->
    apply_blk skip producing cs b = Ok cs' -> chain_step cs cs'.

Lemma transactions_spent trx skip producing trxs : forall cs cs',
  flag skip skip_transaction_dupe_check = false -> foldM (apply_trx skip producing) cs trxs = Ok cs' ->
  spent trx_id trx cs -> spent trx_id trx cs'.
Proof.
  induction trxs as [|t ts IH]; intros cs cs' Hd H Hs; cbn [foldM] in H; [by injection H as <-|]. bind H as cs1 H1.
  eapply IH; [done|exact H|]. by eapply trx_spent.
Qed.

Lemma block_spent trx skip producing cs b cs' :
  flag skip skip_transaction_dupe_check = false -> 0 < block_num (header b) -> apply_blk skip producing cs b = Ok cs' ->
  spent trx_id trx cs -> spent trx_id trx cs'.
Proof.
  intros Hd Hn H Hs. destruct (block_phases _ _ _ _ _ H) as
    (_ & L & db0 & cs1 & cs2 & cs3 & (C1 & C2 & _) & Ht & E1 & Hc & E2 & E3 & (T1 & T2 & _) & F1 & F2 & _).
  assert (spent trx_id trx (cs <| cs_db := db0 |>)) as S0 by (unfold spent in *; simpl; by rewrite C1, C2).
  pose proof (transactions_spent _ _ _ _ _ _ Hd Ht S0) as S1. apply transactions_clock in Ht as (C1' & _). simpl in C1'.
  assert (spent trx_id trx cs2) as S2.
  { unfold spent in *. rewrite E1, E2, F1, F2. destruct S1 as [S1|[S1 _]]; [by left|right]. rewrite C1', C1 in S1. split; [lia|done]. }
  apply clear_spent with (1 := eq_ind_r (fun x => 0 < x) Hn (eq_trans (f_equal head_block_num E2) F2)) (2 := Hc) in S2.
  unfold spent in *. by rewrite E3, T1, T2.
Qed.

(** C3: No transaction is applied twice.  Once a transaction has been applied it is
    rejected in every later state of the chain, whatever transactions and blocks
    came in between, also after its record has been cleared, because the record is
    kept until the transaction expires. *)
Theorem no_replay skip producing cs trx cs1 cs2 skip' producing' :
  flag skip skip_transaction_dupe_check = false -> apply_trx skip producing cs trx = Ok cs1 ->
  rtc chain_step cs1 cs2 -> flag skip' skip_transaction_dupe_check = false ->
  is_ok (apply_trx skip' producing' cs2 trx) = false.
Proof.
  intros Hd H1 Hr Hd'. apply spent_rejected; [done|]. apply applied_spent in H1; [|done].
  induction Hr as [|x y z Hstep _ IH]; [done|]. apply IH.
  destruct Hstep as [sk pr c t c' Hf Ha|sk pr c b c' Hf Hb Ha]; [eapply trx_spent; [exact Hf|exact Ha|exact H1]|].
  eapply block_spent; [exact Hf|exact Hb|exact Ha|exact H1].
Qed.
End head.
