(* ===== verification/Undo.v ===== *)
(** Undo: the undo sessions of chainbase.

    From chainbase.hpp: a generic_index is a container of objects under their ids
    with a stack of undo states.  An undo state records what a session changed: the
    old values of modified objects, the values of removed ones, the ids of new ones.
    The file models the container and its sessions as they are written and shows that
    they implement an index that keeps a complete copy of itself for every session.

    The objects of an index may have unique keys beside the id (the name of an
    account).  [clash] says that two objects agree on such a key; multi_index refuses
    an insertion that clashes and, when a modification clashes, erases the object. *)
From Stdlib Require Import ZArith Lia.
From stdpp Require Import base gmap list sorting.
From S2P Require Import Prelude.
Local Open Scope Z_scope.
Local Open Scope fc_scope.

(** ** Outcomes

    An operation that throws leaves a state behind, which the destructor of the
    session sees; [Undefined] is a call outside the contract of multi_index, such as
    the modification of end(). *)

Inductive outcome (A : Type) : Type :=
| Done (a : A)
| Raised (a : A) (e : exn)
| Undefined.
Arguments Done {A} _.
Arguments Raised {A} _ _.
Arguments Undefined {A}.

Fixpoint foldO {A B} (f : A -> B -> outcome A) (a : A) (l : list B) : outcome A :=
  match l with
  | [] => Done a
  | x :: l => match f a x with Done a => foldO f a l | o => o end
  end.

Definition then_do {A} (o : outcome A) (f : A -> outcome A) : outcome A :=
  match o with Done a => f a | _ => o end.

Section index.
Context {V : Type} (clash : V -> V -> bool).

(** ** multi_index *)

Definition unique_in (m : gmap Z V) (v : V) : bool := forallb (fun kv => negb (clash v (snd kv))) (map_to_list m).

(** _indices.emplace *)
Definition mi_emplace (m : gmap Z V) (id : Z) (v : V) : option (gmap Z V) :=
  match m !! id with
  | Some _ => None
  | None => if unique_in m v then Some (<[id := v]> m) else None
  end.

(** _indices.modify at the object of an id; [inl] is the container without the
    object, which was erased *)
Definition mi_modify (m : gmap Z V) (id : Z) (f : V -> V) : option (gmap Z V + gmap Z V) :=
  v ← m !! id;
  if unique_in (delete id m) (f v) then Some (inr (<[id := f v]> m)) else Some (inl (delete id m)).

(** ** undo_state and generic_index *)

Record undo_state : Type := mk_undo_state {
  old_values : gmap Z V;
  removed_values : gmap Z V;
  new_ids : gset Z;
  old_next_id : Z;
  revision : Z
}.
#[export] Instance undo_state_rebuild : Rebuild undo_state := fun r =>
  mk_undo_state (old_values r) (removed_values r) (new_ids r) (old_next_id r) (revision r).

(** [_stack] has back() first *)
Record generic_index : Type := mk_index {
  _stack : list undo_state;
  _revision : Z;
  _next_id : Z;
  _indices : gmap Z V
}.
#[export] Instance generic_index_rebuild : Rebuild generic_index := fun r =>
  mk_index (_stack r) (_revision r) (_next_id r) (_indices r).

Definition enabled (i : generic_index) : bool := match _stack i with [] => false | _ => true end.

(** a change of the undo state on top of the stack *)
Definition on_head (f : undo_state -> undo_state) (i : generic_index) : generic_index :=
  match _stack i with
  | [] => i
  | head :: s => i <| _stack := f head :: s |>
  end.

Definition on_modify (id : Z) (v : V) : generic_index -> generic_index := on_head (fun head =>
  if bool_decide (id ∈ new_ids head) then head
  else match old_values head !! id with
       | Some _ => head
       | None => head <| old_values ::= <[id := v]> |>
       end).

Definition on_remove (id : Z) (v : V) : generic_index -> generic_index := on_head (fun head =>
  if bool_decide (id ∈ new_ids head) then head <| new_ids ::= (fun s => s ∖ {[id]}) |>
  else match old_values head !! id with
       | Some x => head <| removed_values ::= (fun r => match r !! id with Some _ => r | None => <[id := x]> r end) |>
                        <| old_values ::= delete id |>
       | None =>
           match removed_values head !! id with
           | Some _ => head
           | None => head <| removed_values ::= <[id := v]> |>
           end
       end).

Definition on_create (id : Z) : generic_index -> generic_index := on_head (fun head =>
  head <| new_ids ::= (fun s => {[id]} ∪ s) |>).

Definition emplace (c : Z -> V) (i : generic_index) : outcome generic_index :=
  let new_id := _next_id i in
  match mi_emplace (_indices i) new_id (c new_id) with
  | None => Raised i logic_error
  | Some m => Done (on_create new_id (i <| _indices := m |> <| _next_id ::= Z.succ |>))
  end.

Definition modify (id : Z) (f : V -> V) (i : generic_index) : outcome generic_index :=
  match _indices i !! id with
  | None => Undefined
  | Some v =>
      let i := on_modify id v i in
      match mi_modify (_indices i) id f with
      | None => Undefined
      | Some (inl m) => Raised (i <| _indices := m |>) logic_error
      | Some (inr m) => Done (i <| _indices := m |>)
      end
  end.

Definition remove (id : Z) (i : generic_index) : outcome generic_index :=
  match _indices i !! id with
  | None => Undefined
  | Some v => Done ((on_remove id v i) <| _indices ::= delete id |>)
  end.

Definition start_undo_session (i : generic_index) : generic_index :=
  let r := _revision i + 1 in
  i <| _stack ::= cons (mk_undo_state ∅ ∅ ∅ (_next_id i) r) |> <| _revision := r |>.

(** the objects of an id_value_type_map in the order of their ids *)
Definition id_le (x y : Z * V) : Prop := fst x <= fst y.
#[export] Instance id_le_dec : RelDecision id_le := fun x y => Z_le_dec (fst x) (fst y).
Definition in_order (m : gmap Z V) : list (Z * V) := merge_sort id_le (map_to_list m).

Definition restore_value (m : gmap Z V) (item : Z * V) : outcome (gmap Z V) :=
  match mi_modify m (fst item) (fun _ => snd item) with
  | None => Undefined
  | Some (inl m) => Raised m logic_error
  | Some (inr m) => Done m
  end.

Definition erase_new (m : gmap Z V) (id : Z) : outcome (gmap Z V) :=
  match m !! id with None => Undefined | Some _ => Done (delete id m) end.

Definition restore_removed (m : gmap Z V) (item : Z * V) : outcome (gmap Z V) :=
  match mi_emplace m (fst item) (snd item) with
  | None => Raised m logic_error
  | Some m => Done m
  end.

Definition undo (i : generic_index) : outcome generic_index :=
  match _stack i with
  | [] => Done i
  | head :: s =>
      let put m := i <| _indices := m |> in
      match foldO restore_value (_indices i) (in_order (old_values head)) with
      | Undefined => Undefined
      | Raised m e => Raised (put m) e
      | Done m =>
          match foldO erase_new m (elements (new_ids head)) with
          | Undefined => Undefined
          | Raised m e => Raised (put m) e
          | Done m =>
              match foldO restore_removed m (in_order (removed_values head)) with
              | Undefined => Undefined
              | Raised m e => Raised ((put m) <| _next_id := old_next_id head |>) e
              | Done m => Done (mk_index s (_revision i - 1) (old_next_id head) m)
              end
          end
      end
  end.

(** ** squash *)

(** the three loops of squash, over the state of the last session, change the state
    of the session before it *)
Definition squash_old (prev : undo_state) (item : Z * V) : undo_state :=
  if bool_decide (fst item ∈ new_ids prev) then prev
  else match old_values prev !! fst item with
       | Some _ => prev
       | None => prev <| old_values ::= <[fst item := snd item]> |>
       end.

Definition squash_new (prev : undo_state) (id : Z) : undo_state := prev <| new_ids ::= (fun s => {[id]} ∪ s) |>.

Definition squash_removed (prev : undo_state) (obj : Z * V) : undo_state :=
  let id := fst obj in
  let add x := fun r : gmap Z V => match r !! id with Some _ => r | None => <[id := x]> r end in
  if bool_decide (id ∈ new_ids prev) then prev <| new_ids ::= (fun s => s ∖ {[id]}) |>
  else match old_values prev !! id with
       | Some x => prev <| removed_values ::= add x |> <| old_values ::= delete id |>
       | None => prev <| removed_values ::= add (snd obj) |>
       end.

Definition merge_states (state prev_state : undo_state) : undo_state :=
  let p := fold_left squash_old (in_order (old_values state)) prev_state in
  let p := fold_left squash_new (elements (new_ids state)) p in
  fold_left squash_removed (in_order (removed_values state)) p.

Definition squash (i : generic_index) : generic_index :=
  match _stack i with
  | [] => i
  | [_] => i <| _stack := [] |>
  | state :: prev_state :: s => i <| _stack := merge_states state prev_state :: s |> <| _revision ::= Z.pred |>
  end.

(** ** commit, undo_all, set_revision *)

(** front() is the last element *)
Fixpoint drop_front (n : Z) (oldest_first : list undo_state) : list undo_state :=
  match oldest_first with
  | u :: s => if revision u <=? n then drop_front n s else oldest_first
  | [] => []
  end.

Definition commit (n : Z) (i : generic_index) : generic_index :=
  i <| _stack ::= (fun s => rev (drop_front n (rev s))) |>.

Fixpoint undo_while (fuel : nat) (i : generic_index) : outcome generic_index :=
  match fuel with
  | O => Done i
  | S fuel => if enabled i then then_do (undo i) (undo_while fuel) else Done i
  end.
Definition undo_all (i : generic_index) : outcome generic_index := undo_while (length (_stack i)) i.

Definition set_revision (n : Z) (i : generic_index) : outcome generic_index :=
  if enabled i then Raised i logic_error else Done (i <| _revision := n |>).
End index.
Arguments undo_state : clear implicits.
Arguments generic_index : clear implicits.

(** ** The specification: an index that keeps copies of itself *)

Section spec.
Context {V : Type} (clash : V -> V -> bool).

Record version : Type := mk_version { objects : gmap Z V; next_id : Z }.
Record versions : Type := mk_versions { current : version; saved : list (Z * version); rev_num : Z }.

Fixpoint drop_saved (n : Z) (oldest_first : list (Z * version)) : list (Z * version) :=
  match oldest_first with
  | (r, v) :: s => if r <=? n then drop_saved n s else oldest_first
  | [] => []
  end.

Inductive command : Type :=
| Emplace (c : Z -> V)
| Modify (id : Z) (f : V -> V)
| Remove (id : Z)
| Start
| Undo
| Squash
| Commit (n : Z)
| UndoAll
| SetRevision (n : Z).

(** what the commands mean: a session is a copy, undo goes back to it *)
Definition spec_step (a : versions) (c : command) : outcome versions :=
  let '(mk_version m n) := current a in
  match c with
  | Emplace c =>
      match mi_emplace clash m n (c n) with
      | None => Raised a logic_error
      | Some m => Done (mk_versions (mk_version m (n + 1)) (saved a) (rev_num a))
      end
  | Modify id f =>
      match m !! id with
      | None => Undefined
      | Some v => Done (mk_versions (mk_version (<[id := f v]> m) n) (saved a) (rev_num a))
      end
  | Remove id =>
      match m !! id with
      | None => Undefined
      | Some _ => Done (mk_versions (mk_version (delete id m) n) (saved a) (rev_num a))
      end
  | Start => Done (mk_versions (current a) ((rev_num a + 1, current a) :: saved a) (rev_num a + 1))
  | Undo =>
      match saved a with
      | [] => Done a
      | (_, v) :: s => Done (mk_versions v s (rev_num a - 1))
      end
  | Squash =>
      match saved a with
      | [] => Done a
      | [_] => Done (mk_versions (current a) [] (rev_num a))
      | _ :: s => Done (mk_versions (current a) s (rev_num a - 1))
      end
  | Commit n => Done (mk_versions (current a) (rev (drop_saved n (rev (saved a)))) (rev_num a))
  | UndoAll =>
      Done (mk_versions (default (current a) (snd <$> last (saved a))) [] (rev_num a - Z.of_nat (length (saved a))))
  | SetRevision n =>
      match saved a with
      | [] => Done (mk_versions (current a) [] n)
      | _ => Raised a logic_error
      end
  end.

(** what the index does *)
Definition step (i : generic_index V) (c : command) : outcome (generic_index V) :=
  match c with
  | Emplace c => emplace clash c i
  | Modify id f => modify clash id f i
  | Remove id => remove id i
  | Start => Done (start_undo_session i)
  | Undo => undo clash i
  | Squash => Done (squash i)
  | Commit n => Done (commit n i)
  | UndoAll => undo_all clash i
  | SetRevision n => set_revision n i
  end.

(** ** The refinement relation *)

(** two values with the same unique keys *)
Definition same_keys (x y : V) : Prop := forall w, clash x w = clash y w.

#[export] Instance same_keys_equivalence : Equivalence same_keys.
Proof. split; [by intros x w|by intros x y H w|intros x y z H1 H2 w; by rewrite H1, H2]. Qed.

Definition clash_free (m : gmap Z V) : Prop :=
  forall i j x y, i <> j -> m !! i = Some x -> m !! j = Some y -> clash x y = false.

Definition version_ok (v : version) : Prop :=
  clash_free (objects v) /\ forall id x, objects v !! id = Some x -> id < next_id v.

(** what an undo state says of one object: (in new_ids, old value, removed value)
    against the object before the session and now *)
Inductive change : bool -> option V -> option V -> option V -> option V -> Prop :=
| change_nop x : change false None None x x
| change_new v : change true None None None (Some v)
| change_upd x y : same_keys x y -> change false (Some x) None (Some x) (Some y)
| change_del x : change false None (Some x) (Some x) None.

Definition changes (u : undo_state V) (before now : gmap Z V) : Prop :=
  forall id, change (bool_decide (id ∈ new_ids u)) (old_values u !! id) (removed_values u !! id) (before !! id) (now !! id).

Record delta (u : undo_state V) (before now : version) : Prop := mk_delta {
  delta_changes : changes u (objects before) (objects now);
  delta_fresh : forall id, id ∈ new_ids u -> next_id before <= id;
  delta_next : old_next_id u = next_id before;
  delta_later : next_id before <= next_id now
}.

Inductive tracks : list (undo_state V) -> list (Z * version) -> version -> Prop :=
| tracks_nil now : version_ok now -> tracks [] [] now
| tracks_cons u s before saved now :
    version_ok now -> delta u before now -> tracks s saved before ->
    tracks (u :: s) ((revision u, before) :: saved) now.

Definition refines (i : generic_index V) (a : versions) : Prop :=
  tracks (_stack i) (saved a) (mk_version (_indices i) (_next_id i)) /\
  current a = mk_version (_indices i) (_next_id i) /\ _revision i = rev_num a.
End spec.
Arguments version : clear implicits.
Arguments versions : clear implicits.
Arguments command : clear implicits.

(** ** Restoring objects *)

Section facts.
Context {V : Type} (clash : V -> V -> bool) (clash_sym : forall x y, clash x y = clash y x).
Implicit Types (m : gmap Z V) (u : undo_state V).

Lemma unique_in_spec m v : unique_in clash m v = true <-> forall id x, m !! id = Some x -> clash v x = false.
Proof.
  unfold unique_in. rewrite forallb_forall. split.
  - intros H id x Hx. apply negb_true_iff. apply (H (id, x)). by apply list_elem_of_In, elem_of_map_to_list.
  - intros H [id x] Hx. apply negb_true_iff. apply (H id). by apply elem_of_map_to_list, list_elem_of_In.
Qed.

Lemma in_order_perm m : in_order m ≡ₚ map_to_list m.
Proof. apply merge_sort_Permutation. Qed.

Lemma in_order_map m : list_to_map (in_order m) = m.
Proof.
  rewrite <- (list_to_map_to_list m) at 2. apply list_to_map_proper; [|apply in_order_perm].
  rewrite in_order_perm. apply NoDup_fst_map_to_list.
Qed.

Lemma in_order_NoDup m : NoDup (in_order m).*1.
Proof. rewrite in_order_perm. apply NoDup_fst_map_to_list. Qed.

Lemma in_order_elem m id x : (id, x) ∈ in_order m <-> m !! id = Some x.
Proof. by rewrite in_order_perm, elem_of_map_to_list. Qed.

Lemma modify_fits m id x y :
  clash_free clash m -> m !! id = Some x -> same_keys clash x y ->
  unique_in clash (delete id m) y = true /\ clash_free clash (<[id := y]> m).
Proof.
  intros Hm Hx Hk. assert (forall j w, j <> id -> m !! j = Some w -> clash y w = false) as Hy.
  { intros j w Hj Hw. rewrite <- Hk. eapply (Hm id j); [|done|done]. by symmetry. }
  split.
  - apply unique_in_spec. intros j w Hw. apply lookup_delete_Some in Hw as [Hj Hw]. eapply Hy; [|exact Hw]. by symmetry.
  - intros i j a b Hij [[<- <-]|[Hi Ha]]%lookup_insert_Some [[<- <-]|[Hj Hb]]%lookup_insert_Some; [done|..].
    + by eapply Hy.
    + rewrite clash_sym. by eapply Hy.
    + by eapply (Hm i j).
Qed.

Lemma restore_values_done l : forall m,
  NoDup l.*1 -> clash_free clash m ->
  (forall id x, (id, x) ∈ l -> exists y, m !! id = Some y /\ same_keys clash x y) ->
  foldO (restore_value clash) m l = Done (list_to_map l ∪ m) /\ clash_free clash (list_to_map l ∪ m).
Proof.
  induction l as [|[id x] l IH]; intros m Hd Hm Hl; csimpl in *; [by rewrite map_empty_union|].
  apply NoDup_cons in Hd as [Hi Hd]. destruct (Hl id x) as (y & Hy & Hk); [by left|].
  destruct (modify_fits m id y x) as [Hf Hc]; [done|done|by symmetry|].
  unfold restore_value at 1, mi_modify. simpl. rewrite Hy. simpl. rewrite Hf.
  rewrite <- !(insert_union_l (list_to_map l) m), !(insert_union_r (list_to_map l) m)
    by (by apply not_elem_of_list_to_map_1).
  apply IH; [done|done|]. intros j z Hz. destruct (Hl j z) as (w & Hw & Hk'); [by right|].
  exists w. split; [|done]. rewrite lookup_insert_ne; [done|]. intros <-. apply Hi. apply list_elem_of_fmap. by exists (id, z).
Qed.

Lemma erase_new_done l : forall m,
  NoDup l -> (forall id, id ∈ l -> is_Some (m !! id)) -> foldO erase_new m l = Done (foldr delete m l).
Proof.
  induction l as [|id l IH]; intros m Hd Hl; simpl; [done|]. apply NoDup_cons in Hd as [Hi Hd].
  destruct (Hl id) as [v Hv]; [by left|]. unfold erase_new at 1. rewrite Hv. rewrite IH; [|done|].
  - f_equal. clear. induction l as [|j l IH]; simpl; [done|]. by rewrite IH, delete_delete.
  - intros j Hj. rewrite lookup_delete_ne by (intros ->; done). apply Hl. by right.
Qed.

Lemma restore_removed_done l : forall m,
  NoDup l.*1 -> clash_free clash (list_to_map l ∪ m) -> (forall id, id ∈ l.*1 -> m !! id = None) ->
  foldO (restore_removed clash) m l = Done (list_to_map l ∪ m).
Proof.
  induction l as [|[id x] l IH]; intros m Hd Hc Hl; csimpl in *; [by rewrite map_empty_union|].
  apply NoDup_cons in Hd as [Hi Hd]. unfold restore_removed at 1, mi_emplace. simpl.
  rewrite Hl by (by left).
  assert ((list_to_map l : gmap Z V) !! id = None) as Hn by (by apply not_elem_of_list_to_map_1).
  assert (unique_in clash m x = true) as ->.
  { apply unique_in_spec. intros j w Hw. destruct (decide (j = id)) as [->|Hj]; [rewrite Hl in Hw by (by left); done|].
    destruct ((list_to_map l : gmap Z V) !! j) as [z|] eqn:Hz.
    { assert (j ∈ l.*1) as Hin by (apply elem_of_list_to_map_2 in Hz; apply list_elem_of_fmap; by exists (j, z)).
      rewrite Hl in Hw by (by right). done. }
    apply (Hc id j); [done| |].
    - by rewrite lookup_union, lookup_insert_eq, union_Some_l.
    - rewrite lookup_union, lookup_insert_ne, Hz, Hw by done. done. }
  rewrite <- insert_union_l, insert_union_r in * by done. apply IH; [done|done|].
  intros j Hj. rewrite lookup_insert_ne; [apply Hl; by right|]. by intros ->.
Qed.

(** ** Reading an undo state *)

Lemma change_old u m0 m1 id x :
  changes clash u m0 m1 -> old_values u !! id = Some x ->
  (id ∉ new_ids u) /\ removed_values u !! id = None /\ m0 !! id = Some x /\ exists y, m1 !! id = Some y /\ same_keys clash x y.
Proof.
  intros H Hx. specialize (H id). rewrite Hx in H. inversion H as [| |? y|]; subst.
  split; [by eapply bool_decide_eq_false|]. split; [done|]. split; [done|]. by exists y.
Qed.

Lemma change_removed u m0 m1 id x :
  changes clash u m0 m1 -> removed_values u !! id = Some x ->
  (id ∉ new_ids u) /\ old_values u !! id = None /\ m0 !! id = Some x /\ m1 !! id = None.
Proof.
  intros H Hx. specialize (H id). rewrite Hx in H. inversion H; subst.
  split; [by eapply bool_decide_eq_false|done].
Qed.

Lemma change_created u m0 m1 id :
  changes clash u m0 m1 -> id ∈ new_ids u ->
  old_values u !! id = None /\ removed_values u !! id = None /\ m0 !! id = None /\ is_Some (m1 !! id).
Proof.
  intros H Hx. specialize (H id). rewrite bool_decide_true in H by done. inversion H; subst. done.
Qed.

(** what undo computes brings the objects back *)
Lemma undo_objects u m0 m1 :
  changes clash u m0 m1 -> removed_values u ∪ foldr delete (old_values u ∪ m1) (elements (new_ids u)) = m0.
Proof.
  intros H. apply map_eq. intros id. specialize (H id). rewrite lookup_union.
  destruct (decide (id ∈ new_ids u)) as [Hn|Hn].
  - rewrite bool_decide_true in H by done. rewrite lookup_foldr_delete by (by apply elem_of_elements).
    revert H. generalize (old_values u !! id) (removed_values u !! id) (m0 !! id) (m1 !! id). by inversion 1.
  - rewrite bool_decide_false in H by done. rewrite lookup_foldr_delete_not_elem_of by (by rewrite elem_of_elements).
    rewrite lookup_union. revert H. generalize (old_values u !! id) (removed_values u !! id) (m0 !! id) (m1 !! id).
    intros [] [] [] [] H; by inversion H; subst.
Qed.

Lemma undo_done i before u s :
  _stack i = u :: s -> version_ok clash (mk_version (_indices i) (_next_id i)) -> version_ok clash before ->
  delta clash u before (mk_version (_indices i) (_next_id i)) ->
  undo clash i = Done (mk_index s (_revision i - 1) (next_id before) (objects before)).
Proof.
  intros Es [Hc _] [Hc0 _] [Hd Hf Hn _]. simpl in *. unfold undo. rewrite Es.
  destruct (restore_values_done (in_order (old_values u)) (_indices i)) as [-> _]; [apply in_order_NoDup|done| |].
  { intros id x Hx%in_order_elem. apply (change_old _ _ _ _ _ Hd Hx). }
  rewrite in_order_map, erase_new_done; [|apply NoDup_elements|].
  2:{ intros id Hid%elem_of_elements. destruct (change_created _ _ _ _ Hd Hid) as (E & _ & _ & H).
      by rewrite lookup_union_r. }
  assert (removed_values u ∪ foldr delete (old_values u ∪ _indices i) (elements (new_ids u)) = objects before) as E
    by (by apply undo_objects).
  rewrite restore_removed_done, in_order_map, E; [by rewrite Hn|apply in_order_NoDup|by rewrite in_order_map, E|].
  intros id Hid. apply list_elem_of_fmap in Hid as ([j x] & -> & Hx%in_order_elem). simpl.
  destruct (change_removed _ _ _ _ _ Hd Hx) as (Hj & Ho & _ & Hi).
  rewrite lookup_foldr_delete_not_elem_of by (by rewrite elem_of_elements). by rewrite lookup_union, Ho, Hi.
Qed.

(** ** Recording a change *)

(** the undo state after the object [id] was modified, removed or created *)
Definition record_modify (id : Z) (v : V) u : undo_state V :=
  if bool_decide (id ∈ new_ids u) then u
  else match old_values u !! id with Some _ => u | None => u <| old_values ::= <[id := v]> |> end.

Lemma changes_modify u m0 m1 id v w :
  changes clash u m0 m1 -> m1 !! id = Some v -> same_keys clash v w ->
  changes clash (record_modify id v u) m0 (<[id := w]> m1).
Proof.
  intros H Hv Hk j. pose proof (H j) as Hj. unfold record_modify. destruct (decide (j = id)) as [->|Hn].
  - rewrite lookup_insert_eq. rewrite Hv in Hj. case_bool_decide as Hc.
    + rewrite bool_decide_true by done. inversion Hj; subst. constructor.
    + destruct (m0 !! id), (old_values u !! id) as [x|] eqn:Eo; simpl; rewrite bool_decide_false, ?lookup_insert_eq, ?Eo by done;
        inversion Hj as [| |? ? Hx|]; subst; constructor; (done || by transitivity v).
  - rewrite lookup_insert_ne by done. destruct (bool_decide (id ∈ new_ids u)); [done|].
    destruct (old_values u !! id); [done|]. simpl. by rewrite lookup_insert_ne.
Qed.

Definition record_remove (id : Z) (v : V) u : undo_state V :=
  if bool_decide (id ∈ new_ids u) then u <| new_ids ::= (fun s => s ∖ {[id]}) |>
  else match old_values u !! id with
       | Some x => u <| removed_values ::= (fun r => match r !! id with Some _ => r | None => <[id := x]> r end) |>
                     <| old_values ::= delete id |>
       | None => match removed_values u !! id with Some _ => u | None => u <| removed_values ::= <[id := v]> |> end
       end.

Lemma changes_remove u m0 m1 id v :
  changes clash u m0 m1 -> m1 !! id = Some v -> changes clash (record_remove id v u) m0 (delete id m1).
Proof.
  intros H Hv j. pose proof (H j) as Hj. unfold record_remove. destruct (decide (j = id)) as [->|Hn].
  - rewrite lookup_delete_eq. rewrite Hv in Hj. case_bool_decide as Hc.
    + simpl. rewrite bool_decide_false by set_solver.
      by inversion Hj; subst; constructor.
    + destruct (old_values u !! id) as [x|] eqn:Eo, (removed_values u !! id) as [y|] eqn:Er; [by inversion Hj| |by inversion Hj|];
        simpl; rewrite ?Er; simpl; rewrite bool_decide_false, ?lookup_insert_eq, ?lookup_delete_eq, ?Eo by done; destruct (m0 !! id); inversion Hj; subst; constructor.
  - rewrite lookup_delete_ne by done. destruct (bool_decide (id ∈ new_ids u)).
    + simpl. by rewrite (bool_decide_ext _ (j ∈ new_ids u)) by set_solver.
    + destruct (old_values u !! id).
      * simpl. rewrite lookup_delete_ne by done. destruct (removed_values u !! id); [done|]. by rewrite lookup_insert_ne.
      * destruct (removed_values u !! id); [done|]. simpl. by rewrite lookup_insert_ne.
Qed.

Lemma changes_create u m0 m1 id v :
  changes clash u m0 m1 -> m0 !! id = None -> m1 !! id = None ->
  changes clash (u <| new_ids ::= (fun s => {[id]} ∪ s) |>) m0 (<[id := v]> m1).
Proof.
  intros H H0 H1 j. pose proof (H j) as Hj. simpl. destruct (decide (j = id)) as [->|Hn].
  - rewrite bool_decide_true, lookup_insert_eq by set_solver. rewrite H0, H1 in *. inversion Hj; subst. constructor.
  - rewrite lookup_insert_ne by done.
    by rewrite (bool_decide_ext _ (j ∈ new_ids u)) by set_solver.
Qed.

(** ** Squashing replays the last session on the one before *)

Lemma replay {B} (g : undo_state V -> B -> undo_state V) (key : B -> Z) m0 m1 m2 l : forall u m,
  (forall u m x, x ∈ l -> changes clash u m0 m -> m !! key x = m1 !! key x ->
     changes clash (g u x) m0 (partial_alter (fun _ => m2 !! key x) (key x) m)) ->
  NoDup (key <$> l) -> changes clash u m0 m -> (forall x, x ∈ l -> m !! key x = m1 !! key x) ->
  exists m', changes clash (fold_left g l u) m0 m' /\ forall id, m' !! id = if decide (id ∈ key <$> l) then m2 !! id else m !! id.
Proof.
  induction l as [|x l IH]; intros u m Hg Hd Hc Hm; csimpl in *; [by exists m|]. apply NoDup_cons in Hd as [Hx Hd].
  destruct (IH (g u x) (partial_alter (fun _ => m2 !! key x) (key x) m)) as (m' & Hc' & Hm').
  - intros v m' y Hy. apply Hg. by right.
  - done.
  - apply Hg; [by left|done|apply Hm; by left].
  - intros y Hy. rewrite lookup_partial_alter_ne; [apply Hm; by right|]. intros E. apply Hx. rewrite E. by apply list_elem_of_fmap_2.
  - exists m'. split; [done|]. intros id. rewrite Hm'. destruct (decide (id = key x)) as [->|Hn].
    + rewrite decide_False by done. rewrite decide_True by (by left). by rewrite lookup_partial_alter_eq.
    + rewrite lookup_partial_alter_ne by done. repeat case_decide; set_solver.
Qed.

Lemma squash_old_record u item : squash_old u item = record_modify (fst item) (snd item) u.
Proof. done. Qed.

Lemma squash_removed_record u item : squash_removed u item = record_remove (fst item) (snd item) u.
Proof.
  unfold squash_removed, record_remove. destruct (bool_decide _); [done|]. destruct (old_values u !! _); [done|].
  simpl. destruct u as [o r n nx rv]. simpl. by destruct (r !! fst item) eqn:E; unfold modify_field; simpl; rewrite E.
Qed.

Lemma merge_changes a b m0 m1 m2 :
  changes clash a m0 m1 -> changes clash b m1 m2 -> (forall id, id ∈ new_ids b -> m0 !! id = None) ->
  changes clash (merge_states b a) m0 m2.
Proof.
  intros Ha Hb Hn. unfold merge_states.
  destruct (replay squash_old fst m0 m1 m2 (in_order (old_values b)) a m1) as (m' & C1 & E1).
  { intros u m [id x] Hx%in_order_elem Hc Hm. destruct (change_old _ _ _ _ _ Hb Hx) as (_ & _ & Hx1 & w & Hw & Hk).
    rewrite squash_old_record. simpl in *. rewrite Hw. apply changes_modify; [done|congruence|done]. }
  { apply in_order_NoDup. } { done. } { done. }
  destruct (replay squash_new id m0 m1 m2 (elements (new_ids b)) (fold_left squash_old (in_order (old_values b)) a) m') as (m'' & C2 & E2).
  { intros u m j Hj%elem_of_elements Hc Hm. destruct (change_created _ _ _ _ Hb Hj) as (_ & _ & Hj1 & [w Hw]). unfold id in *.
    rewrite Hw. apply changes_create; [done|by apply Hn|]. by rewrite Hm. }
  { rewrite list_fmap_id. apply NoDup_elements. } { done. }
  { intros j Hj%elem_of_elements. rewrite E1. case_decide as D; [|done]. apply list_elem_of_fmap in D as ([k x] & Ek & Hx%in_order_elem).
    destruct (change_old _ _ _ _ _ Hb Hx) as (Hk & _). simpl in Ek. unfold id in Ek. by subst. }
  destruct (replay squash_removed fst m0 m1 m2 (in_order (removed_values b))
      (fold_left squash_new (elements (new_ids b)) (fold_left squash_old (in_order (old_values b)) a)) m'') as (m3 & C3 & E3).
  { intros u m [k x] Hx%in_order_elem Hc Hm. destruct (change_removed _ _ _ _ _ Hb Hx) as (_ & _ & Hx1 & Hx2).
    rewrite squash_removed_record. simpl in *. rewrite Hx2. apply changes_remove; [done|congruence]. }
  { apply in_order_NoDup. } { done. }
  { intros [k x] Hx%in_order_elem. destruct (change_removed _ _ _ _ _ Hb Hx) as (Hk & Ho & _). simpl.
    rewrite E2, list_fmap_id, decide_False by (by rewrite elem_of_elements). rewrite E1, decide_False; [done|].
    intros D. apply list_elem_of_fmap in D as ([j y] & -> & Hy%in_order_elem). simpl in *. congruence. }
  replace m2 with m3; [done|]. apply map_eq. intros j. rewrite E3. case_decide as D3; [done|]. rewrite E2. case_decide as D2; [done|].
  rewrite E1. case_decide as D1; [done|]. pose proof (Hb j) as Hj. rewrite list_fmap_id, elem_of_elements in D2.
  rewrite bool_decide_false in Hj by done.
  destruct (old_values b !! j) as [x|] eqn:Eo; [destruct D1; apply list_elem_of_fmap; exists (j, x); by rewrite in_order_elem|].
  destruct (removed_values b !! j) as [x|] eqn:Er; [destruct D3; apply list_elem_of_fmap; exists (j, x); by rewrite in_order_elem|].
  by inversion Hj.
Qed.

Lemma fold_keeps {B} (g : undo_state V -> B -> undo_state V) (P : undo_state V -> Prop) l : forall u,
  (forall u x, x ∈ l -> P u -> P (g u x)) -> P u -> P (fold_left g l u).
Proof.
  induction l as [|x l IH]; intros u Hg Hu; simpl; [done|]. apply IH; [intros v y Hy; apply Hg; by right|]. apply Hg; [by left|done].
Qed.

(** the ids and numbers of the merged state *)
Lemma merge_frame (a b : undo_state V) :
  old_next_id (merge_states b a) = old_next_id a /\ revision (merge_states b a) = revision a /\
  (new_ids (merge_states b a) ⊆ new_ids a ∪ new_ids b).
Proof.
  clear clash_sym clash.
  unfold merge_states. set (P := fun u => old_next_id u = old_next_id a /\ revision u = revision a /\ (new_ids u ⊆ new_ids a ∪ new_ids b)).
  change (P (fold_left squash_removed (in_order (removed_values b)) (fold_left squash_new (elements (new_ids b))
    (fold_left squash_old (in_order (old_values b)) a)))).
  apply fold_keeps; [|apply fold_keeps; [|apply fold_keeps; [|by unfold P; set_solver]]].
  - intros u x _ (H1 & H2 & H3). rewrite squash_removed_record. unfold record_remove.
    destruct (bool_decide _); [by unfold P; simpl; set_solver|]. destruct (old_values u !! _); [done|]. by destruct (removed_values u !! _).
  - intros u x Hx%elem_of_elements (H1 & H2 & H3). unfold P; simpl. set_solver.
  - intros u x _ (H1 & H2 & H3). rewrite squash_old_record. unfold record_modify. destruct (bool_decide _); [done|]. by destruct (old_values u !! _).
Qed.

Lemma merge_delta a b v0 v1 v2 :
  version_ok clash v0 -> delta clash a v0 v1 -> delta clash b v1 v2 -> delta clash (merge_states b a) v0 v2.
Proof.
  intros [_ Hv] [Ha1 Ha2 Ha3 Ha4] [Hb1 Hb2 Hb3 Hb4]. destruct (merge_frame a b) as (E1 & E2 & E3). split.
  - apply (merge_changes _ _ _ (objects v1)); [done|done|]. intros id Hid. destruct (objects v0 !! id) as [x|] eqn:Hx; [|done].
    apply Hv in Hx. apply Hb2 in Hid. lia.
  - intros id Hid. apply E3, elem_of_union in Hid as [Hid|Hid]; [by apply Ha2|]. apply Hb2 in Hid. lia.
  - congruence.
  - lia.
Qed.
(** ** The simulation *)

(** the index and its specification answer alike *)
Definition agree (o : outcome (generic_index V)) (p : outcome (versions V)) : Prop :=
  match o, p with
  | Done i, Done a => refines clash i a
  | Raised i e, Raised a e' => e = e' /\ refines clash i a
  | Undefined, Undefined => True
  | _, _ => False
  end.

Lemma tracks_ok s sv now : tracks clash s sv now -> version_ok clash now.
Proof. by inversion 1. Qed.

Lemma tracks_change f s sv v v' :
  tracks clash s sv v -> version_ok clash v' -> next_id v <= next_id v' ->
  (forall u before, version_ok clash before -> delta clash u before v -> changes clash (f u) (objects before) (objects v') /\
     (forall id, id ∈ new_ids (f u) -> id ∈ new_ids u \/ next_id v <= id) /\
     old_next_id (f u) = old_next_id u /\ revision (f u) = revision u) ->
  tracks clash (match s with [] => [] | u :: s => f u :: s end) sv v'.
Proof.
  intros Ht Hv Hn Hf. destruct Ht as [now _|u s before sv now Hok Hd Ht]; [by constructor|].
  destruct (Hf u before) as (C & F & E1 & E2); [by apply tracks_ok in Ht|done|]. rewrite <- E2. constructor; [done| |done].
  destruct Hd as [D1 D2 D3 D4]. split; [done| |congruence|lia]. intros id Hid. apply F in Hid as [Hid|Hid]; [by apply D2|lia].
Qed.

Lemma on_head_fields f (i : generic_index V) :
  _stack (on_head f i) = match _stack i with [] => [] | u :: s => f u :: s end /\ _revision (on_head f i) = _revision i /\
  _next_id (on_head f i) = _next_id i /\ _indices (on_head f i) = _indices i.
Proof. unfold on_head. by destruct (_stack i) eqn:E; rewrite ?E. Qed.

Lemma emplace_ok m n v m' :
  version_ok clash (mk_version m n) -> mi_emplace clash m n v = Some m' ->
  m !! n = None /\ m' = <[n := v]> m /\ version_ok clash (mk_version m' (n + 1)).
Proof.
  unfold mi_emplace. intros [Hc Hn] H. simpl in *. destruct (m !! n) eqn:E; [done|]. destruct (unique_in clash m v) eqn:U; [|done].
  injection H as <-. rewrite unique_in_spec in U. split; [done|]. split; [done|]. split; simpl.
  - intros i j x y Hij [[<- <-]|[Hi Hx]]%lookup_insert_Some [[<- <-]|[Hj Hy]]%lookup_insert_Some; [done|by eapply U| |by eapply (Hc i j)].
    rewrite clash_sym. by eapply U.
  - intros id x [[<- <-]|[Hi Hx]]%lookup_insert_Some; [lia|]. apply Hn in Hx. lia.
Qed.

Lemma version_modify m n id v w :
  version_ok clash (mk_version m n) -> m !! id = Some v -> same_keys clash v w -> version_ok clash (mk_version (<[id := w]> m) n).
Proof.
  intros [Hc Hn] Hv Hk. split; simpl; [by eapply modify_fits|].
  intros j x [[<- <-]|[Hj Hx]]%lookup_insert_Some; [by eapply Hn|by eapply Hn].
Qed.

Lemma version_remove m n id : version_ok clash (mk_version m n) -> version_ok clash (mk_version (delete id m) n).
Proof.
  intros [Hc Hn]. split; simpl.
  - intros i j x y Hij [_ Hx]%lookup_delete_Some [_ Hy]%lookup_delete_Some. by eapply (Hc i j).
  - intros j x [_ Hx]%lookup_delete_Some. by eapply Hn.
Qed.

Lemma record_modify_frame id v u :
  new_ids (record_modify id v u) = new_ids u /\ old_next_id (record_modify id v u) = old_next_id u /\
  revision (record_modify id v u) = revision u.
Proof. unfold record_modify. destruct (bool_decide _); [done|]. by destruct (old_values u !! id). Qed.

Lemma record_remove_frame id v u :
  (new_ids (record_remove id v u) ⊆ new_ids u) /\ old_next_id (record_remove id v u) = old_next_id u /\
  revision (record_remove id v u) = revision u.
Proof.
  unfold record_remove. destruct (bool_decide _); [simpl; set_solver|]. destruct (old_values u !! id); [done|].
  by destruct (removed_values u !! id).
Qed.

Lemma emplace_refines c i a : refines clash i a -> agree (step clash i (Emplace c)) (spec_step clash a (Emplace c)).
Proof.
  intros (Ht & Hcur & Hr). unfold step, spec_step, emplace. rewrite Hcur. pose proof (tracks_ok _ _ _ Ht) as Hok.
  destruct (mi_emplace clash (_indices i) (_next_id i) (c (_next_id i))) as [m'|] eqn:E; [|by split].
  destruct (emplace_ok _ _ _ _ Hok E) as (Hn & -> & Hok'). simpl. unfold on_create.
  edestruct on_head_fields as (E1 & E2 & E3 & E4). unfold refines. rewrite E1, E2, E3, E4. simpl. split; [|done].
  eapply tracks_change; [exact Ht|done|simpl; lia|]. intros u before [_ Hb] [D1 D2 D3 D4]. simpl in *. split; [|set_solver by lia].
  apply changes_create; [done| |done]. destruct (objects before !! _next_id i) eqn:Eb; [|done]. apply Hb in Eb. lia.
Qed.

Lemma modify_refines id f i a :
  (forall v, same_keys clash v (f v)) -> refines clash i a -> agree (step clash i (Modify id f)) (spec_step clash a (Modify id f)).
Proof.
  intros Hf (Ht & Hcur & Hr). unfold step, spec_step, modify, mi_modify. rewrite Hcur. destruct (_indices i !! id) as [v|] eqn:Hv; [|done].
  edestruct (on_head_fields (record_modify id v) i) as (E1 & E2 & E3 & E4).
  change (on_modify id v i) with (on_head (record_modify id v) i).
  rewrite E4, Hv. simpl. pose proof (tracks_ok _ _ _ Ht) as Hok. destruct (modify_fits (_indices i) id v (f v)) as [-> _]; [apply Hok|done|done|].
  unfold agree, refines. simpl. rewrite E1, E2, E3. split; [|done]. apply (tracks_change _ _ _ _ _ Ht); [by eapply version_modify|simpl; lia|].
  intros u before _ [D1 _ _ _]. destruct (record_modify_frame id v u) as (F1 & F2 & F3). rewrite F1. split; [by apply changes_modify|].
  split; [by left|done].
Qed.

Lemma remove_refines id i a : refines clash i a -> agree (step clash i (Remove id)) (spec_step clash a (Remove id)).
Proof.
  intros (Ht & Hcur & Hr). unfold step, spec_step, remove. rewrite Hcur. destruct (_indices i !! id) as [v|] eqn:Hv; [|done].
  edestruct (on_head_fields (record_remove id v) i) as (E1 & E2 & E3 & E4).
  change (on_remove id v i) with (on_head (record_remove id v) i).
  pose proof (tracks_ok _ _ _ Ht) as Hok. unfold agree, refines. simpl. rewrite E1, E2, E3, E4. split; [|done].
  apply (tracks_change _ _ _ _ _ Ht); [by apply version_remove|simpl; lia|].
  intros u before _ [D1 _ _ _]. destruct (record_remove_frame id v u) as (F1 & F2 & F3). split; [by apply changes_remove|].
  split; [set_solver|done].
Qed.

Lemma start_refines i a : refines clash i a -> agree (step clash i Start) (spec_step clash a Start).
Proof.
  intros (Ht & Hcur & Hr). unfold step, spec_step. rewrite Hcur. unfold agree, refines, start_undo_session. simpl. rewrite <- Hr. split; [|done].
  change (_revision i + 1) with (revision (mk_undo_state (V := V) ∅ ∅ ∅ (_next_id i) (_revision i + 1))) at 2.
  constructor; [by apply tracks_ok in Ht| |done]. split; simpl; [|set_solver|done|lia].
  intros j. simpl. rewrite bool_decide_false by set_solver. rewrite !lookup_empty. constructor.
Qed.

Lemma undo_refines i a : refines clash i a -> exists i', undo clash i = Done i' /\ agree (Done i') (spec_step clash a Undo) /\
  _stack i' = tl (_stack i).
Proof.
  intros (Ht & Hcur & Hr). unfold spec_step. rewrite Hcur. destruct (_stack i) as [|u s] eqn:Es.
  - exists i. unfold undo. rewrite Es. split; [done|]. destruct (saved a) eqn:Ea; [|by inversion Ht]. split; [|done].
    unfold agree, refines. by rewrite Es, Ea.
  - inversion Ht as [|? ? before sv ? Hok Hd Ht' E1 E2]; subst.
    eexists. split; [apply (undo_done i before u s); [done|done|by apply tracks_ok in Ht'|done]|].
    split; [|done]. unfold agree, refines. simpl. destruct before as [m0 n0]. simpl in *. split; [done|]. split; [done|lia].
Qed.

Lemma squash_refines i a : refines clash i a -> agree (step clash i Squash) (spec_step clash a Squash).
Proof.
  intros (Ht & Hcur & Hr). unfold step, spec_step, squash. rewrite Hcur.
  destruct (_stack i) as [|u [|u' s]] eqn:Es;
    [|inversion Ht as [|? ? before sv ? Hok Hd Ht' E1 E2]; subst..].
  - destruct (saved a) eqn:Ea; [|by inversion Ht]. unfold agree, refines. by rewrite Es, Ea.
  - inversion Ht'; subst. split; simpl; [by constructor|done].
  - inversion Ht' as [|? ? before' sv' ? Hok' Hd' Ht'' E3 E4]; subst. split; simpl; [|split; [done|lia]].
    destruct (merge_frame u' u) as (_ & E5 & _). rewrite <- E5. constructor; [done| |done].
    eapply merge_delta; [by apply tracks_ok in Ht''|done|done].
Qed.

(** commit keeps the newest states, as many as the copies it keeps *)
Lemma drop_front_drop n (l : list (undo_state V)) (sv : list (Z * version V)) :
  sv.*1 = revision <$> l -> exists k, drop_front n l = drop k l /\ drop_saved n sv = drop k sv.
Proof.
  revert sv. induction l as [|u l IH]; intros [|[r v] sv] E; simplify_eq/=; [by exists O|].
  destruct (revision u <=? n); [|by exists O]. destruct (IH sv) as (k & -> & ->); [done|]. by exists (S k).
Qed.

Lemma fmap_rev {A B} (f : A -> B) (l : list A) : f <$> rev l = rev (f <$> l).
Proof. induction l as [|x l IH]; csimpl; [done|]. by rewrite fmap_app, IH. Qed.

Lemma rev_drop_rev {A} k (l : list A) : rev (drop k (rev l)) = take (length l - k) l.
Proof. by rewrite List.skipn_rev, rev_involutive. Qed.

Lemma tracks_revisions s sv now : tracks clash s sv now -> sv.*1 = revision <$> s /\ length sv = length s.
Proof. induction 1 as [|u s before sv now _ _ _ [IH1 IH2]]; [done|]. csimpl. split; congruence. Qed.

Lemma tracks_take k s sv now : tracks clash s sv now -> tracks clash (take k s) (take k sv) now.
Proof.
  intros H. revert k. induction H as [|u s before sv now Hok Hd Ht IH]; intros [|k]; simpl; try by constructor.
Qed.

Lemma commit_refines n i a : refines clash i a -> agree (step clash i (Commit n)) (spec_step clash a (Commit n)).
Proof.
  intros (Ht & Hcur & Hr). unfold step, spec_step, commit. rewrite Hcur. unfold agree, refines. simpl. split; [|done].
  destruct (tracks_revisions _ _ _ Ht) as [E1 E2].
  destruct (drop_front_drop n (rev (_stack i)) (rev (saved a))) as (k & -> & ->).
  { rewrite !fmap_rev. by f_equal. }
  rewrite !rev_drop_rev, E2. by apply tracks_take.
Qed.

Lemma undo_while_refines fuel : forall i a,
  refines clash i a -> (length (_stack i) <= fuel)%nat ->
  exists i', undo_while clash fuel i = Done i' /\
    refines clash i' (mk_versions (default (current a) (snd <$> last (saved a))) [] (rev_num a - Z.of_nat (length (saved a)))).
Proof.
  induction fuel as [|fuel IH]; intros i a Hra Hl; pose proof Hra as (Ht & Hcur & Hr); destruct (tracks_revisions _ _ _ Ht) as [_ El].
  - exists i. split; [done|]. destruct (_stack i) eqn:Es; simpl in Hl; [|lia]. destruct (saved a) eqn:Ea; [|done]. simpl.
    unfold refines. rewrite Es. simpl. split; [done|]. split; [done|lia].
  - simpl. unfold enabled. destruct (_stack i) as [|u s] eqn:Es.
    + exists i. split; [done|]. destruct (saved a) eqn:Ea; [|done]. simpl. unfold refines. rewrite Es. simpl. split; [done|]. split; [done|lia].
    + destruct (undo_refines i a Hra) as (i1 & E1 & Ha & Es1). rewrite E1. simpl. unfold spec_step in Ha. rewrite Hcur in Ha.
      destruct (saved a) as [|[r v] sv] eqn:Ea; [done|]. simpl in Ha. rewrite Es in Es1. simpl in *.
      destruct (IH i1 (mk_versions v sv (rev_num a - 1))) as (i' & E' & R'); [done|rewrite Es1; simpl; lia|]. exists i'. split; [done|].
      simpl in R'. match goal with |- refines _ _ (mk_versions _ [] ?y) => replace y with (rev_num a - 1 - Z.of_nat (length sv)) by lia end.
      destruct sv as [|x sv]; [done|]. rewrite last_cons_cons.
      destruct (last_is_Some (x :: sv)) as [_ Hs]. destruct Hs as [y Hy]; [done|]. rewrite Hy in R' |- *. exact R'.
Qed.

(** the modifications of a command keep the unique keys of its object *)
Definition keys_kept (c : command V) : Prop :=
  match c with Modify _ f => forall v, same_keys clash v (f v) | _ => True end.

Lemma step_refines c i a : keys_kept c -> refines clash i a -> agree (step clash i c) (spec_step clash a c).
Proof.
  intros Hk Hr. destruct c as [c|id f|id| | | |n| |n].
  - by apply emplace_refines.
  - by apply modify_refines.
  - by apply remove_refines.
  - by apply start_refines.
  - destruct (undo_refines i a Hr) as (i' & E & Ha & _). simpl in E |- *. by rewrite E.
  - by apply squash_refines.
  - by apply commit_refines.
  - destruct (undo_while_refines (length (_stack i)) i a Hr) as (i' & E & Ha); [done|]. unfold step, undo_all. rewrite E. simpl in Ha |- *.
    unfold spec_step. by destruct (current a) eqn:Ec; rewrite ?Ec.
  - destruct Hr as (Ht & Hcur & Hr). unfold step, spec_step, set_revision, enabled. rewrite Hcur.
    destruct (_stack i) eqn:Es, (saved a) eqn:Ea; try (by inversion Ht); simpl; unfold refines; simpl; by rewrite Es, ?Ea.
Qed.
End facts.

(** C10: The undo stack of an index implements copies of the index, as long as no
    modification takes or frees a unique key ([keys_kept]: a modified object clashes with
    the same objects as before).  Whatever sequence of creations, such modifications,
    removals, sessions, undos, squashes and commits is run, the index answers as one that
    stores a complete copy of its objects when a session starts and goes back to the copy
    when it is undone; no iterator that is out of range is used on the way.  A session
    that moves a unique key to another object is not covered: [undo_throws_on_reused_key]
    is an example where undo throws. *)
Theorem undo_implements_copies {V} (clash : V -> V -> bool) cs i a :
  (forall x y, clash x y = clash y x) -> Forall (keys_kept clash) cs -> refines clash i a ->
  agree clash (foldO (step clash) i cs) (foldO (spec_step clash) a cs).
Proof.
  intros Hs Hcs. revert i a. induction Hcs as [|c cs Hc _ IH]; intros i a Hr; simpl; [done|].
  pose proof (step_refines clash Hs c i a Hc Hr) as H. destruct (step clash i c), (spec_step clash a c); try done. by apply IH.
Qed.

(** a concrete index: objects are pairs of a name, which is unique, and a balance *)
Definition same_name (x y : Z * Z) : bool := fst x =? fst y.
Definition empty_index : generic_index (Z * Z) := mk_index [] 0 0 ∅.
Definition credit (n : Z) (x : Z * Z) : Z * Z := (fst x, snd x + n).

Definition session_commands : list (command (Z * Z)) :=
  [Emplace (fun _ => (7, 100)); Emplace (fun _ => (8, 0)); Start; Modify 0 (credit 5); Remove 1; Start; Emplace (fun _ => (8, 1));
   Modify 0 (credit 1); Squash; Undo].

Lemma undo_implements_copies_witness :
  agree same_name (foldO (step same_name) empty_index session_commands)
    (Done (mk_versions (mk_version (<[0 := (7, 100)]> (<[1 := (8, 0)]> ∅)) 2) [] 0)).
Proof.
  change (Done (mk_versions (mk_version (<[0 := (7, 100)]> (<[1 := (8, 0)]> ∅)) 2) [] 0)) with
    (foldO (spec_step same_name) (mk_versions (mk_version ∅ 0) [] 0) session_commands).
  apply undo_implements_copies.
  - intros x y. unfold same_name. apply Z.eqb_sym.
  - repeat (apply Forall_cons; split; [try exact I; intros v w; reflexivity|]). apply Forall_nil. exact I.
  - split; [|split; reflexivity]. apply tracks_nil. split; [intros i j x y _ H|intros id x H]; by (simpl in H; rewrite lookup_empty in H).
Defined.

(** When a session renames an object and gives its old name to a new one, undo restores
    the renamed object before it erases the new one, finds the name taken and throws;
    the renamed object is lost. *)
Example undo_throws_on_reused_key :
  exists i, foldO (step same_name) empty_index
      [Emplace (fun _ => (7, 100)); Start; Modify 0 (fun x => (8, snd x)); Emplace (fun _ => (7, 1)); Undo] = Raised i logic_error /\
    _indices i !! 0 = None.
Proof. eexists. split; [vm_compute; reflexivity|reflexivity]. Qed.

(** ** Sessions and databases *)

Section database.
Context {V : Type} (clash : V -> V -> bool).

(** generic_index::session; [_apply] says that the destructor has to undo *)
Record session : Type := mk_session { _apply : bool; session_revision : Z }.
Definition open_session (revision : Z) : session := mk_session (negb (revision =? -1)) revision.
Definition session_push (s : session) : session := mk_session false (session_revision s).
Definition session_squash (s : session) (i : generic_index V) : session * generic_index V :=
  (mk_session false (session_revision s), if _apply s then squash i else i).
Definition session_undo (s : session) (i : generic_index V) : outcome (generic_index V) :=
  if _apply s then undo clash i else Done i.

(** chainbase::database holds its indices in the order they were added and passes
    every call on to each of them *)
Definition mapO (f : generic_index V -> outcome (generic_index V)) : list (generic_index V) -> outcome (list (generic_index V)) :=
  fix go l :=
    match l with
    | [] => Done []
    | i :: l =>
        match f i with
        | Undefined => Undefined
        | Raised i e => Raised (i :: l) e
        | Done i => match go l with Done l => Done (i :: l) | Raised l e => Raised (i :: l) e | Undefined => Undefined end
        end
    end.

Definition db_revision (l : list (generic_index V)) : Z := match l with [] => -1 | i :: _ => _revision i end.
Definition db_start_undo_session : list (generic_index V) -> list (generic_index V) := map start_undo_session.
Definition db_undo : list (generic_index V) -> outcome (list (generic_index V)) := mapO (undo clash).
Definition db_squash : list (generic_index V) -> list (generic_index V) := map squash.
Definition db_commit (n : Z) : list (generic_index V) -> list (generic_index V) := map (commit n).
Definition db_undo_all : list (generic_index V) -> outcome (list (generic_index V)) := mapO (undo_all clash).
Definition db_set_revision (n : Z) : list (generic_index V) -> outcome (list (generic_index V)) := mapO (set_revision n).

(** every index of a database has the same sessions *)
Definition in_step (rs : list Z) (r : Z) (l : list (generic_index V)) : Prop :=
  Forall (fun i => map revision (_stack i) = rs /\ _revision i = r) l.

Lemma in_step_start rs r l : in_step rs r l -> in_step (r + 1 :: rs) (r + 1) (db_start_undo_session l).
Proof. unfold in_step, db_start_undo_session. intros H. apply Forall_map. eapply Forall_impl; [exact H|]. by intros i [<- <-]. Qed.

Lemma in_step_squash rs r l :
  in_step rs r l -> in_step (tl rs) (match rs with _ :: _ :: _ => r - 1 | _ => r end) (db_squash l).
Proof.
  unfold in_step, db_squash. intros H. apply Forall_map. eapply Forall_impl; [exact H|]. intros i [<- <-]. unfold squash.
  destruct (_stack i) as [|u [|u' s]] eqn:Es; simpl; rewrite ?Es; [done|done|]. split; [|lia]. f_equal. apply (proj1 (proj2 (merge_frame u' u))).
Qed.

Lemma undo_stack i i' : undo clash i = Done i' ->
  _stack i' = tl (_stack i) /\ _revision i' = match _stack i with [] => _revision i | _ => _revision i - 1 end.
Proof.
  unfold undo. destruct (_stack i) as [|u s] eqn:Es; [intros [= <-]; by rewrite Es|].
  destruct (foldO _ _ _); [|done|done]. destruct (foldO _ _ _); [|done|done]. destruct (foldO _ _ _); [|done|done]. by intros [= <-].
Qed.

Lemma in_step_undo rs r l l' :
  in_step rs r l -> db_undo l = Done l' -> in_step (tl rs) (match rs with [] => r | _ => r - 1 end) l'.
Proof.
  unfold in_step, db_undo. intros H. revert l'. induction H as [|i l [<- <-] _ IH]; intros l' E; simpl in E; [by injection E as <-|].
  destruct (undo clash i) as [i'| |] eqn:Ei; [|done|done]. destruct (mapO _ l) as [l1| |]; [|done|done]. injection E as <-.
  constructor; [|by apply IH]. destruct (undo_stack _ _ Ei) as [-> ->]. by destruct (_stack i).
Qed.
End database.
