(* ===== verification/ForkDb.v ===== *)
(** ForkDb: the fork database, the tree of recent blocks.

    From fork_database.cpp and fork_database.hpp.  The blocks the node has seen since
    the last irreversible one are items linked to their predecessors by weak pointers.
    An item carries the address of its object: a weak pointer is an address, and it can
    be locked as long as the index, the head or a caller still holds the object.  The
    cache of unlinked blocks is left out, because nothing is ever put into it. *)
From Stdlib Require Import ZArith Lia String Ascii.
From stdpp Require Import base gmap strings list sorting.
From S2P Require Import Prelude.
From S2P Require Import BlockId.
From S2P Require Import Objects.
From S2P Require Import Transaction.
From S2P Require Import Operation.
From S2P Require Import Block.
From S2P Require Import Chain.
Local Open Scope string_scope.
Local Open Scope Z_scope.
Local Open Scope fc_scope.

Record fork_item : Type := mk_fork_item {
  addr : Z;
  prev : option Z;
  num : Z;
  invalid : bool;
  id : Z;
  data : signed_block
}.
#[export] Instance fork_item_rebuild : Rebuild fork_item := fun r =>
  mk_fork_item (addr r) (prev r) (num r) (invalid r) (id r) (data r).

Definition previous_id (it : fork_item) : Z := previous (header (data it)).

(** [_held] are the items to which callers hold shared pointers, [_fresh] is the
    address of the next object *)
Record fork_database : Type := mk_fork_database {
  _max_size : Z;
  _index : gmap Z fork_item;
  _head : option fork_item;
  _held : list fork_item;
  _fresh : Z
}.
#[export] Instance fork_database_rebuild : Rebuild fork_database := fun r =>
  mk_fork_database (_max_size r) (_index r) (_head r) (_held r) (_fresh r).

Definition empty_fork_database : fork_database := mk_fork_database 1024 ∅ None [] 0.

(** make_shared< fork_item >( b ) *)
Definition make_item (b : signed_block) (f : fork_database) : fork_item * fork_database :=
  (mk_fork_item (_fresh f) None (block_num (header b)) false (block_id (header b)) b, f <| _fresh ::= Z.succ |>).

(** the objects that are alive *)
Definition alive (f : fork_database) : list fork_item :=
  (option_list (_head f) ++ _held f ++ map snd (map_to_list (_index f)))%list.

Definition lock (f : fork_database) (p : option Z) : option fork_item :=
  a ← p; List.find (fun it => addr it =? a) (alive f).

(** _index.insert: the index of ids is unique, a second item of an id is not inserted *)
Definition index_insert (it : fork_item) (f : fork_database) : fork_database :=
  match _index f !! id it with Some _ => f | None => f <| _index ::= <[id it := it]> |> end.

(** ** Operations *)

Definition reset (f : fork_database) : fork_database := f <| _head := None |> <| _index := ∅ |>.

Definition pop_block (f : fork_database) : result fork_database :=
  match _head f with
  | None => Throw assert_exception
  | Some head =>
      match lock f (prev head) with
      | None => Throw assert_exception
      | Some p => Ok (f <| _head := Some p |>)
      end
  end.

Definition start_block (b : signed_block) (f : fork_database) : fork_database :=
  let '(item, f) := make_item b f in
  (index_insert item f) <| _head := Some item |>.

(** the oldest number that is still accepted, less one *)
Definition oldest (head : fork_item) (f : fork_database) : Z := Z.max 0 (num head - _max_size f).

(** the item with the pointer to its predecessor *)
Definition link (f : fork_database) (item : fork_item) : result fork_item :=
  match _head f with
  | None => Ok item
  | Some head =>
      _ ← fc_assert (oldest head f <? num item);
      if previous_id item =? 0 then Ok item
      else
        p ← get_or unlinkable_block_exception (_index f !! previous_id item);
        _ ← fc_assert (negb (invalid p));
        Ok (item <| prev := Some (addr p) |>)
  end.

Definition _push_block (item : fork_item) (f : fork_database) : result fork_database :=
  item ← link f item;
  let f := index_insert item f in
  match _head f with
  | None => Ok (f <| _head := Some item |>)
  | Some head => Ok (if num head <? num item then f <| _head := Some item |> else f)
  end.

Definition push_block (b : signed_block) (f : fork_database) : result (fork_item * fork_database) :=
  let '(item, f) := make_item b f in
  f ← _push_block item f;
  head ← get_or assert_exception (_head f);
  Ok (head, f).

(** begin() of the index of numbers; among equal numbers the order is that of insertion *)
Definition number_lt (x y : fork_item) : bool := lt_of (lex (num x ?= num y) (addr x ?= addr y)).

Definition too_old (limit : Z) (m : gmap Z fork_item) : option Z :=
  match first_by number_lt m with
  | Some (k, it) => if num it <? limit then Some k else None
  | None => None
  end.

Definition set_max_size (s : Z) (f : fork_database) : result fork_database :=
  let f := f <| _max_size := s |> in
  match _head f with
  | None => Ok f
  | Some head =>
      m ← while_next (size (_index f)) (too_old (oldest head f)) (fun m k => Ok (delete k m)) (_index f);
      Ok (f <| _index := m |>)
  end.

Definition is_known_block (i : Z) (f : fork_database) : bool := bool_decide (is_Some (_index f !! i)).
Definition fetch_block (i : Z) (f : fork_database) : option fork_item := _index f !! i.

Definition addr_le (x y : fork_item) : Prop := addr x <= addr y.
#[export] Instance addr_le_dec : RelDecision addr_le := fun x y => Z_le_dec (addr x) (addr y).

Definition fetch_block_by_number (n : Z) (f : fork_database) : list fork_item :=
  merge_sort addr_le (List.filter (fun it => num it =? n) (map snd (map_to_list (_index f)))).

(** a loop of fetch_branch_from: follow the branch of [it] down to the number [n] *)
Fixpoint descend (fuel : nat) (f : fork_database) (n : Z) (it : fork_item) : result (list fork_item * fork_item) :=
  if n <? num it then
    match fuel with
    | O => Throw assert_exception
    | S fuel =>
        p ← get_or assert_exception (lock f (prev it));
        '(l, last) ← descend fuel f n p;
        Ok (it :: l, last)
    end
  else Ok ([], it).

(** the last loop: follow both branches until they have the same predecessor *)
Fixpoint descend_both (fuel : nat) (f : fork_database) (x y : fork_item) : result (list fork_item * list fork_item) :=
  if previous_id x =? previous_id y then Ok ([x], [y])
  else
    match fuel with
    | O => Throw assert_exception
    | S fuel =>
        p ← get_or assert_exception (lock f (prev x));
        q ← get_or assert_exception (lock f (prev y));
        '(l, m) ← descend_both fuel f p q;
        Ok (x :: l, y :: m)
    end.

Definition fetch_branch_from (first second : Z) (f : fork_database) : result (list fork_item * list fork_item) :=
  first_branch ← get_or assert_exception (_index f !! first);
  second_branch ← get_or assert_exception (_index f !! second);
  let fuel := Z.to_nat (num first_branch + num second_branch) in
  '(l, x) ← descend fuel f (num second_branch) first_branch;
  '(m, y) ← descend fuel f (num x) second_branch;
  '(l', m') ← descend_both fuel f x y;
  Ok ((l ++ l')%list, (m ++ m')%list).

(** [None] is the null pointer *)
Fixpoint walk (fuel : nat) (f : fork_database) (n : Z) (it : fork_item) : option fork_item :=
  if n <? num it then
    match fuel with
    | O => None
    | S fuel => p ← lock f (prev it); walk fuel f n p
    end
  else Some it.

Definition walk_main_branch_to_num (n : Z) (f : fork_database) : option fork_item :=
  head ← _head f;
  if num head <? n then None else walk (Z.to_nat (num head)) f n head.

Definition fetch_block_on_main_branch_by_number (n : Z) (f : fork_database) : option fork_item :=
  match fetch_block_by_number n f with
  | [it] => Some it
  | [] => None
  | _ => walk_main_branch_to_num n f
  end.

Definition set_head (h : option fork_item) (f : fork_database) : fork_database := f <| _head := h |>.
Definition remove (i : Z) (f : fork_database) : fork_database := f <| _index ::= delete i |>.

(** ** The invariant *)

Record item_ok (it : fork_item) : Prop := mk_item_ok {
  item_num : num it = block_num (header (data it));
  item_id : id it = block_id (header (data it));
  item_pos : 0 < num it;
  item_valid : invalid it = false
}.

(** a pointer leads to the block that the item names as its predecessor *)
Record fork_ok (f : fork_database) : Prop := mk_fork_ok {
  fork_keys : forall i it, _index f !! i = Some it -> id it = i;
  fork_items : forall it, it ∈ alive f -> item_ok it /\ addr it < _fresh f;
  fork_objects : forall x y, x ∈ alive f -> y ∈ alive f -> addr x = addr y -> x = y;
  fork_links : forall x p, x ∈ alive f -> prev x = Some p ->
    p < addr x /\ forall y, y ∈ alive f -> addr y = p -> id y = previous_id x
}.

Lemma alive_index f i it : _index f !! i = Some it -> it ∈ alive f.
Proof.
  intros H. unfold alive. rewrite !elem_of_app. right. right. apply list_elem_of_In, in_map_iff. exists (i, it). split; [done|].
  by apply list_elem_of_In, elem_of_map_to_list.
Qed.

Lemma alive_head f it : _head f = Some it -> it ∈ alive f.
Proof. intros H. unfold alive. rewrite !elem_of_app, H. left. by left. Qed.

Lemma alive_cases f it :
  it ∈ alive f <-> _head f = Some it \/ it ∈ _held f \/ exists i, _index f !! i = Some it.
Proof.
  split.
  - unfold alive. rewrite !elem_of_app. intros [H|[H|H]]; [left|by right; left|right; right].
    + destruct (_head f) as [h|]; [apply list_elem_of_singleton in H; by subst|by apply elem_of_nil in H].
    + apply list_elem_of_In, in_map_iff in H as ([i x] & <- & H). exists i. by apply elem_of_map_to_list, list_elem_of_In.
  - intros [H|[H|[i H]]]; [by apply alive_head| |by eapply alive_index]. unfold alive. rewrite !elem_of_app. by right; left.
Qed.

Lemma lock_Some f p y : lock f p = Some y -> y ∈ alive f /\ p = Some (addr y).
Proof.
  unfold lock. destruct p as [a|]; simpl; [|done]. intros H. apply find_some in H as [H1 H2]. apply list_elem_of_In in H1.
  apply Z.eqb_eq in H2. by subst.
Qed.

Lemma lock_alive f p y : fork_ok f -> y ∈ alive f -> p = Some (addr y) -> lock f p = Some y.
Proof.
  intros Hf Hy ->. unfold lock. simpl. destruct (find _ _) as [z|] eqn:E.
  - apply find_some in E as [E1 E2]. apply list_elem_of_In in E1. apply Z.eqb_eq in E2. f_equal. by apply (fork_objects f Hf).
  - apply find_none with (x := y) in E; [|by apply list_elem_of_In]. apply Z.eqb_neq in E. done.
Qed.

Lemma block_num_range b : 0 <= block_num b < 2 ^ 32.
Proof. unfold block_num. apply Z.mod_pos_bound. lia. Qed.

Lemma item_num_id it : item_ok it -> num_from_id (id it) = num it.
Proof. intros [H1 H2 _ _]. rewrite H1, H2. apply id_num, block_num_range. Qed.

(** the number of a block is one more than that of its predecessor *)
Lemma linked_num x y : item_ok x -> item_ok y -> id y = previous_id x -> num x = num y + 1.
Proof.
  intros Hx Hy E. pose proof (item_num_id y Hy) as En. rewrite E in En. destruct Hx as [Hx _ Hp _]. pose proof (item_pos y Hy).
  rewrite Hx in Hp |- *. unfold block_num, previous_id in *. rewrite En in *. pose proof (block_num_range (header (data y))) as R.
  rewrite <- (item_num y Hy) in R. unfold u32 in *. destruct (decide (num y + 1 = 2 ^ 32)) as [E2|N]; [by rewrite E2, Z.mod_same in Hp|].
  apply Z.mod_small. lia.
Qed.

Lemma lock_link f x y :
  fork_ok f -> x ∈ alive f -> lock f (prev x) = Some y -> y ∈ alive f /\ id y = previous_id x /\ num x = num y + 1.
Proof.
  intros Hf Hx [Hy Hp]%lock_Some. destruct (fork_links f Hf x (addr y)) as [_ Hl]; [done|done|]. specialize (Hl y Hy eq_refl).
  split; [done|]. split; [done|]. apply linked_num; [by apply (fork_items f Hf)|by apply (fork_items f Hf)|done].
Qed.

(** dropping objects keeps the invariant, and so does adding a new one *)
Lemma fork_ok_shrink f f' :
  fork_ok f -> (forall it, it ∈ alive f' -> it ∈ alive f) -> (forall i it, _index f' !! i = Some it -> id it = i) ->
  _fresh f <= _fresh f' -> fork_ok f'.
Proof.
  intros [K I O L] Ha Hk Hn. split; [done|..].
  - intros it Hit. destruct (I it) as [H1 H2]; [by apply Ha|]. split; [done|lia].
  - intros x y Hx Hy. apply O; by apply Ha.
  - intros x p Hx Hp. destruct (L x p) as [H1 H2]; [by apply Ha|done|]. split; [done|]. intros y Hy. apply H2. by apply Ha.
Qed.

Lemma fork_ok_add f f' item :
  fork_ok f -> item_ok item -> addr item = _fresh f ->
  (forall p, prev item = Some p -> exists y, y ∈ alive f /\ addr y = p /\ id y = previous_id item) ->
  (forall it, it ∈ alive f' -> it = item \/ it ∈ alive f) -> (forall i it, _index f' !! i = Some it -> id it = i) ->
  _fresh f' = _fresh f + 1 -> fork_ok f'.
Proof.
  intros [K I O L] Hok Ha Hp Hal Hk Hn.
  assert (forall it, it ∈ alive f -> addr it <> addr item) as Hne by (intros it Hit E; apply I in Hit as [_ Hit]; lia).
  split; [done|..].
  - intros it [->|Hit]%Hal; [split; [done|lia]|]. apply I in Hit as [H1 H2]. split; [done|lia].
  - intros x y [->|Hx]%Hal [->|Hy]%Hal E; [done|by destruct (Hne y)|by destruct (Hne x)|by apply O].
  - intros x p [->|Hx]%Hal Ep.
    + destruct (Hp p Ep) as (z & Hz & Ez & Iz). split; [apply I in Hz as [_ Hz]; lia|].
      intros y [->|Hy]%Hal Ey; [by destruct (Hne z); [|congruence]|]. rewrite <- Iz. f_equal. apply O; [done|done|congruence].
    + destruct (L x p Hx Ep) as [L1 L2]. split; [done|]. intros y [->|Hy]%Hal Ey; [apply I in Hx as [_ Hx]; lia|by apply L2].
Qed.

(** ** The operations keep the invariant *)

Lemma empty_fork_ok : fork_ok empty_fork_database.
Proof. split; [intros i it H; simpl in H; by rewrite lookup_empty in H|..]; intros x *; unfold alive; simpl; rewrite map_to_list_empty; simpl; by intros ?%elem_of_nil. Qed.

Lemma pop_block_ok f f' : fork_ok f -> pop_block f = Ok f' -> fork_ok f'.
Proof.
  intros Hf H. unfold pop_block in H. destruct (_head f) as [h|] eqn:Eh; [|done]. destruct (lock f (prev h)) as [p|] eqn:El; [|done].
  injection H as <-. apply lock_Some in El as [Hp _]. apply (fork_ok_shrink f); [done| |by apply (fork_keys f)|simpl; lia].
  intros it Hit. apply alive_cases in Hit. simpl in Hit. destruct Hit as [[= <-]|Hit]; [done|]. apply alive_cases. by right.
Qed.

Lemma set_head_ok h f : fork_ok f -> (forall it, h = Some it -> it ∈ alive f) -> fork_ok (set_head h f).
Proof.
  intros Hf Hh. apply (fork_ok_shrink f); [done| |by apply (fork_keys f)|simpl; lia].
  intros it Hit. apply alive_cases in Hit. simpl in Hit. destruct Hit as [Hit|Hit]; [by apply Hh|]. apply alive_cases. by right.
Qed.

Lemma shrink_index_ok m f : fork_ok f -> m ⊆ _index f -> fork_ok (f <| _index := m |>).
Proof.
  intros Hf Hm. apply (fork_ok_shrink f); [done| | |simpl; lia].
  - intros it Hit. apply alive_cases in Hit. simpl in Hit. apply alive_cases. destruct Hit as [Hit|[Hit|[i Hit]]]; [by left|by right; left|].
    right. right. exists i. by eapply lookup_weaken.
  - simpl. intros i it Hit. apply (fork_keys f Hf). by eapply lookup_weaken.
Qed.

Lemma remove_ok i f : fork_ok f -> fork_ok (remove i f).
Proof. intros Hf. apply (shrink_index_ok (delete i (_index f))); [done|]. apply delete_subseteq. Qed.

(** what is held by callers is alive *)
Lemma hold_ok l f : fork_ok f -> (forall it, it ∈ l -> it ∈ alive f) -> fork_ok (f <| _held := l |>).
Proof.
  intros Hf Hl. apply (fork_ok_shrink f); [done| |by apply (fork_keys f)|simpl; lia].
  intros it Hit. apply alive_cases in Hit. simpl in Hit. destruct Hit as [Hit|[Hit|Hit]]; [|by apply Hl|]; apply alive_cases; [by left|].
  by right; right.
Qed.

(** set_max_size removes exactly the items below the limit *)
Lemma prune_spec limit (m : gmap Z fork_item) fuel m' :
  (size m <= fuel)%nat -> while_next fuel (too_old limit) (fun m k => Ok (delete k m)) m = Ok m' ->
  m' = filter (fun x => limit <= num (snd x)) m.
Proof.
  revert m. induction fuel as [|fuel IH]; intros m Hs H; simpl in H.
  - injection H as <-. assert (m = ∅) as -> by (apply map_size_empty_iff; lia). by rewrite map_filter_empty.
  - unfold too_old in H. destruct (first_by number_lt m) as [[k it]|] eqn:E.
    + pose proof (first_by_Some _ _ _ _ E) as Hk. destruct (Z.ltb_spec (num it) limit) as [Hl|Hl]; simpl in H.
      * apply IH in H; [|rewrite map_size_delete_Some by done; lia]. rewrite H. rewrite map_filter_delete_not; [done|].
        intros y Hy. simpl. rewrite Hk in Hy. injection Hy as <-. lia.
      * injection H as <-. symmetry. apply map_filter_id. intros i x Hx. simpl. pose proof (first_by_key num (fun x y => addr x ?= addr y) m k it i x E Hx). lia.
    + injection H as <-. apply first_by_None in E as ->. by rewrite map_filter_empty.
Qed.

Lemma prune_total limit (m : gmap Z fork_item) fuel :
  exists m', while_next fuel (too_old limit) (fun m k => Ok (delete k m)) m = Ok m'.
Proof.
  revert m. induction fuel as [|fuel IH]; intros m; simpl; [by eexists|]. destruct (too_old limit m); [apply IH|by eexists].
Qed.

(** the new size takes effect, and the items that are too old go *)
Lemma set_max_size_spec s f :
  exists f', set_max_size s f = Ok f' /\ _max_size f' = s /\ _head f' = _head f /\ _held f' = _held f /\ _fresh f' = _fresh f /\
    _index f' = match _head f with
                | None => _index f
                | Some h => filter (fun x => Z.max 0 (num h - s) <= num (snd x)) (_index f)
                end.
Proof.
  unfold set_max_size. simpl. destruct (_head f) as [h|] eqn:Eh; [|eexists; split; [done|simpl; by rewrite Eh]].
  destruct (prune_total (oldest h (f <| _max_size := s |>)) (_index f) (size (_index f))) as [m Hm]. simpl in *. rewrite Hm. simpl.
  eexists. split; [done|]. simpl. rewrite Eh. do 4 (split; [done|]). by apply prune_spec in Hm.
Qed.

Lemma set_max_size_ok s f f' : fork_ok f -> set_max_size s f = Ok f' -> fork_ok f'.
Proof.
  intros Hf H. destruct (set_max_size_spec s f) as (f1 & H1 & E1 & E2 & E3 & E4 & E5). rewrite H in H1. injection H1 as <-.
  assert (_index f' ⊆ _index f) as Hsub by (rewrite E5; destruct (_head f); [apply map_filter_subseteq|done]).
  replace f' with (f <| _index := _index f' |> <| _max_size := s |>) by (destruct f', f; unfold modify_field; simpl in *; congruence).
  apply (fork_ok_shrink (f <| _index := _index f' |>)); [by apply shrink_index_ok|done| |simpl; lia].
  apply (fork_keys (f <| _index := _index f' |>)). by apply shrink_index_ok.
Qed.

(** ** Pushing a block *)

(** the item of a block, its pointer set or not *)
Definition item_of (b : signed_block) (a : Z) (p : option Z) : fork_item :=
  mk_fork_item a p (block_num (header b)) false (block_id (header b)) b.

(** the predecessor, where the database is not empty and the block names one *)
Definition parent (b : signed_block) (f : fork_database) : option fork_item :=
  match _head f with
  | None => None
  | Some _ => if previous (header b) =? 0 then None else _index f !! previous (header b)
  end.

Lemma push_block_inv b f h f' :
  fork_ok f -> push_block b f = Ok (h, f') ->
  let item := item_of b (_fresh f) (addr <$> parent b f) in
  (forall g, _head f = Some g -> oldest g f < block_num (header b) /\
     (previous (header b) <> 0 -> is_Some (_index f !! previous (header b)))) /\
  h = match _head f with Some g => if num g <? num item then item else g | None => item end /\
  f' = mk_fork_database (_max_size f) (match _index f !! id item with Some _ => _index f | None => <[id item := item]> (_index f) end)
         (Some h) (_held f) (_fresh f + 1).
Proof.
  intros Hf H. unfold push_block, make_item, _push_block in H. bind H as f1 H1. bind H as h1 Hh. injection H as <- <-.
  bind H1 as it Hit. apply get_or_Ok in Hh. unfold link, oldest, previous_id in Hit. simpl in Hit. cbv zeta.
  assert (it = item_of b (_fresh f) (addr <$> parent b f) /\
    (forall g, _head f = Some g -> oldest g f < block_num (header b) /\
     (previous (header b) <> 0 -> is_Some (_index f !! previous (header b))))) as [-> Hg].
  { unfold parent. destruct (_head f) as [g|]; [|injection Hit as <-; split; [done|by intros g]].
    bind Hit as u1 U1. apply fc_assert_Ok, Z.ltb_lt in U1. destruct (Z.eqb_spec (previous (header b)) 0) as [E|E].
    - injection Hit as <-. split; [done|]. intros g' [= <-]. done.
    - bind Hit as p P. bind Hit as u2 U2. injection Hit as <-. apply get_or_Ok in P. rewrite P. split; [done|].
      intros g' [= <-]. split; [done|]. by eexists. }
  split; [done|]. clear Hit Hg. revert H1 Hh. unfold index_insert. simpl. set (item := item_of b (_fresh f) (addr <$> parent b f)).
  change (block_id (header b)) with (id item). change (block_num (header b)) with (num item).
  destruct (_index f !! id item), (_head f) as [g|] eqn:Eg; simpl; rewrite ?Eg; try destruct (num g <? block_num (header b)); intros [= <-]; simpl;
    rewrite ?Eg; intros [= <-]; (split; [done|]); destruct f; unfold modify_field; simpl in *; rewrite ?Eg; done.
Qed.

Lemma push_block_ok b f h f' :
  fork_ok f -> 0 < block_num (header b) -> push_block b f = Ok (h, f') -> fork_ok f'.
Proof.
  intros Hf Hpos H. apply push_block_inv in H as (_ & -> & ->); [|done].
  set (item := item_of b (_fresh f) (addr <$> parent b f)).
  apply (fork_ok_add f _ item); [done|by split|done|..].
  - unfold item, item_of, parent. simpl. intros p Hp. destruct (_head f) as [g|]; [|done]. destruct (_ =? 0); [done|].
    destruct (_index f !! previous (header b)) as [y|] eqn:Ey; [|done]. injection Hp as <-. exists y. split; [by eapply alive_index|].
    split; [done|]. by apply (fork_keys f Hf) in Ey.
  - intros it Hit. apply alive_cases in Hit. simpl in Hit. destruct Hit as [[= <-]|[Hit|[i Hit]]].
    + destruct (_head f) as [g|] eqn:Eg; [|by left]. destruct (num g <? _); [by left|]. right. by apply alive_head.
    + right. apply alive_cases. by right; left.
    + destruct (_index f !! block_id (header b)); [right; by eapply alive_index|]. apply lookup_insert_Some in Hit as [[_ <-]|[_ Hit]]; [by left|].
      right. by eapply alive_index.
  - simpl. intros i it Hit. destruct (_index f !! block_id (header b)); [by apply (fork_keys f Hf)|].
    apply lookup_insert_Some in Hit as [[<- <-]|[_ Hit]]; [done|by apply (fork_keys f Hf)].
  - done.
Qed.

(** the head is an item of the highest number in the index *)
Definition head_highest (f : fork_database) : Prop :=
  match _head f with
  | None => _index f = ∅
  | Some h => map_Forall (fun _ it => num it <= num h) (_index f)
  end.

(** the item of a block that was pushed onto [f]: where [f] has a head and the block names
    a predecessor, its pointer leads, in [f'], to the item of that predecessor in [f] *)
Definition linked (b : signed_block) (f f' : fork_database) (it : fork_item) : Prop :=
  data it = b /\ num it = block_num (header b) /\
  match _head f with
  | None => prev it = None
  | Some _ =>
      if previous (header b) =? 0 then prev it = None
      else exists p, fetch_block (previous (header b)) f = Some p /\ lock f' (prev it) = Some p /\ num it = num p + 1
  end.

Lemma pushed_linked b f h f' :
  fork_ok f -> 0 < block_num (header b) -> push_block b f = Ok (h, f') ->
  linked b f f' (item_of b (_fresh f) (addr <$> parent b f)).
Proof.
  intros Hf Hpos H. pose proof (push_block_ok _ _ _ _ Hf Hpos H) as Hf'. apply push_block_inv in H as (Hg & _ & Ef); [|done].
  split; [done|]. split; [done|]. unfold parent. cbn [item_of prev num]. destruct (_head f) as [g|]; [|done].
  destruct (Hg g eq_refl) as [_ Hp]. destruct (Z.eqb_spec (previous (header b)) 0) as [|N]; [done|].
  destruct (Hp N) as [p Ep]. exists p. rewrite Ep. split; [done|]. split.
  - apply lock_alive; [done| |done]. apply (alive_index f' (previous (header b))). rewrite Ef. cbn [_index id item_of].
    destruct (_index f !! block_id (header b)) eqn:E; [done|]. rewrite lookup_insert_ne; [done|congruence].
  - apply (linked_num (item_of b 0 None) p); [by split|apply (fork_items f Hf); by eapply alive_index|by apply (fork_keys f Hf)].
Qed.

(** C12: Pushing a block.  When push_block succeeds the block is known, nothing that was
    known is forgotten or replaced, and a new item is the block's and linked: if the
    database has a head and the block names a predecessor, that was known and the
    pointer of the item leads to it, at the number before; without either there is no
    pointer.  The head only changes to the item of the block, linked in the same way, when
    its number is higher, and if the head was the highest block of the database, the head
    that is returned is again. *)
Theorem push_block_spec b f h f' :
  fork_ok f -> 0 < block_num (header b) -> push_block b f = Ok (h, f') ->
  fork_ok f' /\ is_known_block (block_id (header b)) f' = true /\
  (forall g, _head f = Some g -> previous (header b) <> 0 -> is_known_block (previous (header b)) f = true) /\
  (forall i it, fetch_block i f = Some it -> fetch_block i f' = Some it) /\
  (forall i it, fetch_block i f' = Some it ->
     fetch_block i f = Some it \/ i = block_id (header b) /\ linked b f f' it) /\
  _head f' = Some h /\
  (forall g, _head f = Some g -> h = g /\ block_num (header b) <= num g \/ linked b f f' h /\ num g < num h) /\
  (_head f = None -> linked b f f' h) /\
  (head_highest f -> head_highest f').
Proof.
  intros Hf Hpos H. pose proof (pushed_linked _ _ _ _ Hf Hpos H) as Hl.
  split; [by eapply push_block_ok|]. apply push_block_inv in H as (Hg & Eh & Ef); [|done].
  set (item := item_of b (_fresh f) (addr <$> parent b f)) in *. unfold is_known_block, head_highest, fetch_block in *.
  change (block_id (header b)) with (id item) in *. change (block_num (header b)) with (num item) in *.
  split_and!.
  - rewrite Ef. cbn [_index]. apply bool_decide_true. destruct (_index f !! id item) eqn:E; [by rewrite E|]. rewrite lookup_insert_eq. by eexists.
  - intros g Eg Hp. apply bool_decide_true. by eapply Hg.
  - intros i it Hi. rewrite Ef. cbn [_index]. destruct (_index f !! id item) eqn:E; [done|]. rewrite lookup_insert_ne; [done|]. congruence.
  - intros i it Hi. rewrite Ef in Hi. cbn [_index] in Hi. destruct (_index f !! id item) eqn:E; [by left|].
    apply lookup_insert_Some in Hi as [[<- <-]|[_ Hi]]; [by right|by left].
  - by rewrite Ef.
  - intros g Eg. rewrite Eg in Eh. destruct (Z.ltb_spec (num g) (num item)); subst h; [by right|by left].
  - intros Eg. rewrite Eg in Eh. by subst h.
  - intros Hh. rewrite Ef. cbn [_index _head].
    assert (forall k, num item <= k -> map_Forall (fun _ it => num it <= k) (_index f) ->
      map_Forall (fun _ it => num it <= k) (match _index f !! id item with Some _ => _index f | None => <[id item := item]> (_index f) end)) as Hins.
    { intros k Hk Hm. destruct (_index f !! id item); [done|]. by apply map_Forall_insert_2. }
    destruct (_head f) as [g|].
    + destruct (Z.ltb_spec (num g) (num item)) as [L|L]; subst h; apply Hins; try done.
      intros i it Hi. specialize (Hh i it Hi). simpl in Hh. lia.
    + subst h. apply Hins; [done|]. rewrite Hh. apply map_Forall_empty.
Qed.

(** ** Branches *)

(** the items from one to another along the pointers, both included *)
Inductive path (f : fork_database) : fork_item -> list fork_item -> fork_item -> Prop :=
| path_end x : path f x [x] x
| path_prev x y l z : lock f (prev x) = Some y -> path f y l z -> path f x (x :: l) z.

Section branches.
Context (f : fork_database) (Hf : fork_ok f).

Lemma path_alive x l z :
  x ∈ alive f -> path f x l z -> z ∈ alive f /\ num z <= num x /\ Forall (fun y => y ∈ alive f /\ num z <= num y <= num x) l.
Proof.
  intros Hx H. induction H as [x|x y l z Hl _ IH]; [split; [done|]; split; [lia|]; constructor; [split; [done|lia]|by constructor]|].
  destruct (lock_link f x y) as (Hy & _ & En); [done|done|done|]. destruct (IH Hy) as (Hz & Hzy & Hall). split; [done|]. split; [lia|].
  constructor; [split; [done|lia]|]. eapply Forall_impl; [exact Hall|]. intros w [? ?]. split; [done|lia].
Qed.

(** equal predecessors mean equal numbers *)
Lemma same_previous_num x y : x ∈ alive f -> y ∈ alive f -> previous_id x = previous_id y -> num x = num y.
Proof.
  intros Hx Hy E. apply (fork_items f Hf) in Hx as [[Ex _ _ _] _], Hy as [[Ey _ _ _] _]. rewrite Ex, Ey. unfold block_num, previous_id in *. by rewrite E.
Qed.

(** descend stops at the number it is given, or at once *)
Lemma descend_path fuel : forall n x l y,
  x ∈ alive f -> 0 < n -> descend fuel f n x = Ok (l, y) ->
  y ∈ alive f /\ num y = Z.min (num x) n /\ Forall (fun w => num y < num w) l /\
  forall l' z, path f y l' z -> path f x (l ++ l')%list z.
Proof.
  induction fuel as [|fuel IH]; intros n x l y Hx Hn H; simpl in H; destruct (Z.ltb_spec n (num x)) as [L|L]; try done;
    try (injection H as <- <-; split_and!; [done|lia|constructor|done]).
  bind H as p P. apply get_or_Ok in P. bind H as [l1 y1] H1. injection H as <- <-.
  destruct (lock_link f x p) as (Hp & _ & En); [done|done|done|]. apply IH in H1 as (H1 & H2 & H3 & H4); [|done|done].
  split_and!; [done|lia|constructor; [lia|done]|]. intros l' z Hl. simpl. eapply path_prev; [done|by apply H4].
Qed.

Lemma descend_complete x l z : path f x l z -> forall n fuel,
  x ∈ alive f -> num z <= n -> (Z.to_nat (num x - n) <= fuel)%nat ->
  exists l1 l2 y, descend fuel f n x = Ok (l1, y) /\ l = (l1 ++ l2)%list /\ path f y l2 z /\ y ∈ alive f /\ num y = Z.min (num x) n.
Proof.
  induction 1 as [x|x y l z Hl Hp IH]; intros n fuel Hx Hn Hfuel.
  - exists [], [x], x. destruct fuel; simpl; (destruct (Z.ltb_spec n (num x)); [lia|]); split_and!; try done; try constructor; lia.
  - destruct (Z.ltb_spec n (num x)) as [L|L].
    + destruct (lock_link f x y) as (Hy & _ & En); [done|done|done|].
      destruct fuel as [|fuel]; [lia|]. destruct (IH n fuel) as (l1 & l2 & w & E1 & -> & E3 & E4 & E5); [done|done|lia|].
      exists (x :: l1), l2, w. simpl. rewrite Hl. simpl. rewrite E1. simpl. destruct (Z.ltb_spec n (num x)); [|lia]. split_and!; try done. lia.
    + exists [], (x :: l), x. destruct fuel; simpl; (destruct (Z.ltb_spec n (num x)); [lia|]); split_and!; try done; try lia; by eapply path_prev.
Qed.

(** the pair of items is the first on the two branches with one predecessor *)
Definition fork_point (l m : list fork_item) (u v : fork_item) : Prop :=
  previous_id u = previous_id v /\
  forall x y, x ∈ l -> y ∈ m -> previous_id x = previous_id y -> x = u /\ y = v.

Lemma descend_both_path fuel : forall x y l m,
  x ∈ alive f -> y ∈ alive f -> num x = num y -> descend_both fuel f x y = Ok (l, m) ->
  exists u v, path f x l u /\ path f y m v /\ fork_point l m u v.
Proof.
  induction fuel as [|fuel IH]; intros x y l m Hx Hy Hn H; simpl in H; destruct (Z.eqb_spec (previous_id x) (previous_id y)) as [E|E]; try done;
    try (injection H as <- <-; exists x, y; split; [constructor|]; split; [constructor|]; split; [done|];
         by intros x' y' ->%list_elem_of_singleton ->%list_elem_of_singleton).
  bind H as p P. bind H as q Q. apply get_or_Ok in P, Q. bind H as [l1 m1] H1. injection H as <- <-.
  destruct (lock_link f x p) as (Hp & _ & Enp); [done|done|done|]. destruct (lock_link f y q) as (Hq & _ & Enq); [done|done|done|].
  apply IH in H1 as (u & v & P1 & P2 & F1 & F2); [|done|done|lia]. exists u, v.
  split; [by eapply path_prev|]. split; [by eapply path_prev|]. split; [done|].
  apply path_alive in P1 as (_ & _ & A1); [|done]. apply path_alive in P2 as (_ & _ & A2); [|done].
  rewrite Forall_forall in A1, A2.
  intros x' y' [->|Hx']%elem_of_cons [->|Hy']%elem_of_cons Ep; [done|..|by apply F2].
  - destruct (A2 y' Hy') as [Ay By]. apply same_previous_num in Ep; [lia|done|done].
  - destruct (A1 x' Hx') as [Ax Bx]. apply same_previous_num in Ep; [lia|done|done].
Qed.

Lemma descend_both_complete x l u : path f x l u -> forall y m v fuel,
  path f y m v -> x ∈ alive f -> y ∈ alive f -> num x = num y -> fork_point l m u v -> (Z.to_nat (num x) <= fuel)%nat ->
  descend_both fuel f x y = Ok (l, m).
Proof.
  induction 1 as [x|x p l u Hl Hp IH]; intros y m v fuel Hm Hx Hy Hn [F1 F2] Hfuel.
  - inversion Hm as [y'|y' q m' v' Hq Hm']; subst.
    + destruct fuel; simpl; by rewrite F1, Z.eqb_refl.
    + exfalso. destruct (lock_link f y q) as (Aq & _ & En); [done|done|done|]. apply path_alive in Hm' as (Av & ? & _); [|done].
      apply same_previous_num in F1; [lia|done|done].
  - destruct (lock_link f x p) as (Ap & _ & En); [done|done|done|].
    inversion Hm as [y'|y' q m' v' Hq Hm']; subst.
    + exfalso. apply path_alive in Hp as (Au & ? & _); [|done]. apply same_previous_num in F1; [lia|done|done].
    + destruct (lock_link f y q) as (Aq & _ & Enq); [done|done|done|].
      assert (previous_id x <> previous_id y) as Hne.
      { intros E. destruct (F2 x y) as [-> _]; [by left|by left|done|]. apply path_alive in Hp as (_ & ? & _); [lia|done]. }
      pose proof (item_pos p (proj1 (fork_items f Hf p Ap))).
      destruct fuel as [|fuel]; [lia|]. simpl. destruct (Z.eqb_spec (previous_id x) (previous_id y)); [done|].
      rewrite Hl, Hq. simpl. rewrite (IH q m' v fuel); [done|done|done|done|lia| |lia].
      split; [done|]. intros x' y' Hx' Hy'. apply F2; by right.
Qed.
End branches.

(** the branches end where they have one predecessor, and end there first *)
Definition branches_of (f : fork_database) (x y : fork_item) (l m : list fork_item) : Prop :=
  exists u v, path f x l u /\ path f y m v /\ fork_point l m u v.

Lemma fork_point_swap_prefix f l1 l2 m1 m2 u v k :
  fork_ok f -> Forall (fun y => y ∈ alive f) (l1 ++ l2)%list -> Forall (fun y => y ∈ alive f) (m1 ++ m2)%list ->
  Forall (fun w => k < num w) l1 -> Forall (fun w => num w <= k) l2 -> Forall (fun w => k < num w) m1 -> Forall (fun w => num w <= k) m2 ->
  l1 = [] \/ m1 = [] -> fork_point l2 m2 u v -> fork_point (l1 ++ l2)%list (m1 ++ m2)%list u v.
Proof.
  intros Hf Al Am L1 L2 M1 M2 He [F1 F2]. split; [done|]. intros x y Hx Hy E. rewrite Forall_forall in *.
  pose proof (same_previous_num f Hf x y (Al x Hx) (Am y Hy) E) as En.
  apply elem_of_app in Hx as [Hx|Hx], Hy as [Hy|Hy].
  - by destruct He as [-> | ->]; [apply elem_of_nil in Hx|apply elem_of_nil in Hy].
  - specialize (L1 x Hx). specialize (M2 y Hy). simpl in *. lia.
  - specialize (M1 y Hy). specialize (L2 x Hx). simpl in *. lia.
  - by apply F2.
Qed.

Lemma fetch_branch_sound f first second l m x y :
  fork_ok f -> _index f !! first = Some x -> _index f !! second = Some y ->
  fetch_branch_from first second f = Ok (l, m) -> branches_of f x y l m.
Proof.
  intros Hf Hx Hy H. unfold fetch_branch_from in H. rewrite Hx, Hy in H. simpl in H.
  bind H as [l1 x1] H1. bind H as [m1 y1] H2. bind H as [l2 m2] H3. injection H as <- <-.
  pose proof (alive_index _ _ _ Hx) as Ax. pose proof (alive_index _ _ _ Hy) as Ay.
  assert (forall it, it ∈ alive f -> 0 < num it) as Hpos by (intros it Hit; apply (fork_items f Hf) in Hit as [[_ _ ? _] _]; done).
  apply (descend_path f Hf) in H1 as (A1 & N1 & L1 & P1); [|done|by apply Hpos].
  apply (descend_path f Hf) in H2 as (A2 & N2 & L2 & P2); [|done|by apply Hpos].
  pose proof (Hpos y Ay). assert (num x1 = num y1) as En by lia.
  apply (descend_both_path f Hf) in H3 as (u & v & Q1 & Q2 & F); [|done|done|done]. exists u, v.
  apply P1 in Q1 as R1. apply P2 in Q2 as R2. split; [done|]. split; [done|].
  apply (path_alive f Hf) in Q1 as (_ & _ & B1); [|done]. apply (path_alive f Hf) in Q2 as (_ & _ & B2); [|done].
  apply (path_alive f Hf) in R1 as (_ & _ & C1); [|done]. apply (path_alive f Hf) in R2 as (_ & _ & C2); [|done].
  apply (fork_point_swap_prefix f _ _ _ _ _ _ (num x1)); try done.
  - eapply Forall_impl; [exact C1|]. by intros w [? _].
  - eapply Forall_impl; [exact C2|]. by intros w [? _].
  - eapply Forall_impl; [exact B1|]. intros w [_ ?]. simpl. lia.
  - eapply Forall_impl; [exact L2|]. intros w ?. simpl in *. lia.
  - eapply Forall_impl; [exact B2|]. intros w [_ ?]. simpl. lia.
  - destruct (Z.le_gt_cases (num x) (num y)).
    + left. destruct l1 as [|w l1]; [done|]. exfalso. rewrite Forall_forall in L1, C1. specialize (L1 w ltac:(by left)).
      destruct (C1 w ltac:(by left)) as [_ ?]. simpl in *. lia.
    + right. destruct m1 as [|w m1]; [done|]. exfalso. rewrite Forall_forall in L2, C2. specialize (L2 w ltac:(by left)).
      destruct (C2 w ltac:(by left)) as [_ ?]. simpl in *. lia.
Qed.

Lemma fetch_branch_complete f first second l m x y :
  fork_ok f -> _index f !! first = Some x -> _index f !! second = Some y ->
  branches_of f x y l m -> fetch_branch_from first second f = Ok (l, m).
Proof.
  intros Hf Hx Hy (u & v & P1 & P2 & F). unfold fetch_branch_from. rewrite Hx, Hy. simpl.
  pose proof (alive_index _ _ _ Hx) as Ax. pose proof (alive_index _ _ _ Hy) as Ay.
  destruct (path_alive f Hf _ _ _ Ax P1) as (Au & U1 & _). destruct (path_alive f Hf _ _ _ Ay P2) as (Av & V1 & _).
  assert (num u = num v) as En by (apply (same_previous_num f Hf); [done|done|apply F]).
  assert (0 < num u) by (apply (fork_items f Hf) in Au as [[_ _ ? _] _]; done).
  destruct (descend_complete f Hf x l u P1 (num y) (Z.to_nat (num x + num y))) as (l1 & l2 & x1 & -> & -> & Q1 & A1 & N1); [done|lia|lia|]. simpl.
  destruct (descend_complete f Hf y m v P2 (num x1) (Z.to_nat (num x + num y))) as (m1 & m2 & y1 & -> & -> & Q2 & A2 & N2); [done|lia|lia|]. simpl.
  rewrite (descend_both_complete f Hf x1 l2 u Q1 y1 m2 v); [done|done|done|done|lia| |lia].
  destruct F as [F1 F2]. split; [done|]. intros a b Ha Hb. apply F2; apply elem_of_app; by right.
Qed.

(** C11: The two branches of a fork.  fetch_branch_from returns two lists of items
    exactly when both blocks are known and the lists follow the predecessors of the two
    blocks down to the first pair of blocks with one predecessor; the walk ends, and it
    fails when the branches are not linked that far. *)
Theorem fetch_branch_from_spec first second f l m :
  fork_ok f ->
  fetch_branch_from first second f = Ok (l, m) <->
  exists x y, fetch_block first f = Some x /\ fetch_block second f = Some y /\ branches_of f x y l m.
Proof.
  intros Hf. unfold fetch_block. split.
  - intros H. pose proof H as H'. unfold fetch_branch_from in H'. bind H' as x Hx. bind H' as y Hy. apply get_or_Ok in Hx, Hy.
    exists x, y. split; [done|]. split; [done|]. by eapply fetch_branch_sound.
  - intros (x & y & Hx & Hy & H). by eapply fetch_branch_complete.
Qed.

(** the main branch at a number: the ancestor of the head *)
Lemma walk_spec f (Hf : fork_ok f) fuel : forall n it,
  it ∈ alive f -> 0 < n -> (Z.to_nat (num it - n) <= fuel)%nat ->
  forall r, walk fuel f n it = Some r -> r ∈ alive f /\ num r = Z.min n (num it) /\ exists l, path f it l r.
Proof.
  induction fuel as [|fuel IH]; intros n it Hit Hn Hfuel r H; simpl in H; destruct (Z.ltb_spec n (num it)) as [L|L]; [lia|..];
    try (injection H as <-; split; [done|]; split; [lia|]; eexists; constructor).
  destruct (lock f (prev it)) as [p|] eqn:El; [|done]. simpl in H. destruct (lock_link f it p) as (Hp & _ & En); [done|done|done|].
  destruct (IH n p Hp Hn ltac:(lia) r H) as (H1 & H2 & l & H3). split; [done|]. split; [lia|]. exists (it :: l). by eapply path_prev.
Qed.

(** ** A small tree of blocks *)

Definition demo_block (salt prev : Z) : signed_block :=
  mk_signed_block (mk_block salt prev 0 "witness" 0) 0 [] [].
Definition demo_id (b : signed_block) : Z := block_id (header b).
Definition b1 : signed_block := demo_block (11 * 2 ^ 40) 0.
Definition b2 : signed_block := demo_block (12 * 2 ^ 40) (demo_id b1).
Definition b3 : signed_block := demo_block (13 * 2 ^ 40) (demo_id b2).
Definition c2 : signed_block := demo_block (22 * 2 ^ 40) (demo_id b1).
Definition c3 : signed_block := demo_block (23 * 2 ^ 40) (demo_id c2).
Definition c4 : signed_block := demo_block (24 * 2 ^ 40) (demo_id c3).

Definition push_all (bs : list signed_block) (f : fork_database) : result fork_database :=
  foldM (fun f b => '(_, f) ← push_block b f; Ok f) f bs.
Definition demo_fork : fork_database :=
  match push_all [b1; b2; b3; c2; c3] empty_fork_database with Ok f => f | Throw _ => empty_fork_database end.

Lemma push_all_ok bs : forall f f',
  Forall (fun b => 0 < block_num (header b)) bs -> fork_ok f -> push_all bs f = Ok f' -> fork_ok f'.
Proof.
  induction bs as [|b bs IH]; intros f f' Hb Hf H; cbn [push_all foldM] in H; [by injection H as <-|].
  inversion Hb; subst. bind H as f1 H1. bind H1 as [h f2] Hp. injection H1 as <-. eapply IH; [done| |exact H]. by eapply push_block_ok.
Qed.

Lemma demo_pushed : push_all [b1; b2; b3; c2; c3] empty_fork_database = Ok demo_fork.
Proof. vm_compute. reflexivity. Qed.
Lemma demo_fork_ok : fork_ok demo_fork.
Proof.
  eapply push_all_ok; [|exact empty_fork_ok|exact demo_pushed].
  repeat (apply Forall_cons; split; [vm_compute; reflexivity|]). by apply Forall_nil.
Qed.

(** the longer branch becomes the head *)
Definition c4_pushed : fork_item * fork_database :=
  match push_block c4 demo_fork with Ok x => x | Throw _ => (item_of c4 0 None, demo_fork) end.
Lemma push_block_spec_witness :
  num (fst c4_pushed) = 4 /\
  exists p, fetch_block (demo_id c3) demo_fork = Some p /\ lock (snd c4_pushed) (prev (fst c4_pushed)) = Some p.
Proof.
  split; [vm_compute; reflexivity|].
  assert (push_block c4 demo_fork = Ok (fst c4_pushed, snd c4_pushed)) as E by (vm_compute; reflexivity).
  destruct (_head demo_fork) as [g|] eqn:Eg; [|vm_compute in Eg; discriminate].
  assert (num (fst c4_pushed) = 4) as N4 by (vm_compute; reflexivity).
  assert (num g = 3) as N3 by (vm_compute in Eg; by injection Eg as <-).
  destruct (push_block_spec c4 demo_fork _ _ demo_fork_ok eq_refl E) as (_ & _ & _ & _ & _ & _ & Hh & _ & _).
  destruct (Hh g Eg) as [[Hs _]|[(_ & _ & L) _]]; [rewrite Hs in N4; lia|].
  rewrite Eg in L. assert (previous (header c4) =? 0 = false) as Hp by (vm_compute; reflexivity). rewrite Hp in L.
  destruct L as (p & H1 & H2 & _). exists p. split; [|exact H2]. rewrite <- H1. vm_compute. reflexivity.
Defined.

Lemma fetch_branch_from_spec_witness :
  map num (match fetch_branch_from (demo_id c4) (demo_id b3) (snd c4_pushed) with Ok (l, _) => l | Throw _ => [] end) = [4; 3; 2] /\
  exists l m x y, fetch_block (demo_id c4) (snd c4_pushed) = Some x /\ fetch_block (demo_id b3) (snd c4_pushed) = Some y /\
    branches_of (snd c4_pushed) x y l m.
Proof.
  split; [vm_compute; reflexivity|].
  destruct (fetch_branch_from (demo_id c4) (demo_id b3) (snd c4_pushed)) as [[l m]|e] eqn:E; [|vm_compute in E; discriminate].
  exists l, m. apply (proj1 (fetch_branch_from_spec (demo_id c4) (demo_id b3) (snd c4_pushed) l m
    (push_block_ok c4 demo_fork (fst c4_pushed) (snd c4_pushed) demo_fork_ok eq_refl ltac:(vm_compute; reflexivity)))). exact E.
Defined.
