(* ===== verification/BlockLog.v ===== *)
(** BlockLog: the log of irreversible blocks.

    From block_log.cpp.  The log is a file of packed blocks, each followed by the
    position of its first byte, and an index file of these positions.  A file is the
    list of its bytes; opening a stream for reading or writing, flushing and locking
    leave the bytes alone.  The packing of a block is an interface: the log relies on
    it that unpacking reads back what packing wrote. *)
From Stdlib Require Import ZArith Lia String.
From stdpp Require Import base list strings.
From S2P Require Import Prelude.
From S2P Require Import Uint128.
From S2P Require Import BlockId.
From S2P Require Import Asset.
From S2P Require Import Utf8.
From S2P Require Import Raw.
Local Open Scope Z_scope.
Local Open Scope fc_scope.

(** what the log needs of a block: fc::raw::pack and unpack, id() and block_num() *)
Class LogBlock (B : Type) := {
  pack : B -> list Z;
  unpack : unpacker B;
  number : B -> Z;
  ident : B -> Z;
  storable : B -> Prop;
  unpack_pack : forall b rest, storable b -> unpack (pack b ++ rest) = Ok (b, rest);
  ident_number : forall b, storable b -> num_from_id (ident b) = number b /\ 0 < number b < 2 ^ 32
}.

Section log.
Context {B : Type} `{LogBlock B}.

Record block_log : Type := mk_log {
  block_file : list Z;
  index_file : list Z;
  log_head : option B;
  head_id : Z
}.

Definition empty_log : block_log := mk_log [] [] None 0.
Definition npos : Z := UINT64_MAX.

Definition size_of (file : list Z) : Z := Z.of_nat (length file).
Definition seek (pos : Z) (file : list Z) : list Z := drop (Z.to_nat pos) file.
Definition read_pos (file : list Z) (pos : Z) : result Z := '(p, _) ← unpack_uint 8 (seek pos file); Ok p.
(** seekg( -sizeof( uint64_t ), std::ios::end ) and a read *)
Definition read_last_pos (file : list Z) : result Z :=
  if size_of file <? 8 then Throw out_of_range else read_pos file (size_of file - 8).

Definition append (b : B) (l : block_log) : result (Z * block_log) :=
  let pos := size_of (block_file l) in
  _ ← fc_assert (size_of (index_file l) =? 8 * u32 (number b - 1));
  Ok (pos, mk_log (block_file l ++ pack b ++ pack_uint 8 pos) (index_file l ++ pack_uint 8 pos) (Some b) (ident b)).

Definition read_block_helper (pos : Z) (l : block_log) : result (B * Z) :=
  '(b, rest) ← unpack (seek pos (block_file l));
  Ok (b, size_of (block_file l) - size_of rest + 8).

Definition get_block_pos_helper (n : Z) (l : block_log) : result Z :=
  match log_head l with
  | Some _ => if (n <=? num_from_id (head_id l)) && (0 <? n) then read_pos (index_file l) (8 * (n - 1)) else Ok npos
  | None => Ok npos
  end.

Definition read_block_by_num (n : Z) (l : block_log) : result (option B) :=
  pos ← get_block_pos_helper n l;
  if pos =? npos then Ok None
  else
    '(b, _) ← read_block_helper pos l;
    _ ← fc_assert (number b =? n);
    Ok (Some b).

Definition read_head (l : block_log) : result B :=
  pos ← read_last_pos (block_file l);
  '(b, _) ← read_block_helper pos l;
  Ok b.

(** the loop of construct_index over the rest [s] of the block file; every round
    reads at least the eight bytes of a position *)
Fixpoint index_loop (fuel : nat) (pos end_pos : Z) (s index : list Z) : result (list Z) :=
  if pos <? end_pos then
    match fuel with
    | O => Throw out_of_range
    | S fuel =>
        '(_, s) ← unpack s;
        '(pos, s) ← unpack_uint 8 s;
        index_loop fuel pos end_pos s (index ++ pack_uint 8 pos)
    end
  else Ok index.

Definition construct_index (l : block_log) : result block_log :=
  end_pos ← read_last_pos (block_file l);
  index ← index_loop (length (block_file l)) 0 end_pos (block_file l) [];
  Ok (mk_log (block_file l) index (log_head l) (head_id l)).

(** opening the two files *)
Definition open (file index : list Z) : result block_log :=
  let l := mk_log file index None 0 in
  if negb (size_of file =? 0) then
    head ← read_head l;
    let l := mk_log file index (Some head) (ident head) in
    if negb (size_of index =? 0) then
      block_pos ← read_last_pos file;
      index_pos ← read_last_pos index;
      if block_pos <? index_pos then construct_index l
      else if index_pos <? block_pos then construct_index l
      else Ok l
    else construct_index l
  else Ok (mk_log file [] None 0).
End log.
Arguments block_log : clear implicits.

(** ** What the files hold *)

Section spec.
Context {B : Type} `{HB : LogBlock B}.
Implicit Types (b : B) (bs : list B) (l : block_log B).
#[local] Arguments pack_uint : simpl never.
#[local] Arguments unpack_uint : simpl never.

(** the block file from the position [off] on, and the positions of its blocks *)
Fixpoint file_from (off : Z) bs : list Z :=
  match bs with
  | [] => []
  | b :: bs => (pack b ++ pack_uint 8 off) ++ file_from (off + size_of (pack b) + 8) bs
  end.

Fixpoint positions (off : Z) bs : list Z :=
  match bs with
  | [] => []
  | b :: bs => off :: positions (off + size_of (pack b) + 8) bs
  end.

Definition index_of (ps : list Z) : list Z := concat (map (pack_uint 8) ps).

(** the log that holds the blocks [bs] *)
Definition log_of bs : block_log B :=
  mk_log (file_from 0 bs) (index_of (positions 0 bs)) (last bs) (from_option ident 0 (last bs)).

(** blocks that can be stored, numbered from one on, in files of less than 2^64 - 1 bytes *)
Definition loggable bs : Prop :=
  Forall storable bs /\ (forall i b, bs !! i = Some b -> number b = Z.of_nat i + 1) /\ size_of (file_from 0 bs) < UINT64_MAX.

Lemma pack_uint_length n v : length (pack_uint n v) = n.
Proof. apply le_bytes_length. Qed.

Lemma size_app x y : size_of (x ++ y) = size_of x + size_of y.
Proof. unfold size_of. rewrite length_app. lia. Qed.
Lemma size_pos x : 0 <= size_of x.
Proof. unfold size_of. lia. Qed.
Lemma size_uint n v : size_of (pack_uint n v) = Z.of_nat n.
Proof. unfold size_of. by rewrite pack_uint_length. Qed.

Lemma file_snoc bs b : forall off,
  file_from off (bs ++ [b]) = file_from off bs ++ pack b ++ pack_uint 8 (off + size_of (file_from off bs)) /\
  positions off (bs ++ [b]) = positions off bs ++ [off + size_of (file_from off bs)].
Proof.
  induction bs as [|c bs IH]; intros off; simpl.
  - change (size_of []) with 0. by rewrite Z.add_0_r, app_nil_r.
  - destruct (IH (off + size_of (pack c) + 8)) as [-> ->].
    rewrite !size_app, size_uint, <- app_assoc. change (Z.of_nat 8) with 8.
    replace (off + (size_of (pack c) + 8 + size_of (file_from (off + size_of (pack c) + 8) bs))) with
      (off + size_of (pack c) + 8 + size_of (file_from (off + size_of (pack c) + 8) bs)) by lia. by rewrite <- !app_assoc.
Qed.

Lemma positions_length off bs : length (positions off bs) = length bs.
Proof. revert off. induction bs as [|b bs IH]; intros off; simpl; [done|]. by rewrite IH. Qed.

Lemma index_of_length ps : size_of (index_of ps) = 8 * Z.of_nat (length ps).
Proof.
  induction ps as [|p ps IH]; [done|]. change (index_of (p :: ps)) with (pack_uint 8 p ++ index_of ps).
  rewrite size_app, IH, size_uint. simpl length. lia.
Qed.

Lemma index_of_app ps qs : index_of (ps ++ qs) = index_of ps ++ index_of qs.
Proof. unfold index_of. by rewrite map_app, concat_app. Qed.

Lemma index_of_one p : index_of [p] = pack_uint 8 p.
Proof. change (index_of [p]) with (pack_uint 8 p ++ []). apply app_nil_r. Qed.

Lemma loggable_app bs bs' : loggable (bs ++ bs') -> loggable bs.
Proof.
  intros (Hs & Hn & Hf). apply Forall_app in Hs as [Hs _]. split; [done|]. split.
  - intros i b Hb. apply Hn. by apply lookup_app_l_Some.
  - clear Hs Hn. revert Hf. induction bs' as [|b bs' IH] using rev_ind; [by rewrite app_nil_r|].
    rewrite app_assoc. destruct (file_snoc (bs ++ bs') b 0) as [-> _]. rewrite size_app. pose proof (size_pos (pack b ++ pack_uint 8 (0 + size_of (file_from 0 (bs ++ bs'))))). intros ?. apply IH. lia.
Qed.

(** appending the next block *)
Lemma append_log bs b : loggable (bs ++ [b]) -> append b (log_of bs) = Ok (size_of (file_from 0 bs), log_of (bs ++ [b])).
Proof.
  intros (Hs & Hn & _). unfold append. apply Forall_app in Hs as [_ Hs]. inversion Hs as [|? ? Hb _]; subst.
  specialize (Hn (length bs) b ltac:(by apply list_lookup_middle)). destruct (ident_number b Hb) as [_ Hr].
  unfold log_of at 1. simpl. rewrite index_of_length, positions_length, u32_id, Hn by lia.
  replace (8 * Z.of_nat (length bs) =? 8 * (Z.of_nat (length bs) + 1 - 1)) with true by (symmetry; apply Z.eqb_eq; lia). simpl.
  unfold log_of. destruct (file_snoc bs b 0) as [-> ->]. by rewrite last_snoc, index_of_app, index_of_one.
Qed.

(** reading at a position *)
Lemma seek_app x y pos : 0 <= pos -> seek (size_of x + pos) (x ++ y) = seek pos y.
Proof.
  intros H. unfold seek, size_of. rewrite Z2Nat.inj_add, Nat2Z.id, drop_app by lia.
  rewrite drop_ge by lia. simpl. f_equal. lia.
Qed.

Lemma seek_position bs : forall off i p,
  positions off bs !! i = Some p ->
  exists b, bs !! i = Some b /\ off <= p /\ p + size_of (pack b) + 8 <= off + size_of (file_from off bs) /\
  seek (p - off) (file_from off bs) = pack b ++ pack_uint 8 p ++ file_from (p + size_of (pack b) + 8) (drop (S i) bs).
Proof.
  induction bs as [|b bs IH]; intros off [|i] p Hp; simplify_eq/=.
  - exists b. rewrite Z.sub_diag, !size_app, size_uint, <- app_assoc. pose proof (size_pos (file_from (p + size_of (pack b) + 8) bs)).
    rewrite drop_0. split_and!; [done|lia|lia|done].
  - destruct (IH _ _ _ Hp) as (c & Hc & H1 & H2 & H3). exists c. pose proof (size_pos (pack b)).
    split; [done|]. split; [lia|]. rewrite !size_app, size_uint. split; [lia|].
    replace (p - off) with (size_of (pack b ++ pack_uint 8 off) + (p - (off + size_of (pack b) + 8))) by (rewrite size_app, size_uint; lia).
    by rewrite seek_app by lia.
Qed.

Lemma read_index ps i p : ps !! i = Some p -> 0 <= p < 2 ^ 64 -> read_pos (index_of ps) (8 * Z.of_nat i) = Ok p.
Proof.
  intros Hi Hp. apply list_elem_of_split_length in Hi as (l1 & l2 & -> & ->).
  rewrite index_of_app. change (index_of (p :: l2)) with (pack_uint 8 p ++ index_of l2). unfold read_pos.
  rewrite <- (Z.add_0_r (8 * _)), <- index_of_length, seek_app by lia. unfold seek. rewrite drop_0. by rewrite uint_roundtrip.
Qed.

Lemma position_range bs i p : loggable bs -> positions 0 bs !! i = Some p -> 0 <= p < UINT64_MAX.
Proof. intros (_ & _ & Hf) Hp. destruct (seek_position _ _ _ _ Hp) as (b & _ & H1 & H2 & _). pose proof (size_pos (pack b)). lia. Qed.

Lemma read_position bs i p :
  loggable bs -> positions 0 bs !! i = Some p ->
  exists b n, bs !! i = Some b /\ read_block_helper p (log_of bs) = Ok (b, n).
Proof.
  intros (Hs & _ & _) Hp. destruct (seek_position _ _ _ _ Hp) as (b & Hb & _ & _ & E). exists b.
  unfold read_block_helper. simpl. rewrite Z.sub_0_r in E. rewrite E, unpack_pack by (by eapply Forall_lookup_1). simpl. by eexists.
Qed.

Lemma log_head_number bs b : loggable bs -> last bs = Some b -> num_from_id (ident b) = Z.of_nat (length bs).
Proof.
  intros (Hs & Hn & _) Hb. apply last_Some in Hb as [bs' ->]. apply Forall_app in Hs as [_ Hs]. inversion Hs as [|? ? Hb _]; subst.
  destruct (ident_number b Hb) as [-> _]. rewrite (Hn (length bs')) by (by apply list_lookup_middle). rewrite length_app. simpl. lia.
Qed.

(** every block is found under its number, and nothing under other numbers *)
Lemma read_by_num bs n :
  loggable bs -> read_block_by_num n (log_of bs) = Ok (if 0 <? n then bs !! Z.to_nat (n - 1) else None).
Proof.
  intros Hl. unfold read_block_by_num, get_block_pos_helper. simpl. destruct (last bs) as [h|] eqn:Eh.
  - simpl. rewrite (log_head_number bs h Hl Eh). destruct (Z.ltb_spec 0 n) as [H0|H0].
    + destruct (Z.leb_spec n (Z.of_nat (length bs))) as [H1|H1]; simpl.
      * destruct (lookup_lt_is_Some_2 (positions 0 bs) (Z.to_nat (n - 1))) as [p Hp]; [rewrite positions_length; lia|].
        pose proof (position_range _ _ _ Hl Hp) as Hr. unfold UINT64_MAX in Hr.
        replace (8 * (n - 1)) with (8 * Z.of_nat (Z.to_nat (n - 1))) by lia. rewrite (read_index _ _ _ Hp) by lia. simpl.
        destruct (Z.eqb_spec p npos) as [E|_]; [unfold npos, UINT64_MAX in E; lia|].
        destruct (read_position _ _ _ Hl Hp) as (b & k & Hb & ->). simpl. rewrite Hb.
        destruct Hl as (_ & Hn & _). rewrite (Hn _ _ Hb). replace (Z.of_nat (Z.to_nat (n - 1)) + 1) with n by lia. by rewrite Z.eqb_refl.
      * symmetry. f_equal. apply lookup_ge_None. lia.
    + by rewrite andb_false_r.
  - apply last_None in Eh as ->. simpl. by destruct (0 <? n); rewrite ?lookup_nil.
Qed.

Lemma append_all bs : loggable bs -> foldM (fun l b => '(_, l) ← append b l; Ok l) empty_log bs = Ok (log_of bs).
Proof.
  induction bs as [|b bs IH] using rev_ind; intros Hl; [done|]. rewrite foldM_app, IH by (by eapply loggable_app). simpl.
  by rewrite append_log.
Qed.

(** C13: Blocks that are appended to an empty log one after the other can be read back:
    the block of a number is the one that was appended, and no block is found under zero
    or a number beyond the head. *)
Theorem log_reads_back bs n :
  loggable bs ->
  exists l, foldM (fun l b => '(_, l) ← append b l; Ok l) empty_log bs = Ok l /\
    read_block_by_num n l = Ok (if 0 <? n then bs !! Z.to_nat (n - 1) else None).
Proof. intros Hl. exists (log_of bs). split; [by apply append_all|by apply read_by_num]. Qed.

(** ** Opening the files again *)

Lemma last_position bs b :
  loggable (bs ++ [b]) -> read_last_pos (block_file (log_of (bs ++ [b]))) = Ok (size_of (file_from 0 bs)).
Proof.
  intros Hl. pose proof (position_range (bs ++ [b]) (length bs) (size_of (file_from 0 bs)) Hl) as Hr.
  destruct (file_snoc bs b 0) as [E1 E2]. rewrite E2 in Hr. specialize (Hr ltac:(apply list_lookup_middle; by rewrite positions_length)).
  unfold read_last_pos. simpl. rewrite E1, app_assoc. change (0 + size_of (file_from 0 bs)) with (size_of (file_from 0 bs)).
  set (x := file_from 0 bs ++ pack b). rewrite size_app, size_uint. pose proof (size_pos x). destruct (Z.ltb_spec (size_of x + Z.of_nat 8) 8); [lia|].
  unfold read_pos. replace (size_of x + Z.of_nat 8 - 8) with (size_of x + 0) by lia. rewrite seek_app by lia. unfold seek. rewrite drop_0.
  rewrite <- (app_nil_r (pack_uint 8 _)), uint_roundtrip; [done|]. unfold UINT64_MAX in Hr. lia.
Qed.

Lemma last_index ps p : 0 <= p < 2 ^ 64 -> read_last_pos (index_of (ps ++ [p])) = Ok p.
Proof.
  intros Hp. unfold read_last_pos. rewrite index_of_length, length_app. simpl length.
  destruct (Z.ltb_spec (8 * Z.of_nat (length ps + 1)) 8); [lia|]. replace (8 * Z.of_nat (length ps + 1) - 8) with (8 * Z.of_nat (length ps)) by lia.
  apply read_index; [|done]. by apply list_lookup_middle.
Qed.

(** positions grow *)
Lemma positions_grow bs : forall off i p, positions off bs !! i = Some p -> off + 8 * Z.of_nat i <= p.
Proof.
  induction bs as [|b bs IH]; intros off [|i] p Hp; simplify_eq/=; [lia|]. apply IH in Hp. pose proof (size_pos (pack b)). lia.
Qed.

Lemma index_loop_spec bs b : forall off fuel pos acc,
  Forall storable (bs ++ [b]) -> 0 <= off -> off + size_of (file_from off (bs ++ [b])) < UINT64_MAX ->
  pos < off + size_of (file_from off bs) -> (length bs < fuel)%nat ->
  index_loop fuel pos (off + size_of (file_from off bs)) (file_from off (bs ++ [b])) acc = Ok (acc ++ index_of (positions off (bs ++ [b]))).
Proof.
  unfold UINT64_MAX. induction bs as [|c bs IH]; intros off fuel pos acc Hs H0 Hf Hp Hl; (destruct fuel as [|fuel]; simpl in Hl; [lia|]);
    inversion Hs as [|? ? Hc Hs']; subst; cbn [index_loop]; rewrite (proj2 (Z.ltb_lt _ _) Hp); simpl in *;
    rewrite <- !app_assoc, unpack_pack by done; cbn [mbind result_bind]; rewrite !size_app, ?size_uint in Hf.
  - pose proof (size_pos (pack b)). pose proof (size_pos []). rewrite uint_roundtrip by lia. cbn [mbind result_bind].
    destruct fuel; simpl; (destruct (Z.ltb_spec off (off + size_of [])) as [L|_]; [unfold size_of in L; simpl in L; lia|]);
      by rewrite index_of_one.
  - pose proof (size_pos (file_from (off + size_of (pack c) + 8) (bs ++ [b]))). pose proof (size_pos (pack c)).
    pose proof (size_pos (file_from (off + size_of (pack c) + 8) bs)).
    rewrite uint_roundtrip by lia. cbn [mbind result_bind]. rewrite !size_app, size_uint.
    replace (off + (size_of (pack c) + (Z.of_nat 8 + size_of (file_from (off + size_of (pack c) + 8) bs)))) with
      (off + size_of (pack c) + 8 + size_of (file_from (off + size_of (pack c) + 8) bs)) by lia.
    rewrite IH; [|done|lia|lia|lia|lia]. rewrite <- app_assoc, <- index_of_one, <- index_of_app. done.
Qed.

Lemma construct_index_ok bs b index :
  loggable (bs ++ [b]) -> bs <> [] ->
  construct_index (mk_log (file_from 0 (bs ++ [b])) index (Some b) (ident b)) = Ok (log_of (bs ++ [b])).
Proof.
  intros Hl Hne. pose proof Hl as (Hs & _ & Hf). unfold construct_index. simpl. pose proof (last_position bs b Hl) as Ep. simpl in Ep. rewrite Ep.
  cbn [mbind result_bind]. assert (0 < size_of (file_from 0 bs)) as Hpos.
  { destruct bs as [|c bs]; [done|]. simpl. rewrite !size_app, size_uint. pose proof (size_pos (pack c)).
    pose proof (size_pos (file_from (0 + size_of (pack c) + 8) bs)). lia. }
  assert (length (bs ++ [b]) <= length (file_from 0 (bs ++ [b])))%nat as Hfuel.
  { clear. generalize 0. induction (bs ++ [b]) as [|c l IH]; intros off; simpl; [lia|]. rewrite !length_app, pack_uint_length.
    specialize (IH (off + size_of (pack c) + 8)). lia. }
  rewrite length_app in Hfuel. simpl in Hfuel.
  pose proof (index_loop_spec bs b 0 (length (file_from 0 (bs ++ [b]))) 0 []) as E. rewrite !Z.add_0_l in E. rewrite E; [|done|lia|lia|lia|lia].
  cbn [mbind result_bind]. unfold log_of. by rewrite last_snoc.
Qed.

Lemma read_head_log bs b index hd i :
  loggable (bs ++ [b]) -> read_head (mk_log (file_from 0 (bs ++ [b])) index hd i) = Ok b.
Proof.
  intros Hl. unfold read_head. simpl. pose proof (last_position bs b Hl) as Ep. simpl in Ep. rewrite Ep. cbn [mbind result_bind].
  destruct (read_position (bs ++ [b]) (length bs) (size_of (file_from 0 bs)) Hl) as (c & n & Hc & E).
  { destruct (file_snoc bs b 0) as [_ ->]. apply list_lookup_middle. by rewrite positions_length. }
  rewrite list_lookup_middle in Hc by done. injection Hc as <-. unfold read_block_helper in *. simpl in *. by rewrite E.
Qed.

(** C14: Opening a log of at least two blocks whose index file has lost any number of its
    last entries, or all of them, restores the index; an index that is complete is kept. *)
Theorem open_restores_index bs k :
  loggable bs -> (2 <= length bs)%nat -> (k <= length bs)%nat ->
  open (block_file (log_of bs)) (index_of (take k (positions 0 bs))) = Ok (log_of bs).
Proof.
  intros Hl H2 Hk. destruct bs as [|b bs _] using rev_ind; [simpl in H2; lia|]. rewrite length_app in H2, Hk. simpl in H2, Hk.
  assert (bs <> []) as Hne by (destruct bs; [simpl in H2; lia|done]).
  unfold open. simpl. set (f := file_from 0 (bs ++ [b])). assert (0 < size_of f) as Hf.
  { unfold f. destruct (file_snoc bs b 0) as [-> _]. rewrite !size_app, size_uint. pose proof (size_pos (file_from 0 bs)). pose proof (size_pos (pack b)). lia. }
  destruct (Z.eqb_spec (size_of f) 0) as [E|_]; [lia|]. simpl. unfold f in *. rewrite read_head_log by done. cbn [mbind result_bind].
  rewrite index_of_length, length_take, positions_length, length_app. simpl.
  destruct (file_snoc bs b 0) as [_ Eps]. destruct (decide (k = length bs + 1)%nat) as [->|Hk1].
  - destruct (Z.eqb_spec (8 * Z.of_nat ((length bs + 1) `min` (length bs + 1))) 0) as [E|_]; [lia|]. simpl.
    pose proof (last_position bs b Hl) as Ep. simpl in Ep. rewrite Ep. cbn [mbind result_bind].
    rewrite take_ge by (rewrite positions_length, length_app; simpl; lia). rewrite Eps.
    pose proof (position_range (bs ++ [b]) (length bs) (size_of (file_from 0 bs)) Hl) as Hr. rewrite Eps in Hr. unfold UINT64_MAX in Hr.
    specialize (Hr ltac:(apply list_lookup_middle; by rewrite positions_length)).
    rewrite last_index by (rewrite Z.add_0_l; lia). cbn [mbind result_bind]. rewrite !Z.add_0_l, Z.ltb_irrefl.
    unfold log_of. by rewrite last_snoc, Eps.
  - destruct (Z.eqb_spec (8 * Z.of_nat (k `min` (length bs + 1))) 0) as [E|E]; simpl; [by apply construct_index_ok|].
    pose proof (last_position bs b Hl) as Ep. simpl in Ep. rewrite Ep. cbn [mbind result_bind].
    destruct k as [|k]; [lia|]. destruct (lookup_lt_is_Some_2 (positions 0 (bs ++ [b])) k) as [p Hp]; [rewrite positions_length, length_app; simpl; lia|].
    pose proof (position_range _ _ _ Hl Hp) as Hr. unfold UINT64_MAX in Hr.
    rewrite (take_S_r _ _ _ Hp), last_index by lia. cbn [mbind result_bind].
    assert (p < size_of (file_from 0 bs)) as Hlt.
    { rewrite Eps, lookup_app_l in Hp by (rewrite positions_length; lia). destruct (seek_position _ _ _ _ Hp) as (c & _ & _ & H1 & _).
      pose proof (size_pos (pack c)). lia. }
    destruct (Z.ltb_spec (size_of (file_from 0 bs)) p); [lia|]. destruct (Z.ltb_spec p (size_of (file_from 0 bs))); [|lia].
    by apply construct_index_ok.
Qed.

(** C15: A log of one block whose index file is lost is opened with an empty index: the
    loop that rebuilds the index does not run, because the only block starts at position
    zero.  The block cannot be read by its number any more and the next one cannot be
    appended. *)
Theorem open_one_block_loses_index b c :
  loggable [b; c] ->
  exists l, open (block_file (log_of [b])) [] = Ok l /\ index_file l = [] /\
    is_ok (read_block_by_num 1 l) = false /\ is_ok (append c l) = false.
Proof.
  intros Hl. pose proof (loggable_app [b] [c] Hl) as Hb. destruct Hl as (_ & Hn & _).
  unfold open. simpl. rewrite app_nil_r. set (f := pack b ++ pack_uint 8 0). assert (0 < size_of f) as Hf.
  { unfold f. rewrite size_app, size_uint. pose proof (size_pos (pack b)). lia. }
  destruct (Z.eqb_spec (size_of f) 0) as [E|_]; [lia|]. cbn [negb].
  assert (file_from 0 [b] = f) as Ef by (unfold f; simpl; apply app_nil_r).
  pose proof (read_head_log [] b [] None 0 Hb) as Er. simpl in Er. rewrite app_nil_r in Er. fold f in Er. rewrite Er. cbn [mbind result_bind].
  pose proof (last_position [] b Hb) as Ep. simpl in Ep. rewrite app_nil_r in Ep. fold f in Ep. unfold construct_index. simpl. rewrite Ep. cbn [mbind result_bind].
  assert (index_loop (length f) 0 (size_of []) f [] = Ok []) as -> by (by destruct (length f)).
  cbn [mbind result_bind]. eexists. split; [done|]. split; [done|].
  destruct Hb as (Hsb & _). inversion Hsb as [|? ? Hsb' _]; subst. destruct (ident_number b Hsb') as [E1 _].
  rewrite (Hn O b eq_refl) in E1. split.
  - unfold read_block_by_num, get_block_pos_helper. cbn [log_head head_id index_file]. rewrite E1. reflexivity.
  - unfold append. cbn [index_file]. rewrite (Hn 1%nat c eq_refl).
    assert ((size_of [] =? 8 * u32 (Z.of_nat 1 + 1 - 1)) = false) as -> by (vm_compute; reflexivity). done.
Qed.
End spec.

(** ** A small log

    Blocks that consist of a number and a text. *)

Definition note : Type := Z * string.

#[export] Program Instance note_log : LogBlock note := {|
  pack := fun b => pack_uint 4 (fst b) ++ pack_string (snd b);
  unpack := fun s => '(n, s) ← unpack_uint 4 s; '(t, s) ← unpack_string s; Ok ((n, t), s);
  number := fst;
  ident := fun b => make_id 0 (fst b);
  storable := fun b => 0 < fst b < 2 ^ 32 /\ Z.of_nat (String.length (snd b)) < MAX_ARRAY_ALLOC_SIZE
|}.
Next Obligation.
  intros [n t] rest [Hn Ht]. simpl fst in *. simpl snd in *. rewrite <- app_assoc, uint_roundtrip by lia. cbn [mbind result_bind].
  by rewrite string_unpacks.
Qed.
Next Obligation. intros [n t] [Hn _]. simpl in *. split; [|done]. apply id_num. lia. Qed.

Definition notes : list note := [(1, "one"); (2, "two"); (3, "three")]%string.

Lemma notes_loggable : loggable notes.
Proof.
  split; [repeat (apply Forall_cons; split; [vm_compute; split; [split; reflexivity|reflexivity]|]); apply Forall_nil; exact I|].
  split; [|vm_compute; reflexivity]. intros [|[|[|i]]] b E; simpl in E; try discriminate; injection E as <-; reflexivity.
Qed.

Lemma log_reads_back_witness :
  exists l, foldM (fun l b => '(_, l) ← append b l; Ok l) empty_log notes = Ok l /\ read_block_by_num 2 l = Ok (Some (2, "two"%string)).
Proof. exact (log_reads_back notes 2 notes_loggable). Defined.

Lemma open_restores_index_witness :
  exists l, open (block_file (log_of notes)) (index_of (take 1 (positions 0 notes))) = Ok l /\ length (index_file l) = 24%nat.
Proof.
  exists (log_of notes). split; [|vm_compute; reflexivity]. apply (open_restores_index notes 1 notes_loggable); [|]; vm_compute; lia.
Defined.

Lemma open_one_block_loses_index_witness :
  exists l, open (block_file (log_of (take 1 notes))) [] = Ok l /\ index_file l = [] /\
    is_ok (read_block_by_num 1 l) = false /\ is_ok (append (2, "two"%string) l) = false.
Proof. exact (open_one_block_loses_index (1, "one"%string) (2, "two"%string) (loggable_app (take 2 notes) _ notes_loggable)). Defined.
