(* ===== verification/Node.v ===== *)
(** Node: receiving blocks and transactions.

    From database.cpp (push_block, pop_block, push_transaction, the output to the block
    log) and db_with.hpp.  A node is the state of the chain with the copies its undo
    sessions keep ([Undo] shows that the undo stacks implement copies), the fork
    database, the block log ([BlockLog] shows that the files implement a list), and the
    transactions that wait for a block.

    A call that throws leaves the node in some state, so an outcome is a node with a
    value or with an exception.  [Torn] is the outcome of an exception inside a block
    whose own undo state was already discarded by commit: nothing can be undone and the
    state is that of a block applied halfway, which the model does not describe.  The
    growing of the shared memory file and the warnings after a block are left out. *)
From Stdlib Require Import ZArith Lia String Ascii.
From stdpp Require Import base gmap strings list sorting.
From S2P Require Import Prelude.
From S2P Require Import BlockId.
From S2P Require Import Authority.
From S2P Require Import Objects.
From S2P Require Import Balance.
From S2P Require Import Operation.
From S2P Require Import Invariant.
From S2P Require Import Transaction.
From S2P Require Import Block.
From S2P Require Import Chain.
From S2P Require Import BlockInvariant.
From S2P Require Import Head.
From S2P Require Import ForkDb.
Local Open Scope string_scope.
Local Open Scope Z_scope.
Local Open Scope fc_scope.

(** [stack] has the newest session first; [log] is the content of the block log *)
Record node : Type := mk_node {
  chain : chain_state;
  stack : list (Z * chain_state);
  revision : Z;
  fork_db : fork_database;
  log : list signed_block;
  pending_session : bool;
  pending_tx : list transaction;
  popped_tx : list transaction
}.
#[export] Instance node_rebuild : Rebuild node := fun r =>
  mk_node (chain r) (stack r) (revision r) (fork_db r) (log r) (pending_session r) (pending_tx r) (popped_tx r).

Inductive run (A : Type) : Type :=
| Fine (n : node) (a : A)
| Failed (n : node) (e : exn)
| Torn.
Arguments Fine {A} _ _.
Arguments Failed {A} _ _.
Arguments Torn {A}.

Definition run_bind {A B} (r : run A) (k : node -> A -> run B) : run B :=
  match r with Fine n a => k n a | Failed n e => Failed n e | Torn => Torn end.

Definition head_id (n : node) : Z := head_block_id (cs_db (chain n)).
Definition head_num (n : node) : Z := head_block_num (cs_db (chain n)).

(** ** Sessions of chainbase *)

Definition start_undo_session (n : node) : node :=
  n <| stack ::= cons (revision n + 1, chain n) |> <| revision ::= Z.succ |>.

Definition undo (n : node) : node :=
  match stack n with
  | [] => n
  | (_, cs) :: s => n <| chain := cs |> <| stack := s |> <| revision ::= Z.pred |>
  end.

Definition squash (n : node) : node :=
  match stack n with
  | [] => n
  | [_] => n <| stack := [] |>
  | _ :: s => n <| stack := s |> <| revision ::= Z.pred |>
  end.

Fixpoint drop_old (r : Z) (oldest_first : list (Z * chain_state)) : list (Z * chain_state) :=
  match oldest_first with
  | x :: s => if fst x <=? r then drop_old r s else oldest_first
  | [] => []
  end.
Definition commit (r : Z) (n : node) : node := n <| stack ::= (fun s => rev (drop_old r (rev s))) |>.

(** _pending_tx_session.reset() *)
Definition reset_pending (n : node) : node :=
  if pending_session n then (undo n) <| pending_session := false |> else n.

Definition clear_pending (n : node) : node := reset_pending (n <| pending_tx := [] |>).

(** ** The block log and the blocks of the node *)

Definition log_head_num (n : node) : Z := from_option (fun b => block_num (header b)) 0 (last (log n)).

Definition append_log (b : signed_block) (n : node) : result node :=
  _ ← fc_assert (Z.of_nat (List.length (log n)) =? u32 (block_num (header b) - 1));
  Ok (n <| log ::= fun l => (l ++ [b])%list |>).

Definition read_block_by_num (i : Z) (n : node) : option signed_block :=
  if 0 <? i then log n !! Z.to_nat (i - 1) else None.

Definition fetch_block_by_id (i : Z) (n : node) : option signed_block :=
  match fetch_block i (fork_db n) with
  | Some it => Some (data it)
  | None =>
      b ← read_block_by_num (num_from_id i) n;
      if block_id (header b) =? i then Some b else None
  end.

Definition fetch_block_by_number (i : Z) (n : node) : option signed_block :=
  match ForkDb.fetch_block_by_number i (fork_db n) with
  | [it] => Some (data it)
  | _ => read_block_by_num i n
  end.

Definition is_known_block (i : Z) (n : node) : bool := bool_decide (is_Some (fetch_block_by_id i n)).

(** the TaPoS buffer first, then the log, then the fork database *)
Definition find_block_id_for_num (i : Z) (n : node) : Z :=
  let stored := match read_block_by_num i n with
                | Some b => block_id (header b)
                | None => from_option ForkDb.id 0 (fetch_block_on_main_branch_by_number i (fork_db n))
                end in
  if i =? 0 then 0
  else match block_summaries (chain n) (Z.land i 0xFFFF) with
       | Some bid => if num_from_id bid =? i then bid else stored
       | None => stored
       end.

Definition get_block_id_for_num (i : Z) (n : node) : result Z :=
  let bid := find_block_id_for_num i n in
  _ ← fc_assert (negb (bid =? 0)); Ok bid.

Definition get_block_ids_on_fork (head_of_fork : Z) (n : node) : result (list Z) :=
  '(first, second) ← fetch_branch_from (head_id n) head_of_fork (fork_db n);
  back ← get_or out_of_range (last first);
  Ok (map ForkDb.id second ++ [previous_id back])%list.

(** ** Popping blocks *)

Definition pop_block (n : node) : run unit :=
  let n := reset_pending n in
  match fetch_block_by_id (head_id n) n with
  | None => Failed n pop_empty_chain
  | Some b =>
      match ForkDb.pop_block (fork_db n) with
      | Throw e => Failed n e
      | Ok f =>
          let n := undo (n <| fork_db := f |>) in
          Fine (n <| popped_tx ::= app (block_transactions b) |>) tt
      end
  end.

(** while( head_block_id() != target ) pop_block(): every round lowers the head of the
    fork database, whose number bounds the rounds *)
Fixpoint pop_loop (fuel : nat) (target : Z) (n : node) : run unit :=
  if head_id n =? target then Fine n tt
  else match fuel with
       | O => Failed n assert_exception
       | S fuel => run_bind (pop_block n) (fun n _ => pop_loop fuel target n)
       end.

Definition pop_until (target : Z) (n : node) : run unit :=
  pop_loop (S (Z.to_nat (from_option num 0 (_head (fork_db n))))) target n.

(** ** Irreversible blocks *)

Definition skip_block_log : Z := Z.shiftl 1 13.

(** the blocks up to the last irreversible one are written to the log *)
Fixpoint write_log (fuel : nat) (last_irreversible : Z) (n : node) : run unit :=
  if log_head_num n <? last_irreversible then
    match fuel with
    | O => Failed n assert_exception
    | S fuel =>
        match fetch_block_on_main_branch_by_number (log_head_num n + 1) (fork_db n) with
        | None => Failed n assert_exception
        | Some it =>
            match append_log (data it) n with
            | Throw e => Failed n e
            | Ok n => write_log fuel last_irreversible n
            end
        end
    end
  else Fine n tt.

(** the part of update_last_irreversible_block that is not about the objects of the
    chain, whose new state is [db] *)
Definition settle_irreversible (skip : Z) (db : database) (n : node) : run unit :=
  let lib := Gpo.last_irreversible_block_num (Db.gpo db) in
  let n := commit lib n in
  run_bind (if skips skip skip_block_log then Fine n tt else write_log (Z.to_nat (lib - log_head_num n)) lib n)
    (fun n _ =>
       match set_max_size (u32 (head_block_num db - lib + 1)) (fork_db n) with
       | Throw e => Failed n e
       | Ok f => Fine (n <| fork_db := f |>) tt
       end).

Section apply_blocks.
Context `{env : environment} (trx_id : transaction -> Z) (recovered_keys : transaction -> list public_key_type).
Context (merkle_digest : transaction -> Z) (hash_pair : Z -> Z -> Z) (hash : Z -> Z).
Context (trx_pack_size : transaction -> Z) (checkpoints : list (Z * Z)).

(** _apply_block up to and with update_last_irreversible_block *)
Definition up_to_irreversible (skip : Z) (cs : chain_state) (b : signed_block) : result database :=
  '(db, signing_witness) ← apply_header merkle_digest hash_pair hash trx_pack_size skip (cs_db cs) b;
  cs ← foldM (_apply_transaction trx_id recovered_keys skip false) (cs <| cs_db := db |>) (block_transactions b);
  db ← update_global_dynamic_data skip (cs_db cs) (header b);
  db ← update_signing_witness db signing_witness (header b);
  update_last_irreversible_block db.

(** the destructor of a session that was not pushed *)
Definition abandon {A} (n : node) (e : exn) : run A :=
  match stack n with [] => Torn | _ => Failed (undo n) e end.

(** auto session = start_undo_session(); apply_block( b, skip ); session.push() *)
Definition apply_session (skip : Z) (n : node) (b : signed_block) : run unit :=
  let n := start_undo_session n in
  match block_skip checkpoints skip b with
  | Throw e => abandon n e
  | Ok skip =>
      match up_to_irreversible skip (chain n) b with
      | Throw e => abandon n e
      | Ok db =>
          match settle_irreversible skip db n with
          | Torn => Torn
          | Failed n e => abandon n e
          | Fine n _ =>
              match _apply_block trx_id recovered_keys merkle_digest hash_pair hash trx_pack_size skip false (chain n) b with
              | Throw e => abandon n e
              | Ok cs => Fine (n <| chain := cs |>) tt
              end
          end
      end
  end.

(** ** Switching forks *)

(** the blocks of the new branch, the oldest first; an exception is returned with the
    blocks that were not applied *)
Fixpoint apply_branch (skip : Z) (n : node) (items : list fork_item) : run (option (exn * list fork_item)) :=
  match items with
  | [] => Fine n None
  | it :: rest =>
      match apply_session skip n (data it) with
      | Fine n _ => apply_branch skip n rest
      | Failed n e => Fine n (Some (e, items))
      | Torn => Torn
      end
  end.

Fixpoint restore_branch (skip : Z) (n : node) (items : list fork_item) : run unit :=
  match items with
  | [] => Fine n tt
  | it :: rest => run_bind (apply_session skip n (data it)) (fun n _ => restore_branch skip n rest)
  end.

Definition on_fork (f : fork_database -> fork_database) (n : node) : node := n <| fork_db ::= f |>.

(** both branches are vectors of shared pointers *)
Definition hold (items : list fork_item) : node -> node := on_fork (fun f => f <| _held := items |>).

Definition switch_forks (skip : Z) (first second : list fork_item) (n : node) : run bool :=
  match head second, last second with
  | Some front, Some back =>
      run_bind (pop_until (previous_id back) n) (fun n _ =>
      run_bind (apply_branch skip n (rev first)) (fun n failed =>
        match failed with
        | None => Fine n true
        | Some (e, rest) =>
            let n := on_fork (fun f => fold_left (fun f it => remove (block_id (header (data it))) f) rest f) n in
            let n := on_fork (set_head (Some front)) n in
            run_bind (pop_until (previous_id back) n) (fun n _ =>
            run_bind (restore_branch skip n (rev second)) (fun n _ => Failed n e))
        end))
  | _, _ => Failed n out_of_range
  end.

(** the shared pointers of the caller are dropped on every way out *)
Definition release {A} (r : run A) : run A :=
  match r with
  | Fine n a => Fine (hold [] n) a
  | Failed n e => Failed (hold [] n) e
  | Torn => Torn
  end.

Definition extend_head (skip : Z) (b : signed_block) (n : node) : run bool :=
  match apply_session skip n b with
  | Fine n _ => Fine n false
  | Failed n e => Failed (on_fork (remove (block_id (header b))) n) e
  | Torn => Torn
  end.

Definition _push_block (skip : Z) (b : signed_block) (n : node) : run bool :=
  if skips skip skip_fork_db then extend_head skip b n
  else
    match push_block b (fork_db n) with
    | Throw e => Failed (on_fork (fun f => f <| _fresh ::= Z.succ |>) n) e
    | Ok (new_head, f) =>
        let n := n <| fork_db := f |> in
        if previous_id new_head =? head_id n then extend_head skip b n
        else if num new_head <=? head_num n then Fine n false
        else
          match fetch_branch_from (block_id (header (data new_head))) (head_id n) (fork_db n) with
          | Throw e => Failed n e
          | Ok (first, second) => release (switch_forks skip first second (hold (first ++ second ++ [new_head]) n))
          end
    end.

(** ** Transactions *)

Definition is_known_transaction (trx : transaction) (n : node) : bool :=
  bool_decide (is_Some (transactions (chain n) !! trx_id trx)).

Definition _push_transaction (skip : Z) (producing : bool) (trx : transaction) (n : node) : run unit :=
  let n := if pending_session n then n else (start_undo_session n) <| pending_session := true |> in
  let n := start_undo_session n in
  match _apply_transaction trx_id recovered_keys skip producing (chain n) trx with
  | Throw e => Failed (undo n) e
  | Ok cs => Fine (squash (n <| chain := cs |> <| pending_tx ::= fun l => (l ++ [trx])%list |>)) tt
  end.

Definition push_transaction (skip : Z) (trx : transaction) (n : node) : run unit :=
  if trx_pack_size trx <=? u32 (Gpo.maximum_block_size (Db.gpo (cs_db (chain n))) - 256)
  then _push_transaction skip true trx n
  else Failed n assert_exception.

(** one transaction of the destructor of pending_transactions_restorer *)
Definition repush (skip : Z) (n : node) (trx : transaction) : node :=
  if is_known_transaction trx n then n
  else match _push_transaction skip false trx n with
       | Fine n _ => n
       | Failed n _ => n
       | Torn => n
       end.

Definition restore_pending (skip : Z) (pending : list transaction) (n : node) : node :=
  let n := fold_left (repush skip) (popped_tx n) n in
  fold_left (repush skip) pending (n <| popped_tx := [] |>).

Definition push_block (skip : Z) (b : signed_block) (n : node) : run bool :=
  let pending := pending_tx n in
  match _push_block skip b (clear_pending n) with
  | Fine n r => Fine (restore_pending skip pending n) r
  | Failed n e => Failed (restore_pending skip pending n) e
  | Torn => Torn
  end.
End apply_blocks.

(** ** Commit and the log *)

Lemma drop_old_app r (a c : list (Z * chain_state)) :
  Forall (fun x => r < fst x) c -> drop_old r (a ++ c)%list = (drop_old r a ++ c)%list.
Proof.
  intros Hc. induction a as [|x a IH]; simpl.
  - destruct Hc as [|x c Hx _]; simpl; [done|]. destruct (Z.leb_spec (fst x) r); [lia|done].
  - destruct (fst x <=? r); [exact IH|done].
Qed.

(** sessions newer than the committed revision stay *)
Lemma commit_keeps r (t rest : list (Z * chain_state)) :
  Forall (fun x => r < fst x) t -> exists rest', rev (drop_old r (rev (t ++ rest))) = (t ++ rest')%list.
Proof.
  intros Ht. exists (rev (drop_old r (rev rest))). rewrite rev_app_distr, drop_old_app by (by apply Forall_rev).
  by rewrite rev_app_distr, rev_involutive.
Qed.

Definition log_ok (n : node) : Prop := log_head_num n = Z.of_nat (List.length (log n)).

(** what writing the log leaves alone *)
Record same_but_log (n n' : node) : Prop := mk_same_but_log {
  sbl_chain : chain n' = chain n;
  sbl_stack : stack n' = stack n;
  sbl_revision : revision n' = revision n;
  sbl_fork : fork_db n' = fork_db n;
  sbl_session : pending_session n' = pending_session n;
  sbl_pending : pending_tx n' = pending_tx n;
  sbl_popped : popped_tx n' = popped_tx n;
  sbl_log : (List.length (log n) <= List.length (log n'))%nat;
  sbl_ok : log_ok n -> log_ok n'
}.

Lemma same_but_log_refl n : same_but_log n n.
Proof. by split. Qed.

Lemma same_but_log_trans n1 n2 n3 : same_but_log n1 n2 -> same_but_log n2 n3 -> same_but_log n1 n3.
Proof. intros [] []. split; try congruence; [lia|auto]. Qed.

Lemma append_log_same b n n' : log_head_num n < 2 ^ 32 - 1 -> append_log b n = Ok n' -> same_but_log n n'.
Proof.
  intros Hl H. unfold append_log in H. bind H as u U. apply fc_assert_Ok, Z.eqb_eq in U. injection H as <-.
  split; simpl; try done; [rewrite length_app; simpl; lia|]. unfold log_ok, log_head_num. simpl. intros E.
  rewrite last_snoc, length_app. simpl. unfold log_head_num in Hl. rewrite E in Hl. pose proof (block_num_range (header b)).
  unfold u32 in U. destruct (decide (block_num (header b) = 0)) as [E0|N0].
  - rewrite E0 in U. change ((0 - 1) mod 2 ^ 32) with (2 ^ 32 - 1) in U. lia.
  - rewrite Z.mod_small in U by lia. lia.
Qed.

Lemma write_log_outcome fuel lib : forall n, lib < 2 ^ 32 ->
  exists n', same_but_log n n' /\ (write_log fuel lib n = Fine n' tt \/ exists e, write_log fuel lib n = Failed n' e).
Proof.
  induction fuel as [|fuel IH]; intros n Hlib; simpl; destruct (Z.ltb_spec (log_head_num n) lib) as [L|L];
    try (exists n; split; [apply same_but_log_refl|by eauto]).
  destruct (fetch_block_on_main_branch_by_number _ _) as [it|]; [|exists n; split; [apply same_but_log_refl|by eauto]].
  destruct (append_log (data it) n) as [n1|e] eqn:E; [|exists n; split; [apply same_but_log_refl|by eauto]].
  apply append_log_same in E; [|lia]. destruct (IH n1 Hlib) as (n' & S & O). exists n'. split; [by eapply same_but_log_trans|done].
Qed.

Lemma write_log_idle fuel lib n : lib <= log_head_num n -> write_log fuel lib n = Fine n tt.
Proof. intros H. destruct fuel; simpl; destruct (Z.ltb_spec (log_head_num n) lib); done || lia. Qed.

(** ** A node during a switch

    [keep] are items that stay in the fork database, [tops] the newest sessions, [fh]
    the head of the fork database. *)
Record view (keep : list fork_item) (L : Z) (cs : chain_state) (tops : list (Z * chain_state)) (R : Z) (fh : fork_item)
    (n : node) : Prop := mk_view {
  v_chain : chain n = cs;
  v_stack : exists rest, stack n = (tops ++ rest)%list;
  v_revision : revision n = R;
  v_session : pending_session n = false;
  v_head : _head (fork_db n) = Some fh;
  v_fork : fork_ok (fork_db n);
  v_keep : Forall (fun it => fetch_block (ForkDb.id it) (fork_db n) = Some it) keep;
  v_log : log_ok n;
  v_len : L <= Z.of_nat (List.length (log n))
}.

Lemma view_commit keep L cs tops R fh n lib :
  Forall (fun x => lib < fst x) tops -> view keep L cs tops R fh n -> view keep L cs tops R fh (commit lib n).
Proof.
  intros Ht [? [rest Hs] ? ? ? ? ? ? ?]. split; try done. simpl. rewrite Hs. by apply commit_keeps.
Qed.

Lemma view_same_but_log keep L cs tops R fh n n' :
  same_but_log n n' -> view keep L cs tops R fh n -> view keep L cs tops R fh n'.
Proof. intros [Ec Es Er Ef Ep Et Eo El Ek] []. split; rewrite ?Ec, ?Es, ?Er, ?Ef, ?Ep; try done; [auto|lia]. Qed.

(** set_max_size keeps what is not far below the head *)
Lemma view_set_max_size keep L cs tops R fh n s f :
  Forall (fun it => num fh - s <= num it) keep -> view keep L cs tops R fh n -> set_max_size s (fork_db n) = Ok f ->
  view keep L cs tops R fh (n <| fork_db := f |>).
Proof.
  intros Hk [? ? ? ? Hh Hf Hkeep ? ?] Hs. pose proof (set_max_size_ok _ _ _ Hf Hs) as Hf'.
  destruct (set_max_size_spec s (fork_db n)) as (f' & Hs' & _ & E1 & E2 & E3 & E4). rewrite Hs in Hs'. injection Hs' as <-.
  split; try done; simpl; [by rewrite E1|]. rewrite Forall_forall in *. intros it Hit. unfold fetch_block in *. rewrite E4, Hh.
  apply map_lookup_filter_Some. split; [by apply Hkeep|]. simpl. specialize (Hk it Hit). simpl in Hk.
  pose proof (alive_index _ _ _ (Hkeep it Hit)) as Ha. apply (fork_items _ Hf) in Ha as [[_ _ ? _] _]. lia.
Qed.

Lemma u32_large x : 0 <= x < 2 ^ 32 \/ x < 0 -> x <= u32 x.
Proof. unfold u32. intros [H|H]; [by rewrite Z.mod_small|]. pose proof (Z.mod_pos_bound x (2 ^ 32) ltac:(lia)). lia. Qed.

Lemma settle_outcome keep L cs tops R fh n sk db K :
  view keep L cs tops R fh n -> Gpo.last_irreversible_block_num (Db.gpo db) <= K -> K < 2 ^ 32 - 1 ->
  (keep <> [] -> 0 <= Gpo.last_irreversible_block_num (Db.gpo db)) ->
  Forall (fun x => K < fst x) tops -> Forall (fun it => K <= num it /\ num fh <= head_block_num db) keep ->
  0 <= head_block_num db < 2 ^ 32 - 1 ->
  exists n', view keep L cs tops R fh n' /\
    (settle_irreversible sk db n = Fine n' tt \/ exists e, settle_irreversible sk db n = Failed n' e) /\
    (Gpo.last_irreversible_block_num (Db.gpo db) <= L -> settle_irreversible sk db n = Fine n' tt).
Proof.
  intros Hv Hlib HK Hl0 Ht Hk Hfh. unfold settle_irreversible. set (lib := Gpo.last_irreversible_block_num (Db.gpo db)) in *.
  assert (view keep L cs tops R fh (commit lib n)) as Hv1.
  { apply view_commit; [|done]. eapply Forall_impl; [exact Ht|]. intros x ?. simpl in *. lia. }
  set (n1 := commit lib n) in *. clearbody n1.
  assert (forall n2, view keep L cs tops R fh n2 -> exists f, set_max_size (u32 (head_block_num db - lib + 1)) (fork_db n2) = Ok f /\
    view keep L cs tops R fh (n2 <| fork_db := f |>)) as Hset.
  { intros n2 Hv2. destruct (set_max_size_spec (u32 (head_block_num db - lib + 1)) (fork_db n2)) as (f & Hf & _). exists f. split; [done|].
    eapply view_set_max_size; [|exact Hv2|exact Hf]. rewrite Forall_forall in Hk |- *. intros it Hin. destruct (Hk it Hin) as [Hit Hle].
    assert (0 <= lib) by (apply Hl0; intros ->; by apply not_elem_of_nil in Hin).
    pose proof (u32_large (head_block_num db - lib + 1) ltac:(lia)). lia. }
  assert (exists n2, view keep L cs tops R fh n2 /\
    ((if skips sk skip_block_log then Fine n1 tt else write_log (Z.to_nat (lib - log_head_num n1)) lib n1) = Fine n2 tt \/
     (L < lib /\ exists e, (if skips sk skip_block_log then Fine n1 tt else write_log (Z.to_nat (lib - log_head_num n1)) lib n1) = Failed n2 e)))
    as (n2 & Hv2 & Ho).
  { destruct (skips sk skip_block_log); [exists n1; split; [done|by left]|].
    destruct (write_log_outcome (Z.to_nat (lib - log_head_num n1)) lib n1) as (n2 & S & O); [lia|].
    exists n2. split; [by eapply view_same_but_log|]. destruct O as [O|[e O]]; [by left|right]. split; [|by exists e].
    destruct (Z.le_gt_cases lib L) as [Hle|?]; [|done]. exfalso. pose proof (v_log _ _ _ _ _ _ _ Hv1) as Elog. pose proof (v_len _ _ _ _ _ _ _ Hv1).
    rewrite write_log_idle in O by (unfold log_ok in Elog; lia). done. }
  destruct Ho as [->|[Hlt [e ->]]]; simpl.
  - destruct (Hset n2 Hv2) as (f & -> & Hv3). exists (n2 <| fork_db := f |>). split; [done|]. split; [by left|done].
  - exists n2. split; [done|]. split; [right; by exists e|lia].
Qed.

(** ** Applying a block in a session *)

Section facts.
Context `{env : environment} (trx_id : transaction -> Z) (recovered_keys : transaction -> list public_key_type).
Context (merkle_digest : transaction -> Z) (hash_pair : Z -> Z -> Z) (hash : Z -> Z).
Context (trx_pack_size : transaction -> Z) (checkpoints : list (Z * Z)).

Abbreviation up_to := (up_to_irreversible trx_id recovered_keys merkle_digest hash_pair hash trx_pack_size).
Abbreviation apply_in_session := (apply_session trx_id recovered_keys merkle_digest hash_pair hash trx_pack_size checkpoints).
Abbreviation apply_blk := (Chain._apply_block trx_id recovered_keys merkle_digest hash_pair hash trx_pack_size).

(** the block applied to the state of the chain alone *)
Definition applies (skip : Z) (cs : chain_state) (b : signed_block) (cs' : chain_state) : Prop :=
  Chain.apply_block trx_id recovered_keys merkle_digest hash_pair hash trx_pack_size checkpoints skip false cs b = Ok cs'.

Lemma up_to_head sk cs b db : up_to sk cs b = Ok db -> head_block_num db = block_num (header b).
Proof.
  intros H. unfold up_to_irreversible in H. bind H as [db0 w] H0. bind H as cs1 H1. bind H as db1 H2. bind H as db2 H3.
  apply update_head_fields in H2 as (_ & E & _). rewrite <- E.
  assert (same_clock db1 db) as (_ & C & _); [|done].
  etrans; [apply keeps_clock; by eapply modify_witness_keeps|]. unfold update_last_irreversible_block in H.
  apply keeps_clock. result_case; keeps_facts; keeps_chain.
Qed.

Lemma up_to_defined sk cs b cs' : apply_blk sk false cs b = Ok cs' -> exists db, up_to sk cs b = Ok db.
Proof.
  intros H. unfold Chain._apply_block, Chain.start_block, advance_head, on_db in H. bind H as cs1 H1. bind H1 as [db0 w] H0. bind H1 as cs2 H2.
  bind H1 as cs3 H3. bind H3 as cs4 H4. bind H4 as db5 H5. bind H5 as db6 H6. bind H5 as db7 H7.
  exists db5. unfold up_to_irreversible. rewrite H0. cbn [mbind result_bind]. rewrite H2. cbn [mbind result_bind].
  rewrite H6. cbn [mbind result_bind]. by rewrite H7.
Qed.

Lemma applies_links skip cs b cs' :
  applies skip cs b cs' -> head_block_id (cs_db cs) = previous (header b) /\ head_block_id (cs_db cs') = block_id (header b).
Proof.
  unfold applies, Chain.apply_block. intros H. bind H as sk Hsk.
  destruct (block_phases _ _ _ _ _ _ _ _ _ _ _ H) as (L1 & _ & db0 & cs1 & cs2 & cs3 & _ & _ & _ & _ & _ & _ & (_ & _ & E3) & _ & _ & F3).
  by rewrite E3.
Qed.

(** the last irreversible block stays at or below [K] while the block is applied *)
Definition calm1 (K skip : Z) (cs : chain_state) (b : signed_block) : Prop :=
  forall sk db, block_skip checkpoints skip b = Ok sk -> up_to sk cs b = Ok db -> 0 <= Gpo.last_irreversible_block_num (Db.gpo db) <= K.

Lemma calm1_below keep K skip cs b : calm1 K skip cs b -> forall sk db, block_skip checkpoints skip b = Ok sk -> up_to sk cs b = Ok db ->
  Gpo.last_irreversible_block_num (Db.gpo db) <= K /\ (keep <> ([] : list fork_item) -> 0 <= Gpo.last_irreversible_block_num (Db.gpo db)).
Proof. intros H sk db E1 E2. destruct (H sk db E1 E2). by split. Qed.

Lemma abandon_view keep L cs tops r R fh n e :
  view keep L cs ((r, cs) :: tops) R fh n -> exists n', @abandon unit n e = Failed n' e /\ view keep L cs tops (R - 1) fh n'.
Proof.
  intros [Hc [rest Hs] Hr Hp Hh Hf Hk Hl Hn]. unfold abandon, undo. rewrite Hs. simpl. eexists. split; [done|].
  split; simpl; try done; [by exists rest|lia].
Qed.

Lemma apply_session_outcome keep L cs tops R fh n skip b K :
  view keep L cs tops R fh n ->
  (forall sk db, block_skip checkpoints skip b = Ok sk -> up_to sk cs b = Ok db ->
     Gpo.last_irreversible_block_num (Db.gpo db) <= K /\ (keep <> [] -> 0 <= Gpo.last_irreversible_block_num (Db.gpo db))) ->
  K < 2 ^ 32 - 1 -> K < R + 1 ->
  Forall (fun x => K < fst x) tops -> Forall (fun it => K <= num it /\ num fh <= block_num (header b)) keep -> block_num (header b) < 2 ^ 32 - 1 ->
  (exists n' cs', apply_in_session skip n b = Fine n' tt /\ applies skip cs b cs' /\ view keep L cs' ((R + 1, cs) :: tops) (R + 1) fh n') \/
  (exists n' e, apply_in_session skip n b = Failed n' e /\ view keep L cs tops R fh n').
Proof.
  intros Hv Hcalm HK HR Ht Hk Hfh. unfold apply_session.
  assert (view keep L cs ((R + 1, cs) :: tops) (R + 1) fh (start_undo_session n)) as Hv1.
  { destruct Hv as [Hc [rest Hs] Hr Hp Hh Hf Hkp Hl Hn]. split; simpl; try done; [exists rest; by rewrite Hs, Hr, Hc|lia]. }
  assert (forall n' e, view keep L cs ((R + 1, cs) :: tops) (R + 1) fh n' ->
    exists n'', @abandon unit n' e = Failed n'' e /\ view keep L cs tops R fh n'') as Hab.
  { intros n' e Hn'. destruct (abandon_view _ _ _ _ _ _ _ _ e Hn') as (n'' & E & Hn''). exists n''. split; [done|]. by replace R with (R + 1 - 1) by lia. }
  pose proof (v_chain _ _ _ _ _ _ _ Hv1) as Ec. cbv zeta. rewrite Ec.
  destruct (block_skip checkpoints skip b) as [sk|e] eqn:Esk; [|right; destruct (Hab _ e Hv1) as (n' & -> & H); eauto].
  destruct (up_to sk cs b) as [db|e] eqn:Eup; [|right; destruct (Hab _ e Hv1) as (n' & -> & H); eauto].
  pose proof (up_to_head _ _ _ _ Eup) as Eh. destruct (Hcalm sk db eq_refl Eup) as [Hlib Hl0].
  destruct (settle_outcome keep L cs ((R + 1, cs) :: tops) (R + 1) fh (start_undo_session n) sk db K) as (n2 & Hv2 & Ho & _);
    [done|done|done|done|by constructor|by rewrite Eh|rewrite Eh; pose proof (block_num_range (header b)); lia|].
  destruct Ho as [->|[e ->]]; [|right; destruct (Hab _ e Hv2) as (n' & -> & H); eauto].
  rewrite (v_chain _ _ _ _ _ _ _ Hv2).
  destruct (apply_blk sk false cs b) as [cs'|e] eqn:Ea; [|right; destruct (Hab _ e Hv2) as (n' & -> & H); eauto].
  left. eexists _, cs'. split; [done|]. split; [unfold applies, Chain.apply_block; by rewrite Esk|].
  destruct Hv2 as []. split; done.
Qed.

(** a block that applies, with its irreversible blocks in the log, is applied *)
Lemma apply_session_again keep L cs tops R fh n skip b K cs' :
  view keep L cs tops R fh n -> applies skip cs b cs' -> calm1 (Z.min K L) skip cs b -> K < 2 ^ 32 - 1 -> K < R + 1 ->
  Forall (fun x => K < fst x) tops -> Forall (fun it => K <= num it /\ num fh <= block_num (header b)) keep -> block_num (header b) < 2 ^ 32 - 1 ->
  exists n', apply_in_session skip n b = Fine n' tt /\ view keep L cs' ((R + 1, cs) :: tops) (R + 1) fh n'.
Proof.
  intros Hv Ha Hcalm HK HR Ht Hk Hfh. unfold apply_session. unfold applies, Chain.apply_block in Ha. bind Ha as sk Esk.
  assert (view keep L cs ((R + 1, cs) :: tops) (R + 1) fh (start_undo_session n)) as Hv1.
  { destruct Hv as [Hc [rest Hs] Hr Hp Hh Hf Hkp Hl Hn]. split; simpl; try done; [exists rest; by rewrite Hs, Hr, Hc|lia]. }
  cbv zeta. rewrite Esk, (v_chain _ _ _ _ _ _ _ Hv1). destruct (up_to_defined _ _ _ _ Ha) as [db Eup]. rewrite Eup.
  pose proof (up_to_head _ _ _ _ Eup) as Eh. pose proof (Hcalm sk db Esk Eup) as Hlib.
  destruct (settle_outcome keep L cs ((R + 1, cs) :: tops) (R + 1) fh (start_undo_session n) sk db K) as (n2 & Hv2 & _ & Hfine);
    [done|lia|done|intros _; lia|by constructor|by rewrite Eh|rewrite Eh; pose proof (block_num_range (header b)); lia|].
  rewrite Hfine by lia. rewrite (v_chain _ _ _ _ _ _ _ Hv2), Ha. eexists. split; [done|]. destruct Hv2 as []. split; done.
Qed.

(** ** Popping the blocks of a branch *)

(** the sessions [tops] were opened for the blocks [bs], the oldest first, on the state
    [c0] at revision [R0] *)
Inductive built (skip R0 : Z) (c0 : chain_state) : list signed_block -> list (Z * chain_state) -> chain_state -> Prop :=
| built_nil : built skip R0 c0 [] [] c0
| built_snoc bs tops cs b cs' :
    built skip R0 c0 bs tops cs -> applies skip cs b cs' ->
    built skip R0 c0 (bs ++ [b])%list ((R0 + Z.of_nat (List.length bs) + 1, cs) :: tops) cs'.

Lemma built_revisions skip R0 c0 bs tops cs : built skip R0 c0 bs tops cs -> Forall (fun x => R0 < fst x) tops.
Proof. induction 1; constructor; [simpl; lia|done]. Qed.

Lemma built_replays skip R0 c0 bs tops cs :
  built skip R0 c0 bs tops cs ->
  foldM (Chain.apply_block trx_id recovered_keys merkle_digest hash_pair hash trx_pack_size checkpoints skip false) c0 bs = Ok cs.
Proof.
  induction 1 as [|bs tops cs b cs' _ IH Ha]; [done|]. rewrite foldM_app, IH. cbn [mbind result_bind foldM]. by rewrite Ha.
Qed.

(** a chain of pointers whose items are kept *)
Fixpoint down (keep : list fork_item) (it : fork_item) (ps : list fork_item) : Prop :=
  match ps with
  | [] => True
  | p :: ps => prev it = Some (addr p) /\ p ∈ keep /\ down keep p ps
  end.
Fixpoint bottom (it : fork_item) (ps : list fork_item) : fork_item :=
  match ps with [] => it | p :: ps => bottom p ps end.

Lemma view_pop keep L cs c r tops R fh p y n :
  view keep L cs ((r, c) :: tops) R fh n -> prev fh = Some (addr p) -> p ∈ keep -> y ∈ keep ->
  ForkDb.id y = head_block_id (cs_db cs) -> exists n', pop_block n = Fine n' tt /\ view keep L c tops (R - 1) p n'.
Proof.
  intros [Hc [rest Hs] Hr Hp Hh Hf Hk Hl Hn] Hprev Hpk Hy Hid. unfold pop_block, reset_pending. rewrite Hp.
  rewrite Forall_forall in Hk. pose proof (Hk y Hy) as Ey. unfold fetch_block_by_id, head_id. rewrite Hc, <- Hid, Ey.
  pose proof (alive_index _ _ _ (Hk p Hpk)) as Ap. pose proof (lock_alive (fork_db n) (prev fh) p Hf Ap Hprev) as El.
  destruct (ForkDb.pop_block (fork_db n)) as [f|e] eqn:Ef; [|unfold ForkDb.pop_block in Ef; by rewrite Hh, El in Ef].
  pose proof (pop_block_ok _ _ Hf Ef) as Hf'. unfold ForkDb.pop_block in Ef. rewrite Hh, El in Ef. injection Ef as <-.
  unfold undo. simpl. rewrite Hs. simpl. eexists. split; [done|]. split; simpl; try done; [by exists rest|lia|by apply Forall_forall].
Qed.

Lemma pop_loop_view keep L skip R0 c0 target bs tops cs :
  built skip R0 c0 bs tops cs -> head_block_id (cs_db c0) = target ->
  Forall (fun b => block_id (header b) <> target /\ exists y, y ∈ keep /\ ForkDb.id y = block_id (header b)) bs ->
  forall fuel fh ps n, view keep L cs tops (R0 + Z.of_nat (List.length bs)) fh n -> down keep fh ps -> List.length ps = List.length bs ->
  (List.length bs <= fuel)%nat -> exists n', pop_loop fuel target n = Fine n' tt /\ view keep L c0 [] R0 (bottom fh ps) n'.
Proof.
  intros Hb Ht Hall. induction Hb as [|bs tops cs b cs' Hb IH Ha]; intros fuel fh ps n Hv Hd Hlen Hfuel.
  - destruct ps; [|done]. exists n. simpl in *. rewrite Z.add_0_r in Hv. split; [|done].
    destruct fuel; simpl; unfold head_id; by rewrite (v_chain _ _ _ _ _ _ _ Hv), Ht, Z.eqb_refl.
  - apply Forall_app in Hall as [Hall Hlast]. inversion Hlast as [|? ? [Hne (y & Hy & Hid)] _]; subst.
    rewrite length_app in *. simpl in Hlen, Hfuel. destruct ps as [|p ps]; [simpl in Hlen; lia|]. destruct Hd as (D1 & D2 & D3).
    destruct fuel as [|fuel]; [lia|]. simpl. destruct (applies_links _ _ _ _ Ha) as [_ Hh].
    unfold head_id. rewrite (v_chain _ _ _ _ _ _ _ Hv), Hh. destruct (Z.eqb_spec (block_id (header b)) (head_block_id (cs_db c0))) as [E|_]; [done|].
    destruct (view_pop keep L cs' cs _ tops _ fh p y n Hv D1 D2 Hy) as (n1 & -> & Hv1); [by rewrite Hid|]. simpl.
    simpl in Hv1. replace (R0 + Z.of_nat (List.length bs + 1) - 1) with (R0 + Z.of_nat (List.length bs)) in Hv1 by lia.
    apply (IH Hall fuel p ps n1); [done|done|simpl in Hlen; lia|lia].
Qed.

Lemma down_num f keep it ps :
  fork_ok f -> Forall (fun x => fetch_block (ForkDb.id x) f = Some x) keep -> it ∈ alive f -> down keep it ps ->
  num (bottom it ps) = num it - Z.of_nat (List.length ps) /\ 0 < num (bottom it ps).
Proof.
  intros Hf Hk. revert it. induction ps as [|p ps IH]; intros it Hit Hd; simpl in *.
  - pose proof (proj1 (fork_items f Hf it Hit)) as [_ _ ? _]. lia.
  - destruct Hd as (D1 & D2 & D3). rewrite Forall_forall in Hk. pose proof (alive_index _ _ _ (Hk p D2)) as Ap.
    destruct (lock_link f it p Hf Hit) as (_ & _ & En); [by apply lock_alive|]. destruct (IH p Ap D3) as [E1 E2]. lia.
Qed.

Lemma pop_until_view keep L skip R0 c0 target bs tops cs fh ps n :
  built skip R0 c0 bs tops cs -> head_block_id (cs_db c0) = target ->
  Forall (fun b => block_id (header b) <> target /\ exists y, y ∈ keep /\ ForkDb.id y = block_id (header b)) bs ->
  view keep L cs tops (R0 + Z.of_nat (List.length bs)) fh n -> down keep fh ps -> List.length ps = List.length bs ->
  exists n', pop_until target n = Fine n' tt /\ view keep L c0 [] R0 (bottom fh ps) n'.
Proof.
  intros Hb Ht Hall Hv Hd Hlen. unfold pop_until. eapply pop_loop_view; try done.
  pose proof Hv as [_ _ _ _ Hh Hf Hk _ _]. rewrite Hh. simpl.
  destruct (down_num (fork_db n) keep fh ps Hf Hk) as [E1 E2]; [by apply alive_head|done|]. lia.
Qed.

(** ** Applying a branch *)

(** the last irreversible block stays at or below [K] while the blocks are applied *)
Fixpoint calm (K skip : Z) (cs : chain_state) (bs : list signed_block) : Prop :=
  match bs with
  | [] => True
  | b :: bs => calm1 K skip cs b /\ forall cs', applies skip cs b cs' -> calm K skip cs' bs
  end.

Abbreviation apply_items := (apply_branch trx_id recovered_keys merkle_digest hash_pair hash trx_pack_size checkpoints).
Abbreviation restore_items := (restore_branch trx_id recovered_keys merkle_digest hash_pair hash trx_pack_size checkpoints).

Lemma apply_branch_view keep L K skip R0 c0 fh its : forall bs tops cs n,
  built skip R0 c0 bs tops cs -> view keep L cs tops (R0 + Z.of_nat (List.length bs)) fh n -> calm K skip cs (map data its) ->
  K < 2 ^ 32 - 1 -> K <= R0 -> Forall (fun it => K <= num it) keep ->
  Forall (fun it => num fh <= block_num (header (data it)) < 2 ^ 32 - 1) its ->
  exists n' done rest tops' cs', its = (done ++ rest)%list /\ built skip R0 c0 (bs ++ map data done)%list tops' cs' /\
    view keep L cs' tops' (R0 + Z.of_nat (List.length (bs ++ map data done))) fh n' /\
    (rest = [] /\ apply_items skip n its = Fine n' None \/
     rest <> [] /\ exists e, apply_items skip n its = Fine n' (Some (e, rest))).
Proof.
  induction its as [|it its IH]; intros bs tops cs n Hb Hv Hcalm HK HR Hk Hits; cbn [apply_branch map].
  - exists n, [], [], tops, cs. simpl. rewrite app_nil_r. split; [done|]. split; [done|]. split; [done|]. by left.
  - inversion Hits as [|? ? [H1 H2] Hits']; subst. destruct Hcalm as [Hc1 Hc2].
    destruct (apply_session_outcome keep L cs tops (R0 + Z.of_nat (List.length bs)) fh n skip (data it) K) as [(n1 & cs1 & E & Ha & Hv1)|(n1 & e & E & Hv1)].
    + done.
    + by apply calm1_below.
    + done.
    + lia.
    + eapply Forall_impl; [by eapply built_revisions|]. intros x ?. simpl in *. lia.
    + eapply Forall_impl; [exact Hk|]. intros x ?. simpl in *. lia.
    + done.
    + rewrite E. simpl. pose proof (built_snoc _ _ _ _ _ _ _ _ Hb Ha) as Hb1.
      destruct (IH (bs ++ [data it])%list _ cs1 n1 Hb1) as (n' & dn & rest & tops' & cs' & -> & Hb' & Hv' & Ho); try done.
      * rewrite length_app. simpl. by replace (R0 + Z.of_nat (List.length bs + 1)) with (R0 + Z.of_nat (List.length bs) + 1) by lia.
      * by apply Hc2.
      * exists n', (it :: dn), rest, tops', cs'. simpl. rewrite <- app_assoc in Hb', Hv'. done.
    + rewrite E. exists n1, [], (it :: its), tops, cs. simpl. rewrite app_nil_r. split; [done|]. split; [done|]. split; [done|]. right. split; [done|]. by exists e.
Qed.

Lemma restore_branch_view L K skip fh its : forall tops cs cs' R n,
  view [] L cs tops R fh n ->
  foldM (Chain.apply_block trx_id recovered_keys merkle_digest hash_pair hash trx_pack_size checkpoints skip false) cs (map data its) = Ok cs' ->
  calm (Z.min K L) skip cs (map data its) -> K < 2 ^ 32 - 1 -> K < R + 1 -> Forall (fun x => K < fst x) tops ->
  Forall (fun it => block_num (header (data it)) < 2 ^ 32 - 1) its ->
  exists n', restore_items skip n its = Fine n' tt /\ chain n' = cs'.
Proof.
  induction its as [|it its IH]; intros tops cs cs' R n Hv Hrun Hcalm HK HR Ht Hits; cbn [restore_branch map foldM] in *.
  - injection Hrun as <-. exists n. split; [done|]. by apply Hv.
  - bind Hrun as cs1 H1. inversion Hits; subst. destruct Hcalm as [Hc1 Hc2].
    destruct (apply_session_again [] L cs tops R fh n skip (data it) K cs1) as (n1 & E & Hv1); try done.
    rewrite E. simpl. eapply IH; [exact Hv1|done|by apply Hc2|done|lia|constructor; [simpl; lia|done]|done].
Qed.

(** forgetting the items of the failed branch *)
Lemma view_remove keep keep' L cs tops R fh n rest :
  view keep L cs tops R fh n ->
  Forall (fun x => x ∈ keep /\ Forall (fun it => block_id (header (data it)) <> ForkDb.id x) rest) keep' ->
  view keep' L cs tops R fh (on_fork (fun f => fold_left (fun f it => remove (block_id (header (data it))) f) rest f) n).
Proof.
  intros [? ? ? ? Hh Hf Hk ? ?] Hk'. unfold on_fork. split; simpl; try done.
  - clear Hf Hk Hk'. revert Hh. generalize (fork_db n). induction rest as [|it rest IH]; intros f Hf; simpl; [done|]. by apply IH.
  - clear Hh Hk Hk'. revert Hf. generalize (fork_db n). induction rest as [|it rest IH]; intros f Hf; simpl; [done|]. by apply IH, remove_ok.
  - rewrite Forall_forall in *. intros x Hx. destruct (Hk' x Hx) as [Hx1 Hx2]. specialize (Hk x Hx1). simpl in Hk. clear - Hk Hx2.
    revert Hk. generalize (fork_db n). induction rest as [|it rest IH]; intros f Hk; simpl; [done|]. inversion Hx2; subst.
    apply IH; [done|]. unfold fetch_block, remove in *. simpl. by rewrite lookup_delete_ne.
Qed.

Lemma view_set_head keep L cs tops R fh n front :
  view keep L cs tops R fh n -> front ∈ keep -> view keep L cs tops R front (on_fork (set_head (Some front)) n).
Proof.
  intros [? ? ? ? Hh Hf Hk ? ?] Hfr. split; simpl; try done. apply set_head_ok; [done|]. intros it [= <-].
  rewrite Forall_forall in Hk. eapply alive_index. by apply Hk.
Qed.

Lemma view_forget keep L cs tops R fh n : view keep L cs tops R fh n -> view [] L cs tops R fh n.
Proof. intros []. split; try done. Qed.

Lemma down_take keep it ps k : down keep it ps -> down keep it (take k ps).
Proof. revert it k. induction ps as [|p ps IH]; intros it [|k] H; simpl in *; try done. destruct H as (H1 & H2 & H3). split_and!; try done. by apply IH. Qed.

(** the pointers along a path *)
Lemma path_down f keep x l z : path f x l z -> Forall (fun it => it ∈ keep) l ->
  exists ps, l = x :: ps /\ down keep x ps /\ bottom x ps = z.
Proof.
  induction 1 as [x|x y l z Hl Hp IH]; intros Hk; [by exists []|]. inversion Hk as [|? ? _ Hk']; subst.
  destruct (IH Hk') as (ps & -> & Hd & Hb). exists (y :: ps). inversion Hk'; subst. apply lock_Some in Hl as [_ Hl]. by split_and!.
Qed.

Lemma down_snoc keep it ps p : down keep it ps -> prev (bottom it ps) = Some (addr p) -> p ∈ keep -> down keep it (ps ++ [p])%list.
Proof. revert it. induction ps as [|q ps IH]; intros it Hd Hp Hk; simpl in *; [by split_and!|]. destruct Hd as (H1 & H2 & H3). split_and!; try done. by apply IH. Qed.

(** ** The switch *)

Lemma built_first skip R0 c0 b bs tops cs : built skip R0 c0 (b :: bs) tops cs -> head_block_id (cs_db c0) = previous (header b).
Proof. intros H. apply built_replays in H. cbn [foldM] in H. bind H as cs1 H1. by apply applies_links in H1 as [H1 _]. Qed.

Lemma built_last skip R0 c0 b bs tops cs : built skip R0 c0 (bs ++ [b])%list tops cs -> head_block_id (cs_db cs) = block_id (header b).
Proof.
  intros H. remember (bs ++ [b])%list as k eqn:E. destruct H as [|bs' tops' cs1 b' cs' Hb Ha]; [by destruct bs|].
  apply app_inj_tail in E as [-> ->]. by apply applies_links in Ha as [_ Ha].
Qed.

Lemma path_NoDup f x l z : fork_ok f -> x ∈ alive f -> path f x l z -> NoDup (map num l).
Proof.
  intros Hf Hx H. induction H as [x|x y l z Hl Hp IH]; simpl; [apply NoDup_singleton|].
  destruct (lock_link f x y Hf Hx Hl) as (Ay & _ & En). destruct (path_alive f Hf _ _ _ Ay Hp) as (_ & _ & Hall).
  constructor; [|by apply IH]. intros Hin. apply list_elem_of_In, in_map_iff in Hin as (w & Ew & Hw). rewrite Forall_forall in Hall.
  destruct (Hall w) as [_ ?]; [by apply list_elem_of_In|]. lia.
Qed.

Lemma path_length f x l z : fork_ok f -> x ∈ alive f -> path f x l z -> Z.of_nat (List.length l) = num x - num z + 1.
Proof.
  intros Hf Hx H. induction H as [x|x y l z Hl Hp IH]; simpl; [lia|].
  destruct (lock_link f x y Hf Hx Hl) as (Ay & _ & En). specialize (IH Ay). lia.
Qed.

(** the two branches of a fork, their common ancestor [p] and the sessions of the
    current branch *)
Record forked (f : fork_database) (l m : list fork_item) (h y p u v : fork_item) : Prop := mk_forked {
  fk_ok : fork_ok f;
  fk_first : path f h l u;
  fk_second : path f y m v;
  fk_point : previous_id u = previous_id v;
  fk_parent : lock f (prev v) = Some p;
  fk_known : Forall (fun it => fetch_block (ForkDb.id it) f = Some it) (l ++ m ++ [p])%list;
  fk_apart : forall x z, x ∈ l -> z ∈ m -> ForkDb.id x <> ForkDb.id z;
  fk_longer : num h = num y + 1
}.

Abbreviation switch := (switch_forks trx_id recovered_keys merkle_digest hash_pair hash trx_pack_size checkpoints).

Section switch.
Context (f : fork_database) (l m : list fork_item) (h y p u v : fork_item) (Hfk : forked f l m h y p u v).
Context (L K skip R0 : Z) (c0 cs : chain_state) (tops : list (Z * chain_state)).
Context (Hbuilt : built skip R0 c0 (map data (rev m)) tops cs) (Hcalm_l : calm K skip c0 (map data (rev l))).
Context (Hcalm_m : calm (Z.min K L) skip c0 (map data (rev m))) (HK : K <= num p) (HR : K <= R0) (Hh : num h < 2 ^ 32 - 1).

Lemma forked_index it : it ∈ (l ++ m ++ [p])%list -> it ∈ alive f /\ item_ok it /\ num_from_id (ForkDb.id it) = num it.
Proof.
  intros Hit. pose proof (fk_known _ _ _ _ _ _ _ _ Hfk) as Hk. rewrite Forall_forall in Hk. pose proof (alive_index _ _ _ (Hk it Hit)) as Ha.
  destruct (fork_items f (fk_ok _ _ _ _ _ _ _ _ Hfk) it Ha) as [Hok _]. split; [done|]. split; [done|]. by apply item_num_id.
Qed.

Lemma first_head : h ∈ l /\ exists lt, l = h :: lt.
Proof. destruct (fk_first _ _ _ _ _ _ _ _ Hfk); (split; [by left|by eexists]). Qed.
Lemma second_head : y ∈ m /\ exists mt, m = y :: mt.
Proof. destruct (fk_second _ _ _ _ _ _ _ _ Hfk); (split; [by left|by eexists]). Qed.
Lemma path_end_in g x k z : path g x k z -> z ∈ k.
Proof. induction 1; [by left|by right]. Qed.

Lemma branch_numbers :
  num u = num v /\ num v = num p + 1 /\ ForkDb.id p = previous_id v /\ List.length l = S (List.length m) /\
  Forall (fun it => num u <= num it <= num h) l /\ Forall (fun it => num v <= num it <= num y) m.
Proof.
  destruct (forked_index h) as (Ah & _); [apply elem_of_app; left; apply first_head|].
  destruct (forked_index y) as (Ay & _); [apply elem_of_app; right; apply elem_of_app; left; apply second_head|].
  pose proof Hfk as [Hf H1 H2 H3 H4 _ _ H5]. destruct (path_alive f Hf _ _ _ Ah H1) as (Au & _ & Fl). destruct (path_alive f Hf _ _ _ Ay H2) as (Av & _ & Fm).
  destruct (lock_link f v p Hf Av H4) as (_ & Ep & En). pose proof (same_previous_num f Hf u v Au Av H3).
  pose proof (path_length f h l u Hf Ah H1). pose proof (path_length f y m v Hf Ay H2). split_and!; try done; [lia|..].
  - eapply Forall_impl; [exact Fl|]. by intros ? [_ ?].
  - eapply Forall_impl; [exact Fm|]. by intros ? [_ ?].
Qed.

(** every block of the branches is kept under its id and is not the ancestor *)
Lemma branch_blocks (keep its : list fork_item) :
  (forall it, it ∈ its -> it ∈ keep /\ it ∈ (l ++ m)%list) ->
  Forall (fun b => block_id (header b) <> previous_id v /\ exists z, z ∈ keep /\ ForkDb.id z = block_id (header b)) (map data its).
Proof.
  intros Hits. apply List.Forall_map, Forall_forall. intros it Hit. destruct (Hits it Hit) as [Hk Hlm].
  destruct (forked_index it) as (_ & Hok & En); [rewrite app_assoc; apply elem_of_app; by left|].
  destruct branch_numbers as (N1 & N2 & N3 & _ & Fl & Fm). rewrite Forall_forall in Fl, Fm.
  destruct (forked_index p) as (_ & _ & Ep); [rewrite app_assoc; apply elem_of_app; right; by left|].
  rewrite <- (item_id it Hok). split; [|by exists it]. rewrite <- N3. intros E. rewrite E, Ep in En.
  apply elem_of_app in Hlm as [Hl|Hm]; [specialize (Fl it Hl); simpl in Fl|specialize (Fm it Hm); simpl in Fm]; lia.
Qed.

Lemma second_last : last m = Some v.
Proof.
  pose proof (fk_second _ _ _ _ _ _ _ _ Hfk) as H. clear - H. induction H as [|? ? k ? _ H IH]; [done|].
  destruct k; [by inversion H|]. by rewrite last_cons_cons.
Qed.

(** the state under both branches *)
Lemma ancestor_head : head_block_id (cs_db c0) = previous_id v.
Proof.
  destruct second_head as [_ [mt Em]]. destruct (rev m) as [|w k] eqn:Er; [rewrite Em in Er; simpl in Er; by destruct (rev mt)|].
  apply built_first in Hbuilt. rewrite Hbuilt. unfold previous_id. do 3 f_equal. pose proof second_last as El.
  apply (f_equal (@rev fork_item)) in Er. rewrite rev_involutive in Er. simpl in Er. rewrite Er, last_snoc in El. by injection El.
Qed.

Lemma first_down : exists lt, l = h :: lt /\ down (l ++ m ++ [p])%list h lt /\ bottom h lt = u.
Proof. apply (path_down f); [apply Hfk|]. apply Forall_forall. intros x Hx. apply elem_of_app. by left. Qed.

(** the current branch and its ancestor *)
Lemma second_down keep : (forall x, x ∈ (m ++ [p])%list -> x ∈ keep) -> exists mt, m = y :: mt /\ down keep y (mt ++ [p])%list.
Proof.
  intros Hk. destruct (path_down f keep y m v) as (mt & Em & Dm & Bm); [apply Hfk|apply Forall_forall; intros x Hx; apply Hk, elem_of_app; by left|].
  exists mt. split; [done|]. apply down_snoc; [done| |apply Hk, elem_of_app; right; by left].
  rewrite Bm. pose proof (fk_parent _ _ _ _ _ _ _ _ Hfk) as H. by apply lock_Some in H as [_ ->].
Qed.

(** removing the blocks that were not applied keeps the others *)
Lemma failed_keeps dn rest : rev l = (dn ++ rest)%list ->
  Forall (fun x => x ∈ (l ++ m ++ [p])%list /\ Forall (fun it => block_id (header (data it)) <> ForkDb.id x) rest) (dn ++ m ++ [p])%list.
Proof.
  intros Er. assert (forall it, it ∈ dn \/ it ∈ rest -> it ∈ l) as Hin.
  { intros it Hit. apply list_elem_of_In, in_rev. rewrite Er. by apply list_elem_of_In, elem_of_app. }
  destruct branch_numbers as (N1 & N2 & N3 & _ & Fl & _). rewrite Forall_forall in Fl.
  apply Forall_forall. intros x Hx. split; [apply elem_of_app in Hx as [Hx|Hx]; apply elem_of_app; [left; apply Hin; by left|by right]|].
  apply Forall_forall. intros it Hit. assert (it ∈ l) as Hitl by (apply Hin; by right).
  destruct (forked_index it) as (_ & Hok & En); [apply elem_of_app; by left|]. rewrite <- (item_id it Hok). intros E. rewrite E in En.
  assert (x ∈ (l ++ m ++ [p])%list) as Hxa by (apply elem_of_app in Hx as [Hx|Hx]; apply elem_of_app; [left; apply Hin; by left|by right]).
  destruct (forked_index x Hxa) as (_ & _ & Enx). rewrite Enx in En. apply elem_of_app in Hx as [Hx|Hx].
  - destruct (forked_index h) as (Ah & _); [apply elem_of_app; left; apply first_head|].
    pose proof (path_NoDup f h l u (fk_ok _ _ _ _ _ _ _ _ Hfk) Ah (fk_first _ _ _ _ _ _ _ _ Hfk)) as Hnd.
    rewrite <- (rev_involutive l), map_rev, Er, map_app in Hnd.
    apply NoDup_ListNoDup, NoDup_rev in Hnd. rewrite rev_involutive in Hnd. apply NoDup_ListNoDup, NoDup_app in Hnd as (_ & Hnd & _).
    apply (Hnd (num x)); [by apply list_elem_of_fmap_2|rewrite En; by apply list_elem_of_fmap_2].
  - apply elem_of_app in Hx as [Hx|Hx]; [by eapply (fk_apart _ _ _ _ _ _ _ _ Hfk)|]. apply list_elem_of_singleton in Hx as ->.
    specialize (Fl it Hitl). simpl in Fl. lia.
Qed.

(** popping the current branch leads to the ancestor *)
Lemma pop_second n :
  view (l ++ m ++ [p])%list L cs tops (R0 + Z.of_nat (List.length m)) h n ->
  exists n', pop_until (previous_id v) n = Fine n' tt /\ view (l ++ m ++ [p])%list L c0 [] R0 u n'.
Proof.
  intros Hv. destruct first_down as (lt & El & Dl & Bl). destruct branch_numbers as (_ & _ & _ & Nl & _).
  rewrite <- Bl. eapply pop_until_view; [exact Hbuilt|exact ancestor_head| | |done|].
  - apply branch_blocks. intros it Hit. apply list_elem_of_In, in_rev, list_elem_of_In in Hit. rewrite !elem_of_app. tauto.
  - by rewrite length_map, length_rev.
  - rewrite length_map, length_rev. rewrite El in Nl. simpl in Nl. lia.
Qed.

(** a part of the new branch is popped and the current branch is applied again *)
Lemma back_to_second dn rest n cs2 tops2 fh :
  rev l = (dn ++ rest)%list -> rest <> [] -> built skip R0 c0 (map data dn) tops2 cs2 ->
  view (dn ++ m ++ [p])%list L cs2 tops2 (R0 + Z.of_nat (List.length (map data dn))) fh n ->
  exists n' n'', pop_until (previous_id v) (on_fork (set_head (Some y)) n) = Fine n' tt /\
    restore_items skip n' (rev m) = Fine n'' tt /\ chain n'' = cs.
Proof.
  intros Er Hne Hb Hv. destruct branch_numbers as (N1 & N2 & N3 & Nl & Fl & Fm). rewrite Forall_forall in Fm.
  assert (y ∈ (dn ++ m ++ [p])%list) as Hy by (rewrite !elem_of_app; right; left; apply second_head).
  pose proof (view_set_head _ _ _ _ _ _ _ y Hv Hy) as Hv1.
  destruct (second_down (dn ++ m ++ [p])%list) as (mt & Em & Dm); [intros x Hx; apply elem_of_app; by right|].
  assert (List.length dn <= List.length m)%nat as Hdn.
  { apply (f_equal (@List.length fork_item)) in Er. rewrite length_rev, length_app in Er. destruct rest; [done|]. simpl in Er. lia. }
  destruct (pop_until_view (dn ++ m ++ [p])%list L skip R0 c0 (previous_id v) (map data dn) tops2 cs2 y (take (List.length dn) (mt ++ [p]))
    (on_fork (set_head (Some y)) n)) as (n1 & E1 & Hv2); [done|exact ancestor_head| |done|by apply down_take| |].
  - apply branch_blocks. intros it Hit. split; [apply elem_of_app; by left|]. apply elem_of_app. left. apply list_elem_of_In, in_rev.
    rewrite Er. apply list_elem_of_In, elem_of_app. by left.
  - rewrite length_take, length_app, length_map. simpl. rewrite Em in Hdn. simpl in Hdn. lia.
  - apply view_forget in Hv2. pose proof (fk_longer _ _ _ _ _ _ _ _ Hfk) as Hlong. destruct second_head as [Hym _].
    pose proof (Fm y Hym) as Fy. simpl in Fy.
    destruct (restore_branch_view L K skip _ (rev m) [] c0 cs R0 n1 Hv2) as (n2 & E2 & Ec); [by eapply built_replays|done|lia|lia|constructor| |].
    + apply Forall_forall. intros it Hit. apply list_elem_of_In, in_rev, list_elem_of_In in Hit.
      destruct (forked_index it) as (_ & Hok & _); [rewrite !elem_of_app; tauto|]. rewrite <- (item_num it Hok).
      specialize (Fm it Hit). simpl in Fm. lia.
    + by exists n1, n2.
Qed.

Lemma switch_outcome n :
  view (l ++ m ++ [p])%list L cs tops (R0 + Z.of_nat (List.length m)) h n ->
  (exists n', switch skip l m n = Fine n' true /\ head_id n' = block_id (header (data h))) \/
  (exists n' e, switch skip l m n = Failed n' e /\ chain n' = cs).
Proof.
  intros Hv. destruct branch_numbers as (N1 & N2 & N3 & Nl & Fl & Fm). destruct second_head as [_ [mt Em]].
  destruct first_head as [Hhl [lt El]]. rewrite Forall_forall in Fl, Fm. pose proof (Fl h Hhl) as Fh. simpl in Fh.
  assert (head m = Some y) as Efront by (by rewrite Em). unfold switch_forks. rewrite Efront, second_last.
  destruct (pop_second n Hv) as (n1 & -> & Hv1). cbn [run_bind].
  destruct (apply_branch_view (l ++ m ++ [p])%list L K skip R0 c0 u (rev l) [] [] c0 n1) as (n2 & dn & rest & tops2 & cs2 & Er & Hb2 & Hv2 & Ho);
    [constructor|simpl; by rewrite Z.add_0_r|done|lia|done| | |].
  { apply Forall_forall. intros it Hit. rewrite !elem_of_app in Hit. destruct Hit as [Hit|[Hit|Hit]].
    - specialize (Fl it Hit). simpl in Fl. lia.
    - specialize (Fm it Hit). simpl in Fm. lia.
    - by apply list_elem_of_singleton in Hit as ->. }
  { apply Forall_forall. intros it Hit. apply list_elem_of_In, in_rev, list_elem_of_In in Hit.
    destruct (forked_index it) as (_ & Hok & _); [apply elem_of_app; by left|]. rewrite <- (item_num it Hok).
    specialize (Fl it Hit). simpl in Fl. lia. }
  simpl in Hb2, Hv2. destruct Ho as [[-> ->]|(Hrest & e & ->)]; cbn [run_bind].
  - left. exists n2. split; [done|]. unfold head_id. rewrite (v_chain _ _ _ _ _ _ _ Hv2). rewrite app_nil_r in Er. subst dn.
    rewrite El in Hb2. simpl in Hb2. rewrite map_app in Hb2. by apply built_last in Hb2.
  - right. pose proof (view_remove _ _ L cs2 tops2 _ u n2 rest Hv2 (failed_keeps dn rest Er)) as Hv3.
    destruct (back_to_second dn rest _ cs2 tops2 u Er Hrest Hb2 Hv3) as (n3 & n4 & -> & E4 & Ec). cbn [run_bind]. rewrite E4. by exists n4, e.
Qed.
End switch.

Abbreviation push := (_push_block trx_id recovered_keys merkle_digest hash_pair hash trx_pack_size checkpoints).

Lemma hold_view keep L cs tops R fh n its :
  view keep L cs tops R fh n -> (forall it, it ∈ its -> it ∈ alive (fork_db n)) -> view keep L cs tops R fh (hold its n).
Proof. intros [] Hits. split; try done. simpl. by apply hold_ok. Qed.

(** C6: Switching forks is atomic as long as it stays above the irreversible blocks.  Let
    the head of a longer branch arrive, let the blocks of the current branch above the
    common ancestor have been applied with the same skip flags, one session each, and let
    no block above the common ancestor become irreversible while the blocks of the two
    branches are applied ([calm]; for the current branch what is irreversible also is in
    the log).  Then push_block either makes the new head the head of the chain, or throws
    and the state of the chain is the one before: the blocks of the new branch are undone
    and those of the old one applied again.  The node is in order ([log_ok], [fork_ok], no
    pending session) and the number of the new head is below 2^32 - 1.  Without [calm] this
    can fail, as for a single block (extend_head_atomic). *)
Theorem fork_switch_atomic skip b n new_head f first second y p u v K R0 c0 tops rest :
  skips skip skip_fork_db = false -> pending_session n = false -> log_ok n -> fork_ok (fork_db n) ->
  ForkDb.push_block b (fork_db n) = Ok (new_head, f) ->
  previous_id new_head <> head_id n -> head_num n < num new_head < 2 ^ 32 - 1 ->
  fetch_branch_from (block_id (header (data new_head))) (head_id n) f = Ok (first, second) ->
  forked f first second new_head y p u v ->
  built skip R0 c0 (map data (rev second)) tops (chain n) -> stack n = (tops ++ rest)%list ->
  revision n = R0 + Z.of_nat (List.length second) ->
  calm K skip c0 (map data (rev first)) -> calm (Z.min K (Z.of_nat (List.length (log n)))) skip c0 (map data (rev second)) ->
  K <= num p -> K <= R0 ->
  (exists n', _push_block trx_id recovered_keys merkle_digest hash_pair hash trx_pack_size checkpoints skip b n = Fine n' true /\
     head_id n' = block_id (header (data new_head))) \/
  (exists n' e, _push_block trx_id recovered_keys merkle_digest hash_pair hash trx_pack_size checkpoints skip b n = Failed n' e /\
     chain n' = chain n).
Proof.
  intros Hsk Hps Hlog Hf Hpush Hprev Hnum Hfetch Hfk Hb Hs Hr Hc1 Hc2 HK HR.
  unfold _push_block. rewrite Hsk, Hpush. cbv zeta. destruct (Z.eqb_spec (previous_id new_head) (head_id (n <| fork_db := f |>))) as [E|_]; [done|].
  destruct (Z.leb_spec (num new_head) (head_num (n <| fork_db := f |>))) as [E|_]; [unfold head_num in *; simpl in E; lia|].
  change (fork_db (n <| fork_db := f |>)) with f. change (head_id (n <| fork_db := f |>)) with (head_id n). rewrite Hfetch.
  pose proof (push_block_inv _ _ _ _ Hf Hpush) as (_ & _ & Ef). assert (_head f = Some new_head) as Eh by (by rewrite Ef).
  pose proof (fk_known _ _ _ _ _ _ _ _ Hfk) as Hkn.
  assert (view (first ++ second ++ [p])%list (Z.of_nat (List.length (log n))) (chain n) tops (R0 + Z.of_nat (List.length second)) new_head
    (hold (first ++ second ++ [new_head]) (n <| fork_db := f |>))) as Hv.
  { apply hold_view; [split; simpl; try done; [by exists rest|apply Hfk]|].
    simpl. intros it Hit. rewrite !elem_of_app in Hit. rewrite Forall_forall in Hkn.
    destruct Hit as [Hit|[Hit|Hit]]; [eapply alive_index, Hkn; rewrite !elem_of_app; tauto..|].
    apply list_elem_of_singleton in Hit as ->. by apply alive_head. }
  destruct (switch_outcome f first second new_head y p u v Hfk _ K skip R0 c0 (chain n) tops Hb Hc1 Hc2 HK HR ltac:(lia) _ Hv)
    as [(n' & E & Hid)|(n' & e & E & Hch)]; rewrite E; [left|right]; simpl.
  - eexists. split; [done|]. done.
  - eexists _, e. by split.
Qed.

(** ** A block that makes itself irreversible *)

(** applying the block moves the last irreversible block to its own number or beyond: the
    number of the session in which it is applied *)
Definition self_irreversible (skip : Z) (n : node) (b : signed_block) : Prop :=
  exists sk db, block_skip checkpoints skip b = Ok sk /\ up_to sk (chain n) b = Ok db /\
    revision n < Gpo.last_irreversible_block_num (Db.gpo db).

Lemma drop_old_all r l : Forall (fun x : Z * chain_state => fst x <= r) l -> drop_old r l = [].
Proof. induction 1 as [|x l Hx _ IH]; [done|]. simpl. destruct (Z.leb_spec (fst x) r); [done|lia]. Qed.

(** what the log does not hold *)
Definition same_session (n n' : node) : Prop := chain n' = chain n /\ stack n' = stack n /\ revision n' = revision n.

Lemma write_log_session fuel lib : forall n,
  exists n', same_session n n' /\ (write_log fuel lib n = Fine n' tt \/ exists e, write_log fuel lib n = Failed n' e).
Proof.
  induction fuel as [|fuel IH]; intros n; simpl; destruct (log_head_num n <? lib);
    try (exists n; split; [by split_and!|by eauto]).
  destruct (fetch_block_on_main_branch_by_number _ _) as [it|]; [|exists n; split; [by split_and!|by eauto]].
  destruct (append_log (data it) n) as [n1|e] eqn:E; [|exists n; split; [by split_and!|by eauto]].
  unfold append_log in E. bind E as x Hx. injection E as <-. destruct (IH (n <| log ::= fun l => (l ++ [data it])%list |>)) as (n' & S & O).
  exists n'. split; [exact S|done].
Qed.

(** when the sessions are committed none is left to undo *)
Lemma settle_committed sk db n :
  Forall (fun x => fst x <= Gpo.last_irreversible_block_num (Db.gpo db)) (stack n) ->
  exists n', chain n' = chain n /\ stack n' = [] /\ revision n' = revision n /\
    (settle_irreversible sk db n = Fine n' tt \/ exists e, settle_irreversible sk db n = Failed n' e).
Proof.
  intros Hs. unfold settle_irreversible. set (lib := Gpo.last_irreversible_block_num (Db.gpo db)) in *.
  assert (stack (commit lib n) = []) as E0 by (simpl; by rewrite drop_old_all by (by apply Forall_rev)).
  assert (exists n2, same_session (commit lib n) n2 /\
    ((if skips sk skip_block_log then Fine (commit lib n) tt else write_log (Z.to_nat (lib - log_head_num (commit lib n))) lib (commit lib n)) = Fine n2 tt \/
     exists e, (if skips sk skip_block_log then Fine (commit lib n) tt else write_log (Z.to_nat (lib - log_head_num (commit lib n))) lib (commit lib n)) = Failed n2 e))
    as (n2 & (Ec & Es & Er) & Ho).
  { destruct (skips sk skip_block_log); [|apply write_log_session]. eexists. split; [|by left]. by split_and!. }
  rewrite E0 in Es. destruct Ho as [->|[e ->]]; simpl.
  - destruct (set_max_size_spec (u32 (head_block_num db - lib + 1)) (fork_db n2)) as (f & -> & _).
    eexists. split; [|split; [|split; [|by left]]]; done.
  - exists n2. split_and!; try done. right. by exists e.
Qed.

Lemma self_irreversible_outcome skip b n m :
  self_irreversible skip n b -> same_session n m -> Forall (fun x => fst x <= revision n) (stack n) ->
  apply_in_session skip m b = Torn \/
  exists n', apply_in_session skip m b = Fine n' tt /\ applies skip (chain n) b (chain n') /\ stack n' = [] /\ revision n' = revision n + 1.
Proof.
  intros (sk & db & Esk & Eup & Hlib) (Ec & Es & Er) Hs. unfold apply_session. cbv zeta.
  change (chain (start_undo_session m)) with (chain m). rewrite Esk, Ec, Eup.
  destruct (settle_committed sk db (start_undo_session m)) as (n2 & Ec2 & Es2 & Er2 & Ho).
  { simpl. rewrite Es, Er. constructor; [simpl; lia|]. eapply Forall_impl; [exact Hs|]. simpl. lia. }
  change (chain (start_undo_session m)) with (chain m) in Ec2. change (revision (start_undo_session m)) with (Z.succ (revision m)) in Er2.
  destruct Ho as [->|[e ->]]; [|left; unfold abandon; by rewrite Es2].
  rewrite Ec2, Ec. destruct (apply_blk sk false (chain n) b) as [cs'|e] eqn:Ea; [|left; unfold abandon; by rewrite Es2].
  right. eexists. split; [done|]. simpl. split; [unfold applies, Chain.apply_block; by rewrite Esk|]. split; [done|lia].
Qed.

Lemma calm_or_irreversible skip b n :
  self_irreversible skip n b \/
  (forall sk db, block_skip checkpoints skip b = Ok sk -> up_to sk (chain n) b = Ok db ->
     Gpo.last_irreversible_block_num (Db.gpo db) <= revision n).
Proof.
  destruct (block_skip checkpoints skip b) as [sk|] eqn:Esk; [|right; done].
  destruct (up_to sk (chain n) b) as [db|] eqn:Eup; [|right; intros ? ? [= <-]; by rewrite Eup].
  destruct (Z.le_gt_cases (Gpo.last_irreversible_block_num (Db.gpo db)) (revision n)) as [L|L].
  - right. intros ? ? [= <-]. rewrite Eup. by intros [= <-].
  - left. exists sk, db. split_and!; [done..|lia].
Qed.

(** C7: Extending the chain.  A block whose predecessor is the head of the chain either is
    applied, in a session of its own that can be undone, and becomes the head; or
    push_block throws, the state of the chain is the one before, and the fork database has
    forgotten the block.  The exception is a block that makes itself irreversible: its
    session is committed while it is being applied, so that there is nothing to undo
    afterwards, and if it fails after that it is left half applied.  No other block is.
    (The sessions of the node are not newer than its revision, the log and the fork
    database are in order, and the numbers are below 2^32 - 1.) *)
Theorem extend_head_atomic skip b n h f :
  skips skip skip_fork_db = false -> pending_session n = false -> log_ok n -> fork_ok (fork_db n) ->
  0 < block_num (header b) < 2 ^ 32 - 1 -> revision n < 2 ^ 32 - 1 -> Forall (fun x => fst x <= revision n) (stack n) ->
  ForkDb.push_block b (fork_db n) = Ok (h, f) -> previous_id h = head_id n ->
  (exists n', _push_block trx_id recovered_keys merkle_digest hash_pair hash trx_pack_size checkpoints skip b n = Fine n' false /\
     applies skip (chain n) b (chain n') /\ head_id n' = block_id (header b) /\ revision n' = revision n + 1 /\
     ((exists rest, stack n' = (revision n + 1, chain n) :: rest) \/ self_irreversible skip n b /\ stack n' = [])) \/
  (exists n' e, _push_block trx_id recovered_keys merkle_digest hash_pair hash trx_pack_size checkpoints skip b n = Failed n' e /\
     chain n' = chain n /\ revision n' = revision n /\ fetch_block (block_id (header b)) (fork_db n') = None) \/
  (_push_block trx_id recovered_keys merkle_digest hash_pair hash trx_pack_size checkpoints skip b n = Torn /\ self_irreversible skip n b).
Proof.
  intros Hsk Hps Hlog Hf Hnum Hrev Hst Hpush Hprev. unfold _push_block. rewrite Hsk, Hpush. cbv zeta.
  change (head_id (n <| fork_db := f |>)) with (head_id n). rewrite Hprev, Z.eqb_refl. unfold extend_head.
  pose proof (push_block_inv _ _ _ _ Hf Hpush) as (_ & _ & Ef). pose proof (push_block_ok _ _ _ _ Hf (proj1 Hnum) Hpush) as Hf'.
  destruct (calm_or_irreversible skip b n) as [Hself|Hcalm].
  { destruct (self_irreversible_outcome skip b n (n <| fork_db := f |>) Hself) as [E|(n' & E & Ha & Es & Er)]; [done|done|..]; rewrite E.
    - right. right. done.
    - left. destruct (applies_links _ _ _ _ Ha) as [_ Hid]. exists n'. split_and!; try done. right. done. }
  assert (view [] 0 (chain n) [] (revision n) h (n <| fork_db := f |>)) as Hv by (split; simpl; try done; [by eexists|by rewrite Ef|lia]).
  destruct (apply_session_outcome [] 0 (chain n) [] (revision n) h (n <| fork_db := f |>) skip b (revision n) Hv) as
    [(n' & cs' & E & Ha & Hv')|(n' & e & E & Hv')]; [|lia|lia|constructor|constructor|lia|rewrite E; left|rewrite E; right; left].
  - intros sk db E1 E2. split; [by eapply Hcalm|done].
  - destruct (applies_links _ _ _ _ Ha) as [_ Hid]. destruct Hv' as [<- [rest Hs] Hr _ _ _ _ _ _]. exists n'. split_and!; try done. left. by exists rest.
  - eexists _, e. split; [done|]. destruct Hv' as [Hc _ Hr _ _ _ _ _ _]. simpl. split_and!; try done.
    unfold fetch_block, remove. simpl. apply lookup_delete_eq.
Qed.

(** ** Pending transactions *)

(** while blocks are pushed and popped no transaction is pending *)
Definition quiet (n : node) : Prop := pending_session n = false /\ pending_tx n = [].
Definition quiet_run {A} (r : run A) : Prop := match r with Fine n _ | Failed n _ => quiet n | Torn => True end.

Lemma quiet_bind {A B} (r : run A) (k : node -> A -> run B) :
  quiet_run r -> (forall n a, quiet n -> quiet_run (k n a)) -> quiet_run (run_bind r k).
Proof. destruct r; simpl; auto. Qed.

Lemma quiet_undo n : quiet n -> quiet (undo n).
Proof. unfold undo. by destruct (stack n) as [|[r c] s]. Qed.

Lemma quiet_pop_block n : quiet n -> quiet_run (pop_block n).
Proof.
  intros [H1 H2]. unfold pop_block, reset_pending. rewrite H1. destruct (fetch_block_by_id _ _); [|done]. destruct (ForkDb.pop_block _) as [f|]; [|done].
  simpl. apply (quiet_undo (n <| fork_db := f |>)). done.
Qed.

Lemma quiet_pop_until target n : quiet n -> quiet_run (pop_until target n).
Proof.
  unfold pop_until. generalize (S (Z.to_nat (from_option num 0 (_head (fork_db n))))). intros fuel. revert n.
  induction fuel as [|fuel IH]; intros n Hn; simpl; destruct (_ =? _); try done. apply quiet_bind; [by apply quiet_pop_block|]. intros n' a. apply IH.
Qed.

Lemma quiet_write_log fuel lib n : quiet n -> quiet_run (write_log fuel lib n).
Proof.
  revert n. induction fuel as [|fuel IH]; intros n Hn; simpl; destruct (_ <? _); try done.
  destruct (fetch_block_on_main_branch_by_number _ _) as [it|]; [|done]. unfold append_log. destruct (fc_assert _); simpl; [|done]. by apply IH.
Qed.

Lemma quiet_settle sk db n : quiet n -> quiet_run (settle_irreversible sk db n).
Proof.
  intros Hn. unfold settle_irreversible. apply quiet_bind; [destruct (skips _ _); [done|by apply quiet_write_log]|].
  intros n' a Hn'. by destruct (set_max_size _ _).
Qed.

Lemma quiet_abandon {A} n e : quiet n -> quiet_run (@abandon A n e).
Proof. intros Hn. unfold abandon. destruct (stack n); [done|]. by apply quiet_undo. Qed.

Lemma quiet_apply_session skip n b : quiet n -> quiet_run (apply_in_session skip n b).
Proof.
  intros Hn. unfold apply_session. assert (quiet (start_undo_session n)) as Hs by done. cbv zeta.
  destruct (block_skip _ _ _) as [sk|e]; [|by apply quiet_abandon]. destruct (up_to _ _ _) as [db|e]; [|by apply quiet_abandon].
  pose proof (quiet_settle sk db _ Hs) as Hq. destruct (settle_irreversible _ _ _) as [n1 a|n1 e|]; [|by apply quiet_abandon|done].
  simpl in Hq. destruct (Chain._apply_block _ _ _ _ _ _ _ _ _ _); [done|by apply quiet_abandon].
Qed.

Lemma quiet_apply_branch skip its n : quiet n -> quiet_run (apply_items skip n its).
Proof.
  revert n. induction its as [|it its IH]; intros n Hn; simpl; [done|]. pose proof (quiet_apply_session skip n (data it) Hn) as Hq.
  destruct (apply_in_session _ _ _); simpl in Hq; [by apply IH|done|done].
Qed.

Lemma quiet_restore_branch skip its n : quiet n -> quiet_run (restore_items skip n its).
Proof.
  revert n. induction its as [|it its IH]; intros n Hn; simpl; [done|]. apply quiet_bind; [by apply quiet_apply_session|]. intros n' a. apply IH.
Qed.

Lemma quiet_switch skip l m n : quiet n -> quiet_run (switch skip l m n).
Proof.
  intros Hn. unfold switch_forks. destruct (head m), (last m); try done. apply quiet_bind; [by apply quiet_pop_until|]. intros n1 _ H1.
  apply quiet_bind; [by apply quiet_apply_branch|]. intros n2 [[e rest]|] H2; [|done].
  apply quiet_bind; [by apply quiet_pop_until|]. intros n3 _ H3. apply quiet_bind; [by apply quiet_restore_branch|]. done.
Qed.

Lemma quiet_release {A} (r : run A) : quiet_run r -> quiet_run (release r).
Proof. by destruct r. Qed.

Lemma quiet_push skip b n : quiet n -> quiet_run (push skip b n).
Proof.
  intros Hn. assert (forall n, quiet n -> quiet_run (extend_head trx_id recovered_keys merkle_digest hash_pair hash trx_pack_size checkpoints skip b n)) as He.
  { intros n1 H1. unfold extend_head. pose proof (quiet_apply_session skip n1 b H1) as Hq. destruct (apply_in_session _ _ _); done. }
  unfold _push_block. destruct (skips _ _); [by apply He|]. destruct (ForkDb.push_block _ _) as [[h f]|e]; [|done]. cbv zeta.
  destruct (_ =? _); [by apply He|]. destruct (_ <=? _); [done|]. destruct (fetch_branch_from _ _ _) as [[l m]|e]; [|done].
  by apply quiet_release, quiet_switch.
Qed.

(** transactions applied one after the other, with whatever flags they came with *)
Inductive replayed (base : chain_state) : list transaction -> chain_state -> Prop :=
| replayed_nil : replayed base [] base
| replayed_snoc txs cs skip producing tx cs' :
    replayed base txs cs -> _apply_transaction trx_id recovered_keys skip producing cs tx = Ok cs' ->
    replayed base (txs ++ [tx])%list cs'.

(** the state is that of the head block [base] with the pending transactions applied *)
Definition pending_on (base : chain_state) (n : node) : Prop :=
  if pending_session n then exists r rest, stack n = (r, base) :: rest /\ replayed base (pending_tx n) (chain n)
  else pending_tx n = [] /\ chain n = base.

Abbreviation push_trx := (_push_transaction trx_id recovered_keys).

Lemma push_transaction_pending skip producing trx base n :
  pending_on base n ->
  exists n', pending_on base n' /\ popped_tx n' = popped_tx n /\
    ((exists cs, push_trx skip producing trx n = Fine n' tt /\ _apply_transaction trx_id recovered_keys skip producing (chain n) trx = Ok cs /\
        chain n' = cs /\ pending_tx n' = (pending_tx n ++ [trx])%list) \/
     (exists e, push_trx skip producing trx n = Failed n' e /\ _apply_transaction trx_id recovered_keys skip producing (chain n) trx = Throw e /\
        chain n' = chain n /\ pending_tx n' = pending_tx n)).
Proof.
  intros Hp. unfold _push_transaction.
  set (n1 := if pending_session n then n else (start_undo_session n) <| pending_session := true |>).
  assert (chain n1 = chain n /\ pending_tx n1 = pending_tx n /\ popped_tx n1 = popped_tx n /\ pending_session n1 = true /\
    exists r rest, stack n1 = (r, base) :: rest /\ replayed base (pending_tx n1) (chain n1)) as (E1 & E2 & E3 & E4 & r & rest & Es & Hr).
  { unfold n1, pending_on in *. destruct (pending_session n) eqn:Eps; [by split_and!|]. destruct Hp as [Hp Hb]. simpl. split_and!; try done.
    eexists _, _. split; [by rewrite Hb|]. rewrite Hp, Hb. constructor. }
  cbv zeta. change (chain (start_undo_session n1)) with (chain n1). rewrite E1.
  destruct (_apply_transaction trx_id recovered_keys skip producing (chain n) trx) as [cs|e] eqn:Ea.
  - eexists. split; [|split; [|left; exists cs; split; [done|]]]; unfold squash; simpl; rewrite Es; simpl; rewrite ?E1, ?E2, ?E3; try done.
    unfold pending_on. simpl. rewrite E4. eexists _, _. split; [done|]. rewrite E2. eapply replayed_snoc; [|exact Ea]. by rewrite <- E1, <- E2.
  - eexists. split; [|split; [|right; exists e; split; [done|]]]; unfold undo; simpl; rewrite ?E1, ?E2, ?E3; try done.
    unfold pending_on. simpl. rewrite E4. eexists _, _. split; [done|]. by rewrite <- E1.
Qed.

Lemma repush_pending skip base txs n :
  pending_on base n -> pending_on base (fold_left (repush trx_id recovered_keys skip) txs n).
Proof.
  revert n. induction txs as [|tx txs IH]; intros n Hp; simpl; [done|]. apply IH. unfold repush. destruct (is_known_transaction _ _ _); [done|].
  destruct (push_transaction_pending skip false tx base n Hp) as (n' & Hp' & _ & [(cs & -> & _)|(e & -> & _)]); done.
Qed.

Lemma clear_pending_on base n : pending_on base n -> quiet (clear_pending n) /\ chain (clear_pending n) = base.
Proof.
  unfold pending_on, clear_pending, reset_pending, quiet. simpl. destruct (pending_session n) eqn:E.
  - intros (r & rest & Es & _). unfold undo. simpl. rewrite Es. done.
  - intros [H1 H2]. simpl. by rewrite E.
Qed.

End facts.
