(* ===== verification/Generate.v ===== *)
(** Generate: a witness makes a block of the pending transactions.

    From _generate_block of database.cpp.  The packed size of a transaction, the signature
    and the digest of the header are parameters.  The block is built from the state of the head block, the
    pending transactions applied again one by one, and is then pushed like any other. *)
From Stdlib Require Import ZArith Lia String Ascii.
From stdpp Require Import base gmap strings list sorting.
From S2P Require Import Prelude.
From S2P Require Import BlockId.
From S2P Require Import Utf8.
From S2P Require Import Raw.
From S2P Require Import Authority.
From S2P Require Import Objects.
From S2P Require Import Balance.
From S2P Require Import Supply.
From S2P Require Import Operation.
From S2P Require Import Invariant.
From S2P Require Import OperationFrame.
From S2P Require Import Transaction.
From S2P Require Import Block.
From S2P Require Import Schedule.
From S2P Require Import Chain.
From S2P Require Import Head.
From S2P Require Import ForkDb.
From S2P Require Import Node.
Local Open Scope string_scope.
Local Open Scope Z_scope.
Local Open Scope fc_scope.

Definition STEEM_BLOCKCHAIN_VERSION : Z := 0.

(** the version and the hardfork vote a witness reports in its block *)
Definition header_extensions (db : database) (w : witness_object) : result (list block_header_extensions) :=
  let h := Db.hardfork_property db in
  let reported := if negb (Witness.running_version w =? STEEM_BLOCKCHAIN_VERSION) then [ext_version STEEM_BLOCKCHAIN_VERSION] else [] in
  let vote_for (i : Z) :=
    v ← get_or out_of_range (hardfork_versions !! Z.to_nat i);
    t ← get_or out_of_range (hardfork_times !! Z.to_nat i);
    Ok (v, t) in
  let known := hardfork_version STEEM_BLOCKCHAIN_VERSION in
  let unknown :=
    if (HardforkProperty.current_hardfork_version h =? known) && (known <? Witness.hardfork_version_vote w) then
      '(v, t) ← vote_for (HardforkProperty.last_hardfork h);
      Ok (reported ++ [ext_hardfork_version_vote v t])%list
    else Ok reported in
  if HardforkProperty.current_hardfork_version h <? known then
    '(v, t) ← vote_for (HardforkProperty.last_hardfork h + 1);
    if negb (Witness.hardfork_version_vote w =? v) || negb (Witness.hardfork_time_vote w =? t)
    then Ok (reported ++ [ext_hardfork_version_vote v t])%list
    else unknown
  else unknown.

Section generate.
Context `{env : environment} (trx_id : transaction -> Z) (recovered_keys : transaction -> list public_key_type).
Context (merkle_digest : transaction -> Z) (hash_pair : Z -> Z -> Z) (hash : Z -> Z).
Context (trx_pack_size : transaction -> Z) (checkpoints : list (Z * Z)).
Context {private_key : Type} (get_public_key : private_key -> public_key_type).
(** the digest of a header, signed or not, and the key its signature belongs to *)
Context (sign : option private_key -> block -> Z -> list block_header_extensions -> Z * public_key_type).

(** one pending transaction; the state is the node, the size of the block and its
    transactions so far *)
Definition include_transaction (skip when maximum_block_size : Z) (st : node * Z * list transaction) (tx : transaction)
    : node * Z * list transaction :=
  let '(n, total_block_size, included) := st in
  if expiration tx <? when then st
  else if maximum_block_size <=? u64 (total_block_size + trx_pack_size tx) then st
  else
    let n := start_undo_session n in
    match _apply_transaction trx_id recovered_keys skip false (chain n) tx with
    | Ok cs => (squash (n <| chain := cs |>), u64 (total_block_size + trx_pack_size tx), included ++ [tx])%list
    | Throw _ => (undo n, total_block_size, included)
    end.

(** the checks before the block, and its extensions *)
Definition check_turn (skip when : Z) (witness_owner : account_name_type) (key : private_key) (db : database)
    : result (list block_header_extensions) :=
  let slot_num := get_slot_at_time db when in
  _ ← fc_assert (0 <? slot_num);
  scheduled_witness ← get_scheduled_witness db slot_num;
  _ ← fc_assert (bool_decide (scheduled_witness = witness_owner));
  w ← get_witness db witness_owner;
  _ ← fc_assert (skips skip skip_witness_signature || (Witness.signing_key w =? get_public_key key));
  header_extensions db w.

(** _generate_block up to the signature *)
Definition build_block (skip when : Z) (witness_owner : account_name_type) (key : private_key) (n : node) : run signed_block :=
  match check_turn skip when witness_owner key (cs_db (chain n)) with
  | Throw e => Failed n e
  | Ok exts =>
      let unsigned := mk_block 0 (head_id n) when witness_owner 0 in
      let total_block_size := u64 (pack_size trx_pack_size (mk_signed_block unsigned 0 exts []) + 4) in
      let maximum_block_size := Gpo.maximum_block_size (Db.gpo (cs_db (chain n))) in
      let n := (start_undo_session (reset_pending n)) <| pending_session := true |> in
      let '(n, _, included) :=
        fold_left (include_transaction skip when maximum_block_size) (pending_tx n) (n, total_block_size, []) in
      let n := reset_pending n in
      let root := calculate_merkle_root hash_pair hash (map merkle_digest included) in
      let '(digest, signer) := sign (if skips skip skip_witness_signature then None else Some key) unsigned root exts in
      Fine n (mk_signed_block (mk_block digest (previous unsigned) when witness_owner signer) root exts included)
  end.

Definition _generate_block (skip when : Z) (witness_owner : account_name_type) (key : private_key) (n : node) : run signed_block :=
  run_bind (build_block skip when witness_owner key n) (fun n b =>
    if skips skip skip_block_size_check || (pack_size trx_pack_size b <=? STEEM_MAX_BLOCK_SIZE)
    then run_bind (push_block trx_id recovered_keys merkle_digest hash_pair hash trx_pack_size checkpoints skip b n) (fun n _ => Fine n b)
    else Failed n assert_exception).

(** validate_transaction: applied and undone *)
Definition validate_transaction (skip : Z) (producing : bool) (trx : transaction) (n : node) : run unit :=
  let n := start_undo_session n in
  match _apply_transaction trx_id recovered_keys skip producing (chain n) trx with
  | Throw e => Failed (undo n) e
  | Ok cs => Fine (undo (n <| chain := cs |>)) tt
  end.

(** ** What a generated block holds *)

Abbreviation apply_trx := (_apply_transaction trx_id recovered_keys).

Definition packed (txs : list transaction) : Z := zsum (map trx_pack_size txs).

Lemma packed_snoc txs tx : packed (txs ++ [tx]) = packed txs + trx_pack_size tx.
Proof. unfold packed, zsum. induction txs as [|t txs IH]; simpl; lia. Qed.

(** inside the loop: a session over the state [base] of the head block, with the included
    transactions applied to it *)
Record including (base : chain_state) (pending : list transaction) (skip when first maximum : Z)
    (st : node * Z * list transaction) : Prop := mk_including {
  in_session : pending_session (st.1.1) = true;
  in_stack : exists r rest, stack (st.1.1) = (r, base) :: rest;
  in_state : foldM (apply_trx skip false) base st.2 = Ok (chain (st.1.1));
  in_pending : pending_tx (st.1.1) = pending;
  in_fresh : Forall (fun tx => when <= expiration tx) st.2;
  in_size : st.1.2 = first + packed st.2;
  in_fits : st.2 = [] \/ st.1.2 < maximum
}.

Context (trx_sizes : forall tx, 0 <= trx_pack_size tx < 2 ^ 32).

Lemma packed_nonneg txs : 0 <= packed txs.
Proof. unfold packed, zsum. induction txs as [|t txs IH]; simpl; [lia|]. pose proof (trx_sizes t). lia. Qed.

Lemma include_step base pending skip when first maximum st tx :
  0 <= first < 2 ^ 32 -> maximum < 2 ^ 32 -> including base pending skip when first maximum st ->
  including base pending skip when first maximum (include_transaction skip when maximum st tx) /\
  exists k, (include_transaction skip when maximum st tx).2 = (st.2 ++ k)%list /\ sublist k [tx].
Proof.
  destruct st as [[n total] txs]. intros Hf Hm [H1 (r & rest & H2) H3 H4 H5 H6 H7]. unfold include_transaction. simpl in *.
  assert (including base pending skip when first maximum (n, total, txs) /\ exists k, txs = (txs ++ k)%list /\ sublist k [tx]) as Hstay.
  { split; [split; simpl; eauto|]. exists []. split; [by rewrite app_nil_r|apply sublist_nil_l]. }
  destruct (Z.ltb_spec (expiration tx) when) as [?|Hw]; [done|]. destruct (Z.leb_spec maximum (u64 (total + trx_pack_size tx))) as [?|Hs]; [done|].
  pose proof (trx_sizes tx). assert (0 <= total < 2 ^ 33) as Ht.
  { pose proof (packed_nonneg txs). destruct H7 as [Ht|?]; [rewrite Ht in H6; unfold packed in H6; simpl in H6; lia|lia]. }
  rewrite u64_id in * by lia. destruct (apply_trx skip false (chain n) tx) as [cs|e] eqn:E; simpl.
  - split; [|exists [tx]; by split]. unfold squash. simpl. rewrite H2. split; simpl; try done.
    + eauto.
    + rewrite foldM_app, H3. cbn [mbind result_bind foldM]. by rewrite E.
    + apply Forall_app. split; [done|by constructor].
    + rewrite packed_snoc. lia.
    + by right.
  - unfold undo. simpl. split; [split; simpl; eauto|]. exists []. split; [by rewrite app_nil_r|apply sublist_nil_l].
Qed.

Lemma include_all base pending skip when first maximum l : forall st,
  0 <= first < 2 ^ 32 -> maximum < 2 ^ 32 -> including base pending skip when first maximum st ->
  including base pending skip when first maximum (fold_left (include_transaction skip when maximum) l st) /\
  exists k, (fold_left (include_transaction skip when maximum) l st).2 = (st.2 ++ k)%list /\ sublist k l.
Proof.
  induction l as [|tx l IH]; intros st Hf Hm Hst; cbn [fold_left]; [split; [done|]; exists []; by rewrite app_nil_r|].
  destruct (include_step base pending skip when first maximum st tx Hf Hm Hst) as (H1 & k1 & E1 & S1).
  destruct (IH _ Hf Hm H1) as (H2 & k2 & E2 & S2). split; [done|]. exists (k1 ++ k2)%list. split; [by rewrite E2, E1, app_assoc|].
  by apply (sublist_app k1 [tx] k2 l).
Qed.

(** *** Sizes *)

Lemma packed_unsigned_range v : 1 <= packed_unsigned_int v <= 5.
Proof.
  unfold packed_unsigned_int, pack_unsigned_int. assert (forall k v, 1 <= Z.of_nat (List.length (pack_varint (S k) v)) <= Z.of_nat (S k)) as H.
  { induction k as [|k IH]; intros x.
    - simpl. destruct (_ =? 0); simpl; lia.
    - change (pack_varint (S (S k)) x) with
        (Z.lor (Z.land (u8 x) 0x7f) (Z.shiftl (b2z (0 <? Z.shiftr x 7)) 7) ::
         (if Z.shiftr x 7 =? 0 then [] else pack_varint (S k) (Z.shiftr x 7))).
      specialize (IH (Z.shiftr x 7)). destruct (_ =? 0); cbn [List.length]; lia. }
  apply (H 4%nat).
Qed.

(** only the length of the vector of transactions and the transactions are added *)
Lemma block_packs h h' m m' e txs : witness h = witness h' ->
  pack_size trx_pack_size (mk_signed_block h m e txs) <= pack_size trx_pack_size (mk_signed_block h' m' e []) + 4 + packed txs.
Proof.
  intros E. unfold pack_size, packed_vector. cbn [header extensions block_transactions]. rewrite E. unfold packed.
  pose proof (packed_unsigned_range (u32 (Z.of_nat (List.length txs)))).
  assert (packed_unsigned_int (u32 (Z.of_nat (@List.length transaction []))) = 1) as -> by reflexivity.
  assert (zsum (map trx_pack_size []) = 0) as -> by reflexivity. lia.
Qed.

Lemma extensions_size e : 0 <= zsum (map packed_extension e) <= 9 * Z.of_nat (List.length e).
Proof.
  unfold zsum. induction e as [|x e IH]; [simpl; lia|]. cbn [map foldr List.length].
  assert (1 <= packed_extension x <= 9) by (destruct x; split; vm_compute; discriminate). lia.
Qed.

Lemma header_extensions_two db w e : header_extensions db w = Ok e -> (List.length e <= 2)%nat.
Proof.
  unfold header_extensions. cbv zeta. intros H.
  assert (forall (b : bool) x, (List.length (if b then [x] else ([] : list block_header_extensions)) <= 1)%nat) as L by (intros [] ?; simpl; lia).
  result_case; rewrite ?length_app; cbn [List.length]; repeat case_match; simpl; lia.
Qed.

(** an account name has at most 16 characters *)
Lemma empty_block_size h m e : Z.of_nat (String.length (witness h)) <= 16 -> (List.length e <= 2)%nat ->
  0 <= pack_size trx_pack_size (mk_signed_block h m e []) <= 160.
Proof.
  intros Hw He. unfold pack_size, packed_vector. cbn [header extensions block_transactions].
  assert (packed_unsigned_int (u32 (Z.of_nat (@List.length transaction []))) = 1) as -> by reflexivity.
  assert (zsum (map trx_pack_size []) = 0) as -> by reflexivity. pose proof (extensions_size e).
  pose proof (packed_unsigned_range (u32 (Z.of_nat (List.length e)))).
  unfold pack_string, pack_vector. rewrite length_app, Nat2Z.inj_add.
  pose proof (packed_unsigned_range (u32 (Z.of_nat (List.length (octets (witness h)))))) as P. unfold packed_unsigned_int in P at 1 2.
  assert (List.length (octets (witness h)) = String.length (witness h)) as El.
  { unfold octets. rewrite length_map. clear. induction (witness h) as [|c s IH]; simpl; lia. }
  rewrite El in *. lia.
Qed.

(** *** The state of the head block decides whose turn it is *)

Lemma transaction_steered skip producing cs trx cs' :
  apply_trx skip producing cs trx = Ok cs' -> steered (cs_db cs) (cs_db cs') /\ same_clock (cs_db cs) (cs_db cs').
Proof.
  intros H. split.
  - unfold _apply_transaction in H. bind H as u1 V. bind H as u2 U2. bind H as u3 U3. bind H as u4 U4. bind H as db Hdb. injection H as <-.
    apply (foldM_preorder steered) in Hdb; [|intros d op d' Ho; by apply operation_leaves in Ho as [? _]].
    by destruct (flag skip skip_transaction_dupe_check).
  - apply (transactions_clock trx_id recovered_keys skip producing [trx]). cbn [foldM]. by rewrite H.
Qed.

Lemma replayed_steered base txs cs :
  replayed trx_id recovered_keys base txs cs -> steered (cs_db base) (cs_db cs) /\ same_clock (cs_db base) (cs_db cs).
Proof.
  induction 1 as [|txs cs skip producing tx cs' _ [IH1 IH2] H]; [done|].
  apply transaction_steered in H as [H1 H2]. split; by etrans.
Qed.

Lemma pending_steered base n :
  pending_on trx_id recovered_keys base n -> steered (cs_db base) (cs_db (chain n)) /\ same_clock (cs_db base) (cs_db (chain n)).
Proof.
  unfold pending_on. destruct (pending_session n); [|by intros [_ ->]]. intros (r & rest & _ & H). by eapply replayed_steered.
Qed.

Lemma slot_steered db db' when : same_clock db db' -> get_slot_at_time db' when = get_slot_at_time db when.
Proof. intros (E1 & E2 & _). unfold get_slot_at_time, get_slot_time. by rewrite E1, E2. Qed.
Lemma scheduled_steered db db' slot : steered db db' -> get_scheduled_witness db' slot = get_scheduled_witness db slot.
Proof. intros [E1 E2]. injection E2 as E2 _. unfold get_scheduled_witness. by rewrite E1, E2. Qed.

(** the key recovered from a signature is the one that belongs to the private key *)
Context (sign_recovers : forall k h m e, snd (sign (Some k) h m e) = get_public_key k).

Lemma slot_after_head db when :
  0 <= head_block_time db < 2 ^ 32 - 3 -> 0 < get_slot_at_time db when -> head_block_time db < when.
Proof.
  intros Ht Hs. unfold get_slot_at_time in Hs. destruct (Z.ltb_spec when (get_slot_time db 1)) as [?|Hge]; [lia|].
  assert (head_block_time db < get_slot_time db 1); [|lia]. unfold get_slot_time, STEEM_BLOCK_INTERVAL. cbn [Z.eqb].
  rewrite (u32_id (1 * 3)) by lia. destruct (head_block_num db =? 0); [rewrite u32_id; lia|].
  pose proof (Z.div_mod (head_block_time db) 3 ltac:(lia)). pose proof (Z.mod_pos_bound (head_block_time db) 3 ltac:(lia)).
  rewrite (u32_id (head_block_time db / 3 * 3)) by lia. rewrite u32_id; lia.
Qed.

(** a header of the right slot and witness is valid exactly if its key is *)
Lemma turn_header skip when owner db w digest signer :
  0 <= head_block_time db < 2 ^ 32 - 3 -> 0 < get_slot_at_time db when ->
  get_scheduled_witness db (get_slot_at_time db when) = Ok owner -> get_witness db owner = Ok w -> Witness.owner w = owner ->
  validate_block_header skip db (mk_block digest (head_block_id db) when owner signer) = Ok w <->
  skips skip skip_witness_signature = true \/ signer = Witness.signing_key w.
Proof.
  intros Ht Hs Hsch Hw Hown. unfold validate_block_header, head_block_id. cbn [previous timestamp witness signee].
  rewrite Z.eqb_refl, (proj2 (Z.ltb_lt _ _) (slot_after_head db when Ht Hs)). cbn [fc_assert mbind result_bind]. rewrite Hw. cbn [mbind result_bind].
  rewrite (proj2 (Z.ltb_lt _ _) Hs). cbn [fc_assert mbind result_bind]. rewrite Hsch. cbn [mbind result_bind].
  rewrite Hown, bool_decide_true by done. cbn [fc_assert mbind result_bind].
  destruct (skips skip skip_witness_signature), (Z.eqb_spec signer (Witness.signing_key w)) as [E|E], (skips skip skip_witness_schedule_check);
    cbn; split; auto; try done; intros [?|?]; done.
Qed.

Lemma reset_pending_on base n : pending_on trx_id recovered_keys base n ->
  chain (reset_pending n) = base /\ pending_session (reset_pending n) = false /\ pending_tx (reset_pending n) = pending_tx n.
Proof.
  unfold pending_on, reset_pending. destruct (pending_session n) eqn:E; [|by intros [_ ?]].
  intros (r & rest & Es & _). unfold undo. by rewrite Es.
Qed.

(** C9: What a generated block holds.  Its transactions are pending ones in their order, none
    of them expired, and apply one after the other to the state of the head block.  The
    block is smaller than the maximum the chain allows, or it has no transactions and no
    more than 160 bytes.  Its merkle root is that of the transactions.  On the state of the
    head block, where push_block validates it, the header passes exactly if signatures are
    skipped or the witness has the signing key there: slot and schedule are right.  (The
    key is looked up with the pending transactions applied, so one of them may have
    changed it.)  The node is left in the state of the head block, with the same
    transactions waiting.  The owner has a name of at most 16 characters and its object is
    filed under that name, the time is below 2^32 - 3, a packed transaction and the
    maximum are below 2^32, and a signature gives back the key of its signer. *)
Theorem generated_block_fits skip when owner key base n n' b :
  pending_on trx_id recovered_keys base n -> Z.of_nat (String.length owner) <= 16 ->
  Gpo.maximum_block_size (Db.gpo (cs_db base)) < 2 ^ 32 -> 0 <= head_block_time (cs_db base) < 2 ^ 32 - 3 ->
  build_block skip when owner key n = Fine n' b ->
  chain n' = base /\ pending_tx n' = pending_tx n /\
  sublist (block_transactions b) (pending_tx n) /\ Forall (fun tx => when <= expiration tx) (block_transactions b) /\
  is_ok (foldM (apply_trx skip false) base (block_transactions b)) = true /\
  (block_transactions b = [] /\ pack_size trx_pack_size b <= 160 \/
   pack_size trx_pack_size b < Gpo.maximum_block_size (Db.gpo (cs_db base))) /\
  check_merkle merkle_digest hash_pair hash b = Ok tt /\
  forall w, get_witness (cs_db base) owner = Ok w -> Witness.owner w = owner ->
    (validate_block_header skip (cs_db base) (header b) = Ok w <->
     skips skip skip_witness_signature = true \/ Witness.signing_key w = get_public_key key).
Proof.
  intros Hp Hname Hmax Ht H. destruct (reset_pending_on base n Hp) as (E1 & E2 & E3). destruct (pending_steered base n Hp) as [Hst Hcl].
  unfold build_block in H. destruct (check_turn skip when owner key (cs_db (chain n))) as [exts|e] eqn:Hc; [|done].
  unfold check_turn in Hc. bind Hc as u1 C1. bind Hc as sw C2. bind Hc as u2 C3. bind Hc as w C4. bind Hc as u3 C5.
  apply fc_assert_Ok in C1, C3. apply Z.ltb_lt in C1. apply bool_decide_eq_true in C3 as ->. apply header_extensions_two in Hc.
  rewrite (slot_steered _ _ _ Hcl) in C1, C2. rewrite (scheduled_steered _ _ _ Hst) in C2.
  pose proof (empty_block_size (mk_block 0 (head_id n) when owner 0) 0 exts Hname Hc) as Hb. cbv zeta in H. rewrite u64_id in H by lia.
  assert (Gpo.maximum_block_size (Db.gpo (cs_db (chain n))) = Gpo.maximum_block_size (Db.gpo (cs_db base))) as Em
    by (destruct Hst as [_ E]; by injection E as _ E).
  assert (head_id n = head_block_id (cs_db base)) as Ei by apply Hcl. rewrite Em, Ei in *.
  set (first := pack_size _ _ + 4) in *. set (maximum := Gpo.maximum_block_size _) in *.
  set (n1 := (start_undo_session (reset_pending n)) <| pending_session := true |>) in *.
  assert (including base (pending_tx n) skip when first maximum (n1, first, [])) as Hi.
  { split; simpl; try done; [eexists _, _; by rewrite E1|by rewrite E1|unfold packed; simpl; lia|by left]. }
  destruct (include_all base (pending_tx n) skip when first maximum (pending_tx n1) _ ltac:(unfold first; lia) Hmax Hi) as (Ha & k & Ek & Sk).
  assert (pending_tx n1 = pending_tx n) as E4 by exact E3. rewrite E4 in *. clear Hi E4. clearbody n1.
  destruct (fold_left _ (pending_tx n) _) as [[n2 total] txs]. destruct Ha as [A1 (r & rest & A2) A3 A4 A5 A6 A7]. simpl in *. subst k.
  destruct (sign _ _ _ exts) as [digest signer] eqn:Es. injection H as <- <-. simpl.
  pose proof (block_packs (mk_block digest (head_block_id (cs_db base)) when owner signer) (mk_block 0 (head_block_id (cs_db base)) when owner 0)
    (calculate_merkle_root hash_pair hash (map merkle_digest txs)) 0 exts txs eq_refl) as Hsz.
  unfold reset_pending. rewrite A1. unfold undo. rewrite A2. simpl. split_and!; try done.
  - by rewrite A3.
  - destruct A7 as [->|A7]; [left; split; [done|by apply empty_block_size]|right]. fold first in Hsz. lia.
  - unfold check_merkle. cbv zeta. cbn [transaction_merkle_root block_transactions]. by rewrite Z.eqb_refl.
  - intros w0 Hw Hown. rewrite turn_header by done. destruct (skips skip skip_witness_signature); [split; intros _; by left|].
    assert (signer = get_public_key key) as ->; [|split; intros [?|?]; try done; right; done].
    rewrite <- (sign_recovers key (mk_block 0 (head_block_id (cs_db base)) when owner 0) (calculate_merkle_root hash_pair hash (map merkle_digest txs)) exts).
    by rewrite Es.
Qed.
End generate.
