(* ===== verification/Demo.v ===== *)
(** Demo: a small concrete chain on which the theorems are exercised.

    Two accounts with liquid STEEM, SBD and vesting shares, one of them voting
    through the other, and the totals that belong to them. *)
From Stdlib Require Import ZArith Lia String Ascii.
From stdpp Require Import base gmap strings list sorting.
From S2P Require Import Prelude.
From S2P Require Import Safe.
From S2P Require Import BlockId.
From S2P Require Import Asset.
From S2P Require Import Authority.
From S2P Require Import Objects.
From S2P Require Import Balance.
From S2P Require Import Supply.
From S2P Require Import Transfers.
From S2P Require Import Market.
From S2P Require Import Vesting.
From S2P Require Import PowerDown.
From S2P Require Import Accounts.
From S2P Require Import Voting.
From S2P Require Import Operation.
From S2P Require Import Invariant.
From S2P Require Import Transaction.
From S2P Require Import Totals.
From S2P Require Import Block.
From S2P Require Import Reward.
From S2P Require Import Comments.
From S2P Require Import Cashout.
From S2P Require Import Content.
From S2P Require Import Schedule.
From S2P Require Import KeyLookup.
Local Open Scope string_scope.
Local Open Scope Z_scope.
Local Open Scope fc_scope.

Definition steem (n : Z) : asset := mk_asset n STEEM_SYMBOL.
Definition sbd (n : Z) : asset := mk_asset n SBD_SYMBOL.
Definition vests (n : Z) : asset := mk_asset n VESTS_SYMBOL.

Definition alice : account_object :=
  Account.default <| Account.id := 1 |> <| Account.name := "alice" |> <| Account.balance := steem 1000 |>
    <| Account.vesting_shares := vests 600 |> <| Account.proxied_vsf_votes := [400; 0; 0; 0] |>.
Definition bob : account_object :=
  Account.default <| Account.id := 2 |> <| Account.name := "bob" |> <| Account.proxy := "alice" |>
    <| Account.sbd_balance := sbd 50 |> <| Account.vesting_shares := vests 400 |>.

Definition key_auth (k : public_key_type) : authority := mk_authority 1 [] [(k, 1)].
Definition demo_db : database :=
  Db.empty <| Db.accounts := <["alice" := alice]> (<["bob" := bob]> ∅) |>
    <| Db.account_authorities :=
         <["alice" := AccountAuthority.default <| AccountAuthority.account := "alice" |>
                        <| AccountAuthority.owner := key_auth 11 |> <| AccountAuthority.active := key_auth 12 |>
                        <| AccountAuthority.posting := key_auth 13 |>]> ∅ |>
    <| Db.gpo := Gpo.default <| Gpo.time := 1000 |> <| Gpo.head_block_number := 7 |>
         <| Gpo.current_supply := steem 1003 |> <| Gpo.virtual_supply := steem 1003 |>
         <| Gpo.current_sbd_supply := sbd 50 |>
         <| Gpo.total_vesting_fund_steem := steem 3 |> <| Gpo.total_vesting_shares := vests 1000 |> |>.

Definition demo : chain_state := mk_chain demo_db ∅ (fun i => if i =? 7 then Some (77 * 2 ^ 32) else None).

Lemma demo_accounts n a : Db.accounts demo_db !! n = Some a -> (n = "alice" /\ a = alice) \/ (n = "bob" /\ a = bob).
Proof.
  intros H. simpl in H. apply lookup_insert_Some in H as [[<- <-]|[_ H]]; [by left|].
  apply lookup_insert_Some in H as [[<- <-]|[_ H]]; [by right|]. by rewrite lookup_empty in H.
Qed.

Lemma demo_ledger : ledger_ok demo_db.
Proof.
  split.
  - split; simpl; try (intros ? ? H; by rewrite lookup_empty in H); [|repeat split].
    intros n a [[_ ->]|[_ ->]]%demo_accounts; repeat split.
  - repeat split.
  - intros n a [[-> ->]|[-> ->]]%demo_accounts; [by eapply reaches_here|].
    eapply reaches_next; [done|done|]. by eapply reaches_here.
  - intros k e H. simpl in H. by rewrite lookup_empty in H.
Qed.

#[export] Instance demo_env : environment := {
  json_is_valid := fun _ => true; patch_body := fun _ new => new; interpret := fun _ _ _ => not_interpreted;
  uninitialized := fun _ => 0
}.

(** alice pays bob and signs with her active key *)
Definition payment : transaction := mk_transaction 7 77 1200 [transfer_operation "alice" "bob" (steem 250) "rent"].
Definition apply_demo : Z -> bool -> chain_state -> transaction -> result chain_state :=
  _apply_transaction (env := demo_env) (fun _ => 5) (fun _ => [12]).
Definition demo_after : chain_state := match apply_demo 0 false demo payment with Ok cs => cs | Throw _ => demo end.

Lemma payment_applies : apply_demo 0 false demo payment = Ok demo_after.
Proof. vm_compute. reflexivity. Qed.

Lemma transaction_preserves_ledger_witness :
  ledger_ok (cs_db demo_after) /\ Account.balance <$> Db.accounts (cs_db demo_after) !! "bob" = Some (steem 250).
Proof.
  split; [|vm_compute; reflexivity].
  exact (transaction_preserves_ledger _ _ 0 false demo payment demo_after eq_refl demo_ledger payment_applies).
Defined.

(** ** A book, withdrawals and delegations *)

Definition order_of (seller : account_name_type) (id for_sale : Z) (p : price) : limit_order_object :=
  LimitOrder.mk id 900 (if id =? 3 then 950 else 5000) seller id for_sale p.

(** alice offers 100 STEEM for 10 SBD; bob sells 4 SBD cheaper and 5 SBD dearer,
    and an order of his has expired *)
Definition book : gmap order_key limit_order_object :=
  <[("alice", 1) := order_of "alice" 1 100 (mk_price (steem 100) (sbd 10))]>
    (<[("bob", 1) := order_of "bob" 1 4 (mk_price (sbd 10) (steem 90))]>
       (<[("bob", 2) := order_of "bob" 2 5 (mk_price (sbd 10) (steem 200))]>
          (<[("bob", 3) := order_of "bob" 3 7 (mk_price (sbd 10) (steem 200))]> ∅))).
Definition market_db : database := demo_db <| Db.limit_orders := book |>.

(** a property of the entries of a literal map, entry by entry *)
Ltac each_entry :=
  let k := fresh "k" in let v := fresh "v" in let H := fresh "H" in
  intros k v H; simpl in H; try unfold book in H;
  repeat (apply lookup_insert_Some in H as [[_ <-]|[_ H]]; [|]);
  [..|by rewrite lookup_empty in H].

Lemma market_wf : wf market_db.
Proof.
  split; try each_entry; repeat split.
  all: first [by left|by right].
Qed.

Lemma apply_order_uncrosses_witness :
  exists db' o, apply_order market_db ("alice", 1) = Ok (db', false) /\ Db.limit_orders db' !! ("bob", 1) = None /\
    Db.limit_orders db' !! ("bob", 2) = Some o /\
    in_range (mk_price (sbd 10) (steem 100)) (mk_price (sbd STEEM_MAX_SATOSHIS) (steem 1)) o = false.
Proof.
  eexists _, _. split; [vm_compute; reflexivity|]. split; [reflexivity|]. split; [reflexivity|].
  eapply (apply_order_uncrosses market_db ("alice", 1) _ _ _ ("bob", 2) _ market_wf);
    [vm_compute; reflexivity|vm_compute; reflexivity|vm_compute; reflexivity|vm_compute; reflexivity|done].
Defined.

Lemma match_at_book_price_witness :
  let r := match_amounts (steem 100) (sbd 4) (mk_price (sbd 10) (steem 90)) in
  r = Ok (sbd 4, steem 36) /\ 36 * 10 < (4 + 1) * 90.
Proof.
  split; [vm_compute; reflexivity|].
  refine (proj1 (proj2 (match_at_book_price (steem 100) (sbd 4) (mk_price (sbd 10) (steem 90)) (sbd 4) (steem 36)
    _ _ _ _ _ _ _ _))); vm_compute; try done.
Defined.

Lemma clear_expired_orders_complete_witness :
  exists db' o, clear_expired_orders market_db = Ok db' /\ Db.limit_orders db' !! ("bob", 3) = None /\
    Db.limit_orders db' !! ("bob", 2) = Some o /\ head_block_time market_db <= LimitOrder.expiration o.
Proof.
  eexists _, _. split; [vm_compute; reflexivity|]. split; [reflexivity|]. split; [reflexivity|].
  eapply (clear_expired_orders_complete market_db _ ("bob", 2) _ market_wf); vm_compute; reflexivity.
Defined.

Lemma validate_invariants_sound_witness : validate_invariants demo_db = Ok tt /\ supply_ok demo_db.
Proof.
  split; [vm_compute; reflexivity|].
  exact (proj1 (validate_invariants_sound demo_db ltac:(vm_compute; reflexivity))).
Defined.

(** two withdrawals from savings, one of them due *)
Definition savings_db : database :=
  demo_db <| Db.savings_withdraws :=
    <[("bob", 1) := SavingsWithdraw.mk 0 "bob" "alice" "" 1 (steem 5) 990]>
      (<[("bob", 2) := SavingsWithdraw.mk 1 "bob" "alice" "" 2 (steem 6) 2000]> ∅) |>.

Lemma process_savings_withdraws_complete_witness :
  exists db' s, process_savings_withdraws savings_db = Ok db' /\ Db.savings_withdraws db' !! ("bob", 1) = None /\
    Db.savings_withdraws db' !! ("bob", 2) = Some s /\ head_block_time savings_db < SavingsWithdraw.complete s.
Proof.
  eexists _, _. split; [vm_compute; reflexivity|]. split; [reflexivity|]. split; [reflexivity|].
  eapply (process_savings_withdraws_complete savings_db _ ("bob", 2) _); vm_compute; reflexivity.
Defined.

(** alice powers down 100 shares a week, and is two weeks behind *)
Definition power_down_db : database :=
  demo_db <| Db.accounts ::= <["alice" := alice <| Account.vesting_withdraw_rate := vests 100 |>
      <| Account.to_withdraw := 400 |> <| Account.next_vesting_withdrawal := 3000000 |>]> |>
    <| Db.gpo ::= fun g => g <| Gpo.time := 3700000 |> |>.

Ltac each_account := intros n a H; simpl in H; apply lookup_insert_Some in H as [[_ <-]|[_ [[_ ->]|[_ ->]]%demo_accounts]].

Lemma process_vesting_withdrawals_terminates_witness :
  exists db', process_vesting_withdrawals power_down_db = Ok db' /\
  process_vesting_withdrawals power_down_db =
    ('(db, _) ← while_next 50 due_withdrawal process_withdrawal
        (power_down_db, fst <$> first_by (fun x y => lt_of (withdraw_order x y)) (Db.accounts power_down_db)); Ok db).
Proof.
  eexists. split; [vm_compute; reflexivity|].
  apply (process_vesting_withdrawals_terminates power_down_db 50).
  - split; simpl; try (intros ? ? H; by rewrite lookup_empty in H); [|repeat split]. each_account; repeat split.
  - split; [each_account|each_entry]; unfold vesting_ok, INT64_MAX; simpl; lia.
  - each_account; vm_compute; done.
  - vm_compute. done.
  - vm_compute. lia.
Defined.

(** alice asks for 2 VESTS, which are paid in two intervals *)
Definition of_ok (r : result database) : database := match r with Ok db => db | Throw _ => demo_db end.
Definition asked_db : database := of_ok (withdraw_vesting_evaluator demo_db "alice" (vests 2)).
Definition half_db : database := of_ok (withdraw_from asked_db "alice").
Definition paid_db : database := of_ok (withdraw_from half_db "alice").

Lemma power_down_completes_witness :
  withdraw_from half_db "alice" = Ok paid_db /\
  exists a, Db.accounts paid_db !! "alice" = Some a /\ Account.withdrawn a = 2 /\
    amount (Account.vesting_withdraw_rate a) = 0 /\ Account.next_vesting_withdrawal a = time_maximum.
Proof.
  split; [vm_compute; reflexivity|].
  refine (power_down_completes demo_db "alice" (vests 2) asked_db 2 paid_db (ledger_wf _ demo_ledger) _ _ _ _ _ _).
  - split; each_entry; vm_compute; repeat split; discriminate.
  - intros a [[_ ->]|[_ ->]]%demo_accounts; vm_compute; discriminate.
  - reflexivity.
  - vm_compute. reflexivity.
  - apply (visited_withdraw _ _ 1 half_db); [|vm_compute; reflexivity]. apply (visited_withdraw _ _ 0 asked_db); [|vm_compute; reflexivity].
    apply visited_none.
  - vm_compute. reflexivity.
Defined.

Lemma delegations_accounted_witness :
  exists db1 db2, delegate_vesting_shares_evaluator demo_db "bob" "alice" (vests 300) = Ok db1 /\
    clear_expired_delegations db1 = Ok db2 /\ delegations_balanced db1 /\ delegations_balanced db2.
Proof.
  eexists _, _. split; [vm_compute; reflexivity|]. split; [vm_compute; reflexivity|].
  eapply (delegations_accounted demo_db "bob" "alice" (vests 300)); [|done|vm_compute; reflexivity|vm_compute; reflexivity].
  split; [|each_entry]. intros n a [[-> ->]|[-> ->]]%demo_accounts; done.
Defined.

(** ** A chain with seven witnesses *)

Definition wnames : list account_name_type := ["w0"; "w1"; "w2"; "w3"; "w4"; "w5"; "w6"].
Definition wit (n : account_name_type) (confirmed steem_per_sbd : Z) : witness_object :=
  Witness.default <| Witness.owner := n |> <| Witness.last_confirmed_block_num := confirmed |>
    <| Witness.sbd_exchange_rate := mk_price (sbd 1000) (steem steem_per_sbd) |>
    <| Witness.last_sbd_exchange_update := 999000 |>.
Definition wits : list witness_object :=
  [wit "w0" 201590 1000; wit "w1" 201594 1100; wit "w2" 201595 1200; wit "w3" 201596 1300;
   wit "w4" 201597 1400; wit "w5" 201598 1500; wit "w6" 201599 1600].
Definition chain_db : database :=
  demo_db <| Db.witnesses := list_to_map (zip wnames wits) |>
    <| Db.accounts ::= <["w0" := Account.default <| Account.name := "w0" |>]> |>
    <| Db.wso ::= fun w => w <| WitnessSchedule.current_shuffled_witnesses := wnames |>
         <| WitnessSchedule.num_scheduled_witnesses := 7 |> |>
    <| Db.gpo ::= fun g => g <| Gpo.head_block_number := 201600 |> <| Gpo.time := 1000000 |>
         <| Gpo.last_irreversible_block_num := 201500 |> <| Gpo.current_witness := "w0" |>
         <| Gpo.recent_slots_filled := 2 ^ 127 + 5 |> <| Gpo.participation_count := 3 |> |>.

Lemma irreversible_supermajority_witness :
  exists db', update_last_irreversible_block chain_db = Ok db' /\
    Gpo.last_irreversible_block_num (Db.gpo db') = 201594 /\
    STEEM_IRREVERSIBLE_THRESHOLD * 7 <= STEEM_100_PERCENT * 6.
Proof.
  eexists. split; [vm_compute; reflexivity|]. split; [reflexivity|].
  assert (Forall (fun w => 0 <= Witness.last_confirmed_block_num w < 2 ^ 32) wits) as Hr by (repeat constructor; done).
  destruct (proj2 (irreversible_supermajority chain_db) wits ltac:(vm_compute; done) ltac:(vm_compute; reflexivity)
    ltac:(done) Hr) as (db' & H & _ & _ & Hm).
  vm_compute in H. injection H as <-. vm_compute in Hm. vm_compute. apply Hm. done.
Defined.

Lemma slot_time_roundtrip_witness : get_slot_at_time chain_db (get_slot_time chain_db 5) = 5.
Proof. refine (proj1 (slot_time_roundtrip chain_db 5 _ _ _)); done. Defined.

(** the block of slot 3, after two missed slots *)
Definition demo_block : block := mk_block 4242 (make_id 17 201600) 1000007 "w0" 0.

Lemma new_block_head_witness :
  exists db', update_global_dynamic_data 0 chain_db demo_block = Ok db' /\ head_block_num db' = 201601 /\
    participation_ok (Db.gpo db') /\ Gpo.participation_count (Db.gpo db') = 3.
Proof.
  eexists. split; [vm_compute; reflexivity|]. split; [reflexivity|]. split; [|reflexivity].
  refine (proj1 (new_block_head 0 chain_db demo_block _ _ _ _ _ _)); try (vm_compute; done).
Defined.

Lemma process_funds_conserves_witness :
  exists db', process_funds chain_db = Ok db' /\ conserves chain_db db' /\
    amount (Gpo.current_supply (Db.gpo db')) = 11003.
Proof.
  eexists. split; [vm_compute; reflexivity|]. split; [|reflexivity].
  apply (process_funds_conserves chain_db); [|vm_compute; reflexivity].
  split; simpl; try (intros ? ? H; by rewrite lookup_empty in H); [|repeat split]. each_account; repeat split.
Defined.

Lemma print_rate_antitone_witness : sbd_print_rate_of 400 <= sbd_print_rate_of 300.
Proof. refine (proj2 (proj1 (print_rate_antitone 300 400 _))). lia. Defined.

Lemma update_virtual_supply_ok_witness :
  exists db', update_virtual_supply chain_db = Ok db' /\ virtual_supply_ok db'.
Proof.
  eexists. split; [vm_compute; reflexivity|].
  refine (proj1 (update_virtual_supply_ok chain_db _ _ _ _)); [|done|vm_compute; reflexivity].
  split; simpl; try (intros ? ? H; by rewrite lookup_empty in H); [|repeat split]. each_account; repeat split.
Defined.

Definition without_sbd (db : database) : database := db <| Db.gpo ::= fun g => g <| Gpo.current_sbd_supply := sbd 0 |> |>.

Lemma median_feed_fails_without_sbd_witness : update_median_feed (without_sbd chain_db) = Throw assert_exception.
Proof.
  apply (median_feed_fails_without_sbd (without_sbd chain_db) wits); vm_compute; try done; try lia.
Defined.

Lemma median_feed_floor_witness :
  exists f p, update_median_feed chain_db = Ok (chain_db <| Db.feed_history ::= fun h =>
      h <| FeedHistory.price_history := push_feed f [] |> <| FeedHistory.current_median_history := p |> |>) /\
    Price.gtb (feed_floor chain_db) p = false.
Proof.
  assert (get_witnesses chain_db (scheduled chain_db) = Ok wits) as Hw by (vm_compute; reflexivity).
  destruct (median_feed_floor chain_db wits eq_refl Hw ltac:(vm_compute; discriminate) ltac:(vm_compute; lia)
    ltac:(vm_compute; reflexivity) ltac:(vm_compute; reflexivity) ltac:(vm_compute; reflexivity) eq_refl)
    as (f & p & _ & H & _ & G & _).
  exists f, p. split; [exact H|exact G].
Defined.

(** ** A payout: a post of alice, voted for by bob, with bob as a beneficiary *)

Definition post_fund : reward_fund_object :=
  RewardFund.default <| RewardFund.name := STEEM_POST_REWARD_FUND_NAME |> <| RewardFund.reward_balance := steem 900 |>
    <| RewardFund.recent_claims := 1000 |> <| RewardFund.last_update := 1000 |>
    <| RewardFund.content_constant := STEEM_CONTENT_CONSTANT |>
    <| RewardFund.percent_curation_rewards := 2500 |> <| RewardFund.author_reward_curve := linear |>.
Definition post : comment_object :=
  Comment.default <| Comment.author := "alice" |> <| Comment.permlink := "hello" |> <| Comment.net_rshares := 1000 |>
    <| Comment.cashout_time := 900 |> <| Comment.total_vote_weight := 500 |> <| Comment.reward_weight := 10000 |>
    <| Comment.beneficiaries := [("bob", 1000)] |>.
Definition bobs_vote : comment_vote_object :=
  CommentVote.default <| CommentVote.voter := 2 |> <| CommentVote.weight := 400 |> <| CommentVote.rshares := 1000 |>.
Definition payout_db : database :=
  demo_db <| Db.reward_funds := {[STEEM_POST_REWARD_FUND_NAME := post_fund]} |>
    <| Db.comments := {[("alice", "hello") := post]} |> <| Db.comment_votes := {[(0, 2) := bobs_vote]} |>
    <| Db.feed_history ::= fun h => h <| FeedHistory.current_median_history := mk_price (sbd 1) (steem 2) |> |>.
Definition payout_after : database := match process_comment_cashout payout_db with Ok db => db | Throw _ => payout_db end.

Lemma with_content_wf db m c v f :
  wf db -> map_Forall (fun _ r => symbol (RewardFund.reward_balance r) = STEEM_SYMBOL) m ->
  wf (db <| Db.reward_funds := m |> <| Db.comments := c |> <| Db.comment_votes := v |> <| Db.feed_history ::= f |>).
Proof. intros [] Hm. split; assumption. Qed.

Lemma payout_wf : wf payout_db.
Proof. apply with_content_wf; [apply demo_ledger|by apply map_Forall_singleton]. Qed.

Lemma payout_ready : cashout_ready payout_db post_fund.
Proof.
  refine (mk_ready payout_db post_fund payout_wf _ eq_refl eq_refl _ _ _ _ _ _).
  - vm_compute. reflexivity.
  - vm_compute. split; discriminate.
  - vm_compute. split; discriminate.
  - split; [|vm_compute; split; [discriminate|reflexivity]].
    repeat (apply Forall_cons_2; [vm_compute; split; discriminate|]). apply Forall_nil. exact I.
  - apply map_Forall_singleton. vm_compute. discriminate.
  - apply map_Forall_singleton. split.
    + vm_compute. split; [discriminate|reflexivity].
    + repeat (apply Forall_cons_2; [vm_compute; split; discriminate|]). apply Forall_nil. exact I.
    + vm_compute. discriminate.
    + vm_compute. split; discriminate.
    + vm_compute. split; discriminate.
    + vm_compute. discriminate.
  - vm_compute. reflexivity.
Qed.

Lemma cashout_pays_from_fund_witness :
  conserves payout_db payout_after /\ due_comment payout_after = None /\
  Account.reward_vesting_steem <$> Db.accounts payout_after !! "bob" = Some (steem 122).
Proof.
  split; [|split; [|vm_compute; reflexivity]].
  - exact (proj1 (cashout_pays_from_fund payout_db post_fund payout_after payout_ready ltac:(vm_compute; reflexivity))).
  - exact (proj1 (proj2 (cashout_pays_from_fund payout_db post_fund payout_after payout_ready ltac:(vm_compute; reflexivity)))).
Defined.

(** the same payout when a unit of STEEM no longer buys a share: the rewards in vesting
    shares are counted twice, and a balanced ledger is so no more *)
Definition dear_db : database :=
  payout_db <| Db.gpo ::= fun g => g <| Gpo.total_vesting_fund_steem := steem (10 ^ 12) |>
                                     <| Gpo.current_supply := steem (amount (Gpo.current_supply g) + 10 ^ 12 + 897) |> |>.
Definition dear_after : database := match process_comment_cashout dear_db with Ok db => db | Throw _ => dear_db end.

Example payout_without_shares_unbalanced :
  supply_ok dear_db /\ process_comment_cashout dear_db = Ok dear_after /\
  steem_gap dear_after = -275 /\ pending_gap dear_after = 275.
Proof. split; [vm_compute; repeat split|]. vm_compute. repeat split. Qed.

(** ** A round of witnesses: five with a key, of which four may be elected *)

Definition candidate (id : Z) (n : account_name_type) (votes key vote_version vote_time : Z) : witness_object :=
  (wit n 201590 1000) <| Witness.id := id |> <| Witness.votes := votes |> <| Witness.signing_key := key |>
    <| Witness.virtual_scheduled_time := 1000 - id |>
    <| Witness.hardfork_version_vote := vote_version |> <| Witness.hardfork_time_vote := vote_time |>.
Definition candidates : list witness_object :=
  [candidate 0 "w0" 10 1 0x10000 77; candidate 1 "w1" 20 1 0x10000 77; candidate 2 "w2" 30 0 0x10000 77;
   candidate 3 "w3" 40 1 0 0; candidate 4 "w4" 50 1 0x10000 77; candidate 5 "w5" 60 1 0x10000 78].
Definition schedule_db : database :=
  chain_db <| Db.witnesses := list_to_map (map (fun w => (Witness.owner w, w)) candidates) |>
    <| Db.wso ::= fun o => o <| WitnessSchedule.current_shuffled_witnesses := (take 6 wnames ++ replicate 15 "")%list |>
         <| WitnessSchedule.num_scheduled_witnesses := 6 |> <| WitnessSchedule.max_voted_witnesses := 4 |>
         <| WitnessSchedule.current_virtual_time := 900 |> <| WitnessSchedule.hardfork_required_witnesses := 4 |> |>.
Definition scheduled_db : database := match update_witness_schedule4 schedule_db with Ok db => db | Throw _ => schedule_db end.

Lemma schedule_applies : update_witness_schedule4 schedule_db = Ok scheduled_db.
Proof. vm_compute. reflexivity. Qed.

(** a property of the entries of a map, once the map is computed *)
Ltac each_witness :=
  let l := fresh in apply map_Forall_to_list; set (l := map_to_list _); vm_compute in l; subst l;
  repeat (apply Forall_cons_2; [|]); [..|apply Forall_nil; exact I].

Lemma schedule_witnesses_ok : witnesses_ok schedule_db.
Proof. split; [|vm_compute; reflexivity]. apply map_Forall_to_list. vm_compute. repeat constructor. Qed.

Lemma schedule_elects_witness :
  map Witness.owner (elected schedule_db) = ["w5"; "w4"; "w3"; "w1"] /\
  map Witness.owner (runners schedule_db) = ["w0"] /\
  scheduled scheduled_db ≡ₚ ["w5"; "w4"; "w3"; "w1"; "w0"].
Proof.
  split; [vm_compute; reflexivity|]. split; [vm_compute; reflexivity|].
  exact (proj1 (schedule_elects schedule_db scheduled_db schedule_witnesses_ok schedule_applies)).
Defined.

Lemma hardfork_needs_majority_witness :
  exists voters, get_witnesses schedule_db (scheduled schedule_db) = Ok voters /\
  HardforkProperty.next_hardfork_time (Db.hardfork_property scheduled_db) = 77 /\
  4 <= Z.of_nat (List.length (voting_for 0x10000 77 voters)).
Proof.
  exists candidates. split; [vm_compute; reflexivity|]. split; [vm_compute; reflexivity|].
  assert (HardforkProperty.next_hardfork (Db.hardfork_property scheduled_db) = 0x10000) as Ev by (vm_compute; reflexivity).
  assert (HardforkProperty.next_hardfork_time (Db.hardfork_property scheduled_db) = 77) as Et by (vm_compute; reflexivity).
  assert (WitnessSchedule.hardfork_required_witnesses (Db.wso schedule_db) = 4) as Er by (vm_compute; reflexivity).
  assert (map_Forall (fun _ w => hardfork_version (Witness.hardfork_version_vote w) = Witness.hardfork_version_vote w)
    (Db.witnesses schedule_db)) as Hv by (each_witness; vm_compute; reflexivity).
  assert (List.length (WitnessSchedule.current_shuffled_witnesses (Db.wso schedule_db)) = Z.to_nat STEEM_MAX_WITNESSES) as Hl
    by (vm_compute; reflexivity).
  assert (get_witnesses schedule_db (scheduled schedule_db) = Ok candidates) as Hg by (vm_compute; reflexivity).
  pose proof (hardfork_needs_majority schedule_db scheduled_db candidates Hv Hl) as H.
  rewrite Er in H. specialize (H eq_refl Hg schedule_applies).
  cbv zeta in H. rewrite Ev, Et in H. destruct H as [H|[H _]]; [exact H|].
  specialize (H 0x10000 77). vm_compute in H. discriminate.
Defined.

Lemma schedule_keeps_queue_witness :
  virtual_ok scheduled_db /\ WitnessSchedule.current_virtual_time (Db.wso scheduled_db) = 1000.
Proof.
  split; [|vm_compute; reflexivity].
  refine (proj1 (schedule_keeps_queue schedule_db scheduled_db schedule_witnesses_ok _ schedule_applies)).
  split; [vm_compute; discriminate|]. each_witness; (split; vm_compute; [discriminate|reflexivity]).
Defined.

(** ** Keys of accounts *)

(** alice replaces her posting key *)
Definition alice_keys : key_plugin := mk_plugin {[(11, "alice"); (12, "alice"); (13, "alice")]} {[99]}.
Definition new_posting : operation := account_update_operation "alice" None None (Some (key_auth 14)) 0 "".
Definition rekeyed_db : database := of_ok (apply_operation (env := demo_env) false demo_db new_posting).

Lemma demo_auths n a : Db.account_authorities demo_db !! n = Some a -> n = "alice" /\ AccountAuthority.account a = "alice" /\ keys_of a = {[11; 12; 13]}.
Proof.
  intros H. simpl in H. apply lookup_insert_Some in H as [[<- <-]|[_ H]]; [split_and!; [done..|]; vm_compute; reflexivity|]. by rewrite lookup_empty in H.
Qed.

Lemma alice_synced : synced "alice" demo_db alice_keys.
Proof.
  split; [intros a (_ & -> & _)%demo_auths; done|]. intros k. unfold alice_keys. simpl key_lookup. split.
  - intros H. eexists. split; [apply lookup_insert_eq|]. rewrite !elem_of_union, !elem_of_singleton in H.
    destruct H as [[[= ->]|[= ->]]|[= ->]]; vm_compute; reflexivity.
  - intros (a & (_ & _ & E)%demo_auths & Hk). rewrite E in Hk. rewrite !elem_of_union, !elem_of_singleton in *. destruct Hk as [[->| ->]| ->]; auto.
Qed.

Lemma key_lookup_in_sync_witness :
  bool_decide ((14, "alice") ∈ key_lookup (on_post_apply_operation rekeyed_db new_posting (on_pre_apply_operation demo_db new_posting alice_keys))) = true /\
  filed rekeyed_db /\ synced "alice" rekeyed_db (on_post_apply_operation rekeyed_db new_posting (on_pre_apply_operation demo_db new_posting alice_keys)).
Proof.
  split; [vm_compute; reflexivity|].
  refine (key_lookup_in_sync (env := demo_env) false demo_db new_posting rekeyed_db "alice" alice_keys _ _ (or_introl eq_refl) alice_synced).
  - vm_compute. reflexivity.
  - intros n a (-> & -> & _)%demo_auths. done.
Defined.

(** alice has claimed an account and creates it *)
Definition claimed_db : database := demo_db <| Db.accounts ::= <["alice" := alice <| Account.pending_claimed_accounts := 1 |>]> |>.
Definition carol : operation := create_claimed_account_operation "alice" "carol" (key_auth 21) (key_auth 22) (key_auth 23) 24 "" 0.
Definition carol_db : database := of_ok (apply_operation (env := demo_env) false claimed_db carol).

Lemma claimed_account_missed_witness :
  keys_of <$> Db.account_authorities carol_db !! "carol" = Some {[21; 22; 23]} /\
  is_Some (Db.account_authorities carol_db !! "carol") /\
  (21, "carol") ∉ key_lookup (on_post_apply_operation carol_db carol (on_pre_apply_operation claimed_db carol alice_keys)).
Proof.
  split; [vm_compute; reflexivity|].
  refine (claimed_account_missed (env := demo_env) false claimed_db "alice" "carol" (key_auth 21) (key_auth 22) (key_auth 23) 24 "" 0 carol_db alice_keys 21 _ _).
  - vm_compute. reflexivity.
  - split; [intros a H; vm_compute in H; discriminate|]. intros k. split.
    + intros H. unfold alice_keys in H. simpl key_lookup in H. rewrite !elem_of_union, !elem_of_singleton in H. by destruct H as [[[=]|[=]]|[=]].
    + intros (a & H & _). vm_compute in H. discriminate.
Defined.
