(* ===== verification/DemoChain.v ===== *)
(** DemoChain: a chain from genesis on, on which the theorems about blocks are
    exercised: the genesis account pays the null account, and a block burns it. *)
From Stdlib Require Import ZArith Lia String Ascii.
From stdpp Require Import base gmap strings list sorting.
From S2P Require Import Prelude.
From S2P Require Import Safe.
From S2P Require Import BlockId.
From S2P Require Import Asset.
From S2P Require Import Authority.
From S2P Require Import Objects.
From S2P Require Import Reward.
From S2P Require Import Balance.
From S2P Require Import Supply.
From S2P Require Import Vesting.
From S2P Require Import Operation.
From S2P Require Import Invariant.
From S2P Require Import Cashout.
From S2P Require Import Content.
From S2P Require Import Transaction.
From S2P Require Import Block.
From S2P Require Import Schedule.
From S2P Require Import Chain.
From S2P Require Import BlockInvariant.
From S2P Require Import Head.
From S2P Require Import Demo.
Local Open Scope string_scope.
Local Open Scope Z_scope.
Local Open Scope fc_scope.

Definition no_chain : chain_state := mk_chain Db.empty ∅ (fun _ => None).
Definition get_ok {A} (default : A) (r : result A) : A := match r with Ok a => a | Throw _ => default end.

Definition genesis : chain_state := get_ok no_chain (init_genesis 5 1000000).
Lemma Ok_inj {A} (x y : A) : Ok x = Ok y -> x = y.
Proof. by injection 1. Qed.

Lemma genesis_built : init_genesis 5 1000000 = Ok genesis.
Proof. vm_compute. reflexivity. Qed.

Definition gift : transaction :=
  mk_transaction 0 0 (STEEM_GENESIS_TIME + 60) [transfer_operation STEEM_GENESIS_WITNESS_NAME STEEM_NULL_ACCOUNT (steem 400) ""].
Definition push : chain_state -> transaction -> result chain_state :=
  _apply_transaction (env := demo_env) expiration (fun _ => [5]) 0 false.

(** toy hash functions *)
Definition add_block : chain_state -> signed_block -> result chain_state :=
  _apply_block (env := demo_env) expiration (fun _ => [5]) expiration (fun a b => 3 * a + b) (fun x => x + 1) (fun _ => 300) 0 false.
Definition gift_block : signed_block :=
  mk_signed_block (mk_block 99 0 (STEEM_GENESIS_TIME + 3) STEEM_GENESIS_WITNESS_NAME 5) (STEEM_GENESIS_TIME + 61)
    [ext_version 1] [gift].
Definition empty_block : signed_block :=
  mk_signed_block (mk_block 98 0 (STEEM_GENESIS_TIME + 3) STEEM_GENESIS_WITNESS_NAME 5) 0 [] [].

Definition after_gift : chain_state := get_ok genesis (add_block genesis gift_block).
Lemma gift_block_applies : add_block genesis gift_block = Ok after_gift.
Proof. vm_compute. reflexivity. Qed.

(** the states inside the block *)
Definition gift_start : chain_state :=
  get_ok genesis (start_block (env := demo_env) expiration (fun _ => [5]) expiration (fun a b => 3 * a + b) (fun x => x + 1) (fun _ => 300)
    0 false genesis gift_block).
Definition gift_printed : database := get_ok Db.empty (burn_and_print (cs_db gift_start)).
Definition gift_paid : database := get_ok Db.empty (process_comment_cashout gift_printed).

Lemma gift_started : start_block (env := demo_env) expiration (fun _ => [5]) expiration (fun a b => 3 * a + b) (fun x => x + 1) (fun _ => 300)
    0 false genesis gift_block = Ok gift_start.
Proof. vm_compute. reflexivity. Qed.
Lemma gift_printed_ok : burn_and_print (cs_db gift_start) = Ok gift_printed.
Proof. vm_compute. reflexivity. Qed.
Lemma gift_paid_ok : process_comment_cashout gift_printed = Ok gift_paid.
Proof. vm_compute. reflexivity. Qed.

Definition gift_fund : reward_fund_object :=
  match Db.reward_funds gift_printed !! STEEM_POST_REWARD_FUND_NAME with Some rf => rf | None => RewardFund.default end.

Lemma gift_economy : economy_ok gift_fund gift_printed.
Proof.
  split.
  - vm_compute. reflexivity.
  - vm_compute. split; discriminate.
  - split; [|vm_compute; split; [discriminate|reflexivity]].
    repeat (apply Forall_cons_2; [vm_compute; split; discriminate|]). apply Forall_nil. exact I.
  - vm_compute. reflexivity.
Qed.

Lemma gift_burn : burn_ok (cs_db gift_start).
Proof.
  intros a Ha.
  assert (exists a0, Db.accounts (cs_db gift_start) !! STEEM_NULL_ACCOUNT = Some a0 /\
    amount (Account.vesting_shares a0) = 0 /\ amount (Account.reward_vesting_steem a0) = 0) as (a0 & Ha0 & E1 & E2).
  { eexists. split; [vm_compute; reflexivity|]. split; reflexivity. }
  rewrite Ha in Ha0. injection Ha0 as <-. rewrite E1, E2. vm_compute. repeat split; discriminate.
Qed.

Lemma gift_power_downs : power_downs_ok gift_paid.
Proof.
  split; [|each_witness]. each_witness; vm_compute; repeat split; discriminate.
Qed.

Lemma gift_in_range :
  block_in_range (env := demo_env) expiration (fun _ => [5]) expiration (fun a b => 3 * a + b) (fun x => x + 1) (fun _ => 300)
    0 false genesis gift_block.
Proof.
  split.
  - intros cs1 H. rewrite gift_started in H. apply Ok_inj in H as <-. exact gift_burn.
  - intros cs1 db2 rf H1 H2 Hrf. rewrite gift_started in H1. apply Ok_inj in H1 as <-. rewrite gift_printed_ok in H2. apply Ok_inj in H2 as <-.
    assert (rf = gift_fund) as -> by (unfold gift_fund; by rewrite Hrf, lookup_singleton_eq). exact gift_economy.
  - intros cs1 db2 db3 H1 H2 H3. rewrite gift_started in H1. apply Ok_inj in H1 as <-. rewrite gift_printed_ok in H2. apply Ok_inj in H2 as <-.
    rewrite gift_paid_ok in H3. apply Ok_inj in H3 as <-. exact gift_power_downs.
Qed.

Lemma block_preserves_chain_witness :
  chain_ok (cs_db after_gift) /\ Gpo.current_supply (Db.gpo (cs_db after_gift)) = steem 1009600.
Proof.
  split; [|vm_compute; reflexivity].
  refine (block_preserves_chain _ _ _ _ _ _ 0 false genesis gift_block after_gift eq_refl _ gift_in_range _ gift_block_applies).
  - apply Forall_cons_2; [|by apply Forall_nil]. apply Forall_cons_2; [done|by apply Forall_nil].
  - destruct (genesis_ok 5 1000000) as (cs & H & C & _). rewrite genesis_built in H. by apply Ok_inj in H as ->.
Defined.

Lemma reachable_balanced_witness :
  supply_ok (cs_db after_gift) /\ amount (Gpo.current_supply (Db.gpo (cs_db after_gift))) = 1009600.
Proof.
  split; [|vm_compute; reflexivity].
  refine (proj1 (reachable_balanced (env := demo_env) expiration (fun _ => [5]) expiration (fun a b => 3 * a + b) (fun x => x + 1) (fun _ => 300)
    after_gift _)).
  eapply (reach_block _ _ _ _ _ _ 0 false genesis gift_block); [|reflexivity| |exact gift_in_range|exact gift_block_applies].
  - exact (reach_genesis _ _ _ _ _ _ 5 1000000 genesis genesis_built).
  - apply Forall_cons_2; [|by apply Forall_nil]. apply Forall_cons_2; [done|by apply Forall_nil].
Defined.

Lemma block_extends_head_witness :
  head_block_num (cs_db after_gift) = 1 /\ num_from_id (head_block_id (cs_db after_gift)) = head_block_num (cs_db after_gift).
Proof.
  split; [vm_compute; reflexivity|].
  refine (proj2 (proj2 (proj2 (proj2 (proj2 (block_extends_head (env := demo_env) expiration (fun _ => [5]) expiration (fun a b => 3 * a + b)
    (fun x => x + 1) (fun _ => 300) 0 false genesis gift_block after_gift _ gift_block_applies)))))). vm_compute. reflexivity.
Defined.

(** the gift is pushed, then a block passes; it cannot be pushed again *)
Definition pushed : chain_state := get_ok genesis (push genesis gift).
Definition passed : chain_state := get_ok genesis (add_block pushed empty_block).

Lemma gift_pushed : push genesis gift = Ok pushed.
Proof. vm_compute. reflexivity. Qed.
Lemma block_passed : add_block pushed empty_block = Ok passed.
Proof. vm_compute. reflexivity. Qed.

Lemma no_replay_witness : is_ok (push passed gift) = false /\ head_block_num (cs_db passed) = 1.
Proof.
  split; [|vm_compute; reflexivity].
  refine (no_replay (env := demo_env) expiration (fun _ => [5]) expiration (fun a b => 3 * a + b) (fun x => x + 1) (fun _ => 300)
    0 false genesis gift pushed passed 0 false eq_refl gift_pushed _ eq_refl).
  apply rtc_once. eapply (step_block _ _ _ _ _ _ 0 false pushed empty_block); [reflexivity|reflexivity|exact block_passed].
Defined.
