(* ===== verification/DemoNode.v ===== *)
(** DemoNode: a node that receives two branches of blocks, on which the theorems about
    pushing blocks are exercised. *)
From Stdlib Require Import ZArith Lia String Ascii.
From stdpp Require Import base gmap strings list sorting.
From S2P Require Import Prelude.
From S2P Require Import BlockId.
From S2P Require Import Objects.
From S2P Require Import Operation.
From S2P Require Import Transaction.
From S2P Require Import Block.
From S2P Require Import Chain.
From S2P Require Import Head.
From S2P Require Import ForkDb.
From S2P Require Import Node.
From S2P Require Import Generate.
From S2P Require Import Demo.
From S2P Require Import DemoChain.
Local Open Scope string_scope.
Local Open Scope Z_scope.
Local Open Scope fc_scope.

(** toy hash functions, as for the chain *)
Abbreviation push_demo :=
  (Node._push_block (env := demo_env) expiration (fun _ => [5]) expiration (fun a b => 3 * a + b) (fun x => x + 1) (fun _ => 300) [] 0).
Abbreviation apply_node :=
  (Chain.apply_block (env := demo_env) expiration (fun _ => [5]) expiration (fun a b => 3 * a + b) (fun x => x + 1) (fun _ => 300) [] 0 false).
Abbreviation irreversible_node :=
  (up_to_irreversible (env := demo_env) expiration (fun _ => [5]) expiration (fun a b => 3 * a + b) (fun x => x + 1) (fun _ => 300) 0).

Definition genesis_node : node := mk_node genesis [] 0 empty_fork_database [] false [] [].
Definition get_fine {A} (default : node) (r : run A) : node := match r with Fine n _ => n | _ => default end.
Lemma get_fine_ok (d : node) (r : run bool) : match r with Fine _ a => negb a | _ => false end = true -> r = Fine (get_fine d r) false.
Proof. by destruct r as [n []| |]. Qed.
Lemma get_ok_ok {A} (d : A) (r : result A) : is_ok r = true -> r = Ok (get_ok d r).
Proof. by destruct r. Qed.

Definition node_block (salt prev slot : Z) : signed_block :=
  mk_signed_block (mk_block (salt * 2 ^ 40) prev (STEEM_GENESIS_TIME + 3 * slot) STEEM_GENESIS_WITNESS_NAME 5) 0 [ext_version 1] [].
Definition x1 : signed_block := node_block 11 0 1.
Definition x2 : signed_block := node_block 12 (demo_id x1) 2.
Definition y2 : signed_block := node_block 22 (demo_id x1) 3.
Definition y3 : signed_block := node_block 23 (demo_id y2) 4.

Definition node1 : node := get_fine genesis_node (push_demo x1 genesis_node).
Definition node2 : node := get_fine genesis_node (push_demo x2 node1).
Definition node3 : node := get_fine genesis_node (push_demo y2 node2).
Definition node4 : node := get_fine genesis_node (push_demo y3 node3).

(** the fork database on the way *)
Definition forks_demo : result fork_database :=
  '(_, f) ← ForkDb.push_block x1 empty_fork_database; f ← set_max_size 2 f;
  '(_, f) ← ForkDb.push_block x2 f; f ← set_max_size 3 f;
  '(_, f) ← ForkDb.push_block y2 f; Ok f.
Lemma forks_demo_built : forks_demo = Ok (fork_db node3).
Proof. vm_compute. reflexivity. Qed.
Lemma node3_forks : fork_ok (fork_db node3).
Proof.
  pose proof forks_demo_built as H. unfold forks_demo in H. bind H as [i1 f1] H1. bind H as f2 H2. bind H as [i3 f3] H3. bind H as f4 H4.
  bind H as [i5 f5] H5. apply Ok_inj in H as <-.
  refine (push_block_ok _ _ _ _ (set_max_size_ok _ _ _ (push_block_ok _ _ _ _ (set_max_size_ok _ _ _ (push_block_ok _ _ _ _
    empty_fork_ok _ H1) H2) _ H3) H4) _ H5); vm_compute; reflexivity.
Qed.

(** the last block of the new branch arrives *)
Definition arrived : fork_item * fork_database :=
  match ForkDb.push_block y3 (fork_db node3) with Ok x => x | Throw _ => (item_of y3 0 None, fork_db node3) end.
Lemma y3_arrives : ForkDb.push_block y3 (fork_db node3) = Ok arrived.
Proof. vm_compute. reflexivity. Qed.
Definition item (b : signed_block) : fork_item := from_option Datatypes.id (fst arrived) (fetch_block (demo_id b) (snd arrived)).

Lemma demo_forked : forked (snd arrived) [item y3; item y2] [item x2] (item y3) (item x2) (item x1) (item y2) (item x2).
Proof.
  split.
  - refine (push_block_ok y3 (fork_db node3) (fst arrived) (snd arrived) node3_forks _ _); vm_compute; reflexivity.
  - apply (path_prev _ _ (item y2)); [vm_compute; reflexivity|]. apply path_end.
  - apply path_end.
  - vm_compute. reflexivity.
  - vm_compute. reflexivity.
  - repeat (apply Forall_cons; split; [vm_compute; reflexivity|]). by apply Forall_nil.
  - intros x z Hx Hz. apply list_elem_of_singleton in Hz as ->.
    apply elem_of_cons in Hx as [->|Hx]; [vm_compute; discriminate|]. apply list_elem_of_singleton in Hx as ->. vm_compute. discriminate.
  - vm_compute. reflexivity.
Qed.

Definition after_y2 : chain_state := get_ok genesis (apply_node (chain node1) y2).
Lemma y2_applies : apply_node (chain node1) y2 = Ok after_y2.
Proof. apply get_ok_ok. vm_compute. reflexivity. Qed.
Lemma x2_applies : apply_node (chain node1) x2 = Ok (chain node3).
Proof. vm_compute. reflexivity. Qed.

(** no block of so short a chain is irreversible *)
Definition none_irreversible (cs : chain_state) (b : signed_block) : bool :=
  match irreversible_node cs b with Ok db => Gpo.last_irreversible_block_num (Db.gpo db) =? 0 | Throw _ => false end.
Abbreviation calm_demo K := (calm (env := demo_env) expiration (fun _ => [5]) expiration (fun a b => 3 * a + b) (fun x => x + 1) (fun _ => 300) [] K 0).

Lemma calm_first cs b :
  none_irreversible cs b = true ->
  calm1 (env := demo_env) expiration (fun _ => [5]) expiration (fun a b => 3 * a + b) (fun x => x + 1) (fun _ => 300) [] 0 0 cs b.
Proof.
  unfold none_irreversible. intros H sk db Hsk Hdb. injection Hsk as <-. change (irreversible_node cs b = Ok db) in Hdb. rewrite Hdb in H. lia.
Qed.

Lemma calm_one K cs b bs : K = 0 -> bs = [b] -> none_irreversible cs b = true -> calm_demo K cs bs.
Proof. intros -> -> H. split; [by apply calm_first|done]. Qed.

Lemma calm_two cs b1 cs1 b2 bs :
  bs = [b1; b2] -> apply_node cs b1 = Ok cs1 -> none_irreversible cs b1 = true -> none_irreversible cs1 b2 = true -> calm_demo 0 cs bs.
Proof.
  intros -> Ha H1 H2. split; [by apply calm_first|]. intros cs' H. change (apply_node cs b1 = Ok cs') in H. rewrite Ha in H. apply Ok_inj in H as <-.
  by apply (calm_one 0 _ b2).
Qed.

Lemma built_one R0 cs b cs' bs : bs = [b] -> apply_node cs b = Ok cs' ->
  built (env := demo_env) expiration (fun _ => [5]) expiration (fun a b => 3 * a + b) (fun x => x + 1) (fun _ => 300) [] 0 R0 cs bs [(R0 + 0 + 1, cs)] cs'.
Proof. intros -> H. apply (built_snoc _ _ _ _ _ _ _ 0 R0 cs [] [] cs b cs'); [constructor|exact H]. Qed.

Lemma fork_switch_atomic_witness :
  head_id node3 = demo_id x2 /\
  ((exists n', push_demo y3 node3 = Fine n' true /\ head_id n' = block_id (header (data (fst arrived)))) \/
   (exists n' e, push_demo y3 node3 = Failed n' e /\ chain n' = chain node3)).
Proof.
  split; [vm_compute; reflexivity|].
  refine (fork_switch_atomic (env := demo_env) expiration (fun _ => [5]) expiration (fun a b => 3 * a + b) (fun x => x + 1) (fun _ => 300) []
    0 y3 node3 (fst arrived) (snd arrived) [item y3; item y2] [item x2] (item x2) (item x1) (item y2) (item x2) 0 1 (chain node1)
    [(1 + 0 + 1, chain node1)] [(1, genesis)] eq_refl _ _ node3_forks _ _ _ _ _ (built_one 1 _ x2 _ _ _ x2_applies) _ _
    (calm_two _ y2 _ y3 _ _ y2_applies _ _) (calm_one _ _ x2 _ _ _ _) _ _).
  - vm_compute. reflexivity.
  - vm_compute. reflexivity.
  - vm_compute. reflexivity.
  - vm_compute. discriminate.
  - vm_compute. split; reflexivity.
  - vm_compute. reflexivity.
  - assert (item y3 = fst arrived) as <- by (vm_compute; reflexivity). exact demo_forked.
  - vm_compute. reflexivity.
  - vm_compute. reflexivity.
  - vm_compute. reflexivity.
  - vm_compute. reflexivity.
  - vm_compute. reflexivity.
  - vm_compute. reflexivity.
  - vm_compute. reflexivity.
  - vm_compute. reflexivity.
  - vm_compute. reflexivity.
  - vm_compute. discriminate.
  - lia.
Defined.

Definition x1_pushed : fork_item * fork_database :=
  match ForkDb.push_block x1 empty_fork_database with Ok x => x | Throw _ => (item_of x1 0 None, empty_fork_database) end.

Lemma extend_head_atomic_witness :
  is_ok (irreversible_node genesis x1) = true /\ none_irreversible genesis x1 = true /\
  exists n', push_demo x1 genesis_node = Fine n' false /\ apply_node genesis x1 = Ok (chain n') /\ head_id n' = block_id (header x1) /\
    exists rest, stack n' = (0 + 1, genesis) :: rest.
Proof.
  split; [vm_compute; reflexivity|]. split; [vm_compute; reflexivity|].
  assert (ForkDb.push_block x1 empty_fork_database = Ok (fst x1_pushed, snd x1_pushed)) as Hp by (vm_compute; reflexivity).
  assert (0 < block_num (header x1) < 2 ^ 32 - 1) as Hn by (vm_compute; split; reflexivity).
  assert (previous_id (fst x1_pushed) = head_id genesis_node) as Hi by (vm_compute; reflexivity).
  assert (none_irreversible genesis x1 = true) as Hc by (vm_compute; reflexivity).
  assert (Forall (fun x => fst x <= revision genesis_node) (stack genesis_node)) as Hst by constructor.
  destruct (extend_head_atomic (env := demo_env) expiration (fun _ => [5]) expiration (fun a b => 3 * a + b) (fun x => x + 1) (fun _ => 300) []
    0 x1 genesis_node (fst x1_pushed) (snd x1_pushed) eq_refl eq_refl eq_refl empty_fork_ok Hn eq_refl Hst Hp Hi)
    as [(n' & E & Ha & Hid & _ & [Hs|[(sk & db & Hsk & Hup & Hlib) _]])|[(n' & e & E & _)|[_ (sk & db & Hsk & Hup & Hlib)]]].
  - exists n'. split; [exact E|]. split; [exact Ha|]. split; [exact Hid|exact Hs].
  - destruct (calm_first genesis x1 Hc sk db Hsk Hup) as [_ L]. exfalso. revert L Hlib. change (revision genesis_node) with 0. lia.
  - exfalso. revert E. assert (match push_demo x1 genesis_node with Fine _ _ => true | _ => false end = true) as F by (vm_compute; reflexivity).
    intros E. rewrite E in F. discriminate F.
  - destruct (calm_first genesis x1 Hc sk db Hsk Hup) as [_ L]. exfalso. revert L Hlib. change (revision genesis_node) with 0. lia.
Defined.

(** a transaction waits while a block without it arrives *)
Definition waiting : node :=
  get_fine genesis_node (_push_transaction (env := demo_env) expiration (fun _ => [5]) 0 false gift genesis_node).
Abbreviation receive :=
  (Node.push_block (env := demo_env) expiration (fun _ => [5]) expiration (fun a b => 3 * a + b) (fun x => x + 1) (fun _ => 300) [] 0).
Definition received : node := get_fine genesis_node (receive x1 waiting).

Lemma waiting_on_genesis : pending_on (env := demo_env) expiration (fun _ => [5]) genesis waiting.
Proof.
  destruct (push_transaction_pending (env := demo_env) expiration (fun _ => [5]) 0 false gift genesis genesis_node) as (n & Hn & _ & Ho); [done|].
  unfold waiting. destruct Ho as [(cs & -> & _)|(e & _ & E & _)]; [exact Hn|].
  change (push genesis gift = Throw e) in E. rewrite gift_pushed in E. discriminate E.
Qed.

Lemma x1_received : receive x1 waiting = Fine received false.
Proof. unfold received. apply get_fine_ok. vm_compute. reflexivity. Qed.


(** the genesis witness makes a block of the waiting transaction *)
Definition toy_sign (k : option Z) (h : block) (m : Z) (e : list block_header_extensions) : Z * Z :=
  (77 * 2 ^ 40, from_option Datatypes.id 0 k).
Abbreviation make_block :=
  (build_block (env := demo_env) expiration (fun _ => [5]) expiration (fun a b => 3 * a + b) (fun x => x + 1) (fun _ => 300)
    Datatypes.id toy_sign 0 (STEEM_GENESIS_TIME + 3) STEEM_GENESIS_WITNESS_NAME 5).
Definition get_made (r : run signed_block) : signed_block := match r with Fine _ b => b | _ => x1 end.
Definition made_node : node := get_fine genesis_node (make_block waiting).
Definition made_block : signed_block := get_made (make_block waiting).

Lemma get_made_ok (r : run signed_block) : match r with Fine _ _ => true | _ => false end = true -> r = Fine (get_fine genesis_node r) (get_made r).
Proof. by destruct r. Qed.
Lemma block_made : make_block waiting = Fine made_node made_block.
Proof. unfold made_node, made_block. apply get_made_ok. vm_compute. reflexivity. Qed.

Lemma generated_block_fits_witness :
  block_transactions made_block = [gift] /\ pack_size (fun _ => 300) made_block = 419 /\
  exists w, validate_block_header 0 (cs_db genesis) (header made_block) = Ok w.
Proof.
  split; [vm_compute; reflexivity|]. split; [vm_compute; reflexivity|].
  assert (forall tx : transaction, 0 <= 300 < 2 ^ 32) as Hs by (intros tx; split; [discriminate|reflexivity]).
  assert (forall (k : Z) h m e, snd (toy_sign (Some k) h m e) = Datatypes.id k) as Hk by (intros k h m e; reflexivity).
  assert (Z.of_nat (String.length STEEM_GENESIS_WITNESS_NAME) <= 16) as Hl by (vm_compute; discriminate).
  assert (Gpo.maximum_block_size (Db.gpo (cs_db genesis)) < 2 ^ 32) as Hm by (vm_compute; reflexivity).
  assert (0 <= head_block_time (cs_db genesis) < 2 ^ 32 - 3) as Ht by (vm_compute; split; [discriminate|reflexivity]).
  assert (match get_witness (cs_db genesis) STEEM_GENESIS_WITNESS_NAME with
          | Ok w => bool_decide (Witness.owner w = STEEM_GENESIS_WITNESS_NAME) && (Witness.signing_key w =? 5) | Throw _ => false end = true) as E
    by (vm_compute; reflexivity).
  destruct (generated_block_fits (env := demo_env) expiration (fun _ => [5]) expiration (fun a b => 3 * a + b) (fun x => x + 1) (fun _ => 300)
    Datatypes.id toy_sign Hs Hk 0 (STEEM_GENESIS_TIME + 3) STEEM_GENESIS_WITNESS_NAME 5 genesis waiting made_node made_block
    waiting_on_genesis Hl Hm Ht block_made) as (_ & _ & _ & _ & _ & _ & _ & Hv).
  destruct (get_witness (cs_db genesis) STEEM_GENESIS_WITNESS_NAME) as [w|] eqn:Ew; [|discriminate E].
  apply andb_true_iff in E as [E1 E2]. apply bool_decide_eq_true in E1. apply Z.eqb_eq in E2.
  exists w. apply (Hv w eq_refl E1). right. exact E2.
Defined.
